(* ===== verification/_CoqProject ===== *)
-Q . S2P
Prelude.v
GoLib.v
Types.v
Conditions.v
ConditionsFacts.v
Summary.v
StatusSpec.v
StatusInv.v
States.v
Effects.v
Kube.v
Aws.v
Azure.v
Cleanup.v
Cluster.v
MachineOps.v
Reconcile.v
Evidence.v
Logic.v
History.v
Preservation.v
Sim.v
System.v
Footprint.v
Yields.v
Deletion.v
Guarantees.v
Safety.v
AwsSpec.v
Waiting.v
NoPanic.v
Cooperation.v
Provision.v
CommandLine.v
Progress.v
Teardown.v
SlowSim.v
Liveness.v
Memory.v
DeepCopy.v
DeepCopyFacts.v
InPlace.v
Server.v
WorkQueue.v
Controller.v
ControllerLoop.v
Recovery.v
Json.v
JsonFacts.v
PatchRace.v
StatusPatch.v
Decode.v
Rfc3339.v
Outcomes.v
Defects.v
