(* ===== verification/Prelude.v ===== *)
(** * Verification of the docker-machine operator

    ** The program

    The operator is a Kubernetes controller for one kind of object, the
    [Machine] ([api/v1alpha1]).  For each Machine it runs [docker-machine
    create] with flags computed from the spec, a credentials secret and a
    script secret, prepares an AWS network first where the driver needs one,
    copies the result file of the start-up script back from the machine, and
    records progress as status conditions that are summarised into a [Ready]
    condition and a phase.  When the Machine is deleted it takes the docker
    machine and the cloud resources down and then gives up its finalizer.  One
    call of [MachineReconciler.Reconcile] does as much of this as it can and
    says whether it wants to be called again.  A second reconciler, for
    [Driver] objects, does nothing yet.  The process reads its flags, sets a
    controller manager up with the two reconcilers, and starts it.  The
    manager's controllers take the names of changed objects from a work queue,
    have them reconciled one at a time, and put them back as the results say.

    ** Which file models what

    Data and pure code
    - [Prelude.v], [GoLib.v]: strings, maps and 64-bit durations as Go has
      them; [strconv.Atoi], [bufio.Scanner], [base64.StdEncoding].
    - [Types.v]: [api/v1alpha1/machine_types.go], [driver_types.go],
      [helper.go], [machine_helper.go], and the condition type of
      [kmodules.xyz/client-go/api/v1].
    - [Conditions.v]: the package [kmodules.xyz/client-go/conditions] that the
      operator calls (setter, getter, meta, merge, merge strategies), over the
      type classes [Getter] and [Setter] that stand for its interfaces;
      [ConditionsFacts.v] has its invariant.
    - [Summary.v]: [ConditionsOrder] and [GetPhase] of [helper.go], and the
      reference definition the grouping, sorting and merging refines;
      [StatusSpec.v] states the specification of both.

    Effectful code
    - [Effects.v]: the error type, the calls to the outside world as the
      indexed type [Call], the class [Services] that answers them, and the
      monad [M] of the reconciler: it reads and writes [machineObj] (nil at
      first), appends to the trace of calls and their answers, and can panic.
      An [error] result is a value of a sum type ([Res]); a nil dereference is
      a panic.
    - [Kube.v] ([util.go], [CreateOrPatch], the status committer, finalizers),
      [Aws.v] ([aws.go], [aws_region.go]), [Azure.v] ([azure.go]), [Cleanup.v]
      (the deleting half of [util.go]), [Cluster.v] ([cluster.go]),
      [MachineOps.v] ([machine.go]), [Reconcile.v] ([machine_controller.go],
      [driver_controller.go]): one definition per function or method, all of
      [pkg/controller].
    - [Server.v]: [pkg/cmds/server/server.go], the [run] command of
      [pkg/cmds/run.go] and the exit code of [main.go]: options, flags, the
      scheme, and [Run] in a monad that records the calls and can end the
      process; the build variables of [version.go].

    Libraries in [vendor/] the behaviour of the whole rests on
    - [WorkQueue.v]: [k8s.io/client-go/util/workqueue], the queue with its
      dirty and processing sets, delayed additions, and the default rate
      limiter.
    - [Controller.v]: [controller-runtime/pkg/internal/controller], the worker
      loop and what it does with a result, an error or a panic, as a
      transition relation [cstep] with notifications, timers and
      resynchronisations; [schedule] is one way to run it.
    - [Json.v]: [evanphx/json-patch/v5/merge.go], making and applying merge
      patches; [JsonFacts.v], documents up to null fields.
    - [PatchRace.v]: the encoding of a Machine by its JSON tags, and the patch
      [CreateOrPatch] makes of two versions, applied to a third;
      [StatusPatch.v], the patch of the status committer at the status
      endpoint; [Decode.v], a Machine read back from its JSON; [Rfc3339.v], the
      times in it.

    Objects in memory
    - [Memory.v]: the API structs with their pointers, slices and maps, a
      store, and the value a struct stands for in it ([read_Machine]).
    - [DeepCopy.v]: [api/v1alpha1/zz_generated.deepcopy.go] on that store;
      [DeepCopyFacts.v] proves each copy right from those of its fields.
    - [InPlace.v]: the closures [patchFinalizer] and [patchAnnotation] hand to
      [CreateOrPatch], with [append] and filtering in place, and
      [stringPSlice].  They implement the functions on values of [Kube.v], so
      that the effectful code above can treat a Machine as a value.

    Clients of these definitions
    - [Evidence.v], [StatusInv.v], [History.v], [Preservation.v],
      [System.v]: statuses over time.  [History] says what is assumed of the
      answers, on the history of calls ([faithful], [kept]), and has a Hoare
      logic ([triple]) over histories; [Preservation] shows that every
      operation keeps the invariant [Sys]; [System] closes it under a step
      relation of reconciliations, restarts and arbitrary changes outside.
    - [Logic.v], [Footprint.v], [Yields.v], [Deletion.v], [Guarantees.v],
      [Safety.v]: the order of calls.  [wp] is a weakest precondition over
      traces with a guard on every call; footprints are the specifications of
      the operations; [Guarantees] and [Safety] read the ordering properties
      off them, for any services.
    - [AwsSpec.v], [Waiting.v], [CommandLine.v], [Outcomes.v]: specifications
      of single operations.
    - [NoPanic.v]: absence of panics; [CompleteServices] is what it needs of
      the answers.
    - [States.v], [Cooperation.v], [Provision.v], [Progress.v], [Teardown.v],
      [Liveness.v]: progress.  [States] abstracts a condition list to a status
      and reason per type; the class [Cooperating] says what a well-behaved
      cluster answers, [Ec2Cooperating] and [AzureCooperating] the same of the
      clouds; the other files follow one reconciliation through its branches,
      and [Liveness] a sequence of them.
    - [ControllerLoop.v]: the same for executions of the controller, whose
      steps interleave in any order; [Recovery.v], for services whose first
      reads fail.
    - [Sim.v]: a concrete, computable instance of [Services]; [System] puts a
      cache in front of it that is out of date; [SlowSim.v], one in which the
      script takes a while, which satisfies [Cooperating].  No general theorem
      depends on them; they provide the witnesses.
    - [Defects.v]: behaviour of the code that is not what it means to do.

    ** What the theorems show

    - Statuses over time ([System]), through a cache that may be out of date:
      a machine that is shown as [Success] was created and its script
      succeeded, and a status submitted with [Success] has the conditions
      machine-ready and complete true and no failing one; the complete
      condition is backed by a result that was read, the machine-ready
      condition by a creation that succeeded; and the conditions are well
      formed, with at most one per type.
    - Progress ([ControllerLoop], [Liveness]), when the cache keeps up and
      nothing fails outside the operator: every execution of the controller
      brings a machine to [Success] after as many requests as the script needs
      plus two, and it stays there; a machine that is deleted, whose docker
      machine exists, is released within two; until then the controller always
      has a step to take and takes a bounded number between requests; a server
      that cannot be read from for a while delays this by one request for each
      failed read; the EC2 environment is complete when its creation succeeds.
    - Queue and controller ([WorkQueue], [Controller]), for arbitrary services:
      the queue gives an item to one worker at a time and loses none; a
      request that failed, panicked or asked for another time stays queued or
      waiting until it is taken again; the delay is that of the rate limiter
      or the time asked for.
    - Patches ([JsonFacts], [PatchRace], [StatusPatch], [Decode]): a merge
      patch turns the first of the two documents it was made from into the
      second; an annotation patch sets its annotation on whatever version the
      server has and keeps the rest, unless the version read has it already; a
      finalizer patch replaces the list; a status patch carries the version of
      the receiver where it is not the one read, and replaces conditions and
      phase independently of each other; a Machine survives writing and
      reading.
    - No panics ([NoPanic]): with machines that have a driver and a secret
      reference and complete EC2 answers, every reconciliation returns, whatever
      fails, but for a failure of the very first read.
    - Order of calls in a reconciliation ([Safety]), for arbitrary services and
      an arbitrary starting state: the finalizer is removed only after the
      docker machine and the cloud resources of the machine held are gone, and is on the
      object before anything is created; a creation that was started is not
      started again; nothing is destroyed unless the object is being deleted and nothing is
      created while it is; a status that is written has the phase of its
      conditions.
    - Conditions and phase ([StatusSpec]): [Set] changes one condition and is
      idempotent, the summary is the first failing condition of
      [ConditionsOrder], and the phase is [Success] exactly when the script is
      complete and nothing failed.
    - Operations: the outcome of reading the script's result, the exact
      command line of [docker-machine create] and that its credentials decode
      to those of the secret, the order in which a VPC is deleted, the polls
      of [waitForState], when a reconciliation asks to be repeated, what it
      does for an object that is gone, finalizers added and removed.
    - Memory ([DeepCopyFacts], [InPlace]): deep copies have the same value and
      share nothing with the original; the closures that change an object in
      place refine the functions on values and leave the object they were
      copied from alone.
    - Process ([Server]): the calls of [Run] come in a fixed order, the start
      of the manager last, each after the success of those before; two
      settings of the options behave the same exactly when they agree on the
      six options that are used.
    - Defects: a failure of the first read panics; a finalizer another
      client adds between read and patch is lost; a finished script is asked
      about again and [Success] can be lost; a docker machine that is already
      gone blocks the deletion; a failed creation is never retried;
      a VPC that is rolled back leaves its annotation behind; machines of the
      same name in two namespaces share a docker machine; a machine without
      [spec], which the schema admits, makes the operator panic; after a stale
      read a status patch can leave [Success] with a failing condition
      ([StatusPatch]); a gateway without a recorded subnet is not deleted with
      its VPC ([AwsSpec]); two machines can
      share a script file; files are deleted under another path than they were
      written to.  The flags for the metrics address, the resync period and
      the license file have no effect ([effective_options]).

    ** Parameters and assumptions

    The Kubernetes client, [docker-machine], the file system, EC2, Azure and
    the clock are outside the repository: [Services] answers every call with
    any value of the answer's type, and the theorems of [Safety] and those on
    single operations hold for all of them.  The operator reads machines
    through the manager's cache, which may be out of date, and writes to the
    API server.  The theorems of [System] assume of the history of calls that it
    is [faithful]: an answer is about the object asked for, and its conditions
    and its phase are, each, those of a new object or some that the operator
    submitted for it, at whatever time; which is so when no other client writes
    statuses.  [success_is_earned] also assumes [kept]: a machine is not deleted
    and created anew under its name.  Neither says that a read is up to date.
    The theorem of [NoPanic] needs [CompleteServices]: machines with a driver
    and a secret reference, which the schema requires only of those with a
    [spec], and EC2 answers with the identifiers they are documented to have.
    Those of [Liveness] need [Cooperating]: the cache keeps up, so that a read
    answers the stored version, which it does not promise; requests are
    answered without error and do what they say, a patch between two copies of
    the stored version in particular (nothing is assumed of patches between
    different versions), and nobody else changes the object meanwhile; those of
    [ControllerLoop] and [Recovery] also that there is no other machine.  [Server] assumes nothing of the libraries it calls.  [PatchRace]
    holds for any rendering of times and any metadata besides the modelled.
    [StatusPatch] follows the merge itself and assumes nothing of the server;
    [Decode] needs [TimeCodec], that a time which can
    be read from its text is the one written, of which [Rfc3339] is an instance
    (UTC and whole seconds, as [metav1.Time] writes them).

    ** Bounds and fuel

    The only loop that is not structural is [waitForState].  Its fuel is
    [timeout / retryInterval + 2]; [waitForState_polls] shows the loop equal to
    a fixed number of polls, so the fuel never runs out, and [vpc_wait_bounded]
    gives the number for the constants of the code.  Durations wrap at 64 bits.
    [sort.Slice] and [sort.SliceStable] are insertion sorts, as in Go for at
    most twelve elements; a machine has at most six conditions
    ([shown_conditions]).  The scanner stops at a line longer than
    [bufio.MaxScanTokenSize].

    [append] is modelled for any growth of the capacity.

    ** Not modelled

    The parsing of command lines, which is [pflag]'s and [cobra]'s: the options
    with their flag names, defaults and uses are modelled, and their values are
    arguments, since the texts of numbers and durations on a command line
    reach the operator only as those values; the logging flags.  The manager's
    caches (a read may answer anything, but where a theorem says otherwise), its
    watches (a notification arrives some time after a change) and
    leader election; metrics; the token bucket of the rate limiter (its delay
    is an argument); the fields of [ObjectMeta] the operator does not use
    (labels, owners, managed fields), which [PatchRace] carries along; logging
    and events; the texts of JSON documents but for times; file descriptors;
    the environment of child processes.  In the reconciler a patch is a call
    with the two objects it is made from; [PatchRace] and [StatusPatch] are
    where it becomes JSON.  Reconciliations of one controller run one after the other, as
    controller-runtime does with its default of one worker.  Progress is shown
    for one machine in the cluster and for failures of reads; failures of other
    calls leave the system in a state the theorems of [System] cover. *)

From stdpp Require Export base tactics strings gmap list fin_maps sorting.
From Stdlib Require Export ZArith Lia.
From Stdlib Require Ascii.

#[global] Open Scope Z_scope.

(** ** Notation scope of the development *)

Declare Scope go_scope.
Delimit Scope go_scope with go.
#[global] Open Scope go_scope.

(** ** Go values shared by the components *)

(** A Go string comparison [a < b] is the bytewise lexicographic order. *)
Definition str_lt (a b : string) : bool := String.ltb a b.

(** Indexing a Go map yields the zero value of the element type when the key
    is absent. *)
Definition map_index (m : gmap string string) (k : string) : string :=
  default "" (m !! k).

(** [len(s) == 0] on strings and byte slices. *)
Definition str_empty (s : string) : bool := bool_decide (s = "").

(** [strings.Contains]. *)
Fixpoint has_prefix (p s : string) : bool :=
  match p, s with
  | EmptyString, _ => true
  | String a p', String b s' => bool_decide (a = b) && has_prefix p' s'
  | String _ _, EmptyString => false
  end.

Fixpoint strings_Contains (s sub : string) : bool :=
  has_prefix sub s ||
  match s with
  | EmptyString => false
  | String _ s' => strings_Contains s' sub
  end.

(** ** [sort.Slice] and [sort.Sort]

    Both run [insertionSort] on slices of at most twelve elements: element [i]
    sinks to the left while it is less than its left neighbour.  [sink] does
    this on the reversed sorted prefix. *)
Section go_sort.
Context {A : Type} (less : A → A → bool).

Fixpoint sink (x : A) (rprefix : list A) : list A :=
  match rprefix with
  | [] => [x]
  | y :: rp => if less x y then y :: sink x rp else x :: rprefix
  end.

Definition go_sort (l : list A) : list A :=
  reverse (foldl (λ rp x, sink x rp) [] l).

Lemma sink_perm x l : sink x l ≡ₚ x :: l.
Proof.
  induction l as [|y l IH]; simpl; [done|].
  destruct (less x y); [|done].
  rewrite IH. apply Permutation_swap.
Qed.

Lemma foldl_sink_perm l acc : foldl (λ rp x, sink x rp) acc l ≡ₚ l ++ acc.
Proof.
  revert acc. induction l as [|x l IH]; intros acc; simpl; [done|].
  rewrite IH, sink_perm. by rewrite Permutation_middle.
Qed.

Lemma go_sort_perm l : go_sort l ≡ₚ l.
Proof.
  unfold go_sort. rewrite reverse_Permutation, foldl_sink_perm.
  by rewrite app_nil_r.
Qed.

Lemma go_sort_nil_iff l : go_sort l = [] ↔ l = [].
Proof.
  split; intros H; [|by subst].
  apply Permutation_nil_r. rewrite <- H. symmetry. apply go_sort_perm.
Qed.

(** With a strict order [less] whose negation is transitive the result is
    sorted: no element is less than an earlier one. *)
Definition not_less (a b : A) : Prop := less b a = false.

Context (less_asym : ∀ a b, less a b = true → less b a = false).
Context (not_less_trans : ∀ a b c, not_less a b → not_less b c → not_less a c).

Lemma sink_sorted x l :
  StronglySorted (flip not_less) l → StronglySorted (flip not_less) (sink x l).
Proof.
  induction l as [|y l IH]; simpl; [by repeat constructor|].
  intros [Hy Hl]%StronglySorted_cons.
  destruct (less x y) eqn:Hxy; apply StronglySorted_cons.
  - split; [|by apply IH].
    rewrite sink_perm. constructor; [|done]. by apply less_asym.
  - split; [|by apply StronglySorted_cons].
    constructor; [done|]. eapply Forall_impl; [exact Hy|].
    intros z Hz. exact (not_less_trans _ _ _ Hz Hxy).
Qed.

Lemma go_sort_sorted l : StronglySorted not_less (go_sort l).
Proof.
  unfold go_sort.
  assert (∀ acc, StronglySorted (flip not_less) acc →
    StronglySorted (flip not_less) (foldl (λ rp x, sink x rp) acc l)) as Hfold.
  { induction l as [|x l IH]; intros acc Hacc; simpl; [done|].
    apply IH. by apply sink_sorted. }
  specialize (Hfold [] (SSorted_nil _)). revert Hfold.
  generalize (foldl (λ rp x, sink x rp) [] l). intros k Hk.
  induction Hk as [|x k Hk IH Hx]; [apply SSorted_nil|].
  rewrite reverse_cons. apply StronglySorted_app_2.
  - intros y1 y2 Hy1 Hy2. rewrite elem_of_reverse in Hy1.
    apply list_elem_of_singleton in Hy2 as ->.
    rewrite Forall_forall in Hx. exact (Hx _ Hy1).
  - done.
  - by repeat constructor.
Qed.
End go_sort.

(** ** The order of Go strings *)

Lemma str_lt_irrefl a : str_lt a a = false.
Proof.
  unfold str_lt, String.ltb.
  destruct (String.compare a a) eqn:H; try done.
  pose proof (String.compare_antisym a a) as E. by rewrite H in E.
Qed.

Lemma str_lt_asym a b : str_lt a b = true → str_lt b a = false.
Proof.
  unfold str_lt, String.ltb. rewrite (String.compare_antisym b a).
  by destruct (String.compare a b).
Qed.

Lemma str_lt_total a b : str_lt a b = false → str_lt b a = false → a = b.
Proof.
  unfold str_lt, String.ltb. rewrite (String.compare_antisym b a).
  destruct (String.compare a b) eqn:H; try done.
  intros _ _. by apply String.compare_eq_iff.
Qed.

Lemma ascii_compare_trans c1 c2 c3 :
  Ascii.compare c1 c2 = Lt → Ascii.compare c2 c3 = Lt → Ascii.compare c1 c3 = Lt.
Proof. unfold Ascii.compare. rewrite !N.compare_lt_iff. lia. Qed.

Lemma str_lt_trans a b c :
  str_lt a b = true → str_lt b c = true → str_lt a c = true.
Proof.
  unfold str_lt, String.ltb. revert b c.
  induction a as [|x a IH]; intros [|y b] [|z c]; simpl; try done.
  destruct (Ascii.compare x y) eqn:Hxy; try done.
  - apply Ascii.compare_eq_iff in Hxy as ->.
    destruct (Ascii.compare y z) eqn:Hyz; try done. apply IH.
  - destruct (Ascii.compare y z) eqn:Hyz; try done; intros _ _.
    + apply Ascii.compare_eq_iff in Hyz as <-. by rewrite Hxy.
    + by rewrite (ascii_compare_trans _ _ _ Hxy Hyz).
Qed.

(** ** Lists, options and booleans *)

(** [find p l] on a list with at most one match is insensitive to order. *)
Lemma head_filter_perm {A} (P : A → Prop) `{!∀ x, Decision (P x)} l k x :
  l ≡ₚ k → filter P l = [x] → filter P k = [x].
Proof.
  intros Hp Hl. apply Permutation_singleton_r. rewrite <- Hl.
  by apply filter_Permutation.
Qed.

Lemma filter_nil_iff {A} (P : A → Prop) `{!∀ x, Decision (P x)} (l : list A) :
  filter P l = [] ↔ ∀ x, x ∈ l → ¬ P x.
Proof.
  induction l as [|x l IH]; [rewrite filter_nil; set_solver|].
  rewrite filter_cons. case_decide; set_solver.
Qed.

Lemma filter_ext_in {A} (P Q : A → Prop) `{!∀ x, Decision (P x), !∀ x, Decision (Q x)}
    (l : list A) :
  (∀ x, x ∈ l → P x ↔ Q x) → filter P l = filter Q l.
Proof.
  induction l as [|x l IH]; intros HPQ; [done|].
  rewrite !filter_cons, IH by set_solver.
  specialize (HPQ x ltac:(by left)). repeat case_decide; tauto.
Qed.

Lemma elem_of_last {A} (x : A) l : x ∈ l ++ [x].
Proof. apply elem_of_app. right. by left. Qed.

Lemma existsb_elem {A} (f : A → bool) l :
  existsb f l = true ↔ ∃ x, x ∈ l ∧ f x = true.
Proof.
  rewrite existsb_exists. by setoid_rewrite list_elem_of_In.
Qed.

(** ** Proof automation *)

(** Split every [if decide _] and [match] in the goal, closing what is
    immediate. *)
Ltac split_cases :=
  repeat first
    [ case_decide
    | case_bool_decide
    | match goal with |- context [match ?x with _ => _ end] => destruct x eqn:? end ];
  simplify_eq/=; try done.

Ltac inv_pair := repeat match goal with p : _ * _ |- _ => destruct p end; simplify_eq/=.

(** Closed propositions, by evaluation. *)
Ltac by_eval := vm_compute; reflexivity.
Ltac by_decide := apply (bool_decide_unpack _); vm_compute; exact I.

(** Databases filled by the components: [emits] holds, per operation, which
    external calls it may issue; [frame] which part of the state it leaves
    alone. *)
Create HintDb emits discriminated.
Create HintDb frame discriminated.
