(* ===== verification/GoLib.v ===== *)
(** * The parts of Go's standard library the operator computes with

    [strconv.Atoi], the lines of a [bufio.Scanner], [base64.StdEncoding] and
    64-bit integer addition, with the facts about them the components use. *)

From stdpp Require Import pretty.
From S2P Require Import Prelude.

(** ** [int] and [time.Duration]: 64-bit two's complement *)

Definition min_int64 : Z := - 2 ^ 63.
Definition max_int64 : Z := 2 ^ 63 - 1.

Definition int64_wrap (z : Z) : Z := (z + 2 ^ 63) `mod` 2 ^ 64 - 2 ^ 63.
Definition int64_add (a b : Z) : Z := int64_wrap (a + b).

Lemma int64_wrap_id z : min_int64 ≤ z ≤ max_int64 → int64_wrap z = z.
Proof.
  unfold min_int64, max_int64, int64_wrap. intros H.
  rewrite Z.mod_small; lia.
Qed.

Definition Second : Z := 1000000000.
Definition Minute : Z := 60 * Second.

(** ** [strconv.Atoi] *)

Definition digit_value (c : Ascii.ascii) : option Z :=
  let n := Z.of_N (Ascii.N_of_ascii c) in
  if decide (48 ≤ n ≤ 57) then Some (n - 48) else None.

Fixpoint digits_value (acc : Z) (s : string) : option Z :=
  match s with
  | EmptyString => Some acc
  | String c s' =>
      match digit_value c with
      | Some d => digits_value (acc * 10 + d) s'
      | None => None
      end
  end.

Definition in_int64 (z : Z) : bool := bool_decide (min_int64 ≤ z ≤ max_int64).

Definition minus_sign : Ascii.ascii := Ascii.ascii_of_nat 45.
Definition plus_sign : Ascii.ascii := Ascii.ascii_of_nat 43.

(** An optional sign, then at least one digit; [None] is a syntax or range
    error. *)
Definition Atoi (s : string) : option Z :=
  let '(neg, ds) :=
    match s with
    | String c s' =>
        if decide (c = minus_sign) then (true, s')
        else if decide (c = plus_sign) then (false, s')
        else (false, s)
    | EmptyString => (false, s)
    end in
  match ds with
  | EmptyString => None
  | _ =>
      match digits_value 0 ds with
      | Some n =>
          let z := if neg : bool then - n else n in
          if in_int64 z then Some z else None
      | None => None
      end
  end.

(** ** [bufio.Scanner] with [ScanLines] *)

Definition nl : Ascii.ascii := Ascii.ascii_of_nat 10.
Definition cr : Ascii.ascii := Ascii.ascii_of_nat 13.

(** The pieces between newlines; a trailing newline ends the last piece. *)
Fixpoint raw_lines (s : string) : list string :=
  match s with
  | EmptyString => []
  | String c s' =>
      if decide (c = nl) then EmptyString :: raw_lines s'
      else match raw_lines s' with
           | [] => [String c EmptyString]
           | l :: ls => String c l :: ls
           end
  end.

(** Remove one trailing carriage return. *)
Fixpoint dropCR (s : string) : string :=
  match s with
  | EmptyString => EmptyString
  | String c EmptyString => if decide (c = cr) then EmptyString else s
  | String c s' => String c (dropCR s')
  end.

(** [bufio.MaxScanTokenSize]: a line that does not fit in the buffer together
    with its terminator stops the scanner. *)
Definition MaxScanTokenSize : Z := 64 * 1024.

Fixpoint take_scannable (ls : list string) : list string :=
  match ls with
  | [] => []
  | l :: rest =>
      if Z.of_nat (String.length l) <? MaxScanTokenSize then dropCR l :: take_scannable rest else []
  end.

Definition scan_lines (content : string) : list string := take_scannable (raw_lines content).

(** ** [base64.StdEncoding.EncodeToString] *)

Definition encodeStd : string :=
  "ABCDEFGHIJKLMNOPQRSTUVWXYZabcdefghijklmnopqrstuvwxyz0123456789+/".

Definition StdPadding : Ascii.ascii := Ascii.ascii_of_nat 61.

Definition enc64 (n : Z) : Ascii.ascii :=
  default StdPadding (String.get (Z.to_nat n) encodeStd).

Definition byte_val (c : Ascii.ascii) : Z := Z.of_N (Ascii.N_of_ascii c).

(** Character [i] (0 to 3) of the group of 24 bits [v]. *)
Definition sextet (v : Z) (i : Z) : Ascii.ascii :=
  enc64 (Z.land (Z.shiftr v (18 - 6 * i)) 63).

Fixpoint EncodeToString (s : string) : string :=
  match s with
  | EmptyString => EmptyString
  | String a EmptyString =>
      let v := Z.shiftl (byte_val a) 16 in
      String (sextet v 0) (String (sextet v 1)
        (String StdPadding (String StdPadding EmptyString)))
  | String a (String b EmptyString) =>
      let v := Z.lor (Z.shiftl (byte_val a) 16) (Z.shiftl (byte_val b) 8) in
      String (sextet v 0) (String (sextet v 1)
        (String (sextet v 2) (String StdPadding EmptyString)))
  | String a (String b (String c rest)) =>
      let v := Z.lor (Z.lor (Z.shiftl (byte_val a) 16) (Z.shiftl (byte_val b) 8)) (byte_val c) in
      String (sextet v 0) (String (sextet v 1)
        (String (sextet v 2) (String (sextet v 3) (EncodeToString rest))))
  end.

Example EncodeToString_1 : EncodeToString "Man" = "TWFu".
Proof. vm_compute. reflexivity. Qed.
Example EncodeToString_2 : EncodeToString "light work" = "bGlnaHQgd29yaw==".
Proof. vm_compute. reflexivity. Qed.
Example Atoi_1 : Atoi "-42" = Some (-42) ∧ Atoi "9223372036854775808" = None ∧
  Atoi "" = None ∧ Atoi "+" = None ∧ Atoi "1_000" = None ∧ Atoi "+7" = Some 7.
Proof. vm_compute. repeat split. Qed.

(** *** Decoding, as the reference of the encoding *)

Fixpoint index_of (c : Ascii.ascii) (s : string) : option Z :=
  match s with
  | EmptyString => None
  | String d s' => if decide (c = d) then Some 0 else (Z.add 1) <$> index_of c s'
  end.

Definition dec64 (c : Ascii.ascii) : option Z := index_of c encodeStd.

Definition byte_of (z : Z) : Ascii.ascii := Ascii.ascii_of_N (Z.to_N z).

(** Read groups of four characters back. *)
Fixpoint DecodeString (s : string) : option string :=
  match s with
  | EmptyString => Some EmptyString
  | String w (String x (String y (String z rest))) =>
      match dec64 w, dec64 x, dec64 y, dec64 z with
      | Some w, Some x, Some y, Some z =>
          let v := w * 262144 + x * 4096 + y * 64 + z in
          (λ r, String (byte_of (v / 65536)) (String (byte_of ((v / 256) `mod` 256))
             (String (byte_of (v `mod` 256)) r))) <$> DecodeString rest
      | Some w, Some x, Some y, None =>
          let v := w * 262144 + x * 4096 + y * 64 in
          Some (String (byte_of (v / 65536)) (String (byte_of ((v / 256) `mod` 256)) EmptyString))
      | Some w, Some x, None, None =>
          let v := w * 262144 + x * 4096 in
          Some (String (byte_of (v / 65536)) EmptyString)
      | _, _, _, _ => None
      end
  | _ => None
  end.

Lemma byte_val_bounds c : 0 ≤ byte_val c < 256.
Proof.
  unfold byte_val. pose proof (Ascii.N_ascii_bounded c). lia.
Qed.

Lemma byte_of_val c : byte_of (byte_val c) = c.
Proof. unfold byte_of, byte_val. by rewrite N2Z.id, Ascii.ascii_N_embedding. Qed.

Lemma byte_of_eq z c : z = byte_val c → byte_of z = c.
Proof. intros ->. apply byte_of_val. Qed.

Lemma dec64_enc64 n : 0 ≤ n < 64 → dec64 (enc64 n) = Some n.
Proof.
  intros Hn. assert (forallb (λ k, bool_decide (dec64 (enc64 k) = Some k)) (seqZ 0 64) = true)
    as Hall by (vm_compute; reflexivity).
  rewrite forallb_forall in Hall. specialize (Hall n).
  rewrite bool_decide_eq_true in Hall. apply Hall, list_elem_of_In, elem_of_seqZ. lia.
Qed.

Lemma dec64_padding : dec64 StdPadding = None.
Proof. by vm_compute. Qed.

(** The sextets of a 24-bit group, arithmetically. *)
Lemma sextet_dec v i :
  0 ≤ i ≤ 3 → dec64 (sextet v i) = Some ((v / 2 ^ (18 - 6 * i)) `mod` 64).
Proof.
  intros Hi. unfold sextet. rewrite dec64_enc64.
  - change 63 with (Z.ones 6). by rewrite Z.land_ones, Z.shiftr_div_pow2 by lia.
  - change 63 with (Z.ones 6). rewrite Z.land_ones by lia.
    change (2 ^ 6) with 64. apply Z.mod_pos_bound. lia.
Qed.

Lemma lor_shiftl_add x y k : 0 ≤ k → 0 ≤ y < 2 ^ k → Z.lor (Z.shiftl x k) y = x * 2 ^ k + y.
Proof.
  intros Hk Hy. rewrite <- Z.shiftl_mul_pow2 by lia.
  assert (Z.land (Z.shiftl x k) y = 0) as Hland.
  { apply Z.bits_inj'. intros n Hn. rewrite Z.land_spec, Z.bits_0.
    destruct (Z.lt_ge_cases n k) as [Hlt|Hge].
    - by rewrite Z.shiftl_spec_low.
    - rewrite <- (Z.mod_small y (2 ^ k)) by lia.
      rewrite Z.mod_pow2_bits_high by lia. apply andb_false_r. }
  by rewrite Z.add_nocarry_lxor, Z.lxor_lor.
Qed.

Lemma lor_group a b c :
  0 ≤ a → 0 ≤ b < 256 → 0 ≤ c < 256 →
  Z.lor (Z.lor (Z.shiftl a 16) (Z.shiftl b 8)) c = a * 65536 + b * 256 + c.
Proof.
  intros Ha Hb Hc.
  rewrite (lor_shiftl_add a (Z.shiftl b 8) 16) by (rewrite ?Z.shiftl_mul_pow2 by lia; lia).
  replace (a * 2 ^ 16 + Z.shiftl b 8) with (Z.shiftl (a * 256 + b) 8)
    by (rewrite !Z.shiftl_mul_pow2 by lia; lia).
  rewrite lor_shiftl_add by lia. lia.
Qed.

Ltac div_lia := Z.to_euclidean_division_equations; lia.

(** Decoding undoes encoding. *)
Lemma Decode_Encode s : DecodeString (EncodeToString s) = Some s.
Proof.
  induction s as [s IH] using (induction_ltof1 _ String.length). unfold ltof in IH.
  destruct s as [|a [|b [|c rest]]]; [done|..].
  - pose proof (byte_val_bounds a). cbn [EncodeToString DecodeString].
    rewrite !sextet_dec, dec64_padding, Z.shiftl_mul_pow2 by lia.
    do 2 f_equal; apply byte_of_eq; simpl; div_lia.
  - pose proof (byte_val_bounds a). pose proof (byte_val_bounds b).
    cbn [EncodeToString DecodeString]. rewrite !sextet_dec, dec64_padding by lia.
    rewrite <- (Z.lor_0_r (Z.lor _ _)), lor_group by lia.
    do 2 f_equal; [|f_equal]; apply byte_of_eq; simpl; div_lia.
  - pose proof (byte_val_bounds a). pose proof (byte_val_bounds b). pose proof (byte_val_bounds c).
    cbn [EncodeToString DecodeString]. rewrite !sextet_dec by lia.
    rewrite lor_group by lia. rewrite IH by (simpl; lia). csimpl.
    do 2 f_equal; [|f_equal; [|f_equal]]; apply byte_of_eq; simpl; div_lia.
Qed.
