(* ===== verification/Types.v ===== *)
(** * The API types of the operator

    The custom resources of [api/v1alpha1] ([Machine], [Driver]), the
    condition type of [kmodules.xyz/client-go/api/v1], the Kubernetes metadata
    the operator reads, the constants of [api/v1alpha1/helper.go], and the
    accessors of [machine_helper.go].

    Go string types ([ConditionType], [ConditionStatus], [MachinePhase], ...)
    are strings; a pointer field is an option; a map is a [gmap]; a
    [metav1.Time] is the number of seconds since Go's zero instant, so that
    [IsZero] is a test against 0. *)

From S2P Require Import Prelude.

(** ** Conditions *)

Record Condition := {
  c_Type : string;
  c_Status : string;
  c_ObservedGeneration : Z;
  c_Severity : string;
  c_LastTransitionTime : Z;
  c_Reason : string;
  c_Message : string
}.

#[export] Instance Condition_eq_dec : EqDecision Condition.
Proof. solve_decision. Defined.

Definition ConditionTrue : string := "True".
Definition ConditionFalse : string := "False".
Definition ConditionUnknown : string := "Unknown".

Definition ConditionSeverityError : string := "Error".
Definition ConditionSeverityWarning : string := "Warning".
Definition ConditionSeverityInfo : string := "Info".
Definition ConditionSeverityNone : string := "".

Definition ReadyCondition : string := "Ready".

(** ** Metadata and references *)

Record TypeMeta := { Kind : string; APIVersion : string }.

Record ObjectMeta := {
  Name : string;
  Namespace : string;
  ResourceVersion : string;
  Generation : Z;
  DeletionTimestamp : option Z;
  Finalizers : list string;
  Annotations : option (gmap string string)
}.

Record LocalObjectReference := { lor_Name : string }.

Record ObjectReference := { ref_Namespace : string; ref_Name : string }.

(** [client.ObjectKey], that is [types.NamespacedName]. *)
Record ObjectKey := { key_Namespace : string; key_Name : string }.

Definition key_pair (k : ObjectKey) : string * string := (key_Namespace k, key_Name k).

(** [ObjectReference.ObjectKey]. *)
Definition ref_ObjectKey (ref : ObjectReference) : ObjectKey :=
  {| key_Namespace := ref_Namespace ref; key_Name := ref_Name ref |}.

#[export] Instance TypeMeta_eq_dec : EqDecision TypeMeta.
Proof. solve_decision. Defined.
#[export] Instance ObjectMeta_eq_dec : EqDecision ObjectMeta.
Proof. solve_decision. Defined.
#[export] Instance LocalObjectReference_eq_dec : EqDecision LocalObjectReference.
Proof. solve_decision. Defined.
#[export] Instance ObjectReference_eq_dec : EqDecision ObjectReference.
Proof. solve_decision. Defined.
#[export] Instance ObjectKey_eq_dec : EqDecision ObjectKey.
Proof. solve_decision. Defined.

(** ** Machine *)

Record MachineSpec := {
  Driver : option LocalObjectReference;
  ScriptRef : option ObjectReference;
  AuthSecret : option ObjectReference;
  Parameters : gmap string string
}.

Record MachineStatus := {
  Conditions : list Condition;
  Phase : string
}.

Record Machine := {
  TypeMetaOf : TypeMeta;
  Meta : ObjectMeta;
  Spec : MachineSpec;
  Status : MachineStatus
}.

#[export] Instance MachineSpec_eq_dec : EqDecision MachineSpec.
Proof. solve_decision. Defined.
#[export] Instance MachineStatus_eq_dec : EqDecision MachineStatus.
Proof. solve_decision. Defined.
#[export] Instance Machine_eq_dec : EqDecision Machine.
Proof. solve_decision. Defined.

(** [core.Secret], of which the operator reads [Data] only. *)
Record Secret := { Data : gmap string string }.

(** ** Driver *)

Record DriverSpec := { Builtin : bool; DownloadURL : string }.
Record DriverResource := {
  d_TypeMeta : TypeMeta;
  d_Meta : ObjectMeta;
  d_Spec : DriverSpec
}.

(** ** Field updates *)

Definition set_Meta (m : Machine) (om : ObjectMeta) : Machine :=
  {| TypeMetaOf := TypeMetaOf m; Meta := om; Spec := Spec m; Status := Status m |}.

Definition set_Status (m : Machine) (st : MachineStatus) : Machine :=
  {| TypeMetaOf := TypeMetaOf m; Meta := Meta m; Spec := Spec m; Status := st |}.

Definition set_Phase (m : Machine) (p : string) : Machine :=
  set_Status m {| Conditions := Conditions (Status m); Phase := p |}.

Definition set_Finalizers (om : ObjectMeta) (fs : list string) : ObjectMeta :=
  {| Name := Name om; Namespace := Namespace om;
     ResourceVersion := ResourceVersion om; Generation := Generation om;
     DeletionTimestamp := DeletionTimestamp om; Finalizers := fs;
     Annotations := Annotations om |}.

Definition set_Annotations (om : ObjectMeta) (a : option (gmap string string)) : ObjectMeta :=
  {| Name := Name om; Namespace := Namespace om;
     ResourceVersion := ResourceVersion om; Generation := Generation om;
     DeletionTimestamp := DeletionTimestamp om; Finalizers := Finalizers om;
     Annotations := a |}.

Definition set_ResourceVersion (om : ObjectMeta) (rv : string) : ObjectMeta :=
  {| Name := Name om; Namespace := Namespace om;
     ResourceVersion := rv; Generation := Generation om;
     DeletionTimestamp := DeletionTimestamp om; Finalizers := Finalizers om;
     Annotations := Annotations om |}.

(** ** Accessors of [machine_helper.go] *)

Definition GetStatus (m : Machine) : MachineStatus := Status m.

Definition Machine_GetConditions (m : Machine) : list Condition :=
  Conditions (Status m).

Definition Machine_SetConditions (m : Machine) (cs : list Condition) : Machine :=
  set_Status m {| Conditions := cs; Phase := Phase (Status m) |}.

(** Reading [r.machineObj.Annotations[k]]; a nil map reads as empty. *)
Definition annotation (m : Machine) (k : string) : string :=
  match Annotations (Meta m) with
  | Some a => map_index a k
  | None => ""
  end.

(** [IsZero] on a [metav1.Time] pointer, nil-safe. *)
Definition Time_IsZero (t : option Z) : bool :=
  match t with
  | None => true
  | Some s => bool_decide (s = 0)
  end.

Definition machine_key (m : Machine) : ObjectKey :=
  {| key_Namespace := Namespace (Meta m); key_Name := Name (Meta m) |}.

(** ** Constants of [api/v1alpha1] *)

Definition GroupVersion_Group : string := "docker-machine.klusters.dev".

Definition MachineConditionTypeMachineReady : string := "MachineReady".
Definition MachineConditionTypeScriptReady : string := "ScriptReady".
Definition MachineConditionTypeAuthDataReady : string := "AuthDataReady".
Definition MachineConditionTypeClusterOperationComplete : string := "ClusterOperationComplete".
Definition MachineConditionTypeMachineCreating : string := "MachineCreating".

Definition ReasonClusterOperationFailed : string := "ClusterOperationFailed".
Definition ReasonMachineCreationFailed : string := "MachineCreationFailed".
Definition ReasonWaitingForScriptCompletion : string := "WaitingForScriptCompletion".
Definition ReasonWaitingForScriptRun : string := "WaitingForScriptRun".
Definition ReasonAuthDataNotFound : string := "AuthDataNotFound".
Definition ReasonScriptDataNotFound : string := "ScriptDataNotFound".
Definition ReasonMachineCreating : string := "MachineCreating".

Definition MachinePhasePending : string := "Pending".
Definition MachinePhaseInProgress : string := "InProgress".
Definition MachinePhaseWaitingForScriptCompletion : string := "WaitingForScriptCompletion".
Definition MachinePhaseClusterOperationFailed : string := "ClusterOperationFailed".
Definition MachinePhaseSuccess : string := "Success".
Definition MachinePhaseTerminating : string := "Terminating".
Definition MachinePhaseFailed : string := "Failed".

(** [api.GetFinalizer]. *)
Definition GetFinalizer : string := GroupVersion_Group.
