(* ===== verification/Conditions.v ===== *)
(** * The conditions package of [kmodules.xyz/client-go]

    Setting, querying and summarising the status conditions of an object:
    [conditions/setter.go], [getter.go], [meta.go], [merge.go] and
    [merge_strategies.go], as the operator calls them.  The package works on
    any object through the interfaces [Getter] and [Setter], which are type
    classes here; [Machine] is the instance the operator uses. *)

From stdpp Require Import pretty.
From S2P Require Import Prelude Types.

(** ** The [Getter] and [Setter] interfaces *)

Class Getter (T : Type) := {
  GetConditions : T → list Condition;
  GetName : T → string;
  GetKind : T → string;
  GetGeneration : T → Z
}.

Class Setter (T : Type) `{!Getter T} := {
  SetConditions : T → list Condition → T
}.

(** What the package relies on of an implementation. *)
Class SetterLaws (T : Type) `{!Getter T, !Setter T} := {
  Get_SetConditions : ∀ (o : T) cs, GetConditions (SetConditions o cs) = cs;
  GetGeneration_SetConditions : ∀ (o : T) cs,
    GetGeneration (SetConditions o cs) = GetGeneration o;
  GetName_SetConditions : ∀ (o : T) cs,
    GetName (SetConditions o cs) = GetName o;
  SetConditions_twice : ∀ (o : T) cs cs',
    SetConditions (SetConditions o cs) cs' = SetConditions o cs'
}.

#[export] Instance Machine_Getter : Getter Machine := {|
  GetConditions := Machine_GetConditions;
  GetName m := Name (Meta m);
  GetKind m := Kind (TypeMetaOf m);
  GetGeneration m := Generation (Meta m)
|}.

#[export] Instance Machine_Setter : Setter Machine := {|
  SetConditions := Machine_SetConditions
|}.

#[export] Instance Machine_SetterLaws : SetterLaws Machine.
Proof. by split. Qed.

(** ** [setter.go] *)

Definition set_ObservedGeneration (c : Condition) (g : Z) : Condition :=
  {| c_Type := c_Type c; c_Status := c_Status c; c_ObservedGeneration := g;
     c_Severity := c_Severity c; c_LastTransitionTime := c_LastTransitionTime c;
     c_Reason := c_Reason c; c_Message := c_Message c |}.

Definition set_LastTransitionTime (c : Condition) (t : Z) : Condition :=
  {| c_Type := c_Type c; c_Status := c_Status c;
     c_ObservedGeneration := c_ObservedGeneration c;
     c_Severity := c_Severity c; c_LastTransitionTime := t;
     c_Reason := c_Reason c; c_Message := c_Message c |}.

Definition lexicographicLess (i j : Condition) : bool :=
  (bool_decide (c_Type i = ReadyCondition) || str_lt (c_Type i) (c_Type j)) &&
  negb (bool_decide (c_Type j = ReadyCondition)).

Definition hasSameState (i j : Condition) : bool :=
  bool_decide (c_Type i = c_Type j) &&
  bool_decide (c_Status i = c_Status j) &&
  bool_decide (c_Reason i = c_Reason j) &&
  bool_decide (c_Severity i = c_Severity j) &&
  bool_decide (c_Message i = c_Message j).

(** The loop of [Set]: the first condition of the same type is kept when its
    state is the same and overwritten, with a new transition time, otherwise.
    [None] when there is no condition of this type. *)
Fixpoint set_existing (now : Z) (condition : Condition) (conditions : list Condition)
    : option (list Condition) :=
  match conditions with
  | [] => None
  | existing :: rest =>
      if decide (c_Type existing = c_Type condition) then
        if hasSameState existing condition then Some (existing :: rest)
        else Some (set_LastTransitionTime condition now :: rest)
      else cons existing <$> set_existing now condition rest
  end.

Section Conditions.
Context {T : Type} `{HG : !Getter T, HS : !Setter T}.

(** [Set]; [now] is the clock truncated to seconds, [None] a nil condition. *)
Definition Set_ (now : Z) (to : T) (condition : option Condition) : T :=
  match condition with
  | None => to
  | Some c0 =>
      let c := set_ObservedGeneration c0 (GetGeneration to) in
      let conditions :=
        match set_existing now c (GetConditions to) with
        | Some cs => cs
        | None =>
            let c' := if decide (c_LastTransitionTime c = 0)
                      then set_LastTransitionTime c now else c in
            GetConditions to ++ [c']
        end in
      SetConditions to (go_sort lexicographicLess conditions)
  end.

Definition TrueCondition (t : string) : Condition :=
  {| c_Type := t; c_Status := ConditionTrue; c_ObservedGeneration := 0;
     c_Severity := ""; c_LastTransitionTime := 0; c_Reason := ""; c_Message := "" |}.

(** The message arrives formatted. *)
Definition FalseCondition (t reason severity message : string) : Condition :=
  {| c_Type := t; c_Status := ConditionFalse; c_ObservedGeneration := 0;
     c_Severity := severity; c_LastTransitionTime := 0; c_Reason := reason;
     c_Message := message |}.

Definition UnknownCondition (t reason message : string) : Condition :=
  {| c_Type := t; c_Status := ConditionUnknown; c_ObservedGeneration := 0;
     c_Severity := ""; c_LastTransitionTime := 0; c_Reason := reason;
     c_Message := message |}.

Definition MarkTrue (now : Z) (to : T) (t : string) : T :=
  Set_ now to (Some (TrueCondition t)).

Definition MarkFalse (now : Z) (to : T) (t reason severity message : string) : T :=
  Set_ now to (Some (FalseCondition t reason severity message)).

(** ** [getter.go] and [meta.go] *)

Definition Get (from : T) (t : string) : option Condition :=
  snd <$> list_find (λ c, c_Type c = t) (GetConditions from).

(** ** [merge_strategies.go]: options *)

Record mergeOptions := {
  conditionTypes : option (list string);
  addSourceRef : bool;
  addStepCounter : bool;
  addStepCounterIfOnlyConditionTypes : option (list string);
  stepCounter : nat
}.

Definition mergeOptions_zero : mergeOptions := {|
  conditionTypes := None; addSourceRef := false; addStepCounter := false;
  addStepCounterIfOnlyConditionTypes := None; stepCounter := 0 |}.

Definition MergeOption := mergeOptions → mergeOptions.

Definition WithConditions (t : list string) : MergeOption := λ c, {|
  conditionTypes := Some t; addSourceRef := addSourceRef c;
  addStepCounter := addStepCounter c;
  addStepCounterIfOnlyConditionTypes := addStepCounterIfOnlyConditionTypes c;
  stepCounter := stepCounter c |}.

(** ** [merge.go] *)

(** A condition, possibly nil, with the object it comes from. *)
Definition localizedCondition : Type := option Condition * T.

Record conditionGroup := {
  g_status : string;
  g_severity : string;
  g_conditions : list (Condition * T)
}.

Definition mergePriority (g : conditionGroup) : Z :=
  if decide (g_status g = ConditionFalse) then
    if decide (g_severity g = ConditionSeverityError) then 0
    else if decide (g_severity g = ConditionSeverityWarning) then 1
    else if decide (g_severity g = ConditionSeverityInfo) then 2
    else 99
  else if decide (g_status g = ConditionTrue) then 3
  else if decide (g_status g = ConditionUnknown) then 4
  else 99.

(** The inner loop of [getConditionGroups]: append to the first group with
    the condition's status and severity, or open a new one. *)
Fixpoint add_to_groups (c : Condition) (from : T) (groups : list conditionGroup)
    : list conditionGroup :=
  match groups with
  | [] => [{| g_status := c_Status c; g_severity := c_Severity c;
              g_conditions := [(c, from)] |}]
  | g :: gs =>
      if decide (g_status g = c_Status c ∧ g_severity g = c_Severity c) then
        {| g_status := g_status g; g_severity := g_severity g;
           g_conditions := g_conditions g ++ [(c, from)] |} :: gs
      else g :: add_to_groups c from gs
  end.

Definition localizedLess (a b : Condition * T) : bool :=
  if decide (c_Type a.1 = c_Type b.1) then str_lt (GetName a.2) (GetName b.2)
  else lexicographicLess a.1 b.1.

Definition sort_group (g : conditionGroup) : conditionGroup :=
  {| g_status := g_status g; g_severity := g_severity g;
     g_conditions := go_sort localizedLess (g_conditions g) |}.

Definition groups_Less (a b : conditionGroup) : bool :=
  bool_decide (mergePriority a < mergePriority b).

Definition build_groups (conditions : list localizedCondition) : list conditionGroup :=
  foldl (λ groups lc,
    match lc.1 with
    | None => groups
    | Some c => add_to_groups c lc.2 groups
    end) [] conditions.

Definition getConditionGroups (conditions : list localizedCondition)
    : list conditionGroup :=
  match go_sort groups_Less (build_groups conditions) with
  | [] => []
  | g :: gs => sort_group g :: gs
  end.

(** ** [merge_strategies.go]: reasons and messages *)

Definition getFirstCondition (g : list conditionGroup) (priority : list string)
    : option (Condition * T) :=
  match g with
  | [] => None
  | topGroup :: _ =>
      match g_conditions topGroup with
      | [] => None
      | [lc] => Some lc
      | lc0 :: _ =>
          match list_find (λ p, Exists (λ lc, c_Type lc.1 = p) (g_conditions topGroup)) priority with
          | Some (_, p) =>
              snd <$> list_find (λ lc, c_Type lc.1 = p) (g_conditions topGroup)
          | None => Some lc0
          end
      end
  end.

Definition localizeReason (reason : string) (from : T) : string :=
  if strings_Contains reason "@" then reason
  else reason +:+ " @ " +:+ GetKind from +:+ "/" +:+ GetName from.

Definition getFirstReason (g : list conditionGroup) (order : list string)
    (sourceRef : bool) : string :=
  match getFirstCondition g order with
  | Some (c, from) => if sourceRef then localizeReason (c_Reason c) from else c_Reason c
  | None => ""
  end.

Definition getReason (groups : list conditionGroup) (options : mergeOptions) : string :=
  getFirstReason groups (default [] (conditionTypes options)) (addSourceRef options).

Definition getFirstMessage (groups : list conditionGroup) (order : list string) : string :=
  match getFirstCondition groups order with
  | Some (c, _) => c_Message c
  | None => ""
  end.

Definition getByStatusAndSeverity (g : list conditionGroup) (status severity : string)
    : option conditionGroup :=
  snd <$> list_find (λ gr, g_status gr = status ∧ g_severity gr = severity) g.

Definition getStepCounterMessage (groups : list conditionGroup) (to : nat) : string :=
  let ct := match getByStatusAndSeverity groups ConditionTrue ConditionSeverityNone with
            | Some g => length (g_conditions g)
            | None => 0%nat
            end in
  pretty ct +:+ " of " +:+ pretty to +:+ " completed".

Definition getMessage (groups : list conditionGroup) (options : mergeOptions) : string :=
  if addStepCounter options then getStepCounterMessage groups (stepCounter options)
  else getFirstMessage groups (default [] (conditionTypes options)).

Definition merge (conditions : list localizedCondition) (targetCondition : string)
    (options : mergeOptions) : option Condition :=
  let g := getConditionGroups conditions in
  match g with
  | [] => None
  | top :: _ =>
      if decide (g_status top = ConditionTrue) then Some (TrueCondition targetCondition)
      else
        let targetReason := getReason g options in
        let targetMessage := getMessage g options in
        if decide (g_status top = ConditionFalse) then
          Some (FalseCondition targetCondition targetReason (g_severity top) targetMessage)
        else Some (UnknownCondition targetCondition targetReason targetMessage)
  end.

(** ** [getter.go]: [summary] *)

(** Whether a condition takes part in the summary. *)
Definition in_scope (types : option (list string)) (c : Condition) : Prop :=
  c_Type c ≠ ReadyCondition ∧
  match types with Some ts => c_Type c ∈ ts | None => True end.

#[export] Instance in_scope_dec types c : Decision (in_scope types c).
Proof. unfold in_scope. destruct types; apply _. Defined.

Definition summary_step_counter (opt : mergeOptions) (scope : list Condition)
    : mergeOptions :=
  let add :=
    match addStepCounterIfOnlyConditionTypes opt with
    | Some ts => addStepCounter opt && bool_decide (Forall (λ c, c_Type c ∈ ts) scope)
    | None => addStepCounter opt
    end in
  let counter :=
    if add then
      match addStepCounterIfOnlyConditionTypes opt, conditionTypes opt with
      | Some ts, _ => length ts
      | None, Some ts => length ts
      | None, None => length scope
      end
    else stepCounter opt in
  {| conditionTypes := conditionTypes opt; addSourceRef := addSourceRef opt;
     addStepCounter := add;
     addStepCounterIfOnlyConditionTypes := addStepCounterIfOnlyConditionTypes opt;
     stepCounter := counter |}.

Definition summary (from : T) (options : list MergeOption) : option Condition :=
  let mergeOpt := foldl (λ o f, f o) mergeOptions_zero options in
  let scope := filter (in_scope (conditionTypes mergeOpt)) (GetConditions from) in
  let mergeOpt := summary_step_counter mergeOpt scope in
  merge ((λ c, (Some c, from)) <$> scope) ReadyCondition mergeOpt.

Definition SetSummary (now : Z) (to : T) (options : list MergeOption) : T :=
  Set_ now to (summary to options).
End Conditions.

Arguments localizedCondition : clear implicits.
Arguments conditionGroup : clear implicits.

(** [IsConditionTrue] of [meta.go]: some condition of the type is true. *)
Definition IsConditionTrue (conditions : list Condition) (condType : string) : bool :=
  existsb (λ c, bool_decide (c_Type c = condType) &&
                bool_decide (c_Status c = ConditionTrue)) conditions.
