(* ===== verification/ConditionsFacts.v ===== *)
(** * Correctness of setting and querying conditions

    The invariant of a condition list (one condition per type, [Ready] first
    and the others in the order of their types), its preservation by [Set_],
    and what [Set_] does to a lookup. *)

From S2P Require Import Prelude Types Conditions.

(** ** Looking up a condition list *)

Definition types (cs : list Condition) : list string := c_Type <$> cs.

Definition find_cond (cs : list Condition) (t : string) : option Condition :=
  snd <$> list_find (λ c, c_Type c = t) cs.

Lemma find_cond_None cs t : find_cond cs t = None ↔ t ∉ types cs.
Proof.
  unfold find_cond, types. rewrite fmap_None, list_find_None, Forall_forall.
  rewrite list_elem_of_fmap. naive_solver.
Qed.

Lemma find_cond_Some_1 cs t c : find_cond cs t = Some c → c ∈ cs ∧ c_Type c = t.
Proof.
  unfold find_cond. rewrite fmap_Some. intros ([i x] & Hf & ->).
  apply list_find_Some in Hf as (Hi & Ht & _). split; [|done].
  by eapply list_elem_of_lookup_2.
Qed.

Lemma find_cond_Some cs t c :
  NoDup (types cs) → find_cond cs t = Some c ↔ c ∈ cs ∧ c_Type c = t.
Proof.
  intros Hnd. split; [apply find_cond_Some_1|]. intros [Hin Ht].
  destruct (find_cond cs t) as [c'|] eqn:Hf.
  - apply find_cond_Some_1 in Hf as [Hin' Ht'].
    apply list_elem_of_lookup in Hin as [i Hi], Hin' as [j Hj].
    f_equal. assert (i = j) as ->; [|congruence].
    apply (NoDup_lookup (types cs) i j t Hnd); unfold types;
      by rewrite list_lookup_fmap, ?Hi, ?Hj; simpl; f_equal.
  - apply find_cond_None in Hf. destruct Hf. subst t. unfold types.
    by apply list_elem_of_fmap_2.
Qed.

Lemma find_cond_perm cs cs' t :
  NoDup (types cs) → cs ≡ₚ cs' → find_cond cs t = find_cond cs' t.
Proof.
  intros Hnd Hp.
  assert (NoDup (types cs')) as Hnd' by (unfold types in *; by rewrite <- Hp).
  apply option_eq. intros c. rewrite !find_cond_Some by done. by rewrite Hp.
Qed.

Lemma find_cond_cons c cs t :
  find_cond (c :: cs) t = if decide (c_Type c = t) then Some c else find_cond cs t.
Proof.
  unfold find_cond. simpl. case_decide; [done|].
  destruct (list_find _ cs) as [[i x]|]; done.
Qed.

Lemma find_cond_app cs cs' t :
  find_cond (cs ++ cs') t =
    match find_cond cs t with Some c => Some c | None => find_cond cs' t end.
Proof.
  induction cs as [|c cs IH]; [done|]. simpl. rewrite !find_cond_cons.
  by case_decide.
Qed.

Lemma IsConditionTrue_spec cs t :
  IsConditionTrue cs t = true ↔ ∃ c, c ∈ cs ∧ c_Type c = t ∧ c_Status c = ConditionTrue.
Proof.
  unfold IsConditionTrue. rewrite existsb_elem.
  setoid_rewrite andb_true_iff. by setoid_rewrite bool_decide_eq_true.
Qed.

(** ** The order of conditions *)

Lemma lexicographicLess_asym i j :
  lexicographicLess i j = true → lexicographicLess j i = false.
Proof.
  unfold lexicographicLess.
  repeat case_bool_decide; simpl; rewrite ?andb_true_r, ?andb_false_r; try done.
  apply str_lt_asym.
Qed.

Lemma lexicographicLess_total i j :
  lexicographicLess i j = false → lexicographicLess j i = false → c_Type i = c_Type j.
Proof.
  unfold lexicographicLess.
  repeat case_bool_decide; simpl; rewrite ?andb_true_r, ?andb_false_r;
    try done; try congruence.
  apply str_lt_total.
Qed.

Lemma not_lexicographicLess_trans a b c :
  not_less lexicographicLess a b → not_less lexicographicLess b c →
  not_less lexicographicLess a c.
Proof.
  unfold not_less, lexicographicLess.
  repeat case_bool_decide; simpl; rewrite ?andb_true_r, ?andb_false_r; try done.
  intros Hab Hbc. destruct (str_lt (c_Type c) (c_Type a)) eqn:Hca; [|done].
  destruct (str_lt (c_Type a) (c_Type b)) eqn:Hab'.
  - by rewrite (str_lt_trans _ _ _ Hca Hab') in Hbc.
  - rewrite (str_lt_total _ _ Hab' Hab) in Hca. congruence.
Qed.

(** One condition per type, in the order the consumer sees. *)
Definition wf_conditions (cs : list Condition) : Prop :=
  NoDup (types cs) ∧ StronglySorted (not_less lexicographicLess) cs.

Lemma go_sort_wf cs :
  NoDup (types cs) → wf_conditions (go_sort lexicographicLess cs).
Proof.
  intros Hnd. split.
  - unfold types in *. by rewrite go_sort_perm.
  - apply go_sort_sorted;
      eauto using lexicographicLess_asym, not_lexicographicLess_trans.
Qed.

(** A well-formed list is determined by its set of conditions, so any sorting
    algorithm gives the list the model computes. *)
Lemma wf_conditions_unique cs cs' :
  wf_conditions cs → wf_conditions cs' → cs ≡ₚ cs' → cs = cs'.
Proof.
  intros [Hnd Hs] [_ Hs'] Hp. revert cs' Hs' Hp.
  induction cs as [|c cs IH]; intros cs' Hs' Hp.
  { by apply Permutation_nil_l in Hp. }
  destruct cs' as [|c' cs']; [by apply Permutation_nil_r in Hp|].
  apply StronglySorted_cons in Hs as [Hc Hs], Hs' as [Hc' Hs'].
  unfold types in Hnd. simpl in Hnd. apply NoDup_cons in Hnd as [Hni Hnd].
  rewrite Forall_forall in Hc, Hc'.
  assert (c = c') as ->.
  { assert (c ∈ c' :: cs') as Hin by (rewrite <- Hp; left).
    assert (c' ∈ c :: cs) as Hin' by (rewrite Hp; left).
    apply elem_of_cons in Hin as [?|Hin]; [done|].
    apply elem_of_cons in Hin' as [?|Hin']; [done|].
    destruct Hni. rewrite (lexicographicLess_total c c') by (by apply Hc' || by apply Hc).
    by apply list_elem_of_fmap_2. }
  f_equal. apply IH; [done|done|done|]. by apply Permutation_cons_inv in Hp.
Qed.

(** ** [Set_] *)

Lemma set_existing_None now c cs :
  set_existing now c cs = None ↔ c_Type c ∉ types cs.
Proof.
  unfold types. induction cs as [|e cs IH]; simpl; [set_solver|].
  case_decide as He.
  - case_match; split; set_solver.
  - rewrite fmap_None, IH. set_solver.
Qed.

Lemma set_existing_types now c cs cs' :
  set_existing now c cs = Some cs' → types cs' = types cs.
Proof.
  unfold types. revert cs'. induction cs as [|e cs IH]; intros cs'; simpl; [done|].
  case_decide as He.
  - case_match; intros; simplify_eq/=; congruence.
  - rewrite fmap_Some. intros (cs'' & Hs & ->). simpl. f_equal. by apply IH.
Qed.

Lemma set_existing_find now c cs cs' t :
  set_existing now c cs = Some cs' →
  find_cond cs' t =
    if decide (t = c_Type c) then
      (λ e, if hasSameState e c then e else set_LastTransitionTime c now)
        <$> find_cond cs t
    else find_cond cs t.
Proof.
  revert cs'. induction cs as [|e cs IH]; intros cs'; simpl; [done|].
  destruct (decide (c_Type e = c_Type c)) as [He|He].
  - set (e' := if hasSameState e c then e else set_LastTransitionTime c now).
    intros Hs. assert (cs' = e' :: cs) as -> by (unfold e'; destruct (hasSameState e c); congruence).
    assert (c_Type e' = c_Type c) as Ht by (unfold e'; by destruct (hasSameState e c)).
    rewrite !find_cond_cons, Ht, He.
    destruct (decide (t = c_Type c)) as [->|Htc]; [by rewrite !decide_True|].
    by rewrite !decide_False by congruence.
  - rewrite fmap_Some. intros (cs'' & Hs & ->). rewrite !find_cond_cons.
    rewrite (IH _ Hs). repeat case_decide; congruence.
Qed.

Section Set_facts.
Context {T : Type} `{HL : SetterLaws T}.
Implicit Types o : T.

Lemma Get_find o t : Get o t = find_cond (GetConditions o) t.
Proof. done. Qed.

(** The condition [Set_] leaves for the type of its argument. *)
Definition settled (now : Z) (o : T) (c0 : Condition) : Condition :=
  let c := set_ObservedGeneration c0 (GetGeneration o) in
  match Get o (c_Type c0) with
  | Some e => if hasSameState e c0 then e else set_LastTransitionTime c now
  | None => if decide (c_LastTransitionTime c0 = 0)
            then set_LastTransitionTime c now else c
  end.

Lemma settled_type now o c0 : c_Type (settled now o c0) = c_Type c0.
Proof.
  unfold settled. destruct (Get o (c_Type c0)) as [e|] eqn:He.
  - apply find_cond_Some_1 in He as [_ He]. by case_match.
  - by case_decide.
Qed.

Lemma hasSameState_eq (i j : Condition) :
  hasSameState i j = true →
  c_Type i = c_Type j ∧ c_Status i = c_Status j ∧ c_Reason i = c_Reason j ∧
  c_Severity i = c_Severity j ∧ c_Message i = c_Message j.
Proof.
  unfold hasSameState. rewrite !andb_true_iff, !bool_decide_eq_true. tauto.
Qed.

(** Whatever was there, the settled condition has the requested state. *)
Lemma settled_same_state now o c0 : hasSameState (settled now o c0) c0 = true.
Proof.
  assert (∀ c, hasSameState c c = true) as Hrefl.
  { intros c. unfold hasSameState. by rewrite !bool_decide_true. }
  unfold settled. destruct (Get o (c_Type c0)) as [e|].
  - destruct (hasSameState e c0) eqn:He; [done|]. apply (Hrefl c0).
  - destruct (decide _); apply (Hrefl c0).
Qed.

Lemma Set_conditions_NoDup now o c0 :
  NoDup (types (GetConditions o)) →
  wf_conditions (GetConditions (Set_ now o (Some c0))).
Proof.
  intros Hnd. unfold Set_. rewrite Get_SetConditions. apply go_sort_wf.
  destruct (set_existing _ _ _) as [cs|] eqn:Hs.
  - by rewrite (set_existing_types _ _ _ _ Hs).
  - apply set_existing_None in Hs. unfold types in *. rewrite fmap_app.
    apply NoDup_app. split; [done|]. split; [|apply NoDup_singleton].
    simpl. case_decide; set_solver.
Qed.

Lemma Set_lookup now o c0 t :
  NoDup (types (GetConditions o)) →
  Get (Set_ now o (Some c0)) t =
    if decide (t = c_Type c0) then Some (settled now o c0) else Get o t.
Proof.
  intros Hnd. pose proof (Set_conditions_NoDup now o c0 Hnd) as [Hnd' _].
  revert Hnd'. rewrite !Get_find. unfold Set_. rewrite Get_SetConditions.
  set (c := set_ObservedGeneration c0 (GetGeneration o)). intros Hnd'.
  rewrite (find_cond_perm _ _ _ Hnd' (go_sort_perm _ _)).
  unfold settled. rewrite Get_find. fold c.
  destruct (set_existing now c (GetConditions o)) as [cs|] eqn:Hs.
  - rewrite (set_existing_find _ _ _ _ _ Hs). simpl.
    case_decide as Ht; [subst t|done].
    destruct (find_cond (GetConditions o) (c_Type c0)) as [e|] eqn:He; [done|].
    apply find_cond_None in He. apply (set_existing_None now c) in He. congruence.
  - apply set_existing_None, find_cond_None in Hs. simpl in Hs.
    rewrite find_cond_app, find_cond_cons. simpl.
    set (c' := if decide (c_LastTransitionTime c0 = 0) then _ else c).
    assert (c_Type c' = c_Type c0) as -> by (unfold c'; by destruct (decide _)).
    destruct (decide (t = c_Type c0)) as [->|Ht].
    + by rewrite Hs, decide_True.
    + rewrite decide_False by done. by destruct (find_cond (GetConditions o) t).
Qed.

(** Nothing but the condition list changes. *)
Lemma Set_SetConditions now o c :
  ∃ cs, Set_ now o c = o ∨ Set_ now o c = SetConditions o cs.
Proof. destruct c as [c|]; [|by exists []; left]. eexists. by right. Qed.
End Set_facts.
