(* ===== verification/Summary.v ===== *)
(** * The summary of conditions and the phase of a machine

    [ConditionsOrder] and [GetPhase] of [api/v1alpha1/helper.go], and the
    refinement of the grouping, sorting and merging of [summary] by a direct
    description of the [Ready] condition: the first failing condition in
    [ConditionsOrder], or [True] when none fails. *)

From S2P Require Import Prelude Types Conditions ConditionsFacts.

Definition ConditionsOrder : list string :=
  [ MachineConditionTypeMachineReady;
    MachineConditionTypeClusterOperationComplete;
    MachineConditionTypeAuthDataReady;
    MachineConditionTypeScriptReady ].

(** [GetPhase]. *)
Definition GetPhase (obj : Machine) : string :=
  if negb (Time_IsZero (DeletionTimestamp (Meta obj))) then MachinePhaseTerminating
  else
    match GetConditions obj with
    | [] => MachinePhaseInProgress
    | conditions =>
        match find_cond conditions ReadyCondition with
        | None => MachinePhasePending
        | Some cond =>
            if decide (c_Status cond = ConditionTrue) then MachinePhaseSuccess
            else if decide (c_Reason cond = ReasonWaitingForScriptCompletion) then
              MachinePhaseWaitingForScriptCompletion
            else if decide (c_Reason cond = ReasonClusterOperationFailed) then
              MachinePhaseClusterOperationFailed
            else if decide (c_Reason cond = ReasonMachineCreationFailed) then
              MachinePhaseFailed
            else MachinePhaseInProgress
        end
    end.

(** ** The groups of [getConditionGroups] *)

Section Groups.
Context {T : Type} `{HG : !Getter T}.
Implicit Types (l : list (Condition * T)) (gs : list (conditionGroup T)).

Definition group_key (g : conditionGroup T) : string * string := (g_status g, g_severity g).
Definition cond_key (lc : Condition * T) : string * string :=
  (c_Status lc.1, c_Severity lc.1).

Definition priority (k : string * string) : Z :=
  mergePriority {| g_status := k.1; g_severity := k.2;
                   g_conditions := @nil (Condition * T) |}.

Lemma mergePriority_key g : mergePriority g = priority (group_key g).
Proof. done. Qed.

(** The groups partition the conditions by status and severity. *)
Definition groups_partition gs l : Prop :=
  NoDup (group_key <$> gs) ∧
  (∀ g, g ∈ gs → g_conditions g = filter (λ lc, cond_key lc = group_key g) l ∧
                  g_conditions g ≠ []) ∧
  (∀ lc, lc ∈ l → cond_key lc ∈ group_key <$> gs).

Lemma add_to_groups_keys c from gs :
  group_key <$> add_to_groups c from gs =
    if decide ((c_Status c, c_Severity c) ∈ group_key <$> gs)
    then group_key <$> gs else (group_key <$> gs) ++ [(c_Status c, c_Severity c)].
Proof.
  induction gs as [|g gs IH]; csimpl; [done|].
  destruct (decide (g_status g = c_Status c ∧ g_severity g = c_Severity c)) as [[H1 H2]|Hne].
  - rewrite decide_True; [done|]. unfold group_key. rewrite H1, H2. set_solver.
  - csimpl. rewrite IH. assert (group_key g ≠ (c_Status c, c_Severity c))
      by (unfold group_key; naive_solver).
    destruct (decide _) as [Hin|Hni].
    + rewrite decide_True by set_solver. done.
    + rewrite decide_False by set_solver. done.
Qed.

Lemma add_to_groups_elem c from gs g' :
  NoDup (group_key <$> gs) →
  g' ∈ add_to_groups c from gs →
  (g' ∈ gs ∧ group_key g' ≠ (c_Status c, c_Severity c)) ∨
  (∃ g, g ∈ gs ∧ group_key g = (c_Status c, c_Severity c) ∧
        group_key g' = group_key g ∧ g_conditions g' = g_conditions g ++ [(c, from)]) ∨
  (((c_Status c, c_Severity c) ∉ (group_key <$> gs)) ∧
   group_key g' = (c_Status c, c_Severity c) ∧ g_conditions g' = [(c, from)]).
Proof.
  induction gs as [|g gs IH]; csimpl; intros Hnd Hg'.
  - apply list_elem_of_singleton in Hg' as ->. right; right. set_solver.
  - apply NoDup_cons in Hnd as [Hni Hnd].
    destruct (decide (g_status g = c_Status c ∧ g_severity g = c_Severity c)) as [[H1 H2]|Hne].
    + apply elem_of_cons in Hg' as [->|Hg'].
      * right; left. exists g. unfold group_key. simpl. rewrite H1, H2. set_solver.
      * left. split; [set_solver|]. intros Hk. destruct Hni.
        replace (group_key g) with (group_key g'); [by apply list_elem_of_fmap_2|].
        rewrite Hk. unfold group_key. by rewrite H1, H2.
    + assert (group_key g ≠ (c_Status c, c_Severity c)) as Hk
        by (unfold group_key; naive_solver).
      apply elem_of_cons in Hg' as [->|Hg']; [left; split; [by left|done]|].
      destruct (IH Hnd Hg') as [[? ?]|[(g0 & ? & ?)|(? & ? & ?)]].
      * left. split; [by right|done].
      * right; left. exists g0. split; [by right|done].
      * right; right. split; [|done]. rewrite not_elem_of_cons. done.
Qed.

Lemma add_to_groups_partition c from gs l :
  groups_partition gs l → groups_partition (add_to_groups c from gs) (l ++ [(c, from)]).
Proof.
  intros (Hnd & Hg & Hcov). set (k := (c_Status c, c_Severity c)).
  split_and!.
  - rewrite add_to_groups_keys. case_decide as Hin; [done|].
    apply NoDup_app. split; [done|]. split; [set_solver|apply NoDup_singleton].
  - intros g' Hg'. rewrite filter_app.
    destruct (add_to_groups_elem _ _ _ _ Hnd Hg')
      as [[Hin Hk]|[(g & Hin & Hk & Hk' & ->)|(Hni & Hk & ->)]].
    + rewrite filter_cons_False by (unfold cond_key; simpl; congruence).
      rewrite app_nil_r. by apply Hg.
    + destruct (Hg _ Hin) as [-> _].
      rewrite filter_cons_True by (unfold cond_key; simpl; congruence). rewrite Hk'.
      split; [done|]. by destruct (filter _ l).
    + rewrite filter_cons_True by (unfold cond_key; simpl; congruence).
      rewrite (proj2 (filter_nil_iff (λ lc, cond_key lc = group_key g') l)); [done|].
      intros lc Hlc Hkey. apply Hni. rewrite <- Hk, <- Hkey. by apply Hcov.
  - intros lc Hlc. rewrite add_to_groups_keys.
    apply elem_of_app in Hlc as [Hlc|Hlc].
    + apply Hcov in Hlc. case_decide; set_solver.
    + apply list_elem_of_singleton in Hlc as ->. case_decide; set_solver.
Qed.

Definition localize l : list (localizedCondition T) := (λ lc, (Some lc.1, lc.2)) <$> l.

Lemma build_groups_partition l : groups_partition (build_groups (localize l)) l.
Proof.
  unfold build_groups, localize.
  induction l as [|[c from] l IH] using rev_ind; simpl.
  { split_and!; [constructor|set_solver|set_solver]. }
  rewrite fmap_app, foldl_app. simpl. by apply add_to_groups_partition.
Qed.

Lemma groups_Less_asym (a b : conditionGroup T) :
  groups_Less a b = true → groups_Less b a = false.
Proof. unfold groups_Less. rewrite bool_decide_eq_true, bool_decide_eq_false. lia. Qed.

Lemma groups_not_less_trans (a b c : conditionGroup T) :
  not_less groups_Less a b → not_less groups_Less b c → not_less groups_Less a c.
Proof. unfold not_less, groups_Less. rewrite !bool_decide_eq_false. lia. Qed.

(** The group that decides the merge: it holds exactly the conditions of its
    status and severity, and no condition has a higher priority. *)
Lemma getConditionGroups_top l :
  l ≠ [] →
  ∃ top rest, getConditionGroups (localize l) = top :: rest ∧
    g_conditions top ≡ₚ filter (λ lc, cond_key lc = group_key top) l ∧
    g_conditions top ≠ [] ∧
    (∀ lc, lc ∈ l → priority (group_key top) ≤ priority (cond_key lc)).
Proof.
  intros Hl. unfold getConditionGroups.
  pose proof (build_groups_partition l) as (_ & Hg & Hcov).
  pose proof (go_sort_perm groups_Less (build_groups (localize l))) as Hp.
  pose proof (go_sort_sorted groups_Less groups_Less_asym groups_not_less_trans
                (build_groups (localize l))) as Hs.
  destruct (go_sort groups_Less (build_groups (localize l))) as [|g gs].
  { destruct l as [|lc l]; [done|]. exfalso.
    apply Permutation_nil_l in Hp. specialize (Hcov lc ltac:(by left)).
    rewrite <- Hp in Hcov. set_solver. }
  eexists (sort_group g), gs. split; [done|].
  destruct (Hg g) as [Hgc Hne]; [rewrite <- Hp; by left|]. simpl.
  split_and!.
  - rewrite go_sort_perm. by rewrite Hgc.
  - by rewrite go_sort_nil_iff.
  - intros lc Hlc. apply Hcov in Hlc.
    apply list_elem_of_fmap in Hlc as (g' & -> & Hg'). rewrite <- Hp in Hg'.
    change (mergePriority g ≤ mergePriority g').
    apply elem_of_cons in Hg' as [->|Hg']; [lia|].
    apply StronglySorted_cons in Hs as [Hs _]. rewrite Forall_forall in Hs.
    specialize (Hs _ Hg'). unfold not_less, groups_Less in Hs.
    apply bool_decide_eq_false in Hs. lia.
Qed.

Lemma getConditionGroups_nil : getConditionGroups (localize []) = [].
Proof. done. Qed.

(** The condition whose reason and message are reported. *)
Lemma getFirstCondition_spec (top : conditionGroup T) rest order :
  (∀ lc, lc ∈ g_conditions top → c_Type lc.1 ∈ order) →
  getFirstCondition (top :: rest) order =
    head (omap (λ t, snd <$> list_find (λ lc, c_Type lc.1 = t) (g_conditions top)) order).
Proof.
  intros Hord. simpl. set (cs := g_conditions top) in *.
  assert (∀ ts, head (omap (λ t, snd <$> list_find (λ lc, c_Type lc.1 = t) cs) ts) =
    match list_find (λ p, Exists (λ lc, c_Type lc.1 = p) cs) ts with
    | Some (_, p) => snd <$> list_find (λ lc, c_Type lc.1 = p) cs
    | None => None
    end) as Hfind.
  { induction ts as [|t ts IH]; [done|]. csimpl.
    destruct (decide (Exists (λ lc, c_Type lc.1 = t) cs)) as [Hex|Hnex].
    - destruct (list_find (λ lc, c_Type lc.1 = t) cs) as [[i lc]|] eqn:Hlf; [done|].
      apply list_find_None in Hlf. apply Exists_exists in Hex as (lc & Hin & Ht).
      rewrite Forall_forall in Hlf. by destruct (Hlf _ Hin).
    - replace (list_find (λ lc, c_Type lc.1 = t) cs) with (@None (nat * (Condition * T))).
      + csimpl. rewrite IH. by destruct (list_find _ ts) as [[? ?]|].
      + symmetry. apply list_find_None, Forall_forall. intros lc Hin Ht.
        apply Hnex, Exists_exists. eauto. }
  rewrite Hfind.
  assert (cs ≠ [] → is_Some (list_find (λ p, Exists (λ lc, c_Type lc.1 = p) cs) order)) as Hsome.
  { intros Hne. destruct cs as [|lc cs'] eqn:Hcs; [done|].
    apply (list_find_elem_of _ _ (c_Type lc.1)); [apply Hord; by left|].
    apply Exists_exists. exists lc. split; [by left|done]. }
  destruct cs as [|lc [|lc' cs']] eqn:Hcs.
  - destruct (list_find _ order) as [[? ?]|]; done.
  - destruct (Hsome ltac:(done)) as [[i p] Hlf]. rewrite Hlf. simpl.
    apply list_find_Some in Hlf as (_ & Hex & _). apply Exists_exists in Hex as (lc0 & Hin & Ht).
    apply list_elem_of_singleton in Hin as ->. by rewrite decide_True.
  - destruct (Hsome ltac:(done)) as [[i p] Hlf]. by rewrite Hlf.
Qed.
End Groups.

(** ** The direct description of the summary *)

(** The conditions the operator writes: true without severity, or false with
    severity [Error]. *)
Definition op_condition (c : Condition) : Prop :=
  (c_Status c = ConditionTrue ∧ c_Severity c = ConditionSeverityNone) ∨
  (c_Status c = ConditionFalse ∧ c_Severity c = ConditionSeverityError).

Definition in_order (c : Condition) : Prop := in_scope (Some ConditionsOrder) c.

#[export] Instance in_order_dec c : Decision (in_order c) := in_scope_dec _ c.

Definition op_conditions (cs : list Condition) : Prop :=
  NoDup (types cs) ∧ ∀ c, c ∈ cs → in_order c → op_condition c.

Definition failing (c : Condition) : Prop := c_Status c = ConditionFalse.
#[export] Instance failing_dec c : Decision (failing c).
Proof. unfold failing. apply _. Defined.

Definition find_failing (cs : list Condition) (t : string) : option Condition :=
  match find_cond cs t with
  | Some c => if decide (failing c) then Some c else None
  | None => None
  end.

(** The first failing condition in the order of [ConditionsOrder]. *)
Definition first_failing (cs : list Condition) : option Condition :=
  head (omap (find_failing cs) ConditionsOrder).

Definition summary_spec (cs : list Condition) : option Condition :=
  match filter in_order cs with
  | [] => None
  | _ =>
      match first_failing cs with
      | Some c => Some (FalseCondition ReadyCondition (c_Reason c)
                          ConditionSeverityError (c_Message c))
      | None => Some (TrueCondition ReadyCondition)
      end
  end.

Lemma Ready_not_in_order : ReadyCondition ∉ ConditionsOrder.
Proof. apply (bool_decide_unpack _). by vm_compute. Qed.

Lemma in_order_iff c : in_order c ↔ c_Type c ∈ ConditionsOrder.
Proof.
  unfold in_order, in_scope. split; [by intros [_ ?]|]. intros Hin. split; [|done].
  intros He. rewrite He in Hin. by apply Ready_not_in_order.
Qed.

Lemma types_filter_NoDup (P : Condition → Prop) `{!∀ c, Decision (P c)} cs :
  NoDup (types cs) → NoDup (types (filter P cs)).
Proof.
  unfold types. intros Hnd. eapply sublist_NoDup; [exact Hnd|].
  apply fmap_sublist, sublist_filter.
Qed.

Lemma find_cond_filter (P : Condition → Prop) `{!∀ c, Decision (P c)} cs t :
  NoDup (types cs) →
  find_cond (filter P cs) t =
    match find_cond cs t with
    | Some c => if decide (P c) then Some c else None
    | None => None
    end.
Proof.
  intros Hnd.
  assert (NoDup (types (filter P cs))) as Hnd'.
  { by apply types_filter_NoDup. }
  apply option_eq. intros c. rewrite find_cond_Some, list_elem_of_filter by done.
  destruct (find_cond cs t) as [c'|] eqn:Hf.
  - apply find_cond_Some in Hf as [Hin Ht]; [|done].
    case_decide as HP.
    + split; [|naive_solver]. intros [[HPc Hc] Htc].
      rewrite <- (proj2 (find_cond_Some cs t c Hnd) (conj Hc Htc)).
      by rewrite (proj2 (find_cond_Some cs t c' Hnd) (conj Hin Ht)).
    + split; [|done]. intros [[HPc Hc] Htc]. destruct HP.
      pose proof (proj2 (find_cond_Some cs t c Hnd) (conj Hc Htc)) as H1.
      pose proof (proj2 (find_cond_Some cs t c' Hnd) (conj Hin Ht)) as H2. congruence.
  - apply find_cond_None in Hf. split; [|done]. intros [[_ Hc] Htc]. destruct Hf.
    subst t. unfold types. by apply list_elem_of_fmap_2.
Qed.

Lemma find_cond_fmap {T} (l : list (Condition * T)) t :
  fst <$> (snd <$> list_find (λ lc, c_Type lc.1 = t) l) = find_cond (l.*1) t.
Proof.
  unfold find_cond. rewrite list_find_fmap. unfold compose.
  by destruct (list_find _ l) as [[i lc]|].
Qed.

Lemma head_omap_fmap {A B C} (f : A → option B) (g : B → C) (l : list A) :
  g <$> head (omap f l) = head (omap (λ x, g <$> f x) l).
Proof. induction l as [|x l IH]; [done|]. csimpl. by destruct (f x). Qed.

Lemma head_omap_ext {A B} (f g : A → option B) (l : list A) :
  (∀ x, x ∈ l → f x = g x) → head (omap f l) = head (omap g l).
Proof.
  induction l as [|x l IH]; intros H; [done|]. csimpl.
  rewrite (H x) by (by left). destruct (g x); [done|]. apply IH.
  intros y Hy. apply H. by right.
Qed.

Lemma head_omap_None {A B} (f : A → option B) (l : list A) :
  head (omap f l) = None ↔ ∀ x, x ∈ l → f x = None.
Proof.
  induction l as [|x l IH]; [split; [set_solver|done]|]. csimpl.
  destruct (f x) as [y|] eqn:Hf; simpl.
  - split; [done|]. intros H. specialize (H x ltac:(by left)). congruence.
  - rewrite IH. split.
    + intros H z Hz. apply elem_of_cons in Hz as [->|Hz]; [done|]. by apply H.
    + intros H z Hz. apply H. by right.
Qed.

Lemma first_failing_None cs :
  NoDup (types cs) →
  first_failing cs = None ↔ ∀ c, c ∈ cs → in_order c → ¬ failing c.
Proof.
  intros Hnd. unfold first_failing. rewrite head_omap_None. unfold find_failing.
  split.
  - intros H c Hc Hin%in_order_iff Hf. specialize (H _ Hin).
    rewrite (proj2 (find_cond_Some cs _ c Hnd) (conj Hc eq_refl)) in H.
    by rewrite decide_True in H.
  - intros H t Ht. destruct (find_cond cs t) as [c|] eqn:Hc; [|done].
    apply find_cond_Some_1 in Hc as [Hc Hct]. rewrite decide_False; [done|].
    apply H; [done|]. apply in_order_iff. by rewrite Hct.
Qed.

Lemma first_failing_Some cs c :
  first_failing cs = Some c → c ∈ cs ∧ in_order c ∧ failing c.
Proof.
  unfold first_failing. intros Hh.
  assert (c ∈ omap (find_failing cs) ConditionsOrder) as Hin.
  { destruct (omap _ _); [done|]. simpl in Hh. simplify_eq. by left. }
  apply list_elem_of_omap in Hin as (t & Ht & Hf). unfold find_failing in Hf.
  destruct (find_cond cs t) as [c'|] eqn:Hc; [|done].
  apply find_cond_Some_1 in Hc as [Hc Hct]. case_decide; simplify_eq.
  split_and!; [done| |done]. by apply in_order_iff.
Qed.

(** ** The refinement *)

Section Refinement.
Context {T : Type} `{HG : !Getter T}.
Implicit Types o : T.

Definition localized o (cs : list Condition) : list (Condition * T) := (λ c, (c, o)) <$> cs.

Lemma localized_fst o cs : (localized o cs).*1 = cs.
Proof. unfold localized. rewrite <- list_fmap_compose. by apply list_fmap_id. Qed.

Lemma localized_filter o cs (P : Condition → Prop) `{!∀ c, Decision (P c)} :
  (filter (λ lc : Condition * T, P lc.1) (localized o cs)).*1 = filter P cs.
Proof.
  unfold localized. induction cs as [|c cs IH]; [done|]. csimpl.
  rewrite !filter_cons. simpl. case_decide; csimpl; by rewrite IH.
Qed.

Lemma summary_unfold o :
  summary o [WithConditions ConditionsOrder] =
    merge (localize (localized o (filter in_order (GetConditions o)))) ReadyCondition
      {| conditionTypes := Some ConditionsOrder; addSourceRef := false;
         addStepCounter := false; addStepCounterIfOnlyConditionTypes := None;
         stepCounter := 0 |}.
Proof.
  unfold summary, localize, localized. simpl. f_equal.
  rewrite <- list_fmap_compose. done.
Qed.

Lemma priority_op (c : Condition) :
  op_condition c →
  priority (T:=T) (c_Status c, c_Severity c) = if decide (failing c) then 0 else 3.
Proof.
  intros Hop. case_decide as Hf; unfold failing in Hf;
    destruct Hop as [[Hs Hv]|[Hs Hv]]; rewrite Hs, Hv; done || (by rewrite Hs in Hf).
Qed.

(** The top group of operator conditions: the failing ones if any fails, and
    the true ones otherwise. *)
Lemma op_top o (cs : list Condition) top rest :
  (∀ c, c ∈ cs → op_condition c) →
  getConditionGroups (localize (localized o cs)) = top :: rest →
  cs ≠ [] →
  (g_status top = ConditionFalse ∧ g_severity top = ConditionSeverityError ∧
    (g_conditions top).*1 ≡ₚ filter failing cs ∧ filter failing cs ≠ []) ∨
  (g_status top = ConditionTrue ∧ filter failing cs = []).
Proof.
  intros Hop Hg Hne.
  destruct (getConditionGroups_top (localized o cs)) as (top' & rest' & Hg' & Hp & Hne' & Hmin).
  { unfold localized. by destruct cs. }
  rewrite Hg in Hg'. simplify_eq.
  assert (∃ c, c ∈ cs ∧ (c_Status c, c_Severity c) = group_key top') as (c & Hc & Hk).
  { destruct (g_conditions top') as [|lc ?]; [done|].
    assert (lc ∈ filter (λ lc, cond_key lc = group_key top') (localized o cs)) as Hin
      by (rewrite <- Hp; by left).
    apply list_elem_of_filter in Hin as [Hk Hin].
    apply list_elem_of_fmap in Hin as (c & -> & Hc). by exists c. }
  assert (∀ c', c' ∈ cs → (if decide (failing c) then 0 else 3) ≤
                          (if decide (failing c') then 0 else 3)) as Hmin'.
  { intros c' Hc'. rewrite <- !priority_op by auto. rewrite Hk.
    apply (Hmin (c', o)). unfold localized. by apply (list_elem_of_fmap_2 (λ c, (c, o))). }
  unfold group_key in *. destruct (Hop c Hc) as [[Hs Hv]|[Hs Hv]].
  - right. split; [congruence|]. apply filter_nil_iff. intros c' Hc' Hf.
    specialize (Hmin' c' Hc'). rewrite decide_False, decide_True in Hmin'; [lia|done|].
    unfold failing. rewrite Hs. done.
  - left. split_and!; [congruence|congruence| |].
    + rewrite Hp, <- Hk. rewrite <- (localized_filter o cs failing).
      erewrite filter_ext_in; [done|]. intros lc Hlc. unfold cond_key, failing.
      apply list_elem_of_fmap in Hlc as (c' & -> & Hc'). simpl. rewrite Hs, Hv.
      destruct (Hop c' Hc') as [[-> ->]|[-> ->]]; naive_solver.
    + intros Hnil. pose proof (proj1 (filter_nil_iff _ _) Hnil c Hc). done.
Qed.

(** The condition the merge reports on is the first failing one. *)
Lemma top_first_failing o (top : conditionGroup T) rest :
  NoDup (types (GetConditions o)) →
  (g_conditions top).*1 ≡ₚ filter failing (filter in_order (GetConditions o)) →
  fst <$> getFirstCondition (top :: rest) ConditionsOrder = first_failing (GetConditions o).
Proof.
  intros Hnd Hp. rewrite getFirstCondition_spec.
  - rewrite head_omap_fmap. apply head_omap_ext. intros t Ht. rewrite find_cond_fmap.
    assert (NoDup (types (filter in_order (GetConditions o)))) as Hnd1
      by by apply types_filter_NoDup.
    rewrite <- (find_cond_perm _ _ t (types_filter_NoDup _ _ Hnd1) (symmetry Hp)).
    rewrite find_cond_filter, find_cond_filter by done.
    unfold find_failing. destruct (find_cond (GetConditions o) t) as [c|] eqn:Hc; [|done].
    apply find_cond_Some_1 in Hc as [_ Hct].
    rewrite (decide_True (P:=in_order c)); [done|]. apply in_order_iff. by rewrite Hct.
  - intros lc Hlc.
    assert (lc.1 ∈ filter failing (filter in_order (GetConditions o))) as Hin.
    { rewrite <- Hp. by apply list_elem_of_fmap_2. }
    rewrite !list_elem_of_filter in Hin. apply in_order_iff, Hin.
Qed.

(** The summary the operator computes is the one described directly. *)
Lemma summary_is_spec o :
  op_conditions (GetConditions o) →
  summary o [WithConditions ConditionsOrder] = summary_spec (GetConditions o).
Proof.
  intros [Hnd Hop]. rewrite summary_unfold. unfold summary_spec.
  set (scope := filter in_order (GetConditions o)).
  assert (∀ c, c ∈ scope → op_condition c) as Hops.
  { intros c [Hin Hc]%list_elem_of_filter. by apply Hop. }
  destruct scope as [|c0 cs0] eqn:Hscope; [done|]. rewrite <- Hscope in *.
  unfold merge.
  destruct (getConditionGroups_top (localized o scope)) as (top & rest & Hg & _).
  { rewrite Hscope. done. }
  rewrite Hg.
  destruct (op_top o scope top rest Hops Hg) as [(Hs & Hv & Hp & Hne)|[Hs Hnil]];
    [by rewrite Hscope| |].
  - rewrite decide_False by (rewrite Hs; done). rewrite decide_True by done.
    unfold getReason, getFirstReason, getMessage, getFirstMessage. simpl default.
    pose proof (top_first_failing o top rest Hnd Hp) as Hfirst.
    rewrite <- Hfirst.
    destruct (getFirstCondition (top :: rest) ConditionsOrder) as [[c from]|] eqn:Hfc.
    + simpl. by rewrite Hv.
    + exfalso. simpl in Hfirst. symmetry in Hfirst.
      apply Hne, filter_nil_iff. intros c Hc.
      unfold scope in Hc. rewrite list_elem_of_filter in Hc. destruct Hc as [Hin Hc].
      by apply (proj1 (first_failing_None _ Hnd) Hfirst c).
  - rewrite decide_True by done.
    rewrite (proj2 (first_failing_None _ Hnd)); [done|].
    intros c Hc Hin. apply (proj1 (filter_nil_iff _ _) Hnil).
    unfold scope. by apply list_elem_of_filter.
Qed.
End Refinement.

(** ** The phase after a status update *)

(** The phase a failing summary with a given reason stands for. *)
Definition reason_phase (reason : string) : string :=
  if decide (reason = ReasonWaitingForScriptCompletion) then
    MachinePhaseWaitingForScriptCompletion
  else if decide (reason = ReasonClusterOperationFailed) then
    MachinePhaseClusterOperationFailed
  else if decide (reason = ReasonMachineCreationFailed) then MachinePhaseFailed
  else MachinePhaseInProgress.

Definition deleting (m : Machine) : bool :=
  negb (Time_IsZero (DeletionTimestamp (Meta m))).

(** [SetSummary] as the operator calls it. *)
Definition summarise (now : Z) (m : Machine) : Machine :=
  SetSummary now m [WithConditions ConditionsOrder].

Lemma Set_meta now (m : Machine) c :
  TypeMetaOf (Set_ now m c) = TypeMetaOf m ∧ Meta (Set_ now m c) = Meta m ∧
  Spec (Set_ now m c) = Spec m ∧ Phase (Status (Set_ now m c)) = Phase (Status m).
Proof. by destruct c. Qed.

Lemma summarise_phase now (m : Machine) :
  op_conditions (GetConditions m) →
  filter in_order (GetConditions m) ≠ [] →
  GetPhase (summarise now m) =
    if deleting m then MachinePhaseTerminating
    else match first_failing (GetConditions m) with
         | None => MachinePhaseSuccess
         | Some c => reason_phase (c_Reason c)
         end.
Proof.
  intros Hop Hne. unfold GetPhase, deleting, summarise, SetSummary.
  rewrite (proj1 (proj2 (Set_meta _ _ _))). case_match; [done|].
  rewrite summary_is_spec by done. unfold summary_spec.
  destruct (filter in_order (GetConditions m)) as [|c0 cs0] eqn:Hf; [done|].
  set (rc := match first_failing (GetConditions m) with Some c => _ | None => _ end).
  assert (∃ c, rc = Some c ∧ c_Type c = ReadyCondition) as (c & Hrc & Hct).
  { unfold rc. destruct (first_failing _); eauto. }
  pose proof (Set_lookup now m c ReadyCondition (proj1 Hop)) as Hl.
  rewrite decide_True in Hl by done. rewrite Hrc.
  rewrite Get_find in Hl.
  destruct (GetConditions (Set_ now m (Some c))) as [|c1 cs1]; [done|]. rewrite Hl.
  pose proof (hasSameState_eq _ _ (settled_same_state now m c)) as (_ & -> & -> & _ & _).
  unfold rc in Hrc. unfold reason_phase.
  destruct (first_failing (GetConditions m)) as [cf|]; simplify_eq/=; done.
Qed.
