(* ===== verification/StatusSpec.v ===== *)
(** * What the status of a machine means

    The specification of the conditions package as the operator uses it
    (setting one condition, merging all of them into [Ready]) and of the phase
    shown to users. *)

From S2P Require Import Prelude Types Conditions ConditionsFacts Summary.

Section Setting.
Context {T : Type} `{HL : SetterLaws T}.
Implicit Types o : T.

(** C20: setting a condition.  On an object with one condition per type,
    [Set_] leaves a well-formed list (one condition per type, [Ready] first,
    the others in order of their types), does not touch the conditions of
    other types, and leaves for the given type a condition in the requested
    state.  Its transition time moves to the current time exactly when the
    state changes or no condition of the type was there. *)
Theorem set_condition now o c0 :
  NoDup (types (GetConditions o)) →
  c_LastTransitionTime c0 = 0 →
  let o' := Set_ now o (Some c0) in
  wf_conditions (GetConditions o') ∧
  (∀ t, t ≠ c_Type c0 → Get o' t = Get o t) ∧
  ∃ c, Get o' (c_Type c0) = Some c ∧ hasSameState c c0 = true ∧
    c_LastTransitionTime c =
      match Get o (c_Type c0) with
      | Some e => if hasSameState e c0 then c_LastTransitionTime e else now
      | None => now
      end.
Proof.
  intros Hnd Ht o'. split_and!.
  - by apply Set_conditions_NoDup.
  - intros t Hne. unfold o'. rewrite Set_lookup by done. by rewrite decide_False.
  - exists (settled now o c0). unfold o'. rewrite Set_lookup, decide_True by done.
    split_and!; [done|apply settled_same_state|]. unfold settled.
    destruct (Get o (c_Type c0)) as [e|]; [by destruct (hasSameState e c0)|].
    by rewrite decide_True.
Qed.

Lemma set_existing_same now (c e : Condition) cs :
  find_cond cs (c_Type c) = Some e → hasSameState e c = true →
  set_existing now c cs = Some cs.
Proof.
  induction cs as [|x cs IH]; [done|]. rewrite find_cond_cons. simpl.
  case_decide as Hx; intros He Hs.
  - simplify_eq. by rewrite Hs.
  - by rewrite IH.
Qed.

(** Setting a condition again changes nothing.  A second [Set_] with the
    same condition, at any later time, leaves the object exactly as the first
    left it, so an unchanged state never makes a new status to write. *)
Lemma set_condition_idempotent now now' o c0 :
  NoDup (types (GetConditions o)) →
  Set_ now' (Set_ now o (Some c0)) (Some c0) = Set_ now o (Some c0).
Proof.
  intros Hnd. pose proof (Set_conditions_NoDup now o c0 Hnd) as Hwf.
  pose proof (Set_lookup now o c0 (c_Type c0) Hnd) as Hl. rewrite decide_True in Hl by done.
  set (o' := Set_ now o (Some c0)) in *.
  assert (Set_ now' o' (Some c0) = SetConditions o' (GetConditions o')) as ->.
  { unfold Set_ at 1. erewrite set_existing_same; [|exact Hl|].
    - f_equal. apply wf_conditions_unique; [apply go_sort_wf, Hwf|done|apply go_sort_perm].
    - exact (settled_same_state now o c0). }
  unfold o', Set_. by rewrite SetConditions_twice, Get_SetConditions.
Qed.
End Setting.

(** C12: the [Ready] condition.  For a machine whose conditions in
    [ConditionsOrder] are the operator's (true, or false with severity
    [Error]), the grouping, sorting and merging of [summary] comes to this:
    nothing when no such condition is there; false with the reason and message
    of the first failing condition in [ConditionsOrder] when one fails; true
    otherwise. *)
Theorem summary_refines (m : Machine) :
  op_conditions (GetConditions m) →
  summary m [WithConditions ConditionsOrder] = summary_spec (GetConditions m).
Proof. apply summary_is_spec. Qed.

(** The phase after a status update.  When at least one condition of
    [ConditionsOrder] is there, the phase is [Terminating] for a machine being
    deleted, [Success] when no condition fails, and otherwise the one its
    first failing condition stands for: [WaitingForScriptCompletion],
    [ClusterOperationFailed] and [Failed] for the reasons of those names,
    [InProgress] for every other reason. *)
Lemma phase_after_update now (m : Machine) :
  op_conditions (GetConditions m) →
  filter in_order (GetConditions m) ≠ [] →
  GetPhase (summarise now m) =
    if deleting m then MachinePhaseTerminating
    else match first_failing (GetConditions m) with
         | None => MachinePhaseSuccess
         | Some c => reason_phase (c_Reason c)
         end.
Proof. apply summarise_phase. Qed.

Lemma reason_phase_not_success r : reason_phase r ≠ MachinePhaseSuccess.
Proof. unfold reason_phase. by repeat case_decide. Qed.

Lemma summarise_success_iff now (m : Machine) :
  op_conditions (GetConditions m) →
  filter in_order (GetConditions m) ≠ [] →
  GetPhase (summarise now m) = MachinePhaseSuccess ↔
  deleting m = false ∧
  ∀ c, c ∈ GetConditions m → c_Type c ∈ ConditionsOrder → c_Status c = ConditionTrue.
Proof.
  intros Hop Hne. rewrite summarise_phase by done.
  destruct (deleting m); [split; [done|by intros [? _]]|].
  pose proof (first_failing_None _ (proj1 Hop)) as Hff. split.
  - intros Hp. split; [done|]. intros c Hc Ht%in_order_iff.
    destruct (first_failing (GetConditions m)) as [c'|];
      [by destruct (reason_phase_not_success _ Hp)|].
    pose proof (proj1 Hff eq_refl c Hc Ht) as Hnf.
    destruct (proj2 Hop c Hc Ht) as [[Hs _]|[Hs _]]; [done|]. by destruct Hnf.
  - intros [_ Hall]. rewrite (proj2 Hff); [done|]. unfold failing.
    intros c Hc Hin%in_order_iff Hf. by rewrite (Hall c Hc Hin) in Hf.
Qed.

(** [Success] means success.  Under the same conditions, the phase is
    [Success] if and only if the machine is not being deleted and every
    condition of [ConditionsOrder] that it has is true. *)
Lemma phase_success_iff now (m : Machine) :
  op_conditions (GetConditions m) →
  filter in_order (GetConditions m) ≠ [] →
  GetPhase (summarise now m) = MachinePhaseSuccess ↔
  deleting m = false ∧
  ∀ c, c ∈ GetConditions m → c_Type c ∈ ConditionsOrder → c_Status c = ConditionTrue.
Proof. apply summarise_success_iff. Qed.

(** ** The hypotheses at work *)

Definition cond (t status severity reason : string) : Condition :=
  {| c_Type := t; c_Status := status; c_ObservedGeneration := 1; c_Severity := severity;
     c_LastTransitionTime := 10; c_Reason := reason; c_Message := "" |}.

(** A machine that waits for its script. *)
Definition waiting_machine : Machine := {|
  TypeMetaOf := {| Kind := "Machine"; APIVersion := "docker-machine.klusters.dev/v1alpha1" |};
  Meta := {| Name := "vm"; Namespace := "demo"; ResourceVersion := "7"; Generation := 1;
             DeletionTimestamp := None; Finalizers := [GetFinalizer]; Annotations := None |};
  Spec := {| Driver := Some {| lor_Name := "google" |}; ScriptRef := None; AuthSecret := None;
             Parameters := ∅ |};
  Status := {|
    Conditions := [cond MachineConditionTypeClusterOperationComplete ConditionFalse
                     ConditionSeverityError ReasonWaitingForScriptCompletion;
                   cond MachineConditionTypeMachineReady ConditionTrue "" ""];
    Phase := MachinePhaseInProgress |} |}.

Lemma waiting_machine_op : op_conditions (GetConditions waiting_machine).
Proof.
  split; [apply (bool_decide_unpack _); by vm_compute|]. intros c Hc _.
  apply elem_of_cons in Hc as [->|Hc]; [by right|].
  apply list_elem_of_singleton in Hc as ->. by left.
Qed.

Lemma set_condition_witness :
  Get (Set_ 20 waiting_machine (Some (TrueCondition MachineConditionTypeClusterOperationComplete)))
    MachineConditionTypeMachineReady =
  Get waiting_machine MachineConditionTypeMachineReady.
Proof.
  apply (set_condition 20 waiting_machine
           (TrueCondition MachineConditionTypeClusterOperationComplete));
    [apply waiting_machine_op|reflexivity|done].
Defined.

Lemma set_condition_idempotent_witness :
  let c := TrueCondition MachineConditionTypeClusterOperationComplete in
  Set_ 30 (Set_ 20 waiting_machine (Some c)) (Some c) = Set_ 20 waiting_machine (Some c).
Proof. intros c. apply (set_condition_idempotent 20 30 waiting_machine c), waiting_machine_op. Defined.

Lemma summary_refines_witness :
  summary waiting_machine [WithConditions ConditionsOrder] =
    Some (FalseCondition ReadyCondition ReasonWaitingForScriptCompletion ConditionSeverityError "").
Proof. rewrite (summary_refines waiting_machine waiting_machine_op). reflexivity. Defined.

Lemma phase_after_update_witness :
  GetPhase (summarise 20 waiting_machine) = MachinePhaseWaitingForScriptCompletion.
Proof. rewrite (phase_after_update 20 waiting_machine waiting_machine_op) by done. reflexivity. Defined.

Lemma phase_success_iff_witness : GetPhase (summarise 20 waiting_machine) ≠ MachinePhaseSuccess.
Proof.
  intros [_ H]%(phase_success_iff 20 waiting_machine waiting_machine_op); [|done].
  assert (ConditionFalse = ConditionTrue); [|done].
  eapply (H (cond _ _ _ _)); [left|]. apply (bool_decide_unpack _). by vm_compute.
Defined.
