(* ===== verification/StatusInv.v ===== *)
(** * The invariant of a machine's status

    What every status the operator writes looks like, and that marking
    conditions and summarising them keeps it. *)

From S2P Require Import Prelude Types Conditions ConditionsFacts Summary StatusSpec.

(** The condition types the operator uses. *)
Definition known_types : list string :=
  ReadyCondition :: MachineConditionTypeMachineCreating :: ConditionsOrder.

(** A well-formed list of the operator's own conditions. *)
Definition cond_core (cs : list Condition) : Prop :=
  wf_conditions cs ∧ ∀ c, c ∈ cs → c_Type c ∈ known_types ∧ op_condition c.

(** The two conditions that are there from the start of a creation. *)
Definition initialised (cs : list Condition) : Prop :=
  MachineConditionTypeMachineReady ∈ types cs ∧
  MachineConditionTypeClusterOperationComplete ∈ types cs.

(** Either nothing was recorded yet, or both of them are there. *)
Definition armed (cs : list Condition) : Prop := cs = [] ∨ initialised cs.

Definition cond_inv (cs : list Condition) : Prop := cond_core cs ∧ armed cs.

(** [Success] is shown only for a machine that is ready and whose script
    completed, with no failing condition. *)
Definition success_truthful (st : MachineStatus) : Prop :=
  Phase st = MachinePhaseSuccess →
  IsConditionTrue (Conditions st) MachineConditionTypeMachineReady = true ∧
  IsConditionTrue (Conditions st) MachineConditionTypeClusterOperationComplete = true ∧
  ∀ c, c ∈ Conditions st → c_Type c ∈ ConditionsOrder → c_Status c = ConditionTrue.

Definition status_inv (st : MachineStatus) : Prop :=
  cond_inv (Conditions st) ∧ success_truthful st.

Definition empty_status : MachineStatus := {| Conditions := []; Phase := "" |}.

Lemma cond_core_nil : cond_core [].
Proof.
  split; [split; [apply NoDup_nil_2|constructor]|]. intros c Hc. by apply elem_of_nil in Hc.
Qed.

Lemma empty_status_inv : status_inv empty_status.
Proof. split; [|done]. split; [apply cond_core_nil|by left]. Qed.

(** ** Marks *)

Lemma Set_elem now (m : Machine) c0 c :
  NoDup (types (GetConditions m)) →
  c ∈ GetConditions (Set_ now m (Some c0)) →
  c = settled now m c0 ∨ (c ∈ GetConditions m ∧ c_Type c ≠ c_Type c0).
Proof.
  intros Hnd Hc. pose proof (Set_conditions_NoDup now m c0 Hnd) as [Hnd' _].
  pose proof (proj2 (find_cond_Some _ _ c Hnd') (conj Hc eq_refl)) as Hf.
  rewrite <- Get_find, Set_lookup in Hf by done.
  case_decide as Ht; [left; congruence|right].
  by apply find_cond_Some_1 in Hf as [? _].
Qed.

Lemma Set_types now (m : Machine) c0 t :
  NoDup (types (GetConditions m)) →
  t ∈ types (GetConditions m) → t ∈ types (GetConditions (Set_ now m (Some c0))).
Proof.
  intros Hnd Ht. apply dec_stable. intros Hn%find_cond_None.
  rewrite <- Get_find, Set_lookup in Hn by done.
  case_decide; [done|]. by apply find_cond_None in Hn.
Qed.

Lemma Set_own_type now (m : Machine) c0 :
  NoDup (types (GetConditions m)) →
  c_Type c0 ∈ types (GetConditions (Set_ now m (Some c0))).
Proof.
  intros Hnd. apply dec_stable. intros Hn%find_cond_None.
  rewrite <- Get_find, Set_lookup in Hn by done. by rewrite decide_True in Hn.
Qed.

Lemma op_condition_state (c c0 : Condition) :
  hasSameState c c0 = true → op_condition c0 → op_condition c.
Proof.
  intros (_ & Hs & _ & Hv & _)%hasSameState_eq. unfold op_condition. by rewrite Hs, Hv.
Qed.

Lemma cond_core_set now (m : Machine) c0 :
  cond_core (GetConditions m) → c_Type c0 ∈ known_types → op_condition c0 →
  cond_core (GetConditions (Set_ now m (Some c0))).
Proof.
  intros [[Hnd Hs] Hall] Ht Hop. split; [by apply Set_conditions_NoDup|].
  intros c [->|[Hc _]]%Set_elem; [|by apply Hall|done].
  rewrite settled_type. split; [done|].
  by eapply op_condition_state; [apply settled_same_state|].
Qed.

Lemma initialised_set now (m : Machine) c0 :
  NoDup (types (GetConditions m)) →
  initialised (GetConditions m) → initialised (GetConditions (Set_ now m (Some c0))).
Proof. intros Hnd [H1 H2]. split; by apply Set_types. Qed.

Lemma TrueCondition_op t : op_condition (TrueCondition t).
Proof. by left. Qed.

Lemma FalseCondition_op t reason message :
  op_condition (FalseCondition t reason ConditionSeverityError message).
Proof. by right. Qed.

(** A mark on conditions that were initialised. *)
Lemma cond_inv_mark now (m : Machine) c0 :
  cond_inv (GetConditions m) → initialised (GetConditions m) →
  c_Type c0 ∈ known_types → op_condition c0 →
  cond_inv (GetConditions (Set_ now m (Some c0))) ∧
  initialised (GetConditions (Set_ now m (Some c0))).
Proof.
  intros [Hc _] Hi Ht Hop. pose proof (proj1 (proj1 Hc)) as Hnd.
  split; [|by apply initialised_set]. split; [by apply cond_core_set|right; by apply initialised_set].
Qed.

(** ** The summary *)

Lemma cond_core_op cs : cond_core cs → op_conditions cs.
Proof. intros [[Hnd _] Hall]. split; [done|]. intros c Hc _. by apply Hall. Qed.

Lemma summary_spec_op cs rc :
  summary_spec cs = Some rc → c_Type rc = ReadyCondition ∧ op_condition rc.
Proof.
  unfold summary_spec. destruct (filter _ cs); [done|].
  destruct (first_failing cs); intros; simplify_eq; (split; [done|by (left + right)]).
Qed.

Lemma summarise_Set now (m : Machine) :
  cond_core (GetConditions m) →
  summarise now m = Set_ now m (summary_spec (GetConditions m)).
Proof. intros Hc. unfold summarise, SetSummary. by rewrite summary_is_spec by by apply cond_core_op. Qed.

Lemma cond_inv_summarise now (m : Machine) :
  cond_inv (GetConditions m) →
  cond_inv (GetConditions (summarise now m)) ∧
  (initialised (GetConditions m) → initialised (GetConditions (summarise now m))).
Proof.
  intros [Hc Hi]. rewrite summarise_Set by done.
  destruct (summary_spec (GetConditions m)) as [rc|] eqn:Hrc; [|done].
  destruct (summary_spec_op _ _ Hrc) as [Ht Hop]. destruct Hi as [Hnil|Hi].
  { by rewrite Hnil in Hrc. }
  assert (c_Type rc ∈ known_types) as Hk by (rewrite Ht; by left).
  destruct (cond_inv_mark now m rc) as [? ?]; [by split; [|right]|done..|done].
Qed.

(** The conditions that count are not touched by the summary. *)
Lemma summarise_in_order now (m : Machine) c :
  cond_core (GetConditions m) →
  c ∈ GetConditions (summarise now m) → c_Type c ∈ ConditionsOrder → c ∈ GetConditions m.
Proof.
  intros Hc Hin Ht. rewrite summarise_Set in Hin by done.
  destruct (summary_spec (GetConditions m)) as [rc|] eqn:Hrc; [|done].
  apply Set_elem in Hin as [->|[? _]]; [|done|apply Hc].
  rewrite settled_type, (proj1 (summary_spec_op _ _ Hrc)) in Ht.
  by apply Ready_not_in_order in Ht.
Qed.

Lemma initialised_in_order cs :
  cs ≠ [] → initialised cs → filter in_order cs ≠ [].
Proof.
  intros _ [Hr _] Hnil. apply list_elem_of_fmap in Hr as (c & Hc & Hin).
  apply (proj1 (filter_nil_iff in_order cs) Hnil c Hin), in_order_iff.
  rewrite <- Hc. by left.
Qed.

Lemma IsConditionTrue_type cs t :
  t ∈ types cs → (∀ c, c ∈ cs → c_Type c = t → c_Status c = ConditionTrue) →
  IsConditionTrue cs t = true.
Proof.
  intros (c & -> & Hc)%list_elem_of_fmap Hall. apply IsConditionTrue_spec. exists c. auto.
Qed.

(** What a status update writes satisfies the invariant. *)
Lemma updated_status_inv now (m : Machine) :
  cond_inv (GetConditions m) →
  status_inv (Status (set_Phase (summarise now m) (GetPhase (summarise now m)))).
Proof.
  intros Hinv. destruct (cond_inv_summarise now m Hinv) as [Hinv' Hi']. split; [done|].
  unfold success_truthful. simpl. intros Hp. destruct Hinv as [Hc [Hnil|Hi]].
  { exfalso. revert Hp. rewrite summarise_Set, Hnil by done.
    change (GetPhase m ≠ MachinePhaseSuccess). unfold GetPhase. rewrite Hnil. by case_match. }
  assert (GetConditions m ≠ []) as Hne by (intros Hn; destruct Hi as [Hr _];
    rewrite Hn in Hr; by apply elem_of_nil in Hr).
  apply summarise_success_iff in Hp as [_ Hall];
    [|by apply cond_core_op|by apply initialised_in_order].
  assert (∀ c, c ∈ GetConditions (summarise now m) → c_Type c ∈ ConditionsOrder →
            c_Status c = ConditionTrue) as Hall'
    by (intros c Hin Ht; eauto using summarise_in_order).
  destruct (Hi' Hi) as [Hr Hco].
  split_and!; [apply IsConditionTrue_type; [done|]|apply IsConditionTrue_type; [done|]|done];
    intros c Hin Ht; apply Hall'; [done| |done|]; rewrite Ht; by repeat (left + right).
Qed.
