(* ===== verification/States.v ===== *)
(** * The state of each condition

    A condition list seen as the state (status and reason) of each condition
    type: what a mark and a summary do to it, and the phase it stands for. *)

From S2P Require Import Prelude Types Conditions ConditionsFacts Summary StatusSpec StatusInv.

(** Status and reason of each condition that is there. *)
Definition States := string → option (string * string).

Definition states (cs : list Condition) : States :=
  λ t, (λ c, (c_Status c, c_Reason c)) <$> find_cond cs t.

(** Two views agree on everything but the summary. *)
Definition agree (f g : States) : Prop := ∀ t, t ≠ ReadyCondition → f t = g t.

Definition true_state : string * string := (ConditionTrue, "").
Definition false_state (reason : string) : string * string := (ConditionFalse, reason).

Definition set_state (f : States) (t : string) (x : string * string) : States :=
  λ t', if decide (t' = t) then Some x else f t'.

Definition is_true (f : States) (t : string) : bool :=
  match f t with Some (st, _) => bool_decide (st = ConditionTrue) | None => false end.

(** The reason of the first failing condition in [ConditionsOrder]. *)
Definition failing_reason (f : States) : option string :=
  head (omap (λ t, match f t with
                   | Some (st, r) => if decide (st = ConditionFalse) then Some r else None
                   | None => None
                   end) ConditionsOrder).

(** The phase of a machine that is not being deleted. *)
Definition phase_of (f : States) : string :=
  match failing_reason f with
  | Some r => reason_phase r
  | None => MachinePhaseSuccess
  end.

#[export] Instance agree_equiv : Equivalence agree.
Proof.
  split; [done|intros f g H t Ht; by rewrite H|].
  intros f g h H1 H2 t Ht. by rewrite H1, H2.
Qed.

#[export] Instance set_state_proper : Proper (agree ==> eq ==> eq ==> agree) set_state.
Proof. intros f g H t _ <- x _ <- t' Ht'. unfold set_state. case_decide; [done|]. by apply H. Qed.

Lemma ConditionsOrder_not_Ready t : t ∈ ConditionsOrder → t ≠ ReadyCondition.
Proof. intros Ht ->. by apply Ready_not_in_order in Ht. Qed.

#[export] Instance failing_reason_proper : Proper (agree ==> eq) failing_reason.
Proof.
  intros f g H. unfold failing_reason. apply head_omap_ext.
  intros t Ht%ConditionsOrder_not_Ready. by rewrite H.
Qed.

#[export] Instance phase_of_proper : Proper (agree ==> eq) phase_of.
Proof. intros f g H. unfold phase_of. by rewrite H. Qed.

(** ** Marks, summaries and phases *)

Lemma IsConditionTrue_states cs t :
  NoDup (types cs) → IsConditionTrue cs t = is_true (states cs) t.
Proof.
  intros Hnd. apply eq_bool_prop_intro. rewrite !Is_true_true, IsConditionTrue_spec.
  unfold is_true, states. destruct (find_cond cs t) as [c|] eqn:Hc; simpl.
  - rewrite bool_decide_eq_true. apply find_cond_Some in Hc as [Hin Ht]; [|done]. split; [|eauto].
    intros (c' & Hin' & Ht' & Hs). rewrite <- Hs.
    assert (Some c = Some c') as [= ->]; [|done].
    rewrite <- (proj2 (find_cond_Some cs t c Hnd) (conj Hin Ht)).
    by apply find_cond_Some.
  - split; [|done]. intros (c & Hin & <- & _). apply find_cond_None in Hc. destruct Hc.
    by apply list_elem_of_fmap_2.
Qed.

Lemma states_Set n (m : Machine) c0 t :
  NoDup (types (GetConditions m)) →
  states (GetConditions (Set_ n m (Some c0))) t =
    set_state (states (GetConditions m)) (c_Type c0) (c_Status c0, c_Reason c0) t.
Proof.
  intros Hnd. unfold states, set_state. rewrite <- !Get_find, Set_lookup by done.
  case_decide; [|done]. simpl.
  by destruct (hasSameState_eq _ _ (settled_same_state n m c0)) as (_ & -> & -> & _).
Qed.

Lemma states_summarise n (m : Machine) :
  cond_core (GetConditions m) →
  agree (states (GetConditions (summarise n m))) (states (GetConditions m)).
Proof.
  intros Hc t Ht. rewrite summarise_Set by done.
  destruct (summary_spec (GetConditions m)) as [rc|] eqn:Hrc; [|done].
  rewrite states_Set by apply Hc. unfold set_state.
  by rewrite decide_False by (by rewrite (proj1 (summary_spec_op _ _ Hrc))).
Qed.

Lemma cond_core_summarise n (m : Machine) :
  cond_core (GetConditions m) → cond_core (GetConditions (summarise n m)).
Proof.
  intros Hc. rewrite summarise_Set by done.
  destruct (summary_spec (GetConditions m)) as [rc|] eqn:Hrc; [|done].
  destruct (summary_spec_op _ _ Hrc) as [Ht Hop].
  apply cond_core_set; [done| |done]. rewrite Ht. by left.
Qed.

Lemma first_failing_reason cs : c_Reason <$> first_failing cs = failing_reason (states cs).
Proof.
  unfold first_failing, failing_reason. rewrite head_omap_fmap. apply head_omap_ext.
  intros t _. unfold find_failing, states. destruct (find_cond cs t) as [c|]; simpl; [|done].
  unfold failing. by repeat case_decide.
Qed.

(** The phase a status update computes, once a condition that counts is there. *)
Lemma summarise_phase_of n (m : Machine) :
  cond_core (GetConditions m) → deleting m = false →
  is_Some (states (GetConditions m) MachineConditionTypeMachineReady) →
  GetPhase (summarise n m) = phase_of (states (GetConditions m)).
Proof.
  intros Hc Hd [x Hx]. rewrite summarise_phase, Hd; [|by apply cond_core_op|].
  - unfold phase_of. rewrite <- first_failing_reason. by destruct (first_failing _).
  - intros Hnil. unfold states in Hx.
    destruct (find_cond _ _) as [c|] eqn:Hf; [|done]. apply find_cond_Some_1 in Hf as [Hin Ht].
    apply (proj1 (filter_nil_iff in_order _) Hnil c Hin), in_order_iff. rewrite Ht. by left.
Qed.

Lemma GetPhase_nonempty (m : Machine) : GetPhase m ≠ "".
Proof. unfold GetPhase. by repeat case_match. Qed.
