(* ===== verification/Effects.v ===== *)
(** * Effects: errors, external calls and the reconciler monad

    Everything the operator does outside its own memory is a [Call]: a request
    to the Kubernetes client, the [docker-machine] command, the file system,
    the EC2 and Azure clients, or a sleep.  What answers the calls is not part
    of the repository; it is the parameter [Services], about which nothing is
    assumed here.  A method of [MachineReconciler] is a computation in [M]: it
    reads and writes the receiver's [machineObj] (nil before the first
    successful [Get]), issues calls, and may panic.  The calls and their
    answers are recorded, in order, in a ghost [trace]. *)

From S2P Require Import Prelude Types.

(** ** Go errors *)

Inductive errno_kind := KNotExist | KExist | KOther.

#[export] Instance errno_kind_eq_dec : EqDecision errno_kind.
Proof. solve_decision. Defined.

Inductive error :=
| StatusError (reason : string) (code : Z) (msg : string)  (** API machinery *)
| errorString (msg : string)                               (** [errors.New], [fmt.Errorf] *)
| PathError (kind : errno_kind) (msg : string)             (** package [os] *)
| ForeignError (msg : string)                              (** [os/exec], AWS, Azure *)
| wrapError (msg : string) (e : error)                     (** [errors.Wrapf] *)
| joinError (e1 e2 : error).                               (** [errors.Join] *)

#[export] Instance error_eq_dec : EqDecision error.
Proof. solve_decision. Defined.

Definition newline : string := String (Ascii.ascii_of_nat 10) EmptyString.

Fixpoint Error (e : error) : string :=
  match e with
  | StatusError _ _ m | errorString m | PathError _ m | ForeignError m => m
  | wrapError m e => m +:+ ": " +:+ Error e
  | joinError e1 e2 => Error e1 +:+ newline +:+ Error e2
  end.

(** [errors.As] to an [APIStatus], which visits joined errors in order. *)
Fixpoint asAPIStatus (e : error) : option (string * Z) :=
  match e with
  | StatusError r c _ => Some (r, c)
  | wrapError _ e => asAPIStatus e
  | joinError e1 e2 =>
      match asAPIStatus e1 with Some s => Some s | None => asAPIStatus e2 end
  | _ => None
  end.

Definition reasonAndCodeForError (e : error) : string * Z :=
  default ("", 0) (asAPIStatus e).

Definition knownReasons : list string :=
  [ "Unauthorized"; "Forbidden"; "NotFound"; "AlreadyExists"; "Conflict"; "Gone";
    "Invalid"; "ServerTimeout"; "StoreReadError"; "Timeout"; "TooManyRequests";
    "BadRequest"; "MethodNotAllowed"; "NotAcceptable"; "RequestEntityTooLarge";
    "UnsupportedMediaType"; "InternalError"; "Expired"; "ServiceUnavailable" ].

(** [kerr.IsNotFound]. *)
Definition IsNotFound (e : error) : bool :=
  let '(reason, code) := reasonAndCodeForError e in
  bool_decide (reason = "NotFound") ||
  (bool_decide (reason ∉ knownReasons) && bool_decide (code = 404)).

Definition os_IsNotExist (e : error) : bool :=
  match e with PathError KNotExist _ => true | _ => false end.

Definition os_IsExist (e : error) : bool :=
  match e with PathError KExist _ => true | _ => false end.

(** A Go result [(A, error)]: a value or an error. *)
Definition Res (A : Type) : Type := A + error.

(** ** Data exchanged with the cloud SDKs *)

Record awsAuthCredential := { accessKey : string; secretKey : string; region : string }.

Record Vpc := { vpc_VpcId : option string; vpc_State : option string }.
Record RouteTable := { rt_VpcId : option string; rt_RouteTableId : option string }.
Record Subnet := { sn_SubnetId : option string }.
Record InternetGateway := { igw_InternetGatewayId : option string }.
Record SecurityGroup := { sg_GroupId : option string }.

Record AzureCredential := {
  ClientID : string; ClientSecret : string; TenantID : string; SubscriptionID : string
}.

Record ExecResult := { ex_err : option error; ex_stdout : string; ex_stderr : string }.

Inductive PatchKind := MergeFrom | StrategicMergeFrom.

(** ** Calls *)

Inductive Call : Type → Type :=
(* controller-runtime client *)
| KGVKForObject (obj : Machine) : Call (Res string)
| KGetMachine (key : ObjectKey) : Call (Res Machine)
| KGetSecret (key : ObjectKey) : Call (Res Secret)
| KCreate (obj : Machine) : Call (Res Machine)
| KPatch (kind : PatchKind) (cur mod_ : Machine) : Call (Res Machine)
| KStatusPatch (old obj : Machine) : Call (Res Machine)
(* os/exec, os, time *)
| Exec (timeout : option Z) (name : string) (args : list string) : Call ExecResult
| OsStat (path : string) : Call (Res unit)
| OsWriteFile (path data : string) (perm : Z) : Call (Res unit)
| OsRemove (path : string) : Call (Res unit)
| OsOpen (path : string) : Call (Res string)
| Sleep (d : Z) : Call unit
(* EC2; the client is identified by the credentials of its session *)
| AwsNewSession (cred : awsAuthCredential) : Call (Res unit)
| CreateVpc (c : awsAuthCredential) (cidr : string) : Call (Res (option Vpc))
| DescribeVpcs (c : awsAuthCredential) (ids : list string) : Call (Res (list (option Vpc)))
| DeleteVpc (c : awsAuthCredential) (id : string) : Call (Res unit)
| CreateSubnet (c : awsAuthCredential) (cidr vpc zone : string) : Call (Res (option Subnet))
| DeleteSubnet (c : awsAuthCredential) (id : string) : Call (Res unit)
| CreateInternetGateway (c : awsAuthCredential) : Call (Res (option InternetGateway))
| AttachInternetGateway (c : awsAuthCredential) (gw vpc : string) : Call (Res unit)
| DetachInternetGateway (c : awsAuthCredential) (gw vpc : string) : Call (Res unit)
| DeleteInternetGateway (c : awsAuthCredential) (gw : string) : Call (Res unit)
| DescribeRouteTables (c : awsAuthCredential) : Call (Res (list (option RouteTable)))
| CreateRoute (c : awsAuthCredential) (cidr gw : string) (rt : option string) : Call (Res unit)
| DeleteRoute (c : awsAuthCredential) (cidr : string) (rt : option string) : Call (Res unit)
| DescribeSecurityGroups (c : awsAuthCredential) (vpc : string)
    : Call (Res (list (option SecurityGroup)))
| DeleteSecurityGroup (c : awsAuthCredential) (gid : option string) : Call (Res unit)
(* Azure *)
| AzNewClientSecretCredential (tenant client secret : string) : Call (Res unit)
| AzNewResourceGroupsClient (subscription : string) : Call (Res unit)
| AzBeginDelete (cred : AzureCredential) (group : string) : Call (Res string)
| AzPollUntilDone (poller : string) : Call (Res unit).

Inductive Event :=
| Ev {X : Type} (c : Call X) (answer : X).

(** ** Services

    What answers the calls.  [World] is everything outside the process; the
    wall clock (in seconds) and the unspecified order in which Go ranges over
    a map are read from it. *)
Class Services (World : Type) := {
  serve : ∀ {X}, Call X → World → X * World;
  clock : World → Z;
  range_order : World → gmap string string → list (string * string);
  range_order_perm : ∀ w m, range_order w m ≡ₚ map_to_list m
}.

(** ** The monad *)

Inductive Outcome (A : Type) := Normal (a : A) | Panic (msg : string).
Arguments Normal {_} _.
Arguments Panic {_} _.

Section Monad.
Context {World : Type}.

Record St := mkSt {
  world : World;
  machineObj : option Machine;
  trace : list Event
}.

Definition M (A : Type) : Type := St → Outcome A * St.

#[export] Instance M_ret : MRet M := λ A a s, (Normal a, s).

#[export] Instance M_bind : MBind M := λ A B k m s,
  match m s with
  | (Normal a, s') => k a s'
  | (Panic msg, s') => (Panic msg, s')
  end.

Definition panic {A} (msg : string) : M A := λ s, (Panic msg, s).

(** Dereferencing a pointer. *)
Definition deref {A} (p : option A) : M A :=
  match p with
  | Some a => mret a
  | None => panic "nil pointer dereference"
  end.

(** [r.machineObj], used as a pointer to a machine. *)
Definition the_machine : M Machine := λ s, deref (machineObj s) s.

Definition put_machine (m : Machine) : M unit := λ s,
  (Normal tt, mkSt (world s) (Some m) (trace s)).

(** [if err != nil { return err }] after a call that returns [(A, error)]. *)
Definition tryE {A B} (m : M (Res A)) (k : A → M (Res B)) : M (Res B) :=
  r ← m;
  match r with
  | inl a => k a
  | inr e => mret (inr e)
  end.

Context `{SV : !Services World}.

Definition call {X} (c : Call X) : M X := λ s,
  let '(x, w) := serve c (world s) in
  (Normal x, mkSt w (machineObj s) (trace s ++ [Ev c x])).

Definition now : M Z := λ s, (Normal (clock (world s)), s).

Definition range (m : gmap string string) : M (list (string * string)) := λ s,
  (Normal (range_order (world s) m), s).
End Monad.

Arguments St : clear implicits.
Arguments M : clear implicits.

Definition ok {World} : M World (Res unit) := mret (inl tt).
Definition fail {World A} (e : error) : M World (Res A) := mret (inr e).

Notation "x ←? y ; z" := (tryE y (λ x : _, z))
  (at level 20, y at level 100, z at level 200, only parsing) : go_scope.
Notation "' x ←? y ; z" := (tryE y (λ x : _, z))
  (at level 20, x pattern, y at level 100, z at level 200, only parsing) : go_scope.
