(* ===== verification/Kube.v ===== *)
(** * Status, finalizers and annotations of a machine

    The methods of [pkg/controller/util.go] that read and write the Machine
    object, on top of the client helpers they use: [CreateOrPatch] of
    [kmodules.xyz/client-go/client], the status committer of
    [conditions/committer], the finalizer helpers of [core/v1] and of
    [controllerutil]. *)

From S2P Require Import Prelude GoLib Types Conditions ConditionsFacts Summary Effects.

(** ** Finalizers *)

Definition ContainsFinalizer (o : Machine) (finalizer : string) : bool :=
  existsb (λ e, bool_decide (e = finalizer)) (Finalizers (Meta o)).

Definition AddFinalizer (m : ObjectMeta) (finalizer : string) : ObjectMeta :=
  if existsb (λ name, bool_decide (name = finalizer)) (Finalizers m) then m
  else set_Finalizers m (Finalizers m ++ [finalizer]).

Definition RemoveFinalizer (m : ObjectMeta) (finalizer : string) : ObjectMeta :=
  set_Finalizers m (filter (λ name, name ≠ finalizer) (Finalizers m)).

Definition VerbCreated : string := "created".
Definition VerbDeleted : string := "deleted".

(** The transformation [patchFinalizer] hands to [CreateOrPatch]. *)
Definition finalizer_transform (verbType finalizerName : string) (mc : Machine) : Machine :=
  if decide (verbType = VerbCreated) then set_Meta mc (AddFinalizer (Meta mc) finalizerName)
  else if decide (verbType = VerbDeleted) then
    set_Meta mc (RemoveFinalizer (Meta mc) finalizerName)
  else mc.

(** The transformation [patchAnnotation] hands to [CreateOrPatch]. *)
Definition annotation_transform (key value : string) (mc : Machine) : Machine :=
  let anno := default ∅ (Annotations (Meta mc)) in
  set_Meta mc (set_Annotations (Meta mc) (Some (<[key := value]> anno))).

Definition isOfficialTypes (group : string) : bool := negb (strings_Contains group ".").

Definition tempDirectory : string := "tmp".

(** ** Results of a reconciliation *)

Record Result := { RequeueAfter : Z }.
Definition Result_zero : Result := {| RequeueAfter := 0 |}.

Section Kube.
Context {World : Type} `{SV : !Services World}.

(** [MarkTrue] and [MarkFalse] on [r.machineObj]. *)
Definition mark_true (t : string) : M World unit :=
  n ← now; m ← the_machine; put_machine (MarkTrue n m t).

Definition mark_false (t reason severity message : string) : M World unit :=
  n ← now; m ← the_machine; put_machine (MarkFalse n m t reason severity message).

(** [CreateOrPatch] applied to [r.machineObj].  The returned verb, which both
    callers discard, is not computed. *)
Definition CreateOrPatch (transform : Machine → Machine) : M World (Res unit) :=
  obj ← the_machine;
  g ← call (KGVKForObject obj);
  match g with
  | inr e => fail (wrapError "failed to get GVK for object *v1alpha1.Machine" e)
  | inl group =>
      r ← call (KGetMachine (machine_key obj));
      match r with
      | inr e =>
          if IsNotFound e then
            let mod_ := transform obj in
            created ←? call (KCreate (set_Meta mod_ (set_ResourceVersion (Meta mod_) "")));
            _ ← put_machine created; ok
          else fail e
      | inl cur =>
          let kind := if isOfficialTypes group then StrategicMergeFrom else MergeFrom in
          patched ←? call (KPatch kind cur (transform cur));
          _ ← put_machine patched; ok
      end
  end.

(** [NewStatusCommitter]: patch the status when it changed; the answer
    replaces the object. *)
Definition committer (old obj : Machine) : M World (Res unit) :=
  if decide (GetStatus old = GetStatus obj) then ok
  else
    answer ←? call (KStatusPatch old obj);
    _ ← put_machine answer; ok.

Definition updateMachineStatus (namespacedName : ObjectKey) : M World (Res unit) :=
  machine ←? call (KGetMachine namespacedName);
  n ← now;
  m ← the_machine;
  let m1 := SetSummary n m [WithConditions ConditionsOrder] in
  let m2 := set_Phase m1 (GetPhase m1) in
  _ ← put_machine m2;
  committer machine m2.

(** [updateMachineStatus] on the key of [r.machineObj]. *)
Definition update_own_status : M World (Res unit) :=
  m ← the_machine; updateMachineStatus (machine_key m).

Definition setInitialConditions : M World (Res unit) :=
  _ ← mark_false MachineConditionTypeMachineReady ReasonMachineCreating
        ConditionSeverityError "Waiting for Machine to become ready";
  _ ← mark_false MachineConditionTypeClusterOperationComplete ReasonWaitingForScriptRun
        ConditionSeverityError "Waiting for Script to run";
  update_own_status.

Definition patchFinalizer (verbType finalizerName : string) : M World (Res unit) :=
  CreateOrPatch (finalizer_transform verbType finalizerName).

Definition patchAnnotation (key value : string) : M World (Res unit) :=
  CreateOrPatch (annotation_transform key value).

Definition ensureFinalizer : M World (Res unit) :=
  let finalizerName := GetFinalizer in
  m ← the_machine;
  if ContainsFinalizer m finalizerName then ok
  else patchFinalizer VerbCreated finalizerName.

Definition isMarkedForDeletion : M World bool :=
  m ← the_machine; mret (negb (Time_IsZero (DeletionTimestamp (Meta m)))).

Definition reconciled : M World (Result * option error) := mret (Result_zero, None).

(** [msg] is only logged. *)
Definition requeueWithError (msg : string) (err : error) : M World (Result * option error) :=
  upd ← update_own_status;
  match upd with
  | inr updErr => mret (Result_zero, Some updErr)
  | inl _ => mret (Result_zero, Some err)
  end.

Definition getSecret (secretRef : option ObjectReference) : M World (Res Secret) :=
  ref ← deref secretRef;
  call (KGetSecret (ref_ObjectKey ref)).

Definition getScriptFilePath : M World string :=
  m ← the_machine;
  mret ("/" +:+ tempDirectory +:+ "/" +:+ Namespace (Meta m) +:+ "-" +:+ Name (Meta m) +:+ "-startup.sh").

(** ** [waitForState]

    [t] counts in 64-bit nanoseconds; [None] when the fuel runs out. *)
Fixpoint wait_loop (fuel : nat) (retry timeout t : Z) (getStatus : M World (Res bool))
    : M World (option (Res unit)) :=
  match fuel with
  | O => mret None
  | S fuel =>
      if t <=? timeout then
        r ← getStatus;
        match r with
        | inr e => mret (Some (inr e))
        | inl true => mret (Some (inl tt))
        | inl false =>
            _ ← call (Sleep retry);
            wait_loop fuel retry timeout (int64_add t retry) getStatus
        end
      else mret (Some (inr (errorString "failed to get desired status")))
  end.

(** Enough for every iteration when [retry] is positive. *)
Definition wait_fuel (retry timeout : Z) : nat := Z.to_nat (timeout / retry + 2).

Definition waitForState (retry timeout : Z) (getStatus : M World (Res bool))
    : M World (Res unit) :=
  r ← wait_loop (wait_fuel retry timeout) retry timeout 0 getStatus;
  match r with
  | Some res => mret res
  | None => panic "waitForState does not terminate"
  end.
End Kube.

(** ** Finalizers and transformations *)

Lemma existsb_finalizer f l :
  existsb (λ e : string, bool_decide (e = f)) l = true ↔ f ∈ l.
Proof.
  rewrite existsb_elem. setoid_rewrite bool_decide_eq_true. naive_solver.
Qed.

Lemma ContainsFinalizer_spec m f : ContainsFinalizer m f = true ↔ f ∈ Finalizers (Meta m).
Proof. apply existsb_finalizer. Qed.

Lemma AddFinalizer_mono om f g : g ∈ Finalizers om → g ∈ Finalizers (AddFinalizer om f).
Proof. unfold AddFinalizer. case_match; simpl; set_solver. Qed.

Lemma AddFinalizer_in om f : f ∈ Finalizers (AddFinalizer om f).
Proof.
  unfold AddFinalizer. case_match eqn:H; simpl; [by apply existsb_finalizer|set_solver].
Qed.

Lemma finalizer_transform_key verb f m : machine_key (finalizer_transform verb f m) = machine_key m.
Proof.
  unfold finalizer_transform, AddFinalizer. repeat case_decide; [|done|done]. by case_match.
Qed.

Lemma annotation_transform_key k v m : machine_key (annotation_transform k v m) = machine_key m.
Proof. done. Qed.
