(* ===== verification/Aws.v ===== *)
(** * The AWS environment of a machine

    [pkg/controller/aws.go] and [aws_region.go]: the VPC, subnet, internet
    gateway and route a machine with driver [amazonec2] runs in, recorded in
    annotations of the Machine object, their removal, and the command-line
    arguments derived from them. *)

From S2P Require Import Prelude GoLib Types Effects Kube.

Definition GoogleDriver : string := "google".
Definition AWSDriver : string := "amazonec2".
Definition AzureDriver : string := "azure".

Definition awsAccessKeyField : string := "amazonec2-access-key".
Definition awsSecretKeyField : string := "amazonec2-secret-key".
Definition awsRegionField : string := "amazonec2-region".
Definition awsVPCIDAnnotation : string := "docker-machine-operator/aws-vpc".
Definition awsSubnetIDAnnotation : string := "docker-machine-operator/aws-subnet".
Definition awsInternetGatewayIDAnnotation : string := "docker-machine-operator/aws-gateway".
Definition awsVpcCIDR : string := "10.1.0.0/16".
Definition allowAllIPs : string := "0.0.0.0/0".
Definition defaultZone : string := "a".
Definition regionParameter : string := "amazonec2-region".

(** ** [aws_region.go] *)

Definition amiIDs : list (string * string) :=
  [ ("ap-south-2", "ami-00680cef23a721c2a");
    ("ap-south-1", "ami-0c2af51e265bd5e0e");
    ("eu-south-1", "ami-05dfcfdd4f0f2620f");
    ("eu-south-2", "ami-0549851bafe151f6c");
    ("me-central-1", "ami-0a389865294dadfe2");
    ("il-central-1", "ami-01bbc242f90fb2d97");
    ("ca-central-1", "ami-048ddca51ab3229ab");
    ("eu-central-1", "ami-07652eda1fbad7432");
    ("eu-central-2", "ami-02871ac2c044b004f");
    ("us-west-1", "ami-0ecaad63ed3668fca");
    ("us-west-2", "ami-0075013580f6322a1");
    ("af-south-1", "ami-0e806decb501416d7");
    ("eu-north-1", "ami-07a0715df72e58928");
    ("eu-west-3", "ami-0062b622072515714");
    ("eu-west-2", "ami-07d20571c32ba6cdc");
    ("eu-west-1", "ami-0932dacac40965a65");
    ("ap-northeast-3", "ami-0a70c5266db4a6202");
    ("ap-northeast-2", "ami-056a29f2eddc40520");
    ("me-south-1", "ami-0674e550ebeaf53d0");
    ("ap-northeast-1", "ami-0162fe8bfebb6ea16");
    ("sa-east-1", "ami-01a38093d387a7497");
    ("ap-east-1", "ami-01412724cbc6252ef");
    ("ca-west-1", "ami-08fa6bf45a9f39b9e");
    ("ap-southeast-1", "ami-0497a974f8d5dcef8");
    ("ap-southeast-2", "ami-0375ab65ee943a2a6");
    ("ap-southeast-3", "ami-06a2e6561950f5040");
    ("ap-southeast-4", "ami-0d5de3084c18e52d9");
    ("us-east-1", "ami-0a0e5d9c7acc336f1");
    ("us-east-2", "ami-003932de22c285676") ].

Definition amiID (region : string) : string :=
  map_index (list_to_map amiIDs) region.

Definition getAMIIDArg (m : Machine) : list string :=
  let region := map_index (Parameters (Spec m)) awsRegionField in
  if decide (amiID region ≠ "") then ["--amazonec2-ami"; amiID region] else [].

(** [err], or [errors.Join(err, er)] when undoing failed too. *)
Definition join_undo (err : error) (er : Res unit) : error :=
  match er with
  | inl _ => err
  | inr er => joinError err er
  end.

(** A deletion error about something that does not exist is only logged. *)
Definition ignore_missing (r : Res unit) : Res unit :=
  match r with
  | inl _ => inl tt
  | inr e => if strings_Contains (Error e) "does not exist" then inl tt else inr e
  end.

Section Aws.
Context {World : Type} `{SV : !Services World}.

Definition driverName : M World string :=
  m ← the_machine; d ← deref (Driver (Spec m)); mret (lor_Name d).

Definition getAnnotationsArgsForAWS : M World (list string) :=
  d ← driverName;
  m ← the_machine;
  mret (if decide (d = AWSDriver) then
          (if decide (annotation m awsVPCIDAnnotation ≠ "")
           then ["--amazonec2-vpc-id"; annotation m awsVPCIDAnnotation] else []) ++
          (if decide (annotation m awsSubnetIDAnnotation ≠ "")
           then ["--amazonec2-subnet-id"; annotation m awsSubnetIDAnnotation] else [])
        else []).

(** ** Credentials and clients *)

Definition getAWSCredentials : M World (Res awsAuthCredential) :=
  m ← the_machine;
  authSecret ←? getSecret (AuthSecret (Spec m));
  let ak := map_index (Data authSecret) awsAccessKeyField in
  let sk := map_index (Data authSecret) awsSecretKeyField in
  if str_empty ak || str_empty sk then fail (errorString "auth secret not found")
  else
    let rg := map_index (Parameters (Spec m)) awsRegionField in
    if bool_decide (sk = "") || bool_decide (ak = "") || bool_decide (rg = "") then
      fail (errorString "failed to get aws credentials or region")
    else mret (inl {| accessKey := ak; secretKey := sk; region := rg |}).

Definition newAWSClientSession : M World (Res awsAuthCredential) :=
  cred ←? getAWSCredentials;
  _ ←? call (AwsNewSession cred);
  mret (inl cred).

(** [ec2.New] on the session. *)
Definition awsEC2Client : M World (Res awsAuthCredential) := newAWSClientSession.

(** ** Routes *)

(** The last route table of the VPC. *)
Fixpoint last_route_table (vpcId : string) (rts : list (option RouteTable))
    (routeTable : option RouteTable) : M World (option RouteTable) :=
  match rts with
  | [] => mret routeTable
  | p :: rest =>
      rt ← deref p;
      id ← deref (rt_VpcId rt);
      last_route_table vpcId rest (if decide (id = vpcId) then Some rt else routeTable)
  end.

Definition no_route_table (vpcId : string) : error :=
  errorString ("no route table found in vpc " +:+ vpcId).

Definition createAwsRoute (c : awsAuthCredential) (vpcId internetGatewayID : string)
    : M World (Res unit) :=
  out ←? call (DescribeRouteTables c);
  routeTable ← last_route_table vpcId out None;
  match routeTable with
  | None => fail (no_route_table vpcId)
  | Some rt =>
      _ ←? call (CreateRoute c allowAllIPs internetGatewayID (rt_RouteTableId rt));
      ok
  end.

Definition deleteAwsRoute (c : awsAuthCredential) (vpcId : string) : M World (Res unit) :=
  out ←? call (DescribeRouteTables c);
  routeTable ← last_route_table vpcId out None;
  match routeTable with
  | None => fail (no_route_table vpcId)
  | Some rt =>
      _ ←? call (DeleteRoute c allowAllIPs (rt_RouteTableId rt));
      ok
  end.

(** ** Internet gateway *)

Definition attachInternetGatewayToVPC (c : awsAuthCredential) (internetGatewayId vpcID : string)
    : M World (Res unit) :=
  call (AttachInternetGateway c internetGatewayId vpcID).

Definition detachInternetGatewayToVPC (c : awsAuthCredential) (internetGatewayID vpcID : string)
    : M World (Res unit) :=
  call (DetachInternetGateway c internetGatewayID vpcID).

Definition deleteAwsInternetGateway (c : awsAuthCredential) (gatewayId vpcId : string)
    : M World (Res unit) :=
  _ ← deleteAwsRoute c vpcId;
  _ ← detachInternetGatewayToVPC c gatewayId vpcId;
  r ← call (DeleteInternetGateway c gatewayId);
  mret (ignore_missing r).

Definition createAwsInternetGateway (c : awsAuthCredential) (vpcId : string)
    : M World (Res unit) :=
  out ←? call (CreateInternetGateway c);
  igw ← deref out;
  gw ← deref (igw_InternetGatewayId igw);
  r ← attachInternetGatewayToVPC c gw vpcId;
  match r with
  | inr err =>
      er ← deleteAwsInternetGateway c gw vpcId;
      fail (join_undo err er)
  | inl _ =>
      r ← createAwsRoute c vpcId gw;
      match r with
      | inr err =>
          er ← deleteAwsInternetGateway c gw vpcId;
          fail (join_undo err er)
      | inl _ => patchAnnotation awsInternetGatewayIDAnnotation gw
      end
  end.

(** ** Subnet *)

Definition deleteAwsSubnet (c : awsAuthCredential) (subnetId : string) : M World (Res unit) :=
  m ← the_machine;
  _ ← (if decide (annotation m awsInternetGatewayIDAnnotation ≠ "") then
         deleteAwsInternetGateway c (annotation m awsInternetGatewayIDAnnotation)
           (annotation m awsVPCIDAnnotation)
       else ok);
  r ← call (DeleteSubnet c subnetId);
  mret (ignore_missing r).

Definition createAwsSubnet (c : awsAuthCredential) (vpcID : string) : M World (Res unit) :=
  m ← the_machine;
  let rg := map_index (Parameters (Spec m)) regionParameter in
  if decide (rg = "") then fail (errorString "region not specified")
  else
    out ←? call (CreateSubnet c awsVpcCIDR vpcID (rg +:+ defaultZone));
    r ← createAwsInternetGateway c vpcID;
    sn ← deref out;
    subnetId ← deref (sn_SubnetId sn);
    match r with
    | inr err =>
        er ← deleteAwsSubnet c subnetId;
        fail (join_undo err er)
    | inl _ => patchAnnotation awsSubnetIDAnnotation subnetId
    end.

(** ** Security groups *)

(** Errors of the single deletions are only logged. *)
Fixpoint delete_groups (c : awsAuthCredential) (sgs : list (option SecurityGroup))
    : M World (Res unit) :=
  match sgs with
  | [] => ok
  | p :: rest =>
      sg ← deref p;
      _ ← call (DeleteSecurityGroup c (sg_GroupId sg));
      _ ← deref (sg_GroupId sg);
      delete_groups c rest
  end.

Definition deleteSecurityGroup (c : awsAuthCredential) (vpcId : string) : M World (Res unit) :=
  des ←? call (DescribeSecurityGroups c vpcId);
  delete_groups c des.

(** ** VPC *)

Fixpoint find_vpc (vpcId : string) (vpcs : list (option Vpc)) : M World (Res Vpc) :=
  match vpcs with
  | [] => fail (errorString ("no vpc found with id " +:+ vpcId))
  | p :: rest =>
      vpc ← deref p;
      id ← deref (vpc_VpcId vpc);
      if decide (id = vpcId) then mret (inl vpc) else find_vpc vpcId rest
  end.

Definition getVPC (c : awsAuthCredential) (vpcId : option string) : M World (Res Vpc) :=
  id ← deref vpcId;
  out ←? call (DescribeVpcs c [id]);
  find_vpc id out.

Definition deleteAwsVpc (c : awsAuthCredential) (vpcID : string) : M World (Res unit) :=
  m ← the_machine;
  if decide (annotation m awsVPCIDAnnotation = "") then ok
  else
    _ ← (if decide (annotation m awsSubnetIDAnnotation ≠ "") then
           deleteAwsSubnet c (annotation m awsSubnetIDAnnotation)
         else ok);
    _ ←? deleteSecurityGroup c vpcID;
    r ← call (DeleteVpc c vpcID);
    mret (ignore_missing r).

(** The closure [createAwsVpc] polls. *)
Definition vpc_available (c : awsAuthCredential) (vpcId : option string) : M World (Res bool) :=
  vpc ←? getVPC c vpcId;
  st ← deref (vpc_State vpc);
  mret (inl (bool_decide (st = "available"))).

(** The first half of [createAwsVpc]: the VPC of the annotation, or a new
    one, recorded and waited for. *)
Definition obtain_vpc (c : awsAuthCredential) : M World (Res Vpc) :=
  m ← the_machine;
  if decide (annotation m awsVPCIDAnnotation = "") then
    out ←? call (CreateVpc c awsVpcCIDR);
    vpc ← deref out;
    id ← deref (vpc_VpcId vpc);
    _ ←? patchAnnotation awsVPCIDAnnotation id;
    r ← waitForState (5 * Second) (1 * Minute) (vpc_available c (vpc_VpcId vpc));
    match r with
    | inr err =>
        er ← deleteAwsVpc c id;
        fail (join_undo err er)
    | inl _ => mret (inl vpc)
    end
  else getVPC c (Some (annotation m awsVPCIDAnnotation)).

Definition createAwsVpc (c : awsAuthCredential) : M World (Res unit) :=
  vpc ←? obtain_vpc c;
  m ← the_machine;
  id ← deref (vpc_VpcId vpc);
  if decide (annotation m awsSubnetIDAnnotation = "") then
    r ← createAwsSubnet c id;
    match r with
    | inr err =>
        er ← deleteAwsVpc c id;
        fail (join_undo err er)
    | inl _ => ok
    end
  else ok.

Definition createAWSEnvironment : M World (Res unit) :=
  m ← the_machine;
  if decide (annotation m awsVPCIDAnnotation ≠ "" ∧ annotation m awsSubnetIDAnnotation ≠ "" ∧
             annotation m awsInternetGatewayIDAnnotation ≠ "") then ok
  else
    c ←? awsEC2Client;
    createAwsVpc c.

Definition cleanupAWSResources : M World (Res unit) :=
  c ←? awsEC2Client;
  m ← the_machine;
  deleteAwsVpc c (annotation m awsVPCIDAnnotation).
End Aws.
