(* ===== verification/Azure.v ===== *)
(** * Removing the Azure resource group of a machine

    [pkg/controller/azure.go]. *)

From S2P Require Import Prelude Types Effects Kube.

Definition azureSubscriptionIDKeyField : string := "azure-subscription-id".
Definition azureTenantIDKeyField : string := "azure-tenant-id".
Definition azureClientIDKeyField : string := "azure-client-id".
Definition azureClientSecretKeyField : string := "azure-client-secret".
Definition azureResourceGroupParam : string := "azure-resource-group".
Definition defaultAzureResourceGroup : string := "docker-machine".

(** [getResourceGroupName]: the parameter if present, even when empty. *)
Definition getResourceGroupName (m : Machine) : string :=
  match Parameters (Spec m) !! azureResourceGroupParam with
  | Some rgName => rgName
  | None => defaultAzureResourceGroup
  end.

Section Azure.
Context {World : Type} `{SV : !Services World}.

Definition getAzureCredential : M World (Res AzureCredential) :=
  m ← the_machine;
  authSecret ←? getSecret (AuthSecret (Spec m));
  let field := map_index (Data authSecret) in
  if str_empty (field azureSubscriptionIDKeyField) ||
     str_empty (field azureTenantIDKeyField) ||
     str_empty (field azureClientIDKeyField) ||
     str_empty (field azureClientSecretKeyField) then
    fail (errorString "auth secret not found")
  else
    mret (inl {| SubscriptionID := field azureSubscriptionIDKeyField;
                 TenantID := field azureTenantIDKeyField;
                 ClientID := field azureClientIDKeyField;
                 ClientSecret := field azureClientSecretKeyField |}).

Definition deleteAzureResourceGroup : M World (Res unit) :=
  _ ← the_machine;
  azureCred ←? getAzureCredential;
  _ ←? call (AzNewClientSecretCredential (TenantID azureCred) (ClientID azureCred)
               (ClientSecret azureCred));
  _ ←? call (AzNewResourceGroupsClient (SubscriptionID azureCred));
  m ← the_machine;
  poller ←? call (AzBeginDelete azureCred (getResourceGroupName m));
  _ ←? call (AzPollUntilDone poller);
  ok.
End Azure.
