(* ===== verification/Cleanup.v ===== *)
(** * Cleaning up a machine that is being deleted

    The deletion half of [pkg/controller/util.go]: local files, the docker
    machine itself, the cloud resources of its driver, and then the
    finalizer. *)

From S2P Require Import Prelude Types Effects Kube Aws Azure.

(** [client.IgnoreNotFound] on a non-nil error. *)
Definition IgnoreNotFound (err : error) : Res unit :=
  if IsNotFound err then inl tt else inr err.

Section Cleanup.
Context {World : Type} `{SV : !Services World}.

(** [os.Remove], where only an error that satisfies [os.IsExist] counts. *)
Definition remove_file (path : string) : M World (Res unit) :=
  r ← call (OsRemove path);
  match r with
  | inr err => if os_IsExist err then fail err else ok
  | inl _ => ok
  end.

Definition deleteFiles : M World (Res unit) :=
  path ← getScriptFilePath;
  _ ←? remove_file path;
  remove_file (tempDirectory +:+ "result.txt").

Definition deleteDockerMachine : M World (Res unit) :=
  m ← the_machine;
  out ← call (Exec None "docker-machine" ["rm"; Name (Meta m); "-y"]);
  match ex_err out with
  | Some err => mret (IgnoreNotFound err)
  | None => ok
  end.

(** The [switch] over the driver at the end of [cleanupMachineResources]. *)
Definition cleanup_cloud : M World (Res unit) :=
  d ← driverName;
  if decide (d = AWSDriver) then cleanupAWSResources
  else if decide (d = AzureDriver) then deleteAzureResourceGroup
  else ok.

Definition cleanupMachineResources : M World (Res unit) :=
  _ ←? deleteFiles;
  _ ←? deleteDockerMachine;
  cleanup_cloud.

Definition removeFinalizerAfterCleanup : M World (Res unit) :=
  let finalizerName := GetFinalizer in
  m ← the_machine;
  if ContainsFinalizer m finalizerName then
    _ ←? update_own_status;
    _ ←? cleanupMachineResources;
    patchFinalizer VerbDeleted finalizerName
  else ok.
End Cleanup.
