(* ===== verification/Cluster.v ===== *)
(** * Watching the start-up script

    [pkg/controller/cluster.go]: fetch the script's result file from the
    machine and turn the number in it into a condition. *)

From S2P Require Import Prelude GoLib Types Conditions Effects Kube Aws.

Definition resultFile : string := "/tmp/result.txt".

Definition getDefaultUser (driverName : string) : string :=
  if decide (driverName = GoogleDriver) then "docker-user"
  else if decide (driverName = AWSDriver) then "ubuntu"
  else if decide (driverName = AzureDriver) then "docker-user"
  else "".

Section Cluster.
Context {World : Type} `{SV : !Services World}.

Definition getScpArgs : M World (list string) :=
  m ← the_machine;
  d ← driverName;
  mret ["scp"; getDefaultUser d +:+ "@" +:+ Name (Meta m) +:+ ":/tmp/result.txt"; "/tmp"].

Definition create_failed : error := errorString "failed to create cluster".

(** A line of the result file that holds the number [ret]. *)
Definition record_result (ret : Z) : M World (Res bool) :=
  createError ←
    (if decide (ret = 0) then
       _ ← mark_true MachineConditionTypeClusterOperationComplete; mret None
     else
       _ ← mark_false MachineConditionTypeClusterOperationComplete
             ReasonClusterOperationFailed ConditionSeverityError "failed to create cluster";
       mret (Some create_failed));
  _ ←? call (OsRemove resultFile);
  match createError with
  | None => mret (inl false)
  | Some e => fail e
  end.

(** The [for scanner.Scan()] loop: lines that hold no number are skipped. *)
Fixpoint scan_result (lines : list string) : M World (Res bool) :=
  match lines with
  | [] => fail create_failed
  | resStr :: rest =>
      match Atoi resStr with
      | Some ret => record_result ret
      | None => scan_result rest
      end
  end.

Definition isScriptFinished : M World (Res bool) :=
  m ← the_machine;
  if negb (IsConditionTrue (Conditions (Status m)) MachineConditionTypeMachineReady) then
    mret (inl false)
  else if IsConditionTrue (Conditions (Status m)) MachinePhaseSuccess ||
          IsConditionTrue (Conditions (Status m)) MachinePhaseFailed then
    mret (inl false)
  else
    args ← getScpArgs;
    out ← call (Exec None "docker-machine" args);
    match ex_err out with
    | Some _ =>
        _ ← mark_false MachineConditionTypeClusterOperationComplete
              ReasonWaitingForScriptCompletion ConditionSeverityError
              "waiting for script completion";
        mret (inl true)
    | None =>
        content ←? call (OsOpen resultFile);
        scan_result (scan_lines content)
    end.
End Cluster.
