(* ===== verification/MachineOps.v ===== *)
(** * Creating a machine

    [pkg/controller/machine.go]: the prerequisites of the driver, the command
    line of [docker-machine create], and the creation itself. *)

From S2P Require Import Prelude GoLib Types Conditions Effects Kube Aws.

Definition machineCreationTimeout : Z := 15 * Minute.

(** A command-line flag and its value. *)
Definition flag_args (kv : string * string) : list string := ["--" +:+ kv.1; kv.2].

(** The loop of [getStartupScriptArgs]: the first entry with a key. *)
Fixpoint pick_user_data (kvs : list (string * string)) (cur : string * string)
    : string * string :=
  match kvs with
  | [] => cur
  | (k, v) :: rest => if str_empty k then pick_user_data rest (k, v) else (k, v)
  end.

Section MachineOps.
Context {World : Type} `{SV : !Services World}.

Definition createPrerequisitesForMachine : M World (Res unit) :=
  d ← driverName;
  if decide (d = AWSDriver) then createAWSEnvironment else ok.

(** The loop of [getAuthSecretArgs]. *)
Fixpoint auth_args (kvs : list (string * string)) (authArgs : list string)
    : M World (Res (list string)) :=
  match kvs with
  | [] => mret (inl authArgs)
  | (key, value) :: rest =>
      d ← driverName;
      let data := if decide (d = GoogleDriver) then EncodeToString value else value in
      if str_empty data || str_empty key then fail (errorString "auth secret not found")
      else auth_args rest (authArgs ++ flag_args (key, data))
  end.

Definition getAuthSecretArgs : M World (Res (list string)) :=
  m ← the_machine;
  authSecret ←? getSecret (AuthSecret (Spec m));
  kvs ← range (Data authSecret);
  auth_args kvs [].

Definition getStartupScriptArgs : M World (Res (list string)) :=
  m ← the_machine;
  scriptSecret ←? getSecret (ScriptRef (Spec m));
  filePath ← getScriptFilePath;
  kvs ← range (Data scriptSecret);
  let '(userDataKey, userDataValue) := pick_user_data kvs ("", "") in
  if str_empty userDataKey || str_empty userDataValue then
    fail (errorString "script data not found")
  else
    let scriptArgs := flag_args (userDataKey, filePath) in
    st ← call (OsStat filePath);
    match st with
    | inl _ => mret (inl scriptArgs)
    | inr err =>
        if negb (os_IsNotExist err) then fail err
        else
          _ ←? call (OsWriteFile filePath userDataValue 420);
          mret (inl scriptArgs)
    end.

(** The [if r.machineObj.Spec.ScriptRef != nil] block. *)
Definition script_args : M World (Res (list string)) :=
  m ← the_machine;
  match ScriptRef (Spec m) with
  | None => mret (inl [])
  | Some _ =>
      r ← getStartupScriptArgs;
      match r with
      | inr err =>
          _ ← mark_false MachineConditionTypeScriptReady ReasonScriptDataNotFound
                ConditionSeverityError "unable to create script";
          fail err
      | inl scriptArgs =>
          _ ← mark_true MachineConditionTypeScriptReady;
          mret (inl scriptArgs)
      end
  end.

Definition getMachineCreationArgs : M World (Res (list string)) :=
  d ← driverName;
  m ← the_machine;
  params ← range (Parameters (Spec m));
  let args := ["create"; "--driver"; d] ++ mjoin (flag_args <$> params) in
  scriptArgs ←? script_args;
  auth ← getAuthSecretArgs;
  match auth with
  | inr err =>
      _ ← mark_false MachineConditionTypeAuthDataReady ReasonAuthDataNotFound
            ConditionSeverityError "unable to read auth data";
      fail err
  | inl authArgs =>
      _ ← mark_true MachineConditionTypeAuthDataReady;
      m2 ← the_machine;
      awsArgs ← getAnnotationsArgsForAWS;
      let args := args ++ scriptArgs ++ authArgs ++ getAMIIDArg m2 ++ awsArgs ++
                  [Name (Meta m2)] in
      _ ←? update_own_status;
      mret (inl args)
  end.

Definition creation_failed_message (err : error) : string :=
  "unable to create docker machine. err: " +:+ Error err.

(** [cmd.Run] of [docker-machine create] and what follows it. *)
Definition run_creation (args : list string) : M World (Res unit) :=
  _ ← mark_true MachineConditionTypeMachineCreating;
  out ← call (Exec (Some machineCreationTimeout) "docker-machine" args);
  match ex_err out with
  | Some err =>
      if strings_Contains (ex_stderr out) "already exists" then
        _ ← mark_true MachineConditionTypeMachineReady;
        update_own_status
      else
        _ ← mark_false MachineConditionTypeMachineReady ReasonMachineCreationFailed
              ConditionSeverityError (creation_failed_message err);
        fail err
  | None =>
      _ ← mark_true MachineConditionTypeMachineReady;
      update_own_status
  end.

Definition createMachine : M World (Res unit) :=
  m ← the_machine;
  if IsConditionTrue (Conditions (Status m)) MachineConditionTypeMachineCreating ||
     IsConditionTrue (Conditions (Status m)) MachineConditionTypeMachineReady then ok
  else
    _ ←? setInitialConditions;
    _ ←? createPrerequisitesForMachine;
    args ←? getMachineCreationArgs;
    run_creation args.
End MachineOps.
