(* ===== verification/Reconcile.v ===== *)
(** * The reconciliation loops

    [pkg/controller/machine_controller.go] and [driver_controller.go]. *)

From S2P Require Import Prelude GoLib Types Conditions Effects Kube Aws Azure Cleanup Cluster MachineOps.

Section Reconcile.
Context {World : Type} `{SV : !Services World}.

(** The message to log and the error, or the machine loaded into the
    receiver. *)
Definition updateMachineReconcile (namespacedName : ObjectKey) : M World (string * option error) :=
  r ← call (KGetMachine namespacedName);
  match r with
  | inr err => mret ("Failed to get Machine", Some err)
  | inl machine => _ ← put_machine machine; mret ("", None)
  end.

(** The steps for a machine that is not being deleted. *)
Definition reconcile_create (req : ObjectKey) : M World (Result * option error) :=
  created ← createMachine;
  match created with
  | inr err => requeueWithError "Failed to create Machine" err
  | inl _ =>
      finished ← isScriptFinished;
      match finished with
      | inr err => requeueWithError "" err
      | inl rekey =>
          let reconcileResult :=
            if rekey : bool then {| RequeueAfter := Minute * 1 |} else Result_zero in
          upd ← updateMachineStatus req;
          mret (reconcileResult, match upd with inl _ => None | inr e => Some e end)
      end
  end.

Definition reconcile_normal (req : ObjectKey) : M World (Result * option error) :=
  ensured ← ensureFinalizer;
  match ensured with
  | inr err =>
      if IsNotFound err then reconciled
      else requeueWithError "Failed to ensure Finalizers" err
  | inl _ => reconcile_create req
  end.

Definition reconcile_delete : M World (Result * option error) :=
  removed ← removeFinalizerAfterCleanup;
  match removed with
  | inr err => requeueWithError "" err
  | inl _ => reconciled
  end.

(** [Reconcile] of [MachineReconciler]: the request's key, with the answer for
    the controller manager. *)
Definition Reconcile (req : ObjectKey) : M World (Result * option error) :=
  '(message, err) ← updateMachineReconcile req;
  match err with
  | Some err =>
      if IsNotFound err then mret (Result_zero, None)
      else requeueWithError message err
  | None =>
      m ← the_machine;
      if decide (Phase (Status m) = "") then
        upd ← updateMachineStatus req;
        mret (Result_zero, match upd with inl _ => None | inr e => Some e end)
      else
        del ← isMarkedForDeletion;
        if del : bool then reconcile_delete else reconcile_normal req
  end.

(** [Reconcile] of [DriverReconciler] does nothing. *)
Definition Driver_Reconcile (req : ObjectKey) : M World (Result * option error) :=
  mret (Result_zero, None).
End Reconcile.
