(* ===== verification/Evidence.v ===== *)
(** * Evidence for the conditions of a machine

    Which calls have to be in the history of the operator before it may claim
    that a machine is ready and that its script completed, and how conditions
    backed by such evidence behave under marks and summaries. *)

From S2P Require Import Prelude GoLib Types Conditions ConditionsFacts Summary StatusSpec StatusInv Effects Kube Cluster.

(** The first number among lines. *)
Definition first_number (lines : list string) : option Z := head (omap Atoi lines).

(** The first line that holds a number decides. *)
Lemma scan_result_first {World} `{!Services World} lines :
  scan_result (World:=World) lines =
    match first_number lines with
    | Some ret => record_result ret
    | None => fail create_failed
    end.
Proof.
  unfold first_number. induction lines as [|l lines IH]; [done|]. csimpl.
  by destruct (Atoi l).
Qed.

(** [docker-machine create] ran for the machine and succeeded, or reported
    that the machine already exists. *)
Definition created (name : string) (h : list Event) : Prop :=
  ∃ timeout args r, Ev (Exec timeout "docker-machine" args) r ∈ h ∧
    head args = Some "create" ∧ last args = Some name ∧
    (ex_err r = None ∨ strings_Contains (ex_stderr r) "already exists" = true).

Definition scp_source (user name : string) : string := user +:+ "@" +:+ name +:+ ":/tmp/result.txt".

(** The result file was fetched from the machine and, read right after, its
    first number was 0. *)
Definition completed (name : string) (h : list Event) : Prop :=
  ∃ h1 h2 user r content,
    h = h1 ++ [Ev (Exec None "docker-machine" ["scp"; scp_source user name; "/tmp"]) r;
               Ev (OsOpen resultFile) (inl content)] ++ h2 ∧
    ex_err r = None ∧ first_number (scan_lines content) = Some 0.

(** Every claim in the conditions of machine [k] is backed by the history. *)
Definition evid (h : list Event) (k : ObjectKey) (cs : list Condition) : Prop :=
  (IsConditionTrue cs MachineConditionTypeMachineReady = true → created (key_Name k) h) ∧
  (IsConditionTrue cs MachineConditionTypeClusterOperationComplete = true →
     completed (key_Name k) h).

Lemma created_mono name h h' : created name h → h `prefix_of` h' → created name h'.
Proof. intros (t & args & r & Hin & H) [l ->]. exists t, args, r. set_solver. Qed.

Lemma completed_mono name h h' : completed name h → h `prefix_of` h' → completed name h'.
Proof.
  intros (h1 & h2 & user & r & content & -> & H) [l ->].
  exists h1, (h2 ++ l), user, r, content. split; [|done]. by rewrite <- !app_assoc.
Qed.

Lemma evid_mono h h' k cs : evid h k cs → h `prefix_of` h' → evid h' k cs.
Proof. intros [H1 H2] Hp. split; eauto using created_mono, completed_mono. Qed.

Lemma evid_nil h k : evid h k [].
Proof. by split. Qed.

(** What may be true after a mark. *)
Lemma IsConditionTrue_Set now (m : Machine) c0 t :
  NoDup (types (GetConditions m)) →
  IsConditionTrue (GetConditions (Set_ now m (Some c0))) t = true →
  IsConditionTrue (GetConditions m) t = true ∨ (c_Type c0 = t ∧ c_Status c0 = ConditionTrue).
Proof.
  intros Hnd (c & Hc & Ht & Hs)%IsConditionTrue_spec.
  apply Set_elem in Hc as [->|[Hc _]]; [|by left; apply IsConditionTrue_spec; eauto|done].
  right. rewrite settled_type in Ht. split; [done|].
  pose proof (settled_same_state now m c0) as (_ & Hs' & _)%hasSameState_eq. congruence.
Qed.

(** A mark is backed when it claims nothing new, or what it claims is. *)
Definition backed (h : list Event) (k : ObjectKey) (c : Condition) : Prop :=
  c_Status c = ConditionTrue →
  (c_Type c = MachineConditionTypeMachineReady → created (key_Name k) h) ∧
  (c_Type c = MachineConditionTypeClusterOperationComplete → completed (key_Name k) h).

Lemma evid_set now (m : Machine) c0 h k :
  NoDup (types (GetConditions m)) → evid h k (GetConditions m) → backed h k c0 →
  evid h k (GetConditions (Set_ now m (Some c0))).
Proof.
  intros Hnd [H1 H2] Hb. split; intros [?|[Ht Hs]]%IsConditionTrue_Set; auto; by apply Hb.
Qed.

Lemma FalseCondition_backed h k t r sv msg : backed h k (FalseCondition t r sv msg).
Proof. done. Qed.

(** ** The conditions the operator may hold or write *)

Definition good (h : list Event) (k : ObjectKey) (cs : list Condition) : Prop :=
  cond_core cs ∧ evid h k cs.

Lemma good_mono h h' k cs : good h k cs → h `prefix_of` h' → good h' k cs.
Proof. intros [Hc He] Hp. split; [done|by eapply evid_mono]. Qed.

Lemma good_nil h k : good h k [].
Proof. split; [apply cond_core_nil|apply evid_nil]. Qed.

Lemma good_mark now (m : Machine) c0 h k :
  good h k (GetConditions m) → c_Type c0 ∈ known_types → op_condition c0 → backed h k c0 →
  good h k (GetConditions (Set_ now m (Some c0))).
Proof.
  intros [Hc He] Ht Hop Hb. split; [by apply cond_core_set|]. apply evid_set; [apply Hc|done|done].
Qed.

Lemma good_summarise now (m : Machine) h k :
  good h k (GetConditions m) → good h k (GetConditions (summarise now m)).
Proof.
  intros [Hc He]. rewrite summarise_Set by done.
  destruct (summary_spec (GetConditions m)) as [rc|] eqn:Hrc; [|done].
  destruct (summary_spec_op _ _ Hrc) as [Ht Hop]. apply good_mark; [done|rewrite Ht; by left|done|].
  intros _. by rewrite Ht.
Qed.
