(* ===== verification/Logic.v ===== *)
(** * A program logic for the reconciler monad

    [wp G E m Q s]: run from [s], the computation [m] extends the trace by
    calls each of which the guard [G] allows after the calls before it; it
    ends normally in a state satisfying [Q], or panics, which is acceptable
    when [E] holds.  The rules quantify over every answer the services may
    give. *)

From S2P Require Import Prelude GoLib Types Effects.

Section Logic.
Context {World : Type} `{SV : !Services World}.
Implicit Types (s : St World) (h l : list Event).

(** A guard: may this event follow this history? *)
Definition Guard := list Event → Event → Prop.

Definition guarded (G : Guard) (h l : list Event) : Prop :=
  ∀ l1 e l2, l = l1 ++ e :: l2 → G (h ++ l1) e.

Definition wp (G : Guard) (E : Prop) {A} (m : M World A) (Q : A → St World → Prop) s : Prop :=
  ∃ l, trace (m s).2 = trace s ++ l ∧ guarded G (trace s) l ∧
       match (m s).1 with
       | Normal a => Q a (m s).2
       | Panic _ => E
       end.

Lemma guarded_nil G h : guarded G h [].
Proof. intros l1 e l2 H. by destruct l1. Qed.

Lemma guarded_one G h e : G h e → guarded G h [e].
Proof.
  intros HG l1 e' l2 H. destruct l1 as [|? [|]]; simplify_eq/=.
  by rewrite app_nil_r.
Qed.

Lemma guarded_app G h l1 l2 :
  guarded G h l1 → guarded G (h ++ l1) l2 → guarded G h (l1 ++ l2).
Proof.
  intros H1 H2 k1 e k2 Hk.
  destruct (app_eq_inv _ _ _ _ Hk) as [(k & -> & Hk')|(k & -> & ->)].
  - destruct k as [|e' k]; simplify_eq/=.
    + rewrite app_nil_r in H2. specialize (H2 [] e k2 eq_refl).
      by rewrite app_nil_r in H2.
    + by apply (H1 _ _ k).
  - rewrite app_assoc. by apply (H2 _ _ k2).
Qed.

Section rules.
Context (G : Guard) (E : Prop).

Lemma wp_ret {A} (a : A) Q s : Q a s → wp G E (mret a) Q s.
Proof. intros HQ. exists []. rewrite app_nil_r. split_and!; [done|apply guarded_nil|done]. Qed.

Lemma wp_panic {A} msg (Q : A → St World → Prop) s : E → wp G E (panic msg) Q s.
Proof. intros HE. exists []. rewrite app_nil_r. split_and!; [done|apply guarded_nil|done]. Qed.

Lemma wp_bind {A B} (m : M World A) (k : A → M World B) Q s :
  wp G E m (λ a, wp G E (k a) Q) s → wp G E (m ≫= k) Q s.
Proof.
  intros (l & Ht & Hg & Hm). unfold wp, mbind, M_bind.
  destruct (m s) as [[a|msg] s'] eqn:Hms; simpl in *.
  - destruct Hm as (l' & Ht' & Hg' & Hk). exists (l ++ l').
    rewrite Ht', Ht, app_assoc. split_and!; [done| |done].
    apply guarded_app; [done|]. by rewrite <- Ht.
  - by exists l.
Qed.

Lemma wp_mono {A} (m : M World A) (Q Q' : A → St World → Prop) s :
  wp G E m Q s → (∀ a s', Q a s' → Q' a s') → wp G E m Q' s.
Proof.
  intros (l & Ht & Hg & Hm) HQ. exists l. split_and!; [done|done|].
  destruct (m s).1; auto.
Qed.

Lemma wp_call {X} (c : Call X) Q s :
  (∀ x w, serve c (world s) = (x, w) →
    G (trace s) (Ev c x) ∧ Q x (mkSt w (machineObj s) (trace s ++ [Ev c x]))) →
  wp G E (call c) Q s.
Proof.
  intros H. unfold wp, call. destruct (serve c (world s)) as [x w]; simpl in *.
  destruct (H x w eq_refl) as [HG HQ]. exists [Ev c x].
  split_and!; [done|by apply guarded_one|done].
Qed.

Lemma wp_deref {A} (p : option A) Q s :
  (∀ a, p = Some a → Q a s) → (p = None → E) → wp G E (deref p) Q s.
Proof. intros HS HN. destruct p; [apply wp_ret|apply wp_panic]; auto. Qed.

Lemma wp_the_machine Q s :
  (∀ m, machineObj s = Some m → Q m s) → (machineObj s = None → E) →
  wp G E the_machine Q s.
Proof.
  intros HS HN. unfold wp, the_machine.
  pose proof (wp_deref (machineObj s) Q s HS HN) as H. exact H.
Qed.

Lemma wp_put_machine m Q s :
  Q tt (mkSt (world s) (Some m) (trace s)) → wp G E (put_machine m) Q s.
Proof. intros HQ. exists []. rewrite app_nil_r. split_and!; [done|apply guarded_nil|done]. Qed.

Lemma wp_now Q s : (∀ n, n = clock (world s) → Q n s) → wp G E now Q s.
Proof. intros HQ. exists []. rewrite app_nil_r. split_and!; [done|apply guarded_nil|by apply HQ]. Qed.

Lemma wp_range mp Q s :
  (∀ kvs, kvs ≡ₚ map_to_list mp → Q kvs s) → wp G E (range mp) Q s.
Proof.
  intros HQ. exists []. rewrite app_nil_r.
  split_and!; [done|apply guarded_nil|]. apply HQ, range_order_perm.
Qed.

Lemma wp_tryE {A B} (m : M World (Res A)) (k : A → M World (Res B)) Q s :
  wp G E m (λ r s', match r with
                    | inl a => wp G E (k a) Q s'
                    | inr e => Q (inr e) s'
                    end) s →
  wp G E (tryE m k) Q s.
Proof.
  intros Hm. unfold tryE. apply wp_bind. eapply wp_mono; [exact Hm|].
  intros [a|e] s' H; [done|by apply wp_ret].
Qed.

Lemma wp_ok Q s : Q (inl tt) s → wp G E ok Q s.
Proof. apply wp_ret. Qed.

Lemma wp_fail {A} e (Q : Res A → St World → Prop) s : Q (inr e) s → wp G E (fail e) Q s.
Proof. apply wp_ret. Qed.
End rules.

(** Only the run from [s] matters. *)
Lemma wp_ext (G : Guard) (E : Prop) {A} (m m' : M World A) Q s :
  m s = m' s → wp G E m' Q s → wp G E m Q s.
Proof. unfold wp. by intros ->. Qed.

(** A computation only adds to the trace. *)
Lemma wp_extend (G : Guard) (E : Prop) {A} (m : M World A) Q s :
  wp G E m Q s → wp G E m (λ a s', Q a s' ∧ trace s `prefix_of` trace s') s.
Proof.
  intros (l & Ht & Hg & Hm). exists l. split_and!; [done|done|].
  destruct (m s).1; [|done]. split; [done|]. by exists l.
Qed.

(** Weakening of guards. *)
Lemma wp_guard (G G' : Guard) (E E' : Prop) {A} (m : M World A) Q s :
  wp G E m Q s → (∀ h e, G h e → G' h e) → (E → E') → wp G' E' m Q s.
Proof.
  intros (l & Ht & Hg & Hm) HG HE. exists l. split_and!; [done| |].
  - intros l1 e l2 Hl. apply HG. by apply (Hg _ _ l2).
  - destruct (m s).1; auto.
Qed.

(** Every history a run sees extends the trace it starts from. *)
Lemma wp_guard_from (G : Guard) (E : Prop) {A} (m : M World A) Q s :
  wp (λ h e, trace s `prefix_of` h → G h e) E m Q s → wp G E m Q s.
Proof.
  intros (l & Ht & Hg & Hm). exists l. split_and!; [done| |done].
  intros l1 e l2 Hl. apply (Hg l1 e l2 Hl). by exists l1.
Qed.

Lemma wp_conj (G1 G2 : Guard) (E1 E2 : Prop) {A} (m : M World A) Q1 Q2 s :
  wp G1 E1 m Q1 s → wp G2 E2 m Q2 s →
  wp (λ h e, G1 h e ∧ G2 h e) (E1 ∧ E2) m (λ a s', Q1 a s' ∧ Q2 a s') s.
Proof.
  intros (l & Ht & Hg & Hm) (l' & Ht' & Hg' & Hm').
  rewrite Ht in Ht'. apply app_inv_head in Ht' as <-. exists l. split_and!; [done| |].
  - intros l1 e l2 Hl. split; [by apply (Hg _ _ l2)|by apply (Hg' _ _ l2)].
  - by destruct (m s).1.
Qed.

(** What a [wp] says about a run. *)
Lemma wp_trace (G : Guard) (E : Prop) {A} (m : M World A) Q s :
  wp G E m Q s →
  ∃ l, trace (m s).2 = trace s ++ l ∧
       ∀ l1 e l2, l = l1 ++ e :: l2 → G (trace s ++ l1) e.
Proof. intros (l & Ht & Hg & _). eauto. Qed.

(** The same from an empty trace, by position. *)
Lemma wp_at (G : Guard) (E : Prop) {A} (m : M World A) Q s i e :
  wp G E m Q s → trace s = [] → trace (m s).2 !! i = Some e →
  G (take i (trace (m s).2)) e.
Proof.
  intros (l & Ht & Hg & _) Hs Hi. rewrite Ht, Hs in *. simpl in *.
  rewrite <- (app_nil_l (take i l)).
  apply (Hg _ _ (drop (S i) l)). symmetry. by apply take_drop_middle.
Qed.

Lemma wp_elem (G : Guard) (E : Prop) {A} (m : M World A) Q s e :
  wp G E m Q s → trace s = [] → e ∈ trace (m s).2 → ∃ h, G h e.
Proof.
  intros Hwp Hs [i Hi]%list_elem_of_lookup. eexists. by eapply wp_at.
Qed.

Lemma wp_result (G : Guard) (E : Prop) {A} (m : M World A) Q s a s' :
  wp G E m Q s → m s = (Normal a, s') → Q a s'.
Proof. intros (l & _ & _ & Hm) Heq. by rewrite Heq in Hm. Qed.

Lemma wp_normal (G : Guard) {A} (m : M World A) Q s :
  wp G False m Q s → ∃ a, (m s).1 = Normal a ∧ Q a (m s).2.
Proof. intros (l & _ & _ & Hm). destruct (m s).1; [eauto|done]. Qed.
End Logic.

(** ** Symbolic execution

    [wp_step] applies the rule for the head of the computation; [wp_steps]
    runs until a choice has to be made by hand. *)
Ltac wp_step :=
  lazymatch goal with
  | |- wp _ _ (mbind _ _) _ _ => apply wp_bind
  | |- wp _ _ (mret _) _ _ => apply wp_ret
  | |- wp _ _ (tryE _ _) _ _ => apply wp_tryE
  | |- wp _ _ (call _) _ _ => apply wp_call; intros
  | |- wp _ _ (deref _) _ _ => apply wp_deref
  | |- wp _ _ the_machine _ _ => apply wp_the_machine
  | |- wp _ _ (put_machine _) _ _ => apply wp_put_machine
  | |- wp _ _ now _ _ => apply wp_now; intros
  | |- wp _ _ (range _) _ _ => apply wp_range; intros
  | |- wp _ _ ok _ _ => apply wp_ok
  | |- wp _ _ (fail _) _ _ => apply wp_fail
  | |- wp _ _ (panic _) _ _ => apply wp_panic
  | |- wp _ _ (match ?x with _ => _ end) _ _ => destruct x eqn:?
  | |- match ?x with inl _ => _ | inr _ => _ end => destruct x eqn:?
  | |- ∀ _, _ => intro
  end; simpl.

(** The guard that allows every call. *)
Abbreviation unguarded := (λ (_ : list Event) (_ : Event), True).
