(* ===== verification/History.v ===== *)
(** * What the history of the operator relies on

    The operator reads machines through a cache, which may be out of date,
    and writes to the API server.  Nothing is assumed of the services but what
    can be read off the calls and answers themselves:
    - [faithful]: an answer is about the object that was asked for; its list
      of conditions and its phase are those of a new object, or ones the
      operator itself has submitted for that object, at whatever time.  This is
      how a status is stored (a merge patch replaces a list as a whole, and a
      text), when no other client writes statuses; it does not say that a read
      is up to date, nor that conditions and phase come from the same write.
    - [kept]: once the operator was shown conditions of an object, an answer to
      a write does not show it without any, which is so unless the object was
      deleted and created anew under its name.  (Only a receiver older than the
      machine read could submit an empty list for one that is not; its patch
      carries its version, see [StatusPatch.v], and the server refuses it.)

    [triple] is a logic of partial correctness over such histories, which also
    covers runs that panic. *)

From S2P Require Import Prelude GoLib Types Conditions ConditionsFacts Summary StatusSpec StatusInv Effects Kube Aws Azure Cleanup Cluster MachineOps Reconcile Evidence Logic.

(** ** Machines in a history *)

(** The machine an answer carries. *)
Definition answered (e : Event) : option Machine :=
  let '(Ev c x) := e in
  match c in Call X return X → option Machine with
  | KGetMachine _ | KCreate _ | KPatch _ _ _ | KStatusPatch _ _ =>
      λ r, match r with inl m => Some m | inr _ => None end
  | _ => λ _, None
  end x.

(** The object a call is about. *)
Definition asked (e : Event) : option ObjectKey :=
  let '(Ev c _) := e in
  match c with
  | KGetMachine k => Some k
  | KCreate obj | KPatch _ _ obj | KStatusPatch _ obj => Some (machine_key obj)
  | _ => None
  end.

(** The machine whose status a call submits. *)
Definition submitted (e : Event) : option Machine :=
  let '(Ev c _) := e in
  match c with KStatusPatch _ obj => Some obj | _ => None end.

(** Whether a call writes to the API server, whose answer is then not the
    cache's. *)
Definition writing (e : Event) : bool :=
  let '(Ev c _) := e in
  match c with KCreate _ | KPatch _ _ _ | KStatusPatch _ _ => true | _ => false end.

(** A machine the operator shows, or is shown. *)
Definition shown (e : Event) (m : Machine) : Prop := submitted e = Some m ∨ answered e = Some m.

(** ** The two assumptions *)

(** A status for [k] with the property [P] was submitted. *)
Definition submits (P : MachineStatus → Prop) (k : ObjectKey) (e : Event) : Prop :=
  match submitted e with Some obj => machine_key obj = k ∧ P (Status obj) | None => False end.

Definition faithful_at : Guard := λ h e,
  match answered e with
  | None => True
  | Some m =>
      asked e = Some (machine_key m) ∧
      (GetConditions m = [] ∨
         Exists (submits (λ st, Conditions st = GetConditions m) (machine_key m)) (h ++ [e])) ∧
      (Phase (Status m) = "" ∨
         Exists (submits (λ st, Phase st = Phase (Status m)) (machine_key m)) (h ++ [e]))
  end.

Definition has_conditions (k : ObjectKey) (o : option Machine) : Prop :=
  match o with Some m => machine_key m = k ∧ GetConditions m ≠ [] | None => False end.

(** The operator was shown conditions of [k]. *)
Definition seen (k : ObjectKey) (h : list Event) : Prop := Exists (λ e, has_conditions k (answered e)) h.

Definition kept_at : Guard := λ h e,
  match answered e with
  | None => True
  | Some m =>
      writing e = true → seen (machine_key m) h ∨ has_conditions (machine_key m) (submitted e) →
      GetConditions m ≠ []
  end.

Definition faithful (h : list Event) : Prop := guarded faithful_at [] h.
Definition kept (h : list Event) : Prop := guarded kept_at [] h.

Section Decidable.
Context (G : Guard) `{HG : ∀ h e, Decision (G h e)}.

Lemma guarded_cons h e l : guarded G h (e :: l) ↔ G h e ∧ guarded G (h ++ [e]) l.
Proof.
  split.
  - intros Hg. split; [rewrite <- (app_nil_r h); by apply (Hg [] e l)|].
    intros l1 e' l2 ->. rewrite <- app_assoc. by apply (Hg (e :: l1) e' l2).
  - intros [He Hl]. apply (guarded_app G h [e] l); [by apply guarded_one|done].
Qed.

#[export] Instance guarded_dec h l : Decision (guarded G h l).
Proof using HG.
  revert h. induction l as [|e l IH]; intros h; [left; apply guarded_nil|].
  refine (cast_if_and (decide (G h e)) (IH (h ++ [e]))); rewrite guarded_cons; tauto.
Defined.

Lemma guarded_snoc h e : guarded G [] (h ++ [e]) ↔ guarded G [] h ∧ G h e.
Proof.
  split.
  - intros Hg. split; [|by apply (Hg h e [])].
    intros l1 e' l2 ->. apply (Hg l1 e' (l2 ++ [e])). by rewrite <- app_assoc.
  - intros [Hh He]. apply guarded_app; [done|]. by apply guarded_one.
Qed.

Lemma guarded_prefix h h' : guarded G [] h' → h `prefix_of` h' → guarded G [] h.
Proof. intros Hg [l ->] l1 e l2 ->. apply (Hg l1 e (l2 ++ l)). by rewrite <- app_assoc. Qed.
End Decidable.

#[export] Instance submits_dec P k e `{∀ st, Decision (P st)} : Decision (submits P k e).
Proof. unfold submits. destruct (submitted e); apply _. Defined.

#[export] Instance has_conditions_dec k o : Decision (has_conditions k o).
Proof. unfold has_conditions. destruct o; apply _. Defined.

#[export] Instance seen_dec k h : Decision (seen k h).
Proof. unfold seen. apply _. Defined.

#[export] Instance faithful_at_dec h e : Decision (faithful_at h e).
Proof. unfold faithful_at. destruct (answered e); apply _. Defined.

#[export] Instance kept_at_dec h e : Decision (kept_at h e).
Proof. unfold kept_at. destruct (answered e); apply _. Defined.

Lemma faithful_snoc h e : faithful (h ++ [e]) ↔ faithful h ∧ faithful_at h e.
Proof. apply guarded_snoc. Qed.

Lemma kept_snoc h e : kept (h ++ [e]) ↔ kept h ∧ kept_at h e.
Proof. apply guarded_snoc. Qed.

Lemma seen_mono k h h' : seen k h → h `prefix_of` h' → seen k h'.
Proof. intros Hs [l ->]. apply Exists_app. by left. Qed.

(** How a merge patch made from the statuses [old] and [obj] acts on the status
    [st] that is stored: a field that the two share is left alone. *)
Definition merge_status (st old obj : MachineStatus) : MachineStatus := {|
  Conditions := if decide (Conditions obj = Conditions old) then Conditions st else Conditions obj;
  Phase := if decide (Phase obj = Phase old) then Phase st else Phase obj |}.

(** ** Statuses that are in order *)

(** Conditions the operator may hold after [h]. *)
Definition sound (h : list Event) (k : ObjectKey) (cs : list Condition) : Prop :=
  good h k cs ∧ (kept h → armed cs).

(** A status it may submit. *)
Definition sound_status (h : list Event) (k : ObjectKey) (st : MachineStatus) : Prop :=
  sound h k (Conditions st) ∧ (kept h → success_truthful st).

(** All statuses that were submitted were, at the time. *)
Definition submissions : list Event → Prop :=
  guarded (λ h e, ∀ obj, submitted e = Some obj → sound_status h (machine_key obj) (Status obj)) [].

Lemma sound_mono h h' k cs : sound h k cs → h `prefix_of` h' → sound h' k cs.
Proof.
  intros [Hg Ha] Hp. split; [by eapply good_mono|]. intros Hk. by eapply Ha, guarded_prefix.
Qed.

Lemma sound_nil h k : sound h k [].
Proof. split; [apply good_nil|by left]. Qed.

(** A submission in a history, and what came before it. *)
Lemma submits_at P k h e0 :
  submissions h → (∀ obj, submitted e0 = Some obj → sound_status h (machine_key obj) (Status obj)) →
  Exists (submits P k) (h ++ [e0]) →
  ∃ h1 st, h1 `prefix_of` h ∧ P st ∧ sound_status h1 k st.
Proof.
  intros Hs He (e & Hin & Hsub)%Exists_exists. unfold submits in Hsub.
  destruct (submitted e) as [obj|] eqn:Ho; [|done]. destruct Hsub as [<- HP].
  apply elem_of_app in Hin as [Hin|Hin%list_elem_of_singleton].
  - apply list_elem_of_split in Hin as (h1 & h2 & ->). exists h1, (Status obj).
    split_and!; [by eexists|done|]. by apply (Hs h1 e h2 eq_refl).
  - subst e0. exists h, (Status obj). split_and!; [done|done|by apply He].
Qed.

(** Conditions a faithful answer shows are sound. *)
Lemma answered_sound h e m :
  faithful_at h e → submissions h →
  (∀ obj, submitted e = Some obj → sound_status h (machine_key obj) (Status obj)) →
  answered e = Some m → sound h (machine_key m) (GetConditions m).
Proof.
  intros Hf Hs He Hm. unfold faithful_at in Hf. rewrite Hm in Hf. destruct Hf as (_ & [->|Hex] & _).
  - apply sound_nil.
  - destruct (submits_at _ _ _ _ Hs He Hex) as (h1 & st & Hp & <- & [Hst _]). by eapply sound_mono.
Qed.

(** ** The invariant of the operator and its logic *)

Section Triple.
Context {World : Type} `{SV : !Services World}.
Implicit Types s : St World.

(** The statuses that were submitted and the conditions the receiver holds are
    in order. *)
Definition Sys s : Prop :=
  submissions (trace s) ∧
  ∀ m, machineObj s = Some m → sound (trace s) (machine_key m) (GetConditions m).

(** How far the creation of [req] has come: nothing known; the receiver holds
    the first conditions; they were shown to be stored. *)
Inductive Level := LAny | LMarked | LStarted.

#[export] Instance Level_eq_dec : EqDecision Level.
Proof. solve_decision. Defined.

Definition marked s : Prop := ∀ m, machineObj s = Some m → initialised (GetConditions m).

Definition level_ok (L : Level) (req : ObjectKey) s : Prop :=
  match L with
  | LAny => True
  | LMarked => marked s
  | LStarted => marked s ∧ seen req (trace s)
  end.

(** The receiver holds a version of the machine [req], if anything. *)
Definition At (L : Level) (req : ObjectKey) s : Prop :=
  submissions (trace s) ∧
  (∀ m, machineObj s = Some m → machine_key m = req ∧ sound (trace s) req (GetConditions m)) ∧
  (kept (trace s) → level_ok L req s).

(** A computation only adds to the history. *)
Definition extends {A} (m : M World A) : Prop := ∀ s, trace s `prefix_of` trace (m s).2.

(** Run from [P], if the answers are faithful, the computation ends normally in
    [Q], or panics and leaves the invariant intact.  It only adds to the
    history. *)
Definition triple (P : St World → Prop) {A} (m : M World A) (Q : A → St World → Prop) : Prop :=
  extends m ∧
  ∀ s, P s → faithful (trace (m s).2) →
    match m s with
    | (Normal a, s') => Q a s'
    | (Panic _, s') => Sys s'
    end.

(** A state predicate that implies the invariant and is kept by calls that
    submit no status, whatever they answer and do. *)
Class Stable (P : St World → Prop) : Prop := {
  stable_sys : ∀ s, P s → Sys s;
  stable_event : ∀ s e w,
    P s → submitted e = None → P (mkSt w (machineObj s) (trace s ++ [e]))
}.

Lemma extends_bind {A B} (m : M World A) (k : A → M World B) :
  extends m → (∀ a, extends (k a)) → extends (m ≫= k).
Proof.
  intros Hm Hk s. unfold mbind, M_bind. specialize (Hm s). destruct (m s) as [[a|msg] s']; [|exact Hm].
  etrans; [exact Hm|apply Hk].
Qed.

Lemma extends_call {X} (c : Call X) : extends (call c).
Proof. intros s. unfold call. destruct (serve c (world s)) as [x w]. by eexists. Qed.

Lemma extends_ret {A} (a : A) : extends (mret a).
Proof. by intros s. Qed.

Definition stays (P : St World → Prop) {A} (m : M World A) : Prop := triple P m (λ _, P).

Lemma submissions_event h e : submissions h → submitted e = None → submissions (h ++ [e]).
Proof. intros Hs He. apply guarded_snoc. split; [done|]. intros obj. by rewrite He. Qed.

#[export] Instance Sys_stable : Stable Sys.
Proof.
  split; [done|]. intros s e w [Hs Hm] He.
  split; [by apply submissions_event|]. intros m Hmo. eapply sound_mono; [by apply Hm|by eexists].
Qed.

#[export] Instance At_stable L req : Stable (At L req).
Proof.
  split.
  - intros s (Hs & Hm & _). split; [done|]. intros m Hmo.
    destruct (Hm m Hmo) as [-> ?]. done.
  - intros s e w (Hs & Hm & HL) He. split_and!; [by apply submissions_event| |].
    + intros m Hmo. destruct (Hm m Hmo). split; [done|]. eapply sound_mono; [done|by eexists].
    + intros [Hk _]%kept_snoc. specialize (HL Hk). destruct L; simpl in *; [done|done|].
      destruct HL. split; [done|]. eapply seen_mono; [done|by eexists].
Qed.

Section rules.
Context (P : St World → Prop) `{HP : !Stable P}.

Lemma t_mono {A} (m : M World A) (P' : St World → Prop) (Q Q' : A → St World → Prop) :
  triple P' m Q' → (∀ s, P s → P' s) → (∀ a s, Q' a s → Q a s) → triple P m Q.
Proof.
  intros [Hx Hm] HPP HQ. split; [done|]. intros s Hs Hf. specialize (Hm s (HPP s Hs) Hf).
  destruct (m s) as [[a|] s']; auto.
Qed.

Lemma faithful_prefix h h' : faithful h' → h `prefix_of` h' → faithful h.
Proof. apply guarded_prefix. Qed.

Lemma t_bind {A B} (m : M World A) (k : A → M World B) (Q : A → St World → Prop) R :
  triple P m Q → (∀ a, triple (Q a) (k a) R) → triple P (m ≫= k) R.
Proof.
  intros [Hx Hm] Hk. split; [by apply extends_bind; [|intros a; apply Hk]|]. intros s Hs.
  specialize (Hm s Hs). unfold mbind, M_bind. destruct (m s) as [[a|msg] s'].
  - intros Hf. apply (proj2 (Hk a)); [|done]. apply Hm.
    eapply faithful_prefix; [exact Hf|]. apply (proj1 (Hk a)).
  - by apply Hm.
Qed.

(** A step that makes no call. *)
Lemma t_pure {A} (m : M World A) (Q : A → St World → Prop) :
  (∀ s, trace (m s).2 = trace s) →
  (∀ s, P s → match m s with (Normal a, s') => Q a s' | (Panic _, s') => Sys s' end) → triple P m Q.
Proof. intros Ht HQ. split; [intros s; by rewrite Ht|]. intros s Hs _. by apply HQ. Qed.

Lemma t_ret {A} (a : A) (Q : A → St World → Prop) : (∀ s, P s → Q a s) → triple P (mret a) Q.
Proof. intros HQ. by apply t_pure. Qed.

Lemma t_call {X} (c : Call X) (Q : X → St World → Prop) :
  (∀ s x w, P s → faithful (trace s ++ [Ev c x]) → Q x (mkSt w (machineObj s) (trace s ++ [Ev c x]))) →
  triple P (call c) Q.
Proof.
  intros HQ. split; intros s; unfold call; destruct (serve c (world s)) as [x w]; [by eexists|].
  intros Hs Hf. by apply HQ.
Qed.

Lemma t_machine (Q : Machine → St World → Prop) :
  (∀ s m, P s → machineObj s = Some m → Q m s) → triple P the_machine Q.
Proof.
  intros HQ. apply t_pure; unfold the_machine, deref; [intros s; by destruct (machineObj s)|].
  intros s Hs. destruct (machineObj s) as [m|] eqn:Hm; simpl; [by apply HQ|by apply stable_sys].
Qed.

Lemma t_put m (Q : unit → St World → Prop) :
  (∀ s, P s → Q tt (mkSt (world s) (Some m) (trace s))) → triple P (put_machine m) Q.
Proof. intros HQ. by apply t_pure. Qed.

Lemma t_now (Q : Z → St World → Prop) : (∀ n s, P s → Q n s) → triple P now Q.
Proof. intros HQ. apply t_pure; [done|]. intros s Hs. by apply HQ. Qed.

Lemma stays_bind {A B} (m : M World A) (k : A → M World B) :
  stays P m → (∀ a, stays P (k a)) → stays P (m ≫= k).
Proof. intros Hm Hk. by eapply t_bind. Qed.

Lemma stays_try {A B} (m : M World (Res A)) (k : A → M World (Res B)) :
  stays P m → (∀ a, stays P (k a)) → stays P (tryE m k).
Proof.
  intros Hm Hk. apply stays_bind; [done|]. intros [a|e]; [done|]. by apply t_ret.
Qed.

Lemma stays_ret {A} (a : A) : stays P (mret a).
Proof. by apply t_ret. Qed.

Lemma stays_panic {A} msg : stays P (panic (A:=A) msg).
Proof. apply t_pure; [done|]. intros s Hs. by apply stable_sys. Qed.

Lemma stays_deref {A} (p : option A) : stays P (deref p).
Proof. destruct p; [apply stays_ret|apply stays_panic]. Qed.

Lemma stays_machine : stays P the_machine.
Proof. by apply t_machine. Qed.

Lemma stays_now : stays P now.
Proof. by apply t_now. Qed.

Lemma stays_range mp : stays P (range mp).
Proof. by apply t_pure. Qed.

(** Calls that submit no status leave every stable predicate alone. *)
Lemma stays_call {X} (c : Call X) : (∀ x, submitted (Ev c x) = None) → stays P (call c).
Proof. intros Hc. apply t_call. intros s x w Hs _. by apply stable_event. Qed.
End rules.
End Triple.

(** Goal-directed proof of [stays] for operations that write no object. *)
Ltac stays_step :=
  lazymatch goal with
  | |- stays _ (mbind _ _) => apply stays_bind; [|intros ?]
  | |- stays _ (tryE _ _) => apply stays_try; [|intros ?]
  | |- stays _ (mret _) => apply stays_ret
  | |- stays _ ok => apply stays_ret
  | |- stays _ (fail _) => apply stays_ret
  | |- stays _ (panic _) => apply stays_panic; apply _
  | |- stays _ (deref _) => apply stays_deref; apply _
  | |- stays _ the_machine => apply stays_machine; apply _
  | |- stays _ now => apply stays_now
  | |- stays _ (range _) => apply stays_range
  | |- stays _ (call _) => apply stays_call; [apply _|reflexivity]
  | |- stays _ (if _ then _ else _) => case_match
  | |- stays _ (match ?x with _ => _ end) => destruct x
  | |- stays _ (let '(_, _) := ?x in _) => destruct x
  end.
Ltac stays_run := repeat stays_step; try (by eauto with frame typeclass_instances).

Section Reading.
Context {World : Type} `{SV : !Services World}.
Context (P : St World → Prop) `{HP : !Stable P}.

Lemma stays_driverName : stays P driverName.
Proof. unfold driverName. stays_run. Qed.

Lemma stays_getSecret ref : stays P (getSecret ref).
Proof. unfold getSecret. stays_run. Qed.

Lemma stays_getScriptFilePath : stays P getScriptFilePath.
Proof. unfold getScriptFilePath. stays_run. Qed.

Lemma stays_last_route_table vpcId rts acc : stays P (last_route_table vpcId rts acc).
Proof. revert acc. induction rts; intros acc; simpl; stays_run. Qed.

Lemma stays_find_vpc vpcId vpcs : stays P (find_vpc vpcId vpcs).
Proof. induction vpcs; simpl; stays_run. Qed.

Lemma stays_delete_groups c gs : stays P (delete_groups c gs).
Proof. induction gs; simpl; stays_run. Qed.

Lemma stays_auth_args kvs acc : stays P (auth_args kvs acc).
Proof.
  revert acc. induction kvs as [|[]]; intros acc; simpl; [stays_run|].
  apply stays_bind; [apply stays_driverName|]. intros d. stays_run.
Qed.

Lemma stays_waitForState retry timeout g :
  stays P g → stays P (waitForState retry timeout g).
Proof.
  intros Hg. unfold waitForState. apply stays_bind; [|intros []; stays_run].
  generalize (wait_fuel retry timeout), 0. intros fuel.
  induction fuel as [|fuel IH]; intros t; simpl; stays_run.
Qed.

#[local] Hint Resolve stays_driverName stays_getSecret stays_getScriptFilePath
  stays_last_route_table stays_find_vpc stays_delete_groups stays_auth_args : frame.

Lemma stays_awsEC2Client : stays P awsEC2Client.
Proof. unfold awsEC2Client, newAWSClientSession, getAWSCredentials. stays_run. Qed.

Lemma stays_getVPC c id : stays P (getVPC c id).
Proof. unfold getVPC. stays_run. Qed.

Lemma stays_deleteAwsInternetGateway c gw vpcId : stays P (deleteAwsInternetGateway c gw vpcId).
Proof.
  unfold deleteAwsInternetGateway, deleteAwsRoute, detachInternetGatewayToVPC. stays_run.
Qed.

Lemma stays_createAwsRoute c vpcId gw : stays P (createAwsRoute c vpcId gw).
Proof. unfold createAwsRoute. stays_run. Qed.

#[local] Hint Resolve stays_awsEC2Client stays_getVPC stays_deleteAwsInternetGateway : frame.

Lemma stays_deleteAwsSubnet c id : stays P (deleteAwsSubnet c id).
Proof. unfold deleteAwsSubnet. stays_run. Qed.

#[local] Hint Resolve stays_deleteAwsSubnet : frame.

Lemma stays_deleteAwsVpc c id : stays P (deleteAwsVpc c id).
Proof. unfold deleteAwsVpc, deleteSecurityGroup. stays_run. Qed.

#[local] Hint Resolve stays_deleteAwsVpc : frame.

Lemma stays_vpc_available c id : stays P (vpc_available c id).
Proof. unfold vpc_available. stays_run. Qed.

Lemma stays_deleteAzureResourceGroup : stays P deleteAzureResourceGroup.
Proof. unfold deleteAzureResourceGroup, getAzureCredential. stays_run. Qed.

#[local] Hint Resolve stays_deleteAzureResourceGroup : frame.

Lemma stays_cleanupMachineResources : stays P cleanupMachineResources.
Proof.
  unfold cleanupMachineResources, deleteFiles, remove_file, deleteDockerMachine, cleanup_cloud,
    cleanupAWSResources. stays_run.
Qed.

Lemma stays_getAuthSecretArgs : stays P getAuthSecretArgs.
Proof. unfold getAuthSecretArgs. stays_run. Qed.

Lemma stays_getStartupScriptArgs : stays P getStartupScriptArgs.
Proof. unfold getStartupScriptArgs. stays_run. Qed.

Lemma stays_getAnnotationsArgsForAWS : stays P getAnnotationsArgsForAWS.
Proof. unfold getAnnotationsArgsForAWS. stays_run. Qed.

Lemma stays_getScpArgs : stays P getScpArgs.
Proof. unfold getScpArgs. stays_run. Qed.
End Reading.

#[export] Hint Resolve stays_driverName stays_getSecret stays_getScriptFilePath
  stays_waitForState stays_awsEC2Client stays_getVPC stays_deleteAwsInternetGateway
  stays_createAwsRoute stays_deleteAwsSubnet stays_deleteAwsVpc stays_vpc_available
  stays_cleanupMachineResources stays_getAuthSecretArgs stays_getStartupScriptArgs
  stays_getAnnotationsArgsForAWS stays_getScpArgs : frame.
