(* ===== verification/Preservation.v ===== *)
(** * Reconciliations keep the statuses right

    Every operation of the machine controller keeps the invariant [Sys] of
    [History.v]: the operations that only call do (there), and here those that
    mark conditions, submit a status and replace the receiver's object, up to
    [Reconcile]. *)

From S2P Require Import Prelude GoLib Types Conditions ConditionsFacts Summary StatusSpec StatusInv Effects Kube Aws Azure Cleanup Cluster MachineOps Reconcile Evidence Logic History.

Section Preservation.
Context {World : Type} `{SV : !Services World}.
Implicit Types (s : St World) (L : Level).

Lemma t_pre (P P' : St World → Prop) {A} (m : M World A) Q :
  triple P m Q → (∀ s, P' s → P s) → triple P' m Q.
Proof. intros Hm HP. by eapply t_mono. Qed.

(** A fact that does not depend on the state. *)
Lemma t_fact (F : Prop) (P : St World → Prop) {A} (m : M World A) Q :
  extends m → (F → triple P m Q) → triple (λ s, P s ∧ F) m Q.
Proof. intros Hx Hm. split; [done|]. intros s [Hs HF]. by apply (Hm HF). Qed.

Lemma t_try {A B} (P : St World → Prop) (m : M World (Res A)) (k : A → M World (Res B))
    (Q : A → St World → Prop) (R : Res B → St World → Prop) :
  triple P m (λ r s, match r with inl a => Q a s | inr e => R (inr e) s end) →
  (∀ a, triple (Q a) (k a) R) → triple P (tryE m k) R.
Proof.
  intros Hm Hk. eapply t_bind; [exact Hm|]. intros [a|e]; [apply Hk|]. by apply t_ret.
Qed.

(** A level says more than the ones before it. *)
Lemma At_weaken L req s : At L req s → At LAny req s.
Proof. by intros (Hs & Hm & _). Qed.

Lemma At_started_marked req s : At LStarted req s → At LMarked req s.
Proof. intros (Hs & Hm & HL). split_and!; [done|done|]. intros Hk. by apply HL. Qed.

Lemma At_started req s :
  At LMarked req s → (kept (trace s) → seen req (trace s)) → At LStarted req s.
Proof. intros (Hs & Hm & HL) Hseen. split_and!; [done|done|]. intros Hk. split; [by apply HL|auto]. Qed.

Lemma initialised_nonempty cs : initialised cs → cs ≠ [].
Proof. intros [Hr _] ->. by apply elem_of_nil in Hr. Qed.

Lemma At_initialised L req s m :
  At L req s → L ≠ LAny → machineObj s = Some m → kept (trace s) → initialised (GetConditions m).
Proof. intros (_ & _ & HL) HA Hm Hk. specialize (HL Hk). destruct L; [done|by apply HL..]. Qed.

(** ** Replacing the receiver's object *)

Lemma At_put L req s m m' :
  At L req s → machineObj s = Some m → machine_key m' = machine_key m →
  sound (trace s) req (GetConditions m') →
  (kept (trace s) → initialised (GetConditions m) → initialised (GetConditions m')) →
  At L req (mkSt (world s) (Some m') (trace s)).
Proof.
  intros (Hs & Hm & HL) Hmo Hkey Hsd Hini. destruct (Hm m Hmo) as [Hk _].
  split_and!; [done| |].
  - intros m0 [= <-]. by rewrite Hkey.
  - intros Hkp. specialize (HL Hkp). simpl in Hkp.
    assert (marked s → marked (mkSt (world s) (Some m') (trace s))) as Hmk.
    { intros Hs' m0 [= <-]. auto. }
    destruct L; simpl in *; tauto.
Qed.

Lemma At_sound L req s m :
  At L req s → machineObj s = Some m → machine_key m = req ∧ sound (trace s) req (GetConditions m).
Proof. intros (_ & Hm & _). apply Hm. Qed.

Lemma Set_key now (m : Machine) c : machine_key (Set_ now m c) = machine_key m.
Proof. by destruct c. Qed.

Lemma At_mark L req s m n c :
  At L req s → L ≠ LAny → machineObj s = Some m → c_Type c ∈ known_types → op_condition c →
  backed (trace s) req c → At L req (mkSt (world s) (Some (Set_ n m (Some c))) (trace s)).
Proof.
  intros HA HL Hm Ht Hop Hb. destruct (At_sound _ _ _ _ HA Hm) as [Hk [Hg Har]].
  assert (kept (trace s) → initialised (GetConditions (Set_ n m (Some c)))) as Hi.
  { intros Hkp. apply initialised_set; [apply Hg|by eapply At_initialised]. }
  apply (At_put _ _ _ m); [done|done|apply Set_key| |auto].
  split; [by apply good_mark|]. intros Hkp. right. auto.
Qed.

(** A mark that is backed, when the conditions are initialised. *)
Lemma t_mark L req (c : Condition) :
  L ≠ LAny → c_Type c ∈ known_types → op_condition c →
  triple (λ s, At L req s ∧ backed (trace s) req c)
    (n ← now; m ← the_machine; put_machine (Set_ n m (Some c))) (λ _, At L req).
Proof.
  intros HL Ht Hop. apply t_pure.
  - intros s. unfold mbind, M_bind, now, the_machine, deref. by destruct (machineObj s).
  - intros s [HA Hb]. unfold mbind, M_bind, now, the_machine, deref, put_machine. simpl.
    destruct (machineObj s) as [m|] eqn:Hm; simpl; [by apply At_mark|by apply stable_sys in HA].
Qed.

(** The types whose truth needs no evidence. *)
Definition plain_types : list string :=
  [MachineConditionTypeMachineCreating; MachineConditionTypeAuthDataReady;
   MachineConditionTypeScriptReady].

Lemma stays_mark_true L req t :
  L ≠ LAny → t ∈ plain_types → stays (At L req) (mark_true t).
Proof.
  intros HL Ht.
  assert (t ∈ known_types ∧ t ≠ MachineConditionTypeMachineReady ∧
          t ≠ MachineConditionTypeClusterOperationComplete) as (Hk & H1 & H2).
  { unfold plain_types in Ht. rewrite !elem_of_cons, elem_of_nil in Ht.
    split_and!; [|by intros ->; naive_solver..].
    destruct Ht as [->|[->|[->|[]]]]; apply (bool_decide_unpack _); by vm_compute. }
  eapply t_mono; [apply (t_mark L req (TrueCondition t)); [done|done|apply TrueCondition_op]| |done].
  intros s Hs. by split.
Qed.

Lemma stays_mark_false L req t reason msg :
  L ≠ LAny → t ∈ known_types →
  stays (At L req) (mark_false t reason ConditionSeverityError msg).
Proof.
  intros HL Ht. eapply t_mono;
    [apply (t_mark L req (FalseCondition t reason ConditionSeverityError msg));
       [done|done|apply FalseCondition_op]| |done].
  intros s Hs. by split; [|apply FalseCondition_backed].
Qed.

(** ** What the API server answered *)

(** The answer to a write becomes the receiver's object. *)
Lemma At_answer L req s h e m' :
  trace s = h ++ [e] → At L req s → faithful (trace s) → answered e = Some m' → asked e = Some req →
  writing e = true → (L ≠ LAny → kept (trace s) → seen req h ∨ has_conditions req (submitted e)) →
  At L req (mkSt (world s) (Some m') (trace s)).
Proof.
  intros Ht (Hs & Hm & HL) Hf Hans Hask Hw Hcase. rewrite Ht in Hf, Hs.
  apply faithful_snoc in Hf as [_ Hf]. apply guarded_snoc in Hs as [Hsub He].
  assert (machine_key m' = req) as Hk.
  { unfold faithful_at in Hf. rewrite Hans in Hf. destruct Hf as [Hf _]. congruence. }
  assert (sound (trace s) req (GetConditions m')) as Hsd.
  { rewrite Ht, <- Hk. eapply sound_mono; [by eapply answered_sound|by eexists]. }
  split_and!; [simpl; rewrite Ht; by apply guarded_snoc|by intros m0 [= <-]|].
  simpl. intros Hkp. specialize (HL Hkp). destruct (decide (L = LAny)) as [->|HLA]; [done|].
  assert (initialised (GetConditions m')) as Hi.
  { destruct (proj2 Hsd Hkp) as [Hn|Hi]; [|done]. specialize (Hcase HLA Hkp). rewrite Ht in Hkp.
    apply kept_snoc in Hkp as [_ Hkp]. unfold kept_at in Hkp. rewrite Hans, Hk in Hkp.
    exfalso. by apply Hkp. }
  assert (marked (mkSt (world s) (Some m') (trace s))) by (by intros m0 [= <-]).
  destruct L; simpl in *; [done|done|by destruct HL].
Qed.

(** Reading the machine that is reconciled. *)
Lemma triple_get (P : St World → Prop) `{HP : !Stable P} req :
  triple P (call (KGetMachine req)) (λ r s, P s ∧ (∀ m, r = inl m →
    machine_key m = req ∧ sound (trace s) req (GetConditions m) ∧
    (GetConditions m ≠ [] → seen req (trace s)))).
Proof.
  apply t_call. intros s r w Hs Hf. split; [by apply stable_event|]. intros m ->.
  apply faithful_snoc in Hf as [_ Hf]. pose proof (stable_sys s Hs) as [Hsub _].
  assert (machine_key m = req) as Hk by (destruct Hf as [[= ->] _]; done).
  split_and!; [done| |].
  - rewrite <- Hk. eapply sound_mono; [by eapply answered_sound|by eexists].
  - intros Hne. apply Exists_app. right. apply Exists_cons. by left.
Qed.

(** ** Submitting a status *)

(** The receiver's status, summarised and with its phase, may be submitted. *)
Lemma At_updated L req s m n :
  At L req s → machineObj s = Some m →
  let m1 := summarise n m in
  let m2 := set_Phase m1 (GetPhase m1) in
  At L req (mkSt (world s) (Some m2) (trace s)) ∧ machine_key m2 = req ∧
  sound_status (trace s) req (Status m2).
Proof.
  intros HA Hm m1 m2. destruct (At_sound _ _ _ _ HA Hm) as [Hk [Hg Har]].
  assert (machine_key m2 = machine_key m) as Hk2 by (apply (Set_key n m)).
  pose proof (good_summarise n m _ _ Hg) as Hg1.
  assert (sound (trace s) req (GetConditions m2)) as Hsd.
  { split; [done|]. intros Hkp. by apply (cond_inv_summarise n m (conj (proj1 Hg) (Har Hkp))). }
  split_and!; [|congruence|].
  - apply (At_put _ _ _ m); [done..|]. intros Hkp.
    by apply (cond_inv_summarise n m (conj (proj1 Hg) (Har Hkp))).
  - split; [done|]. intros Hkp. by apply (updated_status_inv n m (conj (proj1 Hg) (Har Hkp))).
Qed.

Lemma At_submit L req s old m r (w : World) :
  At L req s → machineObj s = Some m → sound_status (trace s) req (Status m) →
  At L req (mkSt w (Some m) (trace s ++ [Ev (KStatusPatch old m) r])).
Proof.
  intros (Hs & Hm & HL) Hmo Hst. destruct (Hm m Hmo) as [Hk Hsd]. split_and!; simpl.
  - apply guarded_snoc. split; [done|]. intros obj [= <-]. by rewrite Hk.
  - intros m0 [= <-]. split; [done|]. eapply sound_mono; [done|by eexists].
  - intros [Hkp _]%kept_snoc. specialize (HL Hkp).
    assert (marked s → marked (mkSt w (Some m) (trace s ++ [Ev (KStatusPatch old m) r]))) as Hmk.
    { intros Hms m0 [= <-]. by apply Hms. }
    destruct L; simpl in *; [done|auto|]. destruct HL. split; [auto|].
    eapply seen_mono; [done|by eexists].
Qed.

(** The receiver holds the status [m] that is about to be committed. *)
Definition Ready L req (old m : Machine) s : Prop :=
  At L req s ∧ machineObj s = Some m ∧ machine_key m = req ∧ sound_status (trace s) req (Status m) ∧
  (GetConditions old ≠ [] → seen req (trace s)).

Lemma triple_committer L req old m :
  triple (Ready L req old m) (committer old m)
    (λ r s, At L req s ∧ (L = LMarked → r = inl tt → At LStarted req s)).
Proof.
  unfold committer. case_decide as Hsame.
  - apply t_ret. intros s (HA & Hm & _ & _ & Hseen). split; [done|]. intros -> _.
    apply At_started; [done|]. intros Hkp. apply Hseen. unfold GetStatus in Hsame.
    assert (GetConditions old = GetConditions m) as -> by (simpl; unfold Machine_GetConditions; by rewrite Hsame).
    apply initialised_nonempty. by eapply At_initialised.
  - eapply (t_bind _ _ _ (λ r s, At L req s ∧ ∀ m', r = inl m' →
      At L req (mkSt (world s) (Some m') (trace s)) ∧
      (L = LMarked → At LStarted req (mkSt (world s) (Some m') (trace s))))).
    + apply t_call. intros s r w (HA & Hm & Hk & Hst & _) Hf. rewrite Hm.
      pose proof (At_submit L req s old m r w HA Hm Hst) as HA'. split; [done|].
      intros m' ->. set (e := Ev (KStatusPatch old m) (inl m')) in *.
      assert (At L req (mkSt w (Some m') (trace s ++ [e]))) as HA3.
      { apply (At_answer L req (mkSt w (Some m) (trace s ++ [e])) (trace s) e m');
          [done|done|done|done|simpl; by rewrite Hk|done|].
        simpl. intros HL [Hkp _]%kept_snoc. right. split; [done|]. apply initialised_nonempty.
        exact (At_initialised _ _ _ _ HA HL Hm Hkp). }
      split; [done|]. intros ->. apply At_started; [done|]. intros Hkp.
      apply Exists_app. right. apply Exists_cons. left.
      split; [by apply (At_sound _ _ _ m' HA3)|]. apply initialised_nonempty.
      by apply (At_initialised _ _ _ m' HA3).
    + intros [m'|e]; [|apply t_ret; intros s [Hs _]; by split].
      eapply (t_bind _ _ _ (λ _ s, At L req s ∧ (L = LMarked → At LStarted req s))).
      * apply t_put. intros s [_ Hs]. by apply Hs.
      * intros _. apply t_ret. intros s [HA HS]. by split; [|intros HL _; apply HS].
Qed.

Lemma triple_updateMachineStatus L req :
  triple (At L req) (updateMachineStatus req)
    (λ r s, At L req s ∧ (L = LMarked → r = inl tt → At LStarted req s)).
Proof.
  unfold updateMachineStatus. eapply t_bind; [apply triple_get, _|].
  intros [old|e]; [|apply t_ret; intros s [Hs _]; by split].
  set (seen_old := λ s, At L req s ∧ (GetConditions old ≠ [] → seen req (trace s))).
  apply (t_pre seen_old); [|intros s [HA Hr]; split; [done|by apply (Hr old)]].
  eapply (t_bind _ _ _ (λ n, seen_old)); [by apply t_now|]. intros n.
  eapply (t_bind _ _ _ (λ m s, seen_old s ∧ machineObj s = Some m)).
  { apply t_pure; unfold the_machine, deref; [intros s; by destruct (machineObj s)|].
    intros s [HA Ho]. destruct (machineObj s) as [m|] eqn:Hm; [done|by apply stable_sys in HA]. }
  intros m. fold (summarise n m). set (m2 := set_Phase _ _).
  eapply (t_bind _ _ _ (λ _, Ready L req old m2)); [|intros _; apply triple_committer].
  apply t_put. intros s [[HA Ho] Hm]. destruct (At_updated L req s m n HA Hm) as (HA2 & Hk2 & Hst).
  by split_and!.
Qed.

Lemma stays_updateMachineStatus L req : stays (At L req) (updateMachineStatus req).
Proof. eapply t_mono; [apply triple_updateMachineStatus|done|by intros r s []]. Qed.

(** The machine the receiver holds is the one that is reconciled. *)
Lemma t_own_key L req {A} (k : Machine → M World A) (Q : ObjectKey → A → St World → Prop) :
  (∀ m, triple (At L (machine_key m)) (k m) (Q (machine_key m))) →
  triple (At L req) (m ← the_machine; k m) (Q req).
Proof.
  intros Hk. eapply (t_bind _ _ _ (λ m s, At L req s ∧ machine_key m = req)).
  - apply t_machine; [apply _|]. intros s m Hs Hm. split; [done|]. by eapply At_sound.
  - intros m. apply t_fact; [apply (Hk m)|]. intros <-. apply Hk.
Qed.

Lemma triple_update_own_status L req :
  triple (At L req) update_own_status
    (λ r s, At L req s ∧ (L = LMarked → r = inl tt → At LStarted req s)).
Proof.
  apply (t_own_key L req _ (λ req r s, At L req s ∧ (L = LMarked → r = inl tt → At LStarted req s))).
  intros m. apply triple_updateMachineStatus.
Qed.

Lemma stays_update_own_status L req : stays (At L req) update_own_status.
Proof. eapply t_mono; [apply triple_update_own_status|done|by intros r s []]. Qed.

Lemma stays_requeueWithError L req msg err : stays (At L req) (requeueWithError msg err).
Proof.
  unfold requeueWithError. apply stays_bind; [apply stays_update_own_status|]. intros. stays_run.
Qed.

(** ** Patching the object *)

(** A write that is not a status, whose answer becomes the receiver's object. *)
Lemma triple_write L req (c : Call (Res Machine)) :
  L ≠ LMarked → (∀ x, submitted (Ev c x) = None ∧ asked (Ev c x) = Some req ∧ writing (Ev c x) = true) →
  (∀ m, answered (Ev c (inl m)) = Some m) →
  stays (At L req) (m ←? call c; _ ← put_machine m; ok).
Proof.
  intros HLM Hc Hans. eapply (t_bind _ _ _ (λ r s, At L req s ∧ ∀ m, r = inl m →
    At L req (mkSt (world s) (Some m) (trace s)))).
  - apply t_call. intros s r w Hs Hf. destruct (Hc r) as (Hsub & Hask & Hw).
    assert (At L req (mkSt w (machineObj s) (trace s ++ [Ev c r]))) as HA by (by apply stable_event).
    split; [done|]. intros m ->.
    apply (At_answer L req (mkSt w (machineObj s) (trace s ++ [Ev c (inl m)])) (trace s) (Ev c (inl m)) m);
      [done|done|done|apply Hans|done|done|].
    intros HL [Hkp _]%kept_snoc. left. destruct Hs as (_ & _ & Hlev). specialize (Hlev Hkp).
    destruct L; [done|done|apply Hlev].
  - intros [m|e]; [|apply t_ret; by intros s []].
    eapply (t_bind _ _ _ (λ _, At L req)); [apply t_put; intros s [_ Hs]; by apply Hs|].
    intros _. by apply t_ret.
Qed.

(** [CreateOrPatch] with a transformation that keeps the object's name. *)
Lemma stays_CreateOrPatch L req f :
  L ≠ LMarked → (∀ m, machine_key (f m) = machine_key m) → stays (At L req) (CreateOrPatch f).
Proof.
  intros HLM Hkey. apply (t_own_key L req _ (λ req _, At L req)). intros obj.
  eapply t_bind; [apply stays_call; [apply _|done]|]. intros [group|e]; [|by apply t_ret].
  eapply t_bind; [apply triple_get, _|]. intros [cur|e].
  - cbv zeta. set (w := KPatch (if isOfficialTypes group then StrategicMergeFrom else MergeFrom) cur (f cur)).
    apply (t_pre (λ s, At L (machine_key obj) s ∧ machine_key cur = machine_key obj));
      [|intros s [Hs Hr]; split; [done|by apply (Hr cur)]].
    apply t_fact; [apply (triple_write LAny (machine_key cur) w); [done|..|done];
                   intros x; split_and!; [done|simpl; by rewrite Hkey|done]|].
    intros Hc. apply triple_write; [done| |done]. intros x.
    split_and!; [done|simpl; by rewrite Hkey, Hc|done].
  - apply (t_pre (At L (machine_key obj))); [|by intros s []].
    case_match; [|by apply t_ret]. apply triple_write; [done| |done]. intros x.
    split_and!; [done|simpl; f_equal; apply Hkey|done].
Qed.

Lemma stays_patchAnnotation L req k v : L ≠ LMarked → stays (At L req) (patchAnnotation k v).
Proof. intros HL. by apply stays_CreateOrPatch. Qed.

Lemma stays_patchFinalizer req verb f : stays (At LAny req) (patchFinalizer verb f).
Proof. apply stays_CreateOrPatch; [done|apply finalizer_transform_key]. Qed.

#[local] Hint Resolve stays_updateMachineStatus stays_update_own_status stays_requeueWithError
  stays_patchAnnotation stays_patchFinalizer stays_mark_true stays_mark_false : frame.
#[local] Hint Extern 1 (_ ≠ LMarked) => done : frame.
#[local] Hint Extern 1 (_ ≠ LAny) => done : frame.
#[local] Hint Extern 1 (_ ∈ plain_types) =>
  (apply (bool_decide_unpack _); vm_compute; exact I) : frame.
#[local] Hint Extern 1 (_ ∈ known_types) =>
  (apply (bool_decide_unpack _); vm_compute; exact I) : frame.

Ltac fold_stays :=
  lazymatch goal with |- triple _ ?m (λ _, ?P) => change (stays P m) end.
Ltac started := stays_run; try (apply stays_mark_true || apply stays_mark_false); auto with frame.

Lemma stays_removeFinalizerAfterCleanup req : stays (At LAny req) removeFinalizerAfterCleanup.
Proof. unfold removeFinalizerAfterCleanup. stays_run. Qed.

Lemma stays_ensureFinalizer req : stays (At LAny req) ensureFinalizer.
Proof. unfold ensureFinalizer. stays_run. Qed.

(** ** Creating the machine *)

Lemma stays_createAwsSubnet req c id : stays (At LStarted req) (createAwsSubnet c id).
Proof.
  unfold createAwsSubnet, createAwsInternetGateway, attachInternetGatewayToVPC. stays_run.
Qed.

Lemma stays_createPrerequisites req : stays (At LStarted req) createPrerequisitesForMachine.
Proof.
  unfold createPrerequisitesForMachine, createAWSEnvironment, createAwsVpc, obtain_vpc.
  pose proof stays_createAwsSubnet. stays_run.
Qed.

Lemma stays_script_args req : stays (At LStarted req) script_args.
Proof. unfold script_args. started. Qed.

(** The command line is a [create] command for the machine that is
    reconciled. *)
Lemma triple_getMachineCreationArgs req :
  triple (At LStarted req) getMachineCreationArgs (λ r s, At LStarted req s ∧
    match r with
    | inl args => head args = Some "create" ∧ last args = Some (key_Name req)
    | inr _ => True
    end).
Proof.
  unfold getMachineCreationArgs.
  eapply t_bind; [apply stays_driverName, _|]. intros d.
  eapply t_bind; [apply stays_machine, _|]. intros m.
  eapply t_bind; [apply stays_range|]. intros params.
  eapply t_bind; [apply stays_script_args|]. intros [scriptArgs|e]; [|by apply t_ret].
  eapply t_bind; [apply stays_getAuthSecretArgs, _|]. intros [authArgs|e].
  - eapply (t_bind _ _ _ (λ _, At LStarted req)); [fold_stays; started|]. intros _.
    apply (t_own_key _ _ _ (λ req r s, At LStarted req s ∧ match r with
      | inl args => head args = Some "create" ∧ last args = Some (key_Name req) | inr _ => True end)).
    intros m2. eapply t_bind; [apply stays_getAnnotationsArgsForAWS, _|]. intros awsArgs.
    eapply t_bind; [apply stays_update_own_status|]. intros [[]|e]; [|by apply t_ret].
    apply t_ret. intros s Hs. split_and!; [done|done|]. rewrite !app_assoc. apply last_snoc.
  - eapply (t_bind _ _ _ (λ _, At LStarted req)); [fold_stays; started|]. intros _. by apply t_ret.
Qed.

Lemma stays_mark_ready req :
  triple (λ s, At LStarted req s ∧ created (key_Name req) (trace s))
    (_ ← mark_true MachineConditionTypeMachineReady; update_own_status)
    (λ _, At LStarted req).
Proof.
  eapply (t_bind _ _ _ (λ _, At LStarted req)); [|intros _; apply stays_update_own_status].
  eapply t_mono; [apply (t_mark LStarted req (TrueCondition MachineConditionTypeMachineReady));
    [done|auto with frame|apply TrueCondition_op]| |done].
  intros s [Hs Hc]. by split.
Qed.

Lemma stays_run_creation req args :
  head args = Some "create" → last args = Some (key_Name req) →
  stays (At LStarted req) (run_creation args).
Proof.
  intros Hhd Hlast. unfold run_creation. apply stays_bind; [started|]. intros _.
  eapply (t_bind _ _ _ (λ out s, At LStarted req s ∧
    (ex_err out = None ∨ strings_Contains (ex_stderr out) "already exists" = true →
     created (key_Name req) (trace s)))).
  { apply t_call. intros s out w Hs Hf. split; [by apply stable_event|]. intros Hout. do 3 eexists. split; [apply elem_of_last|done]. }
  intros out. destruct (ex_err out) as [err|] eqn:Herr.
  - destruct (strings_Contains _ _) eqn:Hex.
    + eapply t_pre; [apply stays_mark_ready|]. intros s [Hs Hc]. split; [done|].
      apply Hc. by right.
    + apply (t_pre (At LStarted req)); [|by intros s []]. fold_stays. started.
  - eapply t_pre; [apply stays_mark_ready|]. intros s [Hs Hc]. split; [done|].
    apply Hc. by left.
Qed.

Lemma extends_run_creation args : extends (run_creation args).
Proof.
  set (k := {| key_Namespace := ""; key_Name := "" |}). unfold run_creation.
  apply extends_bind; [apply (stays_mark_true LMarked k); auto with frame|]. intros _.
  apply extends_bind; [apply extends_call|]. intros out.
  assert (extends (_ ← mark_true MachineConditionTypeMachineReady; update_own_status)) as Hr
    by apply (stays_mark_ready k).
  destruct (ex_err out); [|exact Hr]. case_match; [exact Hr|].
  apply extends_bind; [apply (stays_mark_false LMarked k); auto with frame|]. intros _. apply extends_ret.
Qed.

(** The first two marks of a creation. *)
Lemma first_marks n n' (m : Machine) r1 msg1 r2 msg2 h k :
  good h k (GetConditions m) →
  let m1 := MarkFalse n m MachineConditionTypeMachineReady r1 ConditionSeverityError msg1 in
  let m2 := MarkFalse n' m1 MachineConditionTypeClusterOperationComplete r2
              ConditionSeverityError msg2 in
  good h k (GetConditions m2) ∧ initialised (GetConditions m2).
Proof.
  intros [Hc He] m1 m2.
  assert (cond_core (GetConditions m1)) as Hc1
    by (apply cond_core_set; [done|auto with frame|apply FalseCondition_op]).
  assert (cond_core (GetConditions m2)) as Hc2
    by (apply cond_core_set; [done|auto with frame|apply FalseCondition_op]).
  assert (initialised (GetConditions m2)) as Hi.
  { split; [|apply (Set_own_type n' m1 (FalseCondition _ _ _ _)), Hc1].
    apply Set_types; [apply Hc1|].
    apply (Set_own_type n m (FalseCondition MachineConditionTypeMachineReady _ _ _)), Hc. }
  split; [|done]. split; [done|].
  repeat (apply evid_set; [apply Hc || apply Hc1| |apply FalseCondition_backed]). done.
Qed.

Lemma triple_setInitialConditions req :
  triple (At LAny req) setInitialConditions
    (λ r s, match r with inl _ => At LStarted req s | inr _ => At LAny req s end).
Proof.
  unfold setInitialConditions.
  assert (triple (At LAny req)
    (_ ← mark_false MachineConditionTypeMachineReady ReasonMachineCreating
           ConditionSeverityError "Waiting for Machine to become ready";
     mark_false MachineConditionTypeClusterOperationComplete ReasonWaitingForScriptRun
       ConditionSeverityError "Waiting for Script to run") (λ _, At LMarked req)) as Hm.
  { apply t_pure; unfold mark_false, mbind, M_bind, now, the_machine, deref, put_machine; simpl.
    - intros s. by destruct (machineObj s).
    - intros s HA. destruct (machineObj s) as [m|] eqn:Hm; simpl; [|by apply stable_sys in HA].
      destruct (At_sound _ _ _ _ HA Hm) as [Hk [Hg _]]. destruct HA as (Hs & _).
      set (m2 := MarkFalse _ (MarkFalse _ m _ _ _ _) _ _ _ _).
      assert (good (trace s) req (GetConditions m2) ∧ initialised (GetConditions m2)) as [Hg2 Hi2]
        by (apply first_marks, Hg).
      split_and!; [done| |]; simpl.
      + intros m0 [= <-]. split; [by rewrite <- Hk|]. split; [done|]. intros _. by right.
      + intros _ m0 [= <-]. exact Hi2. }
  assert (triple (At LMarked req) update_own_status
    (λ r s, match r with inl _ => At LStarted req s | inr _ => At LAny req s end)) as Hu.
  { eapply t_mono; [apply triple_update_own_status|done|].
    intros [[]|e] s [HA HS]; [by apply HS|by eapply At_weaken]. }
  split.
  - intros s. pose proof (proj1 (t_bind _ _ _ _ _ Hm (λ _, Hu)) s) as H. revert H.
    unfold mbind, M_bind. by destruct (mark_false _ _ _ _ s) as [[] ?].
  - intros s HA. pose proof (proj2 (t_bind _ _ _ _ _ Hm (λ _, Hu)) s HA) as H. revert H.
    unfold mbind, M_bind. by destruct (mark_false _ _ _ _ s) as [[] ?].
Qed.

Lemma stays_createMachine req : stays (At LAny req) createMachine.
Proof.
  assert (∀ {A} (m : M World (Res A)), stays (At LStarted req) m →
    triple (At LStarted req) m
      (λ r s, match r with inl _ => At LStarted req s | inr e => At LAny req s end)) as Hst.
  { intros A m Hm. eapply t_mono; [exact Hm|done|].
    intros [a|e] s Hs; [done|by eapply At_weaken]. }
  unfold createMachine. apply stays_bind; [apply stays_machine, _|]. intros m.
  case_match; [by apply stays_ret|].
  eapply t_try; [apply triple_setInitialConditions|]. intros ?.
  eapply t_try; [apply Hst, stays_createPrerequisites|]. intros ?.
  eapply (t_try _ _ _ (λ args s, At LStarted req s ∧
    head args = Some "create" ∧ last args = Some (key_Name req))).
  { eapply t_mono; [apply triple_getMachineCreationArgs|done|].
    intros [args|e] s [Hs Hr]; [by split|by eapply At_weaken]. }
  intros args. apply t_fact; [apply extends_run_creation|]. intros [Hhd Hlast].
  eapply t_mono; [apply (stays_run_creation req args Hhd Hlast)|done|]. intros r s Hs. exact (At_weaken _ _ _ Hs).
Qed.

(** ** Watching the script *)

(** A ready machine has its first conditions. *)
Lemma ready_initialised cs :
  cond_inv cs → IsConditionTrue cs MachineConditionTypeMachineReady = true → initialised cs.
Proof.
  intros [_ [->|Hi]] Hr; [|done].
  apply IsConditionTrue_spec in Hr as (c & Hc & _). by apply elem_of_nil in Hc.
Qed.

Lemma triple_record_result req ret :
  triple (λ s, At LMarked req s ∧ (ret = 0 → completed (key_Name req) (trace s)))
    (record_result ret) (λ _, At LMarked req).
Proof.
  unfold record_result. eapply (t_bind _ _ _ (λ _, At LMarked req)).
  - case_decide as Hret.
    + eapply (t_bind _ _ _ (λ _, At LMarked req)); [|intros _; apply stays_ret].
      eapply t_mono;
        [apply (t_mark LMarked req (TrueCondition MachineConditionTypeClusterOperationComplete));
           [done|auto with frame|apply TrueCondition_op]| |done].
      intros s [Hs Hc]. split; [done|]. intros _. split; [done|auto].
    + apply (t_pre (At LMarked req)); [|by intros s []]. fold_stays. started.
  - intros createError. fold_stays. stays_run.
Qed.

Lemma extends_record_result ret : extends (record_result ret).
Proof. apply (triple_record_result {| key_Namespace := ""; key_Name := "" |}). Qed.

(** Fetching the result file, then reading it. *)
Lemma triple_fetch req user :
  triple (At LMarked req)
    (out ← call (Exec None "docker-machine" ["scp"; scp_source user (key_Name req); "/tmp"]);
     match ex_err out with
     | Some _ =>
         _ ← mark_false MachineConditionTypeClusterOperationComplete
               ReasonWaitingForScriptCompletion ConditionSeverityError
               "waiting for script completion";
         mret (inl true)
     | None => content ←? call (OsOpen resultFile); scan_result (scan_lines content)
     end) (λ _, At LMarked req).
Proof.
  set (scp := Exec None "docker-machine" _).
  eapply (t_bind _ _ _ (λ out s, At LMarked req s ∧ ∃ h, trace s = h ++ [Ev scp out])).
  { apply t_call. intros s out w Hs Hf. split; [by apply stable_event|by eexists]. }
  intros out. destruct (ex_err out) as [err|] eqn:Herr.
  { apply (t_pre (At LMarked req)); [|by intros s []]. fold_stays. started. }
  eapply (t_bind _ _ _ (λ r s, At LMarked req s ∧ match r with
    | inl content => ∃ h, trace s = h ++ [Ev scp out; Ev (OsOpen resultFile) (inl content)]
    | inr _ => True end)).
  { apply t_call. intros s r w [Hs [h Hh]] Hf. split; [by apply stable_event|]. destruct r; [|done].
    exists h. simpl. by rewrite Hh, <- app_assoc. }
  intros [content|e]; [|apply t_ret; by intros s [Hs _]]. rewrite scan_result_first.
  destruct (first_number _) as [ret|] eqn:Hfirst; [|apply t_ret; by intros s [Hs _]].
  eapply t_pre; [apply (triple_record_result req ret)|].
  intros s [Hs [h Hh]]. split; [done|]. intros ->.
  exists h, [], user, out, content. by rewrite app_nil_r.
Qed.

Lemma extends_fetch args :
  extends
    (out ← call (Exec None "docker-machine" args);
     match ex_err out with
     | Some _ =>
         _ ← mark_false MachineConditionTypeClusterOperationComplete
               ReasonWaitingForScriptCompletion ConditionSeverityError
               "waiting for script completion";
         mret (inl true)
     | None => content ←? call (OsOpen resultFile); scan_result (scan_lines content)
     end).
Proof.
  apply extends_bind; [apply extends_call|]. intros out. destruct (ex_err out).
  - apply extends_bind; [|intros _; apply extends_ret].
    apply (stays_mark_false LMarked {| key_Namespace := ""; key_Name := "" |}); auto with frame.
  - apply extends_bind; [apply extends_call|]. intros [content|e]; [|apply extends_ret].
    rewrite scan_result_first. case_match; [apply extends_record_result|apply extends_ret].
Qed.

Lemma stays_isScriptFinished req : stays (At LAny req) isScriptFinished.
Proof.
  unfold isScriptFinished.
  eapply (t_bind _ _ _ (λ m s, At LAny req s ∧ machineObj s = Some m));
    [apply t_machine; [apply _|done]|].
  intros m. destruct (IsConditionTrue _ MachineConditionTypeMachineReady) eqn:Hr; simpl.
  2: { apply t_ret. by intros s [Hs _]. }
  case_match; [apply t_ret; by intros s [Hs _]|].
  eapply (t_mono _ _ (At LMarked req) _ (λ _, At LMarked req));
    [| |by intros a s Hs; eapply At_weaken].
  - unfold getScpArgs. eapply (t_bind _ _ _ (λ args s, At LMarked req s ∧
      ∃ user, args = ["scp"; scp_source user (key_Name req); "/tmp"])).
    { apply (t_own_key _ _ _ (λ req args s, At LMarked req s ∧
        ∃ user, args = ["scp"; scp_source user (key_Name req); "/tmp"])). intros m'.
      eapply t_bind; [apply stays_driverName, _|]. intros d.
      apply t_ret. intros s Hs. split; [done|]. by eexists. }
    intros args. apply t_fact; [apply extends_fetch|]. intros [user ->]. apply triple_fetch.
  - intros s [HA Hm]. destruct (At_sound _ _ _ _ HA Hm) as [Hk [Hg Har]]. destruct HA as (Hs & Hmm & _).
    split_and!; [done|done|]. intros Hkp m0 Hm0. simplify_eq. apply ready_initialised; [|done].
    split; [apply Hg|auto].
Qed.

(** ** The reconciler *)

#[local] Hint Resolve stays_ensureFinalizer stays_createMachine stays_isScriptFinished
  stays_removeFinalizerAfterCleanup : frame.

(** Loading the machine that is reconciled into the receiver. *)
Lemma triple_updateMachineReconcile req :
  triple Sys (updateMachineReconcile req) (λ r s, Sys s ∧ (r.2 = None → At LAny req s)).
Proof.
  unfold updateMachineReconcile. eapply t_bind; [apply triple_get, _|].
  intros [m|e]; [|apply t_ret; intros s [Hs _]; by split].
  eapply (t_bind _ _ _ (λ _, At LAny req)).
  - apply t_put. intros s [[Hs _] Hr]. destruct (Hr m eq_refl) as (Hk & Hsd & _).
    split_and!; [done|by intros m0 [= <-]|done].
  - intros _. apply t_ret. intros s HA. split; [by apply stable_sys in HA|done].
Qed.

(** An error before the machine was read: the receiver still holds what it
    held before. *)
Lemma triple_requeue_stale msg err : triple Sys (requeueWithError msg err) (λ _, Sys).
Proof.
  split; [apply (stays_requeueWithError LAny {| key_Namespace := ""; key_Name := "" |} msg err)|].
  intros s Hs Hf. destruct (machineObj s) as [m|] eqn:Hm.
  - assert (At LAny (machine_key m) s) as HA.
    { destruct Hs as [Hs Hsd]. split_and!; [done| |done]. intros m0 Hm0. simplify_eq. by split; [|apply Hsd]. }
    pose proof (proj2 (stays_requeueWithError LAny (machine_key m) msg err) s HA Hf) as Ht.
    destruct (requeueWithError _ _ s) as [[a|m'] s']; [by apply stable_sys in Ht|done].
  - unfold requeueWithError, update_own_status, mbind, M_bind, the_machine. by rewrite Hm.
Qed.

Lemma stays_reconcile_loaded req :
  stays (At LAny req)
    (m ← the_machine;
     if decide (Phase (Status m) = "") then
       err ← updateMachineStatus req; mret (Result_zero, match err with inl _ => None | inr e => Some e end)
     else
       del ← isMarkedForDeletion;
       if del : bool then reconcile_delete else reconcile_normal req).
Proof.
  unfold isMarkedForDeletion, reconcile_delete, reconcile_normal, reconcile_create, reconciled. stays_run.
Qed.

(** One reconciliation keeps the invariant, whatever the receiver held before
    and also when it panics. *)
Lemma Reconcile_Sys req : triple Sys (Reconcile req) (λ _, Sys).
Proof.
  unfold Reconcile. eapply t_bind; [apply triple_updateMachineReconcile|].
  intros [message [err|]].
  { case_match; [by apply t_ret; intros s []|].
    eapply t_mono; [apply triple_requeue_stale|by intros s []|done]. }
  eapply t_mono; [apply (stays_reconcile_loaded req)|intros s [_ Hs]; by apply Hs|].
  intros a s HA. by apply stable_sys in HA.
Qed.
End Preservation.
