(* ===== verification/Sim.v ===== *)
(** * A concrete environment

    Services that answer every call: an API server holding machines and
    secrets, a file system, [docker-machine], EC2 and Azure, small enough to
    evaluate.  No theorem about the operator depends on it; it instantiates
    the parameter [Services] so that the hypotheses of the theorems are seen
    to hold on runs that can be computed. *)

From stdpp Require Import pretty.
From S2P Require Import Prelude GoLib Types Conditions Summary Effects Kube Aws Cleanup Cluster MachineOps Reconcile.

Record Sim := mkSim {
  sim_machines : gmap (string * string) Machine;
  sim_secrets : gmap (string * string) Secret;
  sim_files : gmap string string;
  sim_docker : list string;          (** docker machines that exist *)
  sim_result : option string;        (** the script's result on the machine *)
  sim_vpcs : list string;
  sim_next : nat;                    (** next identifier EC2 hands out *)
  sim_gateways_fail : bool;          (** EC2 refuses to create gateways *)
  sim_clock : Z
}.

Definition not_found : error := StatusError "NotFound" 404 "not found".
Definition exit_status (n : Z) : error := ForeignError ("exit status " +:+ pretty n).

Definition with_machines (w : Sim) (ms : gmap (string * string) Machine) : Sim :=
  mkSim ms (sim_secrets w) (sim_files w) (sim_docker w) (sim_result w) (sim_vpcs w)
    (sim_next w) (sim_gateways_fail w) (sim_clock w + 1).
Definition with_files (w : Sim) (fs : gmap string string) : Sim :=
  mkSim (sim_machines w) (sim_secrets w) fs (sim_docker w) (sim_result w) (sim_vpcs w)
    (sim_next w) (sim_gateways_fail w) (sim_clock w).
Definition with_docker (w : Sim) (ds : list string) : Sim :=
  mkSim (sim_machines w) (sim_secrets w) (sim_files w) ds (sim_result w) (sim_vpcs w)
    (sim_next w) (sim_gateways_fail w) (sim_clock w).
Definition with_vpcs (w : Sim) (vs : list string) : Sim :=
  mkSim (sim_machines w) (sim_secrets w) (sim_files w) (sim_docker w) (sim_result w) vs
    (S (sim_next w)) (sim_gateways_fail w) (sim_clock w).

(** Storing an object; one that is being deleted disappears with its last
    finalizer. *)
Definition store (w : Sim) (m : Machine) : Sim :=
  let k := key_pair (machine_key m) in
  if deleting m && bool_decide (Finalizers (Meta m) = [])
  then with_machines w (delete k (sim_machines w))
  else with_machines w (<[k := m]> (sim_machines w)).

Definition sim_update (w : Sim) (key : ObjectKey) (f : Machine → Machine) : Res Machine * Sim :=
  match sim_machines w !! key_pair key with
  | None => (inr not_found, w)
  | Some m => (inl (f m), store w (f m))
  end.

Definition sim_exec (w : Sim) (args : list string) : ExecResult * Sim :=
  let okr := {| ex_err := None; ex_stdout := ""; ex_stderr := "" |} in
  let failed msg := {| ex_err := Some (exit_status 1); ex_stdout := ""; ex_stderr := msg |} in
  match args with
  | "create" :: _ =>
      let name := default "" (last args) in
      if decide (name ∈ sim_docker w) then (failed ("Host already exists: " +:+ name), w)
      else (okr, with_docker w (name :: sim_docker w))
  | ["rm"; name; _] =>
      if decide (name ∈ sim_docker w)
      then (okr, with_docker w (filter (λ d, d ≠ name) (sim_docker w)))
      else (failed "Host does not exist", w)
  | "scp" :: _ =>
      match sim_result w with
      | Some content => (okr, with_files w (<["/tmp/result.txt" := content]> (sim_files w)))
      | None => (failed "scp: /tmp/result.txt: No such file or directory", w)
      end
  | _ => (failed "usage", w)
  end.

Definition missing_path : error := PathError KNotExist "no such file or directory".

Definition sim_serve {X} (c : Call X) (w : Sim) : X * Sim :=
  match c in Call X return X * Sim with
  | KGVKForObject _ => (inl GroupVersion_Group, w)
  | KGetMachine key =>
      (match sim_machines w !! key_pair key with Some m => inl m | None => inr not_found end, w)
  | KGetSecret key =>
      (match sim_secrets w !! key_pair key with Some s => inl s | None => inr not_found end, w)
  | KCreate obj =>
      (* a new object has no status *)
      let m := set_Status obj {| Conditions := []; Phase := "" |} in (inl m, store w m)
  | KPatch _ cur mod_ =>
      sim_update w (machine_key cur) (λ m,
        {| TypeMetaOf := TypeMetaOf m; Meta := Meta mod_; Spec := Spec mod_; Status := Status m |})
  | KStatusPatch old obj =>
      sim_update w (machine_key old) (λ m, set_Status m (Status obj))
  | Exec _ _ args => sim_exec w args
  | OsStat p => (match sim_files w !! p with Some _ => inl tt | None => inr missing_path end, w)
  | OsWriteFile p d _ => (inl tt, with_files w (<[p := d]> (sim_files w)))
  | OsRemove p =>
      match sim_files w !! p with
      | Some _ => (inl tt, with_files w (delete p (sim_files w)))
      | None => (inr missing_path, w)
      end
  | OsOpen p => (match sim_files w !! p with Some d => inl d | None => inr missing_path end, w)
  | Sleep _ => (tt, w)
  | AwsNewSession _ => (inl tt, w)
  | CreateVpc _ _ =>
      let id := "vpc-" +:+ pretty (sim_next w) in
      (inl (Some {| vpc_VpcId := Some id; vpc_State := Some "pending" |}),
       with_vpcs w (id :: sim_vpcs w))
  | DescribeVpcs _ ids =>
      match filter (λ id, id ∈ sim_vpcs w) ids with
      | [] => (inr (ForeignError "InvalidVpcID.NotFound: The vpc ID does not exist"), w)
      | l => (inl ((λ id, Some {| vpc_VpcId := Some id; vpc_State := Some "available" |}) <$> l), w)
      end
  | DeleteVpc _ id =>
      if decide (id ∈ sim_vpcs w)
      then (inl tt, with_vpcs w (filter (λ v, v ≠ id) (sim_vpcs w)))
      else (inr (ForeignError "InvalidVpcID.NotFound: The vpc ID does not exist"), w)
  | CreateSubnet _ _ _ _ => (inl (Some {| sn_SubnetId := Some "subnet-1" |}), w)
  | DeleteSubnet _ _ => (inl tt, w)
  | CreateInternetGateway _ =>
      if sim_gateways_fail w then (inr (ForeignError "InternetGatewayLimitExceeded"), w)
      else (inl (Some {| igw_InternetGatewayId := Some "igw-1" |}), w)
  | AttachInternetGateway _ _ _ => (inl tt, w)
  | DetachInternetGateway _ _ _ => (inl tt, w)
  | DeleteInternetGateway _ _ => (inl tt, w)
  | DescribeRouteTables _ =>
      (inl ((λ v, Some {| rt_VpcId := Some v; rt_RouteTableId := Some ("rtb-" +:+ v) |})
              <$> sim_vpcs w), w)
  | CreateRoute _ _ _ _ => (inl tt, w)
  | DeleteRoute _ _ _ => (inl tt, w)
  | DescribeSecurityGroups _ _ => (inl [Some {| sg_GroupId := Some "sg-1" |}], w)
  | DeleteSecurityGroup _ _ => (inl tt, w)
  | AzNewClientSecretCredential _ _ _ => (inl tt, w)
  | AzNewResourceGroupsClient _ => (inl tt, w)
  | AzBeginDelete _ _ => (inl "poller", w)
  | AzPollUntilDone _ => (inl tt, w)
  end.

#[export] Instance Sim_Services : Services Sim := {|
  serve X c w := sim_serve c w;
  clock w := sim_clock w;
  range_order _ m := map_to_list m;
  range_order_perm _ _ := Permutation_refl _
|}.

(** ** Objects of the examples *)

Definition demo_key : ObjectKey := {| key_Namespace := "demo"; key_Name := "rancher-vm" |}.

Definition demo_meta : ObjectMeta := {|
  Name := "rancher-vm"; Namespace := "demo"; ResourceVersion := "1"; Generation := 1;
  DeletionTimestamp := None; Finalizers := []; Annotations := None |}.

(** The machines of [examples/gcp-machine.yaml] and [aws-machine.yaml]. *)
Definition demo_machine (driver : string) (params : list (string * string)) : Machine := {|
  TypeMetaOf := {| Kind := "Machine"; APIVersion := "docker-machine.klusters.dev/v1alpha1" |};
  Meta := demo_meta;
  Spec := {| Driver := Some {| lor_Name := driver |};
             ScriptRef := Some {| ref_Namespace := "demo"; ref_Name := "script" |};
             AuthSecret := Some {| ref_Namespace := "demo"; ref_Name := "cred" |};
             Parameters := list_to_map params |};
  Status := {| Conditions := []; Phase := "" |} |}.

Definition gcp_machine : Machine :=
  demo_machine GoogleDriver [("google-project", "appscode-testing"); ("google-zone", "us-central1-a")].

Definition aws_machine : Machine :=
  demo_machine AWSDriver [("amazonec2-region", "us-east-1"); ("amazonec2-instance-type", "t2.xlarge")].

Definition demo_secrets (auth : list (string * string)) : gmap (string * string) Secret :=
  <[("demo", "cred") := {| Data := list_to_map auth |}]>
  (<[("demo", "script") := {| Data := list_to_map [("google-userdata", "echo ok")] |}]> ∅).

Definition sim_start (m : Machine) (auth : list (string * string)) : Sim := {|
  sim_machines := <[("demo", "rancher-vm") := m]> ∅;
  sim_secrets := demo_secrets auth;
  sim_files := ∅; sim_docker := []; sim_result := None; sim_vpcs := []; sim_next := 1;
  sim_gateways_fail := false; sim_clock := 1000 |}.

Definition gcp_start : Sim := sim_start gcp_machine [("google-application-credentials-data", "key")].
Definition aws_start : Sim :=
  sim_start aws_machine [("amazonec2-access-key", "AK"); ("amazonec2-secret-key", "SK")].

(** A reconciler that has not loaded anything. *)
Definition fresh (w : Sim) : St Sim := mkSt w None [].

(** [n] reconciliations in a row, each recording its own trace. *)
Fixpoint reconcile_n (n : nat) (s : St Sim) : St Sim :=
  match n with
  | O => s
  | S n => reconcile_n n (mkSt (world (Reconcile demo_key s).2) (machineObj (Reconcile demo_key s).2) [])
  end.

Definition demo_phase (s : St Sim) : option string :=
  (λ m, Phase (Status m)) <$> (sim_machines (world s) !! ("demo", "rancher-vm")).

(** The script finishes with an exit code. *)
Definition script_done (code : string) (s : St Sim) : St Sim :=
  let w := world s in
  mkSt (mkSim (sim_machines w) (sim_secrets w) (sim_files w) (sim_docker w) (Some code)
          (sim_vpcs w) (sim_next w) (sim_gateways_fail w) (sim_clock w)) (machineObj s) [].

Definition mark_deleted (s : St Sim) : St Sim :=
  let w := world s in
  let del (m : Machine) : Machine := set_Meta m {|
    Name := Name (Meta m); Namespace := Namespace (Meta m);
    ResourceVersion := ResourceVersion (Meta m); Generation := Generation (Meta m);
    DeletionTimestamp := Some 5000; Finalizers := Finalizers (Meta m);
    Annotations := Annotations (Meta m) |} in
  mkSt (with_machines w (del <$> sim_machines w)) (machineObj s) [].

(** A machine that is being created, one that waits for its script, and one
    that is being deleted. *)
Definition creation_start : St Sim := reconcile_n 1 (fresh gcp_start).
Definition waiting_start : St Sim := reconcile_n 2 (fresh gcp_start).
Definition deletion_start : St Sim := mark_deleted waiting_start.

(** The life of a machine: initialised, created and waiting for the script,
    done; and gone after its deletion. *)
Example gcp_lifecycle :
  demo_phase (reconcile_n 1 (fresh gcp_start)) = Some MachinePhaseInProgress ∧
  demo_phase (reconcile_n 2 (fresh gcp_start)) = Some MachinePhaseWaitingForScriptCompletion ∧
  demo_phase (reconcile_n 1 (script_done "0" (reconcile_n 2 (fresh gcp_start)))) =
    Some MachinePhaseSuccess ∧
  demo_phase (reconcile_n 1 (script_done "7" (reconcile_n 2 (fresh gcp_start)))) =
    Some MachinePhaseClusterOperationFailed ∧
  demo_phase (reconcile_n 1 (mark_deleted (reconcile_n 2 (fresh gcp_start)))) = None.
Proof. vm_compute. repeat split. Qed.

Example aws_lifecycle :
  demo_phase (reconcile_n 2 (fresh aws_start)) = Some MachinePhaseWaitingForScriptCompletion ∧
  sim_vpcs (world (reconcile_n 2 (fresh aws_start))) = ["vpc-1"] ∧
  let s := reconcile_n 1 (mark_deleted (reconcile_n 2 (fresh aws_start))) in
  demo_phase s = None ∧ sim_vpcs (world s) = [] ∧ sim_docker (world s) = [].
Proof. vm_compute. repeat split. Qed.
