(* ===== verification/System.v ===== *)
(** * The operator in its cluster

    The system as a transition relation: the controller reconciles requests
    one after the other, restarts now and then, and in between anything at all
    may happen outside the process.  As long as nobody else writes statuses
    ([faithful]), every claim in a status the operator submits or is shown,
    through however old a copy, is backed by what the operator did and saw
    before. *)

From S2P Require Import Prelude GoLib Types Conditions ConditionsFacts Summary StatusSpec StatusInv Effects Kube Aws Cleanup Cluster MachineOps Reconcile Evidence Logic History Preservation Sim.

Section System.
Context {World : Type} `{SV : !Services World}.

(** A state of the system: the world, the object the reconciler's receiver was
    left with, and (as a ghost) all calls the operator made so far, with their
    answers. *)
Inductive reachable : World → option Machine → list Event → Prop :=
| reach_start w : reachable w None []
| reach_others w w' mo h : reachable w mo h → reachable w' mo h
| reach_restart w mo h : reachable w mo h → reachable w None h
| reach_reconcile w mo h req s :
    reachable w mo h → s = (Reconcile req (mkSt w mo h)).2 →
    reachable (world s) (machineObj s) (trace s).

Lemma reachable_Sys w mo h : reachable w mo h → faithful h → Sys (mkSt w mo h).
Proof.
  induction 1 as [w|w w' mo h _ IH|w mo h _ IH|w mo h req s _ IH ->]; intros Hf.
  - split; [apply guarded_nil|done].
  - by apply IH.
  - destruct (IH Hf) as [Hs _]. by split.
  - destruct (Reconcile_Sys req) as [Hx Ht]. specialize (Hx (mkSt w mo h)).
    specialize (Ht (mkSt w mo h) (IH (faithful_prefix _ _ Hf Hx)) Hf).
    by destruct (Reconcile req (mkSt w mo h)) as [[] []].
Qed.

(** What is known of a machine that is shown. *)
Section Shown.
Context w mo h (Hr : reachable w mo h) (Hf : faithful h).
Context h1 e h2 m (Hh : h = h1 ++ e :: h2) (Hm : shown e m).

Lemma shown_before :
  submissions h1 ∧ faithful_at h1 e ∧
  ∀ obj, submitted e = Some obj → sound_status h1 (machine_key obj) (Status obj).
Proof using Hr Hf Hh.
  destruct (reachable_Sys w mo h Hr Hf) as [Hs _]. simpl in Hs.
  split_and!; [|by apply (Hf h1 e h2)|by apply (Hs h1 e h2)].
  eapply guarded_prefix; [exact Hs|]. by eexists.
Qed.

Lemma shown_sound : sound h1 (machine_key m) (GetConditions m).
Proof using Hr Hf Hh Hm.
  destruct shown_before as (Hs & Hfe & Hsub). destruct Hm as [Ho|Ha]; [by apply Hsub|].
  by eapply answered_sound.
Qed.

Lemma shown_phase :
  Phase (Status m) = "" ∨
  ∃ h' st, h' `prefix_of` h1 ∧ Phase st = Phase (Status m) ∧ sound_status h' (machine_key m) st.
Proof using Hr Hf Hh Hm.
  destruct shown_before as (Hs & Hfe & Hsub). destruct Hm as [Ho|Ha].
  - right. exists h1, (Status m). split_and!; [done|done|by apply Hsub].
  - unfold faithful_at in Hfe. rewrite Ha in Hfe. destruct Hfe as (_ & _ & [?|Hex]); [by left|].
    right. by eapply submits_at.
Qed.
End Shown.

(** C1: [Success] is earned.  Whenever a machine in phase [Success] is shown, in
    a status the operator submits or in an answer, which may come from a cache
    that is out of date, then before that the operator had run
    [docker-machine create] for its name with success (or the answer that it
    already exists), and had fetched the result file of its script and read 0
    in it; and a status it submits with this phase has both conditions true and
    none of [ConditionsOrder] that is not.  This assumes that no other client
    writes the statuses of machines and that no machine is deleted and created
    anew under its name. *)
Theorem success_is_earned w mo h h1 e h2 m :
  reachable w mo h → faithful h → kept h → h = h1 ++ e :: h2 → shown e m →
  Phase (Status m) = MachinePhaseSuccess →
  created (Name (Meta m)) h1 ∧ completed (Name (Meta m)) h1 ∧
  (submitted e = Some m →
     IsConditionTrue (Conditions (Status m)) MachineConditionTypeMachineReady = true ∧
     IsConditionTrue (Conditions (Status m)) MachineConditionTypeClusterOperationComplete = true ∧
     ∀ c, c ∈ Conditions (Status m) → c_Type c ∈ ConditionsOrder → c_Status c = ConditionTrue).
Proof.
  intros Hr Hf Hk Hh Hm Hp.
  assert (∀ h', h' `prefix_of` h1 → kept h') as Hkept.
  { intros h' Hpre. eapply guarded_prefix; [exact Hk|]. etrans; [exact Hpre|]. rewrite Hh. by eexists. }
  split_and!; [| |intros Ho; apply (shown_before w mo h Hr Hf h1 e h2 Hh); [done|by apply Hkept|done]];
    (destruct (shown_phase w mo h Hr Hf h1 e h2 m Hh Hm) as [Hn|(h' & st & Hpre & Hst & [[[_ He] _] Hsu])];
      [by rewrite Hn in Hp|]); rewrite Hp in Hst; destruct (Hsu (Hkept h' Hpre) Hst) as (H1 & H2 & _).
  - eapply created_mono; [by apply He|done].
  - eapply completed_mono; [by apply He|done].
Qed.

(** C3: a machine said to be ready was created.  Whenever a machine with
    [MachineReady] true is shown, in a status the operator submits or in an
    answer, however old, then before that the operator had run
    [docker-machine create] for its name and the command had succeeded or said
    that the machine already exists.  This assumes that no other client writes
    the statuses of machines. *)
Theorem ready_is_backed w mo h h1 e h2 m :
  reachable w mo h → faithful h → h = h1 ++ e :: h2 → shown e m →
  IsConditionTrue (Conditions (Status m)) MachineConditionTypeMachineReady = true →
  created (Name (Meta m)) h1.
Proof. intros Hr Hf Hh Hm. apply (shown_sound w mo h Hr Hf h1 e h2 m Hh Hm). Qed.

(** C2: a cluster operation said to be complete was.  Whenever a machine with
    [ClusterOperationComplete] true is shown, in a status the operator submits
    or in an answer, however old, then before that the operator had fetched the
    result file from that machine, and the file it read right after had 0 as
    its first number.  This assumes that no other client writes the statuses of
    machines. *)
Theorem complete_is_backed w mo h h1 e h2 m :
  reachable w mo h → faithful h → h = h1 ++ e :: h2 → shown e m →
  IsConditionTrue (Conditions (Status m)) MachineConditionTypeClusterOperationComplete = true →
  completed (Name (Meta m)) h1.
Proof. intros Hr Hf Hh Hm. apply (shown_sound w mo h Hr Hf h1 e h2 m Hh Hm). Qed.

(** C4: the conditions of the system are well-formed, always.  The conditions
    of every machine the operator submits or is shown are sorted with one
    condition per type, only of the six types the operator uses (so at most
    six), each true without severity or false with severity [Error].  This
    holds for any number of reconciliations of any machines, also when they
    fail halfway or panic, whatever is done to the machines in between, and
    however old the answers are, if no other client writes the statuses of
    machines. *)
Theorem shown_conditions w mo h h1 e h2 m :
  reachable w mo h → faithful h → h = h1 ++ e :: h2 → shown e m →
  wf_conditions (Conditions (Status m)) ∧
  (length (Conditions (Status m)) ≤ 6)%nat ∧
  ∀ c, c ∈ Conditions (Status m) → c_Type c ∈ known_types ∧ op_condition c.
Proof.
  intros Hr Hf Hh Hm. destruct (shown_sound w mo h Hr Hf h1 e h2 m Hh Hm) as [[[Hwf Hall] _] _].
  split_and!; [done| |done].
  rewrite <- (length_fmap c_Type (Conditions (Status m))). change 6%nat with (length known_types).
  apply submseteq_length, NoDup_submseteq; [apply Hwf|].
  intros t (c & -> & Hc)%list_elem_of_fmap. by apply Hall.
Qed.
End System.

(** ** A run of the system, through a cache *)

(** The environment of [Sim.v] behind a cache: reads answer the machines as
    they were when the cache was brought up to date, and status patches are
    merged into what is stored. *)
Record Cached := mkCached {
  c_sim : Sim;
  c_cache : gmap (string * string) Machine
}.

Definition on_sim {X} (r : X * Sim) (w : Cached) : X * Cached := (r.1, mkCached r.2 (c_cache w)).

Definition cached_serve {X} (c : Call X) (w : Cached) : X * Cached :=
  match c in Call X return X * Cached with
  | KGetMachine k =>
      (match c_cache w !! key_pair k with Some m => inl m | None => inr not_found end, w)
  | KStatusPatch old obj =>
      on_sim (sim_update (c_sim w) (machine_key obj) (λ m,
        set_Status m (merge_status (Status m) (Status old) (Status obj)))) w
  | c => on_sim (sim_serve c (c_sim w)) w
  end.

#[export] Instance Cached_Services : Services Cached := {|
  serve X c w := cached_serve c w;
  clock w := sim_clock (c_sim w);
  range_order _ m := map_to_list m;
  range_order_perm _ _ := Permutation_refl _
|}.

(** The cache catches up; the script has finished. *)
Definition caught_up (s : St Cached) : St Cached :=
  mkSt (mkCached (c_sim (world s)) (sim_machines (c_sim (world s)))) (machineObj s) (trace s).

Definition with_result (code : string) (s : St Cached) : St Cached :=
  mkSt (mkCached (world (script_done code (mkSt (c_sim (world s)) None []))) (c_cache (world s)))
    (machineObj s) (trace s).

Definition state_reachable (s : St Cached) : Prop := reachable (world s) (machineObj s) (trace s).

Lemma reconcile_reachable (s : St Cached) : state_reachable s → state_reachable (Reconcile demo_key s).2.
Proof. destruct s as [w mo h]. intros Hs. by eapply (reach_reconcile w mo h demo_key). Qed.

Lemma caught_up_reachable (s : St Cached) : state_reachable s → state_reachable (caught_up s).
Proof. intros Hs. eapply reach_others, Hs. Qed.

Lemma with_result_reachable code (s : St Cached) : state_reachable s → state_reachable (with_result code s).
Proof. intros Hs. eapply reach_others, Hs. Qed.

(** The cache catches up between the reconciliations only: what a
    reconciliation writes is not what it reads afterwards. *)
Definition cached_start : St Cached := mkSt (mkCached gcp_start (sim_machines gcp_start)) None [].

(** Three reconciliations, to phase [Success]. *)
Definition success_state : St Cached :=
  (Reconcile demo_key (caught_up (with_result "0"
    (Reconcile demo_key (caught_up (Reconcile demo_key cached_start).2)).2))).2.

Lemma cached_start_reachable : state_reachable cached_start.
Proof. apply reach_start. Qed.

Lemma success_state_reachable : state_reachable success_state.
Proof.
  exact (reconcile_reachable _ (caught_up_reachable _ (with_result_reachable "0" _
    (reconcile_reachable _ (caught_up_reachable _ (reconcile_reachable _ cached_start_reachable)))))).
Qed.

Lemma success_state_honest : faithful (trace success_state) ∧ kept (trace success_state).
Proof. split; by_decide. Qed.

(** The last call submits [Success], for a machine that is shown without it. *)
Lemma success_submitted :
  ∃ e m, trace success_state = take 26 (trace success_state) ++ e :: [] ∧ submitted e = Some m ∧
    Phase (Status m) = MachinePhaseSuccess ∧ Name (Meta m) = "rancher-vm" ∧
    IsConditionTrue (Conditions (Status m)) MachineConditionTypeMachineReady = true ∧
    IsConditionTrue (Conditions (Status m)) MachineConditionTypeClusterOperationComplete = true.
Proof.
  assert (∃ e m, trace success_state !! 26%nat = Some e ∧ submitted e = Some m ∧
    Phase (Status m) = MachinePhaseSuccess ∧ Name (Meta m) = "rancher-vm" ∧
    IsConditionTrue (Conditions (Status m)) MachineConditionTypeMachineReady = true ∧
    IsConditionTrue (Conditions (Status m)) MachineConditionTypeClusterOperationComplete = true)
    as (e & m & He & Hm & Hr) by (do 2 eexists; do 5 (split; [by_eval|]); by_eval).
  exists e, m. split; [|by split].
  assert (drop 27 (trace success_state) = []) as Hd by by_eval.
  rewrite <- Hd. symmetry. by apply take_drop_middle.
Qed.

Lemma success_is_earned_witness :
  created "rancher-vm" (take 26 (trace success_state)) ∧ completed "rancher-vm" (take 26 (trace success_state)).
Proof.
  destruct success_submitted as (e & m & Hh & Hm & Hp & Hn & _), success_state_honest as [Hf Hk].
  rewrite <- Hn.
  destruct (success_is_earned _ _ _ _ e [] m success_state_reachable Hf Hk Hh (or_introl Hm) Hp) as (H1 & H2 & _).
  exact (conj H1 H2).
Defined.

Lemma ready_is_backed_witness : created "rancher-vm" (take 26 (trace success_state)).
Proof.
  destruct success_submitted as (e & m & Hh & Hm & _ & Hn & Hr & _), success_state_honest as [Hf _].
  rewrite <- Hn.
  exact (ready_is_backed _ _ _ _ e [] m success_state_reachable Hf Hh (or_introl Hm) Hr).
Defined.

Lemma complete_is_backed_witness : completed "rancher-vm" (take 26 (trace success_state)).
Proof.
  destruct success_submitted as (e & m & Hh & Hm & _ & Hn & _ & Hc), success_state_honest as [Hf _].
  rewrite <- Hn.
  exact (complete_is_backed _ _ _ _ e [] m success_state_reachable Hf Hh (or_introl Hm) Hc).
Defined.

Lemma shown_conditions_witness :
  ∃ e m, e ∈ trace success_state ∧ submitted e = Some m ∧ (length (Conditions (Status m)) ≤ 6)%nat.
Proof.
  destruct success_submitted as (e & m & Hh & Hm & _), success_state_honest as [Hf _].
  exists e, m. split; [rewrite Hh; apply elem_of_last|]. split; [exact Hm|].
  apply (shown_conditions _ _ _ _ e [] m success_state_reachable Hf Hh (or_introl Hm)).
Defined.
