(* ===== verification/Footprint.v ===== *)
(** * Footprints: which calls an operation issues

    Calls are classified; the specification of an operation says from which
    classes it calls, whether it leaves [machineObj] alone, and what its
    success means for the trace.  The specifications hold under any guard that
    allows the classes, so every ordering property of the operator reuses
    them. *)

From S2P Require Import Prelude GoLib Types Conditions Summary Effects Kube Aws Azure Cleanup Cluster MachineOps Reconcile Logic.

Inductive Class_ :=
| CStatus | CPatch | CSecret | CExec | CFile | CSleep
| CEc2Session | CEc2Read | CEc2Create | CEc2Delete | CEc2Vpc | CAzure.

#[export] Instance Class_eq_dec : EqDecision Class_.
Proof. solve_decision. Defined.

Definition class_of {X} (c : Call X) : Class_ :=
  match c with
  | KGetMachine _ | KStatusPatch _ _ => CStatus
  | KGVKForObject _ | KCreate _ | KPatch _ _ _ => CPatch
  | KGetSecret _ => CSecret
  | Exec _ _ _ => CExec
  | OsStat _ | OsWriteFile _ _ _ | OsRemove _ | OsOpen _ => CFile
  | Sleep _ => CSleep
  | AwsNewSession _ => CEc2Session
  | DescribeVpcs _ _ | DescribeRouteTables _ | DescribeSecurityGroups _ _ => CEc2Read
  | CreateVpc _ _ | CreateSubnet _ _ _ _ | CreateInternetGateway _
  | AttachInternetGateway _ _ _ | CreateRoute _ _ _ _ => CEc2Create
  | DeleteVpc _ _ => CEc2Vpc
  | DeleteSubnet _ _ | DetachInternetGateway _ _ _
  | DeleteInternetGateway _ _ | DeleteRoute _ _ _ | DeleteSecurityGroup _ _ => CEc2Delete
  | AzNewClientSecretCredential _ _ _ | AzNewResourceGroupsClient _
  | AzBeginDelete _ _ | AzPollUntilDone _ => CAzure
  end.

Definition in_fp (fp : list Class_) (e : Event) : bool :=
  let '(Ev c _) := e in bool_decide (class_of c ∈ fp).

(** A status patch carries a phase that agrees with its object. *)
Definition coherent (e : Event) : Prop :=
  let '(Ev c _) := e in
  match c with
  | KStatusPatch _ obj => Phase (Status obj) = GetPhase obj
  | _ => True
  end.

(** The guard allows every (coherent) call of these classes. *)
Definition allows (G : Guard) (fp : list Class_) : Prop :=
  ∀ h e, in_fp fp e = true → coherent e → G h e.

Definition sub_fp (fp' fp : list Class_) : bool :=
  forallb (λ k, bool_decide (k ∈ fp)) fp'.

Lemma allows_sub G fp fp' : allows G fp → sub_fp fp' fp = true → allows G fp'.
Proof.
  intros HG Hsub h [X c x] He. apply HG. unfold in_fp, sub_fp in *.
  rewrite bool_decide_eq_true in *. rewrite forallb_forall in Hsub.
  apply list_elem_of_In, Hsub in He. by apply bool_decide_eq_true in He.
Qed.

Lemma unguarded_allows fp : allows unguarded fp.
Proof. done. Qed.

Definition fp_ec2_parts : list Class_ := [CEc2Read; CEc2Delete].
Definition fp_ec2_delete : list Class_ := [CEc2Read; CEc2Delete; CEc2Vpc].
Definition fp_cloud : list Class_ := [CSecret; CEc2Session; CEc2Read; CEc2Delete; CEc2Vpc; CAzure].
Definition fp_cleanup : list Class_ := CFile :: CExec :: fp_cloud.

(** Side conditions of the rules. *)
Ltac allowed :=
  match goal with
  | HG : allows ?G ?fp |- ?G _ _ => apply HG; [reflexivity|first [exact I|reflexivity]]
  | HG : allows ?G ?fp |- allows ?G _ => apply (allows_sub _ _ _ HG); reflexivity
  end.

(** Symbolic execution that also discharges the guard of each call. *)
Ltac wp_run :=
  repeat (wp_step ||
    lazymatch goal with
    | |- _ ∧ _ => split; [try allowed|]
    end);
  try done.

Section Specs.
Context {World : Type} `{SV : !Services World}.
Context (G : Guard) (E : Prop) (HE : E).
Implicit Types s : St World.

(** ** Leaving the machine alone *)

(** [m] calls only what [G] allows and keeps [machineObj]. *)
Definition quiet {A} (m : M World A) : Prop :=
  ∀ s, wp G E m (λ _ s', machineObj s' = machineObj s) s.

Lemma quiet_bind {A B} (m : M World A) (k : A → M World B) :
  quiet m → (∀ a, quiet (k a)) → quiet (m ≫= k).
Proof.
  intros Hm Hk s. apply wp_bind. eapply wp_mono; [apply Hm|].
  intros a s' Hs'. eapply wp_mono; [apply Hk|]. simpl. by intros _ s'' ->.
Qed.

Lemma quiet_try {A B} (m : M World (Res A)) (k : A → M World (Res B)) :
  quiet m → (∀ a, quiet (k a)) → quiet (tryE m k).
Proof.
  intros Hm Hk. apply quiet_bind; [done|]. intros [a|e]; [done|].
  intros s. by apply wp_ret.
Qed.

Lemma quiet_ret {A} (a : A) : quiet (mret a).
Proof. intros s. by apply wp_ret. Qed.

Lemma quiet_deref {A} (p : option A) : quiet (deref p).
Proof. intros s. by apply wp_deref. Qed.

Lemma quiet_machine : quiet the_machine.
Proof. intros s. by apply wp_the_machine. Qed.

Lemma quiet_now : quiet now.
Proof. intros s. by apply wp_now. Qed.

Lemma quiet_range mp : quiet (range mp).
Proof. intros s. by apply wp_range. Qed.

Lemma quiet_call {X} (c : Call X) :
  (∀ h x, G h (Ev c x)) → quiet (call c).
Proof. intros HG s. apply wp_call. intros x w _. by split. Qed.
End Specs.

(** Goal-directed proof of [quiet]. *)
Ltac quiet_step :=
  lazymatch goal with
  | |- quiet _ _ (mbind _ _) => apply quiet_bind; [|intros ?]
  | |- quiet _ _ (tryE _ _) => apply quiet_try; [|intros ?]
  | |- quiet _ _ (mret _) => apply quiet_ret
  | |- quiet _ _ ok => apply quiet_ret
  | |- quiet _ _ (fail _) => apply quiet_ret
  | |- quiet _ _ (deref _) => apply quiet_deref; done
  | |- quiet _ _ the_machine => apply quiet_machine; done
  | |- quiet _ _ now => apply quiet_now
  | |- quiet _ _ (range _) => apply quiet_range
  | |- quiet _ _ (call _) => apply quiet_call; intros; allowed
  | |- quiet _ _ (if _ then _ else _) => case_match
  | |- quiet _ _ (match ?x with _ => _ end) => destruct x
  end.
Ltac quiet_run := repeat quiet_step; try (by eauto with frame).

Section Quiet.
Context {World : Type} `{SV : !Services World}.
Context (G : Guard) (E : Prop) (HE : E).

Lemma quiet_getSecret ref : allows G [CSecret] → quiet G E (getSecret ref).
Proof. intros HG. unfold getSecret. quiet_run. Qed.

Lemma quiet_driverName : quiet G E (driverName (World:=World)).
Proof. unfold driverName. quiet_run. Qed.

Lemma quiet_getScriptFilePath : quiet G E (getScriptFilePath (World:=World)).
Proof. unfold getScriptFilePath. quiet_run. Qed.

Lemma quiet_last_route_table vpcId rts acc :
  quiet G E (last_route_table (World:=World) vpcId rts acc).
Proof.
  revert acc. induction rts as [|p rts IH]; intros acc; simpl; quiet_run.
Qed.

Lemma quiet_find_vpc vpcId vpcs : quiet G E (find_vpc (World:=World) vpcId vpcs).
Proof. induction vpcs as [|p vpcs IH]; simpl; quiet_run. Qed.

#[local] Hint Resolve quiet_getSecret quiet_driverName quiet_getScriptFilePath
  quiet_last_route_table quiet_find_vpc : frame.
#[local] Hint Extern 1 (allows _ _) => allowed : frame.

Lemma quiet_getVPC c id : allows G [CEc2Read] → quiet G E (getVPC c id).
Proof. intros HG. unfold getVPC. quiet_run. Qed.

Lemma quiet_getAWSCredentials : allows G [CSecret] → quiet G E getAWSCredentials.
Proof. intros HG. unfold getAWSCredentials. quiet_run. Qed.

#[local] Hint Resolve quiet_getVPC quiet_getAWSCredentials : frame.

Lemma quiet_awsEC2Client : allows G [CSecret; CEc2Session] → quiet G E awsEC2Client.
Proof. intros HG. unfold awsEC2Client, newAWSClientSession. quiet_run. Qed.

Lemma quiet_deleteAwsRoute c vpcId : allows G fp_ec2_parts → quiet G E (deleteAwsRoute c vpcId).
Proof. intros HG. unfold deleteAwsRoute. quiet_run. Qed.

#[local] Hint Resolve quiet_awsEC2Client quiet_deleteAwsRoute : frame.

Lemma quiet_deleteAwsInternetGateway c gw vpcId :
  allows G fp_ec2_parts → quiet G E (deleteAwsInternetGateway c gw vpcId).
Proof. intros HG. unfold deleteAwsInternetGateway, detachInternetGatewayToVPC. quiet_run. Qed.

#[local] Hint Resolve quiet_deleteAwsInternetGateway : frame.

Lemma quiet_deleteAwsSubnet c id : allows G fp_ec2_parts → quiet G E (deleteAwsSubnet c id).
Proof. intros HG. unfold deleteAwsSubnet. quiet_run. Qed.

Lemma quiet_deleteSecurityGroup c id :
  allows G fp_ec2_parts → quiet G E (deleteSecurityGroup c id).
Proof.
  intros HG. unfold deleteSecurityGroup. quiet_run.
  match goal with |- quiet _ _ (delete_groups _ ?l) => induction l; simpl; quiet_run end.
Qed.

#[local] Hint Resolve quiet_deleteAwsSubnet quiet_deleteSecurityGroup : frame.

Lemma quiet_deleteAwsVpc c id : allows G fp_ec2_delete → quiet G E (deleteAwsVpc c id).
Proof. intros HG. unfold deleteAwsVpc. quiet_run. Qed.

Lemma quiet_vpc_available c id : allows G [CEc2Read] → quiet G E (vpc_available c id).
Proof. intros HG. unfold vpc_available. quiet_run. Qed.

Lemma quiet_wait_loop fuel retry timeout t getStatus :
  allows G [CSleep] → quiet G E getStatus →
  quiet G E (wait_loop fuel retry timeout t getStatus).
Proof.
  intros HG Hq. revert t. induction fuel as [|fuel IH]; intros t; simpl; quiet_run.
Qed.

Lemma quiet_waitForState retry timeout getStatus :
  allows G [CSleep] → quiet G E getStatus →
  quiet G E (waitForState retry timeout getStatus).
Proof.
  intros HG Hq. unfold waitForState. apply quiet_bind; [by apply quiet_wait_loop|].
  intros [r|]; [apply quiet_ret|]. intros s. by apply wp_panic.
Qed.

Lemma quiet_createAwsRoute c vpcId gw :
  allows G [CEc2Read; CEc2Create] → quiet G E (createAwsRoute c vpcId gw).
Proof. intros HG. unfold createAwsRoute. quiet_run. Qed.

Lemma quiet_getAzureCredential : allows G [CSecret] → quiet G E getAzureCredential.
Proof. intros HG. unfold getAzureCredential. quiet_run. Qed.

#[local] Hint Resolve quiet_getAzureCredential : frame.

Lemma quiet_deleteAzureResourceGroup :
  allows G [CSecret; CAzure] → quiet G E deleteAzureResourceGroup.
Proof. intros HG. unfold deleteAzureResourceGroup. quiet_run. Qed.

Lemma quiet_remove_file path : allows G [CFile] → quiet G E (remove_file path).
Proof. intros HG. unfold remove_file. quiet_run. Qed.

#[local] Hint Resolve quiet_remove_file : frame.

Lemma quiet_deleteFiles : allows G [CFile] → quiet G E deleteFiles.
Proof. intros HG. unfold deleteFiles. quiet_run. Qed.

Lemma quiet_auth_args kvs acc : quiet G E (auth_args (World:=World) kvs acc).
Proof. revert acc. induction kvs as [|[k v] kvs IH]; intros acc; simpl; quiet_run. Qed.

Lemma quiet_getAnnotationsArgsForAWS : quiet G E (getAnnotationsArgsForAWS (World:=World)).
Proof. unfold getAnnotationsArgsForAWS. quiet_run. Qed.

#[local] Hint Resolve quiet_auth_args : frame.

Lemma quiet_getAuthSecretArgs : allows G [CSecret] → quiet G E getAuthSecretArgs.
Proof. intros HG. unfold getAuthSecretArgs. quiet_run. Qed.

Lemma quiet_getStartupScriptArgs :
  allows G [CSecret; CFile] → quiet G E getStartupScriptArgs.
Proof. intros HG. unfold getStartupScriptArgs. quiet_run. Qed.

Lemma quiet_getScpArgs : quiet G E (getScpArgs (World:=World)).
Proof. unfold getScpArgs. quiet_run. Qed.
End Quiet.

#[export] Hint Resolve quiet_getSecret quiet_driverName quiet_getScriptFilePath
  quiet_last_route_table quiet_find_vpc quiet_getVPC quiet_getAWSCredentials
  quiet_awsEC2Client quiet_deleteAwsRoute quiet_deleteAwsInternetGateway
  quiet_deleteAwsSubnet quiet_deleteSecurityGroup quiet_deleteAwsVpc quiet_vpc_available
  quiet_waitForState quiet_createAwsRoute quiet_getAzureCredential
  quiet_deleteAzureResourceGroup quiet_remove_file quiet_deleteFiles quiet_auth_args
  quiet_getAnnotationsArgsForAWS quiet_getAuthSecretArgs quiet_getStartupScriptArgs
  quiet_getScpArgs : frame.
#[export] Hint Extern 1 (allows _ _) => allowed : frame.
