(* ===== verification/Yields.v ===== *)
(** * Footprints of the operations that change the machine

    The operations that patch the Machine object or mark conditions, composed
    up to the creating half of the reconciler: which calls they issue, and the
    shape of the command lines they run. *)

From S2P Require Import Prelude GoLib Types Conditions Summary Effects Kube Aws Azure Cleanup Cluster MachineOps Reconcile Logic Footprint.

Section Yields.
Context {World : Type} `{SV : !Services World}.
Context (G : Guard) (E : Prop) (HE : E).

(** [m] calls only what [G] allows and returns a value satisfying [Q]. *)
Definition yields {A} (m : M World A) (Q : A → Prop) : Prop :=
  ∀ s, wp G E m (λ a _, Q a) s.

Definition safe {A} (m : M World A) : Prop := yields m (λ _, True).

Lemma quiet_safe {A} (m : M World A) : quiet G E m → safe m.
Proof. intros Hq s. by eapply wp_mono. Qed.

Lemma yields_bind {A B} (m : M World A) (k : A → M World B) Q R :
  yields m Q → (∀ a, Q a → yields (k a) R) → yields (m ≫= k) R.
Proof.
  intros Hm Hk s. apply wp_bind. eapply wp_mono; [apply Hm|]. intros a s' HQ. by apply Hk.
Qed.

Lemma yields_mono {A} (m : M World A) (Q R : A → Prop) :
  yields m Q → (∀ a, Q a → R a) → yields m R.
Proof. intros Hm HQ s. eapply wp_mono; [apply Hm|]. auto. Qed.

Lemma safe_bind {A B} (m : M World A) (k : A → M World B) R :
  safe m → (∀ a, yields (k a) R) → yields (m ≫= k) R.
Proof. intros Hm Hk. by eapply yields_bind. Qed.

Lemma yields_try {A B} (m : M World (Res A)) (k : A → M World (Res B))
    (Q : A → Prop) (R : Res B → Prop) :
  yields m (λ r, match r with inl a => Q a | inr _ => True end) →
  (∀ a, Q a → yields (k a) R) → (∀ e, R (inr e)) → yields (tryE m k) R.
Proof.
  intros Hm Hk He. eapply yields_bind; [exact Hm|].
  intros [a|e] HQ; [by apply Hk|]. intros s. by apply wp_ret.
Qed.

Lemma safe_try {A B} (m : M World (Res A)) (k : A → M World (Res B)) :
  safe m → (∀ a, safe (k a)) → safe (tryE m k).
Proof.
  intros Hm Hk. eapply (yields_try _ _ (λ _, True)); [|intros a _; apply Hk|done].
  eapply yields_mono; [exact Hm|]. by intros [].
Qed.

Lemma yields_ret {A} (a : A) (Q : A → Prop) : Q a → yields (mret a) Q.
Proof. intros HQ s. by apply wp_ret. Qed.

Lemma safe_put m : safe (put_machine m).
Proof. intros s. by apply wp_put_machine. Qed.

Lemma safe_mark_true t : safe (mark_true t).
Proof.
  apply safe_bind; [apply quiet_safe, quiet_now|]. intros n.
  apply safe_bind; [by apply quiet_safe, quiet_machine|]. intros m. apply safe_put.
Qed.

Lemma safe_mark_false t r sv msg : safe (mark_false t r sv msg).
Proof.
  apply safe_bind; [apply quiet_safe, quiet_now|]. intros n.
  apply safe_bind; [by apply quiet_safe, quiet_machine|]. intros m. apply safe_put.
Qed.
End Yields.

Ltac safe_step :=
  lazymatch goal with
  | |- yields _ _ (mbind _ _) _ => apply safe_bind; [|intros ?]
  | |- safe _ _ (mbind _ _) => apply safe_bind; [|intros ?]
  | |- safe _ _ (tryE _ _) => apply safe_try; [|intros ?]
  | |- yields _ _ (tryE _ _) (λ _, True) => apply safe_try; [|intros ?]
  | |- safe _ _ (put_machine _) => apply safe_put
  | |- safe _ _ (mark_true _) => apply safe_mark_true; done
  | |- safe _ _ (mark_false _ _ _ _) => apply safe_mark_false; done
  | |- safe _ _ (mret _) => by apply yields_ret
  | |- yields _ _ (mret _) (λ _, True) => by apply yields_ret
  | |- safe _ _ ok => by apply yields_ret
  | |- safe _ _ (fail _) => by apply yields_ret
  | |- safe _ _ (call _) => apply quiet_safe, quiet_call; intros; allowed
  | |- safe _ _ (if _ then _ else _) => case_match
  | |- safe _ _ (match ?x with _ => _ end) => destruct x
  | |- safe _ _ (let '(_, _) := ?x in _) => destruct x
  | |- yields _ _ (if _ then _ else _) (λ _, True) => case_match
  | |- yields _ _ (match ?x with _ => _ end) (λ _, True) => destruct x
  | |- safe _ _ _ => first [by eauto with emits | apply quiet_safe; by eauto with frame
                           | apply quiet_safe; quiet_step]
  | |- yields ?G ?E ?m (λ _, True) => change (safe G E m)
  end.
Ltac safe_run := repeat safe_step.

(** What a guard must allow for the object patches of the creating half: the
    bookkeeping of [CreateOrPatch], and patches that add the finalizer or an
    annotation. *)
Record allows_patches (G : Guard) : Prop := {
  allows_gvk : ∀ h m x, G h (Ev (KGVKForObject m) x);
  allows_create : ∀ h m x, G h (Ev (KCreate m) x);
  allows_annotation : ∀ h k key v cur x,
    G h (Ev (KPatch k cur (annotation_transform key v cur)) x);
  allows_finalizer : ∀ h k cur x,
    G h (Ev (KPatch k cur (finalizer_transform VerbCreated GetFinalizer cur)) x)
}.

Definition is_create_command (args : list string) : Prop := head args = Some "create".

Definition fp_create : list Class_ :=
  [CStatus; CSecret; CFile; CSleep; CEc2Session; CEc2Read; CEc2Create; CEc2Delete; CEc2Vpc].

Section Creating.
Context {World : Type} `{SV : !Services World}.
Context (G : Guard) (E : Prop) (HE : E).

Lemma safe_updateMachineStatus key :
  allows G [CStatus] → safe G E (updateMachineStatus key).
Proof.
  intros HG. unfold updateMachineStatus, committer. safe_run.
Qed.

#[local] Hint Resolve safe_updateMachineStatus : emits.

Lemma safe_update_own_status : allows G [CStatus] → safe G E update_own_status.
Proof. intros HG. unfold update_own_status. safe_run. Qed.

#[local] Hint Resolve safe_update_own_status : emits.

Lemma safe_setInitialConditions : allows G [CStatus] → safe G E setInitialConditions.
Proof. intros HG. unfold setInitialConditions. safe_run. Qed.

Lemma safe_requeueWithError msg err :
  allows G [CStatus] → safe G E (requeueWithError msg err).
Proof. intros HG. unfold requeueWithError. safe_run. Qed.

#[local] Hint Resolve safe_setInitialConditions safe_requeueWithError : emits.
#[local] Hint Extern 1 (allows _ _) => allowed : emits.

(** [CreateOrPatch] in full: the guard sees the patch right after the read
    it is based on. *)
Lemma wp_CreateOrPatch (f : Machine → Machine) s :
  allows G [CStatus] →
  (∀ h m x, G h (Ev (KGVKForObject m) x)) → (∀ h m x, G h (Ev (KCreate m) x)) →
  (∀ m g k cur x, machineObj s = Some m →
     G (trace s ++ [Ev (KGVKForObject m) g; Ev (KGetMachine (machine_key m)) (inl cur)])
       (Ev (KPatch k cur (f cur)) x)) →
  wp G E (CreateOrPatch f) (λ _ _, True) s.
Proof.
  intros HG Hgvk Hcr Hp. unfold CreateOrPatch.
  apply wp_bind, wp_the_machine; [|done]. intros m Hm.
  apply wp_bind, wp_call. intros g w _. split; [done|].
  destruct g as [group|e]; [|by apply wp_ret].
  apply wp_bind, wp_call. intros r w' _. split; [allowed|]. simpl.
  destruct r as [cur|e].
  - apply wp_tryE, wp_call. intros x w'' _. split.
    + simpl. rewrite <- app_assoc. by apply Hp.
    + destruct x; [|done]. by apply wp_bind, wp_put_machine, wp_ret.
  - destruct (IsNotFound e); [|by apply wp_ret].
    apply wp_tryE, wp_call. intros x w'' _. split; [done|].
    destruct x; [|done]. by apply wp_bind, wp_put_machine, wp_ret.
Qed.

Lemma safe_scan_result lines : allows G [CFile] → safe G E (scan_result lines).
Proof.
  intros HG. induction lines as [|l lines IH]; simpl; [safe_run|].
  destruct (Atoi l) as [ret|]; [|done]. unfold record_result. safe_run.
Qed.

#[local] Hint Resolve safe_scan_result : emits.

(** The command that fetches the result of the script. *)
Definition allows_scp : Prop :=
  ∀ h t user x, G h (Ev (Exec t "docker-machine" ["scp"; user; "/tmp"]) x).

Lemma safe_isScriptFinished :
  allows G [CStatus; CFile] → allows_scp → safe G E isScriptFinished.
Proof.
  intros HG Hscp. unfold isScriptFinished, getScpArgs. apply safe_bind; [safe_run|]. intros m.
  case_match; [safe_run|]. case_match; [safe_run|].
  eapply (yields_bind _ _ _ _ (λ args, ∃ user, args = ["scp"; user; "/tmp"])).
  { apply safe_bind; [safe_run|]. intros m'. apply safe_bind; [safe_run|]. intros d.
    apply yields_ret. eauto. }
  intros args [user ->]. apply safe_bind; [|intros out; safe_run].
  apply quiet_safe, quiet_call. intros. by apply Hscp.
Qed.

Context (HP : allows_patches G).

Lemma safe_patchAnnotation k v : allows G [CStatus] → safe G E (patchAnnotation k v).
Proof.
  intros HG s. apply wp_CreateOrPatch; [done|apply HP|apply HP|].
  intros. by apply allows_annotation.
Qed.

Lemma safe_ensureFinalizer : allows G [CStatus] → safe G E ensureFinalizer.
Proof.
  intros HG. unfold ensureFinalizer. safe_run. intros s.
  apply wp_CreateOrPatch; [done|apply HP|apply HP|].
  intros. by apply allows_finalizer.
Qed.

#[local] Hint Resolve safe_patchAnnotation safe_ensureFinalizer : emits.

Lemma safe_createAwsInternetGateway c id :
  allows G fp_create → safe G E (createAwsInternetGateway c id).
Proof. intros HG. unfold createAwsInternetGateway, attachInternetGatewayToVPC. safe_run. Qed.

#[local] Hint Resolve safe_createAwsInternetGateway : emits.

Lemma safe_createAwsSubnet c id : allows G fp_create → safe G E (createAwsSubnet c id).
Proof. intros HG. unfold createAwsSubnet. safe_run. Qed.

#[local] Hint Resolve safe_createAwsSubnet : emits.

Lemma safe_obtain_vpc c : allows G fp_create → safe G E (obtain_vpc c).
Proof. intros HG. unfold obtain_vpc. safe_run. Qed.

#[local] Hint Resolve safe_obtain_vpc : emits.

Lemma safe_createAwsVpc c : allows G fp_create → safe G E (createAwsVpc c).
Proof. intros HG. unfold createAwsVpc. safe_run. Qed.

#[local] Hint Resolve safe_createAwsVpc : emits.

Lemma safe_createAWSEnvironment : allows G fp_create → safe G E createAWSEnvironment.
Proof. intros HG. unfold createAWSEnvironment. safe_run. Qed.

#[local] Hint Resolve safe_createAWSEnvironment : emits.

Lemma safe_createPrerequisitesForMachine :
  allows G fp_create → safe G E createPrerequisitesForMachine.
Proof. intros HG. unfold createPrerequisitesForMachine. safe_run. Qed.

Lemma safe_script_args : allows G fp_create → safe G E script_args.
Proof. intros HG. unfold script_args. safe_run. Qed.

#[local] Hint Resolve safe_createPrerequisitesForMachine safe_script_args : emits.

(** The command line the operator builds is a [create] command. *)
Lemma yields_getMachineCreationArgs :
  allows G fp_create →
  yields G E getMachineCreationArgs
    (λ r, match r with inl args => is_create_command args | inr _ => True end).
Proof.
  intros HG. unfold getMachineCreationArgs.
  do 3 (apply safe_bind; [safe_run|intros ?]).
  eapply (yields_try _ _ _ _ (λ _, True)); [|intros scriptArgs _|done].
  { eapply yields_mono; [by apply safe_script_args|]. by intros []. }
  apply safe_bind; [safe_run|]. intros [authArgs|e].
  - do 3 (apply safe_bind; [safe_run|intros ?]).
    eapply (yields_try _ _ _ _ (λ _, True)); [|intros _ _|done].
    { eapply yields_mono; [apply safe_update_own_status; allowed|]. by intros []. }
    by apply yields_ret.
  - apply safe_bind; [safe_run|]. intros _. by apply yields_ret.
Qed.

Lemma safe_run_creation args :
  allows G [CStatus] →
  (∀ h x, G h (Ev (Exec (Some machineCreationTimeout) "docker-machine" args) x)) →
  safe G E (run_creation args).
Proof.
  intros HG Hex. unfold run_creation. apply safe_bind; [safe_run|]. intros _.
  apply safe_bind; [by apply quiet_safe, quiet_call|]. intros out. safe_run.
Qed.

(** The two command lines of the creating half. *)
Definition allows_commands : Prop :=
  (∀ h t args x, is_create_command args → G h (Ev (Exec t "docker-machine" args) x)) ∧
  allows_scp.

Context (HC : allows_commands).

Lemma safe_createMachine : allows G fp_create → safe G E createMachine.
Proof.
  intros HG. unfold createMachine. apply safe_bind; [safe_run|]. intros m.
  case_match; [safe_run|]. do 2 (apply safe_try; [safe_run|intros ?]).
  eapply (yields_try _ _ _ _ is_create_command); [by apply yields_getMachineCreationArgs| |done].
  intros args Hargs. apply safe_run_creation; [allowed|]. intros. by apply HC.
Qed.

#[local] Hint Resolve safe_createMachine : emits.
#[local] Hint Extern 1 (safe _ _ isScriptFinished) =>
  apply safe_isScriptFinished; [allowed|apply HC] : emits.

Lemma safe_reconcile_create req : allows G fp_create → safe G E (reconcile_create req).
Proof. intros HG. unfold reconcile_create. safe_run. Qed.

#[local] Hint Resolve safe_reconcile_create : emits.

Lemma safe_reconcile_normal req : allows G fp_create → safe G E (reconcile_normal req).
Proof. intros HG. unfold reconcile_normal, reconciled. safe_run. Qed.
End Creating.
