(* ===== verification/Deletion.v ===== *)
(** * Deleting a machine

    What has happened before the operator gives up its finalizer: the docker
    machine was removed and the cloud resources of its driver were deleted.
    Conversely, reconciling a machine that is not being deleted destroys
    nothing. *)

From S2P Require Import Prelude GoLib Types Conditions Summary Effects Kube Aws Azure Cleanup Cluster MachineOps Reconcile Logic History Footprint Yields.

(** ** What it means to be cleaned up, read off a history *)

Definition rm_command (name : string) : list string := ["rm"; name; "-y"].

(** [docker-machine rm] ran and its failure, if any, was [NotFound]. *)
Definition rm_done (name : string) (h : list Event) : Prop :=
  ∃ r, Ev (Exec None "docker-machine" (rm_command name)) r ∈ h ∧
       match ex_err r with None => True | Some e => IsNotFound e = true end.

(** The VPC, if one was recorded, was deleted or did not exist any more. *)
Definition aws_done (m : Machine) (h : list Event) : Prop :=
  annotation m awsVPCIDAnnotation = "" ∨
  ∃ c r, Ev (DeleteVpc c (annotation m awsVPCIDAnnotation)) r ∈ h ∧
         ignore_missing r = inl tt.

(** The deletion of the resource group was started and finished. *)
Definition azure_done (m : Machine) (h : list Event) : Prop :=
  ∃ cred p, Ev (AzBeginDelete cred (getResourceGroupName m)) (inl p) ∈ h ∧
            Ev (AzPollUntilDone p) (inl tt) ∈ h.

(** The machine names its driver, whose resources were deleted. *)
Definition cloud_done (m : Machine) (h : list Event) : Prop :=
  ∃ d, Driver (Spec m) = Some d ∧
    (lor_Name d = AWSDriver → aws_done m h) ∧ (lor_Name d = AzureDriver → azure_done m h).

Definition cleanup_done (m : Machine) (h : list Event) : Prop :=
  rm_done (Name (Meta m)) h ∧ cloud_done m h.

Lemma elem_of_prefix {A} (x : A) h h' : x ∈ h → h `prefix_of` h' → x ∈ h'.
Proof. intros Hx [l ->]. apply elem_of_app. by left. Qed.

Lemma rm_done_mono name h h' : rm_done name h → h `prefix_of` h' → rm_done name h'.
Proof. intros (r & Hr & He) Hp. exists r. eauto using elem_of_prefix. Qed.

Lemma cleanup_done_mono m h h' : cleanup_done m h → h `prefix_of` h' → cleanup_done m h'.
Proof.
  intros [Hrm (d & Hd & Haws & Haz)] Hp. split; [by eapply rm_done_mono|]. exists d.
  split_and!; [done| |].
  - intros H. destruct (Haws H) as [?|(c & r & Hin & Hr)]; [by left|]. right.
    exists c, r. eauto using elem_of_prefix.
  - intros H. destruct (Haz H) as (cred & p & H1 & H2). exists cred, p.
    eauto using elem_of_prefix.
Qed.

(** It depends on the metadata and the specification of the machine alone. *)
Lemma cleanup_done_same m m' h :
  Meta m = Meta m' → Spec m = Spec m' → cleanup_done m h → cleanup_done m' h.
Proof.
  unfold cleanup_done, cloud_done, aws_done, azure_done, annotation, getResourceGroupName.
  by intros -> ->.
Qed.

(** ** Which machine a deletion is about *)

(** The machine the answer of a status patch carries. *)
Definition status_answer (e : Event) : option Machine :=
  match submitted e with Some _ => answered e | None => None end.

(** The machine the receiver holds, up to its status, in a reconciliation that
    deletes: the answer of the last status patch, or else of the read the
    reconciliation began with. *)
Definition held (h : list Event) : option Machine :=
  match last (omap status_answer h) with
  | Some m => Some m
  | None => head h ≫= answered
  end.

Lemma held_status h e m : status_answer e = Some m → held (h ++ [e]) = Some m.
Proof. intros He. unfold held. rewrite omap_app. simpl. rewrite He, last_snoc. done. Qed.

Lemma held_app h l m :
  held h = Some m → Forall (λ e, status_answer e = None) l → held (h ++ l) = Some m.
Proof.
  intros Hh Hl. unfold held in *. rewrite omap_app.
  assert (omap status_answer l = []) as ->.
  { induction Hl as [|e l He _ IH]; [done|]. simpl. by rewrite He. }
  rewrite app_nil_r. by destruct h.
Qed.

(** ** The cleanup establishes it *)

Section Cleanup_specs.
Context {World : Type} `{SV : !Services World}.
Context (G : Guard) (E : Prop) (HE : E).
Implicit Types s : St World.

(** A quiet step inside a sequence. *)
Lemma wp_quiet {A B} (m : M World A) (k : A → M World B) Q s :
  quiet G E m →
  (∀ a s', machineObj s' = machineObj s → trace s `prefix_of` trace s' →
     wp G E (k a) Q s') →
  wp G E (m ≫= k) Q s.
Proof.
  intros Hq Hk. apply wp_bind. eapply wp_mono; [apply wp_extend, Hq|].
  intros a s' [Hm Hp]. by apply Hk.
Qed.

Lemma wp_quiet_try {A B} (m : M World (Res A)) (k : A → M World (Res B)) Q s :
  quiet G E m →
  (∀ a s', machineObj s' = machineObj s → trace s `prefix_of` trace s' →
     wp G E (k a) Q s') →
  (∀ e s', machineObj s' = machineObj s → Q (inr e) s') →
  wp G E (tryE m k) Q s.
Proof.
  intros Hq Hk He. apply wp_tryE. eapply wp_mono; [apply wp_extend, Hq|].
  intros [a|e] s' [Hm Hp]; auto.
Qed.

(** Success of [op] started with machine [m] means [P] of the history. *)
Definition achieves (op : M World (Res unit)) (m : Machine) (P : list Event → Prop) : Prop :=
  ∀ s, machineObj s = Some m →
    wp G E op (λ r s', machineObj s' = Some m ∧ (r = inl tt → P (trace s'))) s.

Lemma deleteAwsVpc_achieves c id m :
  allows G fp_ec2_delete →
  achieves (deleteAwsVpc c id) m (λ h, annotation m awsVPCIDAnnotation = "" ∨
    ∃ r, Ev (DeleteVpc c id) r ∈ h ∧ ignore_missing r = inl tt).
Proof.
  intros HG s Hm. unfold deleteAwsVpc.
  apply wp_bind, wp_the_machine; [|done]. intros m' Hm'. assert (m' = m) as -> by congruence.
  case_decide as Ha; [apply wp_ret; auto|].
  apply wp_quiet.
  { case_match; [apply quiet_deleteAwsSubnet; [done|allowed]|by apply quiet_ret]. }
  intros _ s1 Hs1 _. apply wp_quiet_try; [apply quiet_deleteSecurityGroup; [done|allowed]| |].
  2: { intros e s2 Hs2. split; [congruence|done]. }
  intros _ s2 Hs2 _. apply wp_bind, wp_call. intros r w _. split; [allowed|].
  apply wp_ret. simpl. split; [congruence|]. intros Hr. right. exists r.
  split; [|done]. apply elem_of_app. right. by left.
Qed.

Lemma cleanupAWSResources_achieves m :
  allows G fp_cloud → achieves cleanupAWSResources m (aws_done m).
Proof.
  intros HG s Hm. unfold cleanupAWSResources.
  apply wp_quiet_try; [apply quiet_awsEC2Client; [done|allowed]| |].
  2: { intros e s2 Hs2. split; [congruence|done]. }
  intros c s1 Hs1 _. apply wp_bind, wp_the_machine; [|done].
  intros m' Hm'. assert (m' = m) as -> by congruence.
  eapply wp_mono; [apply (deleteAwsVpc_achieves _ _ m); [allowed|congruence]|].
  intros r s2 [Hs2 Hr]. split; [done|]. intros Hok. unfold aws_done.
  destruct (Hr Hok) as [?|(r' & ? & ?)]; eauto.
Qed.

Lemma deleteAzureResourceGroup_achieves m :
  allows G fp_cloud → achieves deleteAzureResourceGroup m (azure_done m).
Proof.
  intros HG s Hm. unfold deleteAzureResourceGroup.
  apply wp_bind, wp_the_machine; [|done]. intros m' _.
  apply wp_quiet_try; [apply quiet_getAzureCredential; [done|allowed]| |].
  2: { intros e s2 Hs2. split; [congruence|done]. }
  intros cred s1 Hs1 _. apply wp_tryE, wp_call. intros r1 w1 _. split; [allowed|].
  destruct r1; [|simpl; split; [congruence|done]].
  apply wp_tryE, wp_call. intros r2 w2 _. split; [allowed|].
  destruct r2; [|simpl; split; [congruence|done]].
  apply wp_bind, wp_the_machine; simpl; [|done].
  intros m2 Hm2. assert (m2 = m) as -> by congruence.
  apply wp_tryE, wp_call. intros r3 w3 _. split; [allowed|].
  destruct r3 as [p|]; [|simpl; split; [congruence|done]].
  apply wp_tryE, wp_call. intros r4 w4 _. split; [allowed|]. simpl.
  destruct r4 as [[]|]; [|simpl; split; [congruence|done]].
  apply wp_ret. simpl. split; [congruence|]. intros _. exists cred, p.
  rewrite <- !app_assoc. simpl. set_solver.
Qed.

Lemma cleanup_cloud_achieves m :
  allows G fp_cloud → achieves cleanup_cloud m (cloud_done m).
Proof.
  intros HG s Hm. unfold cleanup_cloud, driverName.
  apply wp_bind, wp_bind, wp_the_machine; [|done].
  intros m' Hm'. assert (m' = m) as -> by congruence.
  apply wp_bind, wp_deref; [|done]. intros d Hd. apply wp_ret.
  case_decide as H1; [|case_decide as H2].
  - eapply wp_mono; [by apply cleanupAWSResources_achieves|].
    intros r s1 [Hs1 Hr]. split; [done|]. intros Hok. exists d.
    split_and!; [done|auto|]. rewrite H1. done.
  - eapply wp_mono; [by apply deleteAzureResourceGroup_achieves|].
    intros r s1 [Hs1 Hr]. split; [done|]. intros Hok. exists d.
    split_and!; [done| |auto]. rewrite H2. done.
  - apply wp_ret. split; [done|]. intros _. by exists d.
Qed.

Lemma deleteDockerMachine_achieves m :
  allows G [CExec] → achieves deleteDockerMachine m (rm_done (Name (Meta m))).
Proof.
  intros HG s Hm. unfold deleteDockerMachine.
  apply wp_bind, wp_the_machine; [|done].
  intros m' Hm'. assert (m' = m) as -> by congruence.
  apply wp_bind, wp_call. intros r w _. split; [allowed|]. simpl.
  assert (Ev (Exec None "docker-machine" (rm_command (Name (Meta m)))) r ∈
          trace s ++ [Ev (Exec None "docker-machine" (rm_command (Name (Meta m)))) r]) as Hin
    by set_solver.
  destruct (ex_err r) as [e|] eqn:He; apply wp_ret; simpl; (split; [done|]).
  - unfold IgnoreNotFound. intros Hok. exists r. split; [done|]. rewrite He.
    by destruct (IsNotFound e).
  - intros _. exists r. split; [done|]. by rewrite He.
Qed.

Lemma cleanupMachineResources_achieves m :
  allows G fp_cleanup → achieves cleanupMachineResources m (cleanup_done m).
Proof.
  intros HG s Hm. unfold cleanupMachineResources.
  apply wp_quiet_try; [apply quiet_deleteFiles; [done|allowed]| |].
  2: { intros e s1 Hs1. split; [congruence|done]. }
  intros _ s1 Hs1 _. apply wp_tryE.
  eapply wp_mono; [apply (deleteDockerMachine_achieves m); [allowed|congruence]|].
  intros [[]|e] s2 [Hs2 Hrm]; [|done]. specialize (Hrm eq_refl).
  eapply wp_mono; [apply wp_extend, (cleanup_cloud_achieves m); [allowed|done]|].
  intros r s3 [[Hs3 Hc] Hp]. split; [done|]. intros Hok.
  split; [by eapply rm_done_mono|auto].
Qed.
End Cleanup_specs.
