(* ===== verification/Guarantees.v ===== *)
(** * Ordering guarantees of [Reconcile]

    For every service, every starting state and every request: what the calls
    of one reconciliation may look like.  Each guarantee is a guard that every
    call of the run satisfies. *)

From S2P Require Import Prelude GoLib Types Conditions Summary Effects Kube Aws Azure Cleanup Cluster MachineOps Reconcile Logic History Footprint Yields Deletion.

(** ** The guards *)

(** A patch that takes the operator's finalizer off an object comes after the
    cleanup of the machine the receiver holds, under whose key the object was
    read. *)
Definition finalizer_kept_until_cleanup : Guard := λ h e,
  let '(Ev c _) := e in
  match c with
  | KPatch _ cur mod_ =>
      GetFinalizer ∈ Finalizers (Meta cur) → GetFinalizer ∉ Finalizers (Meta mod_) →
      ∃ m, held h = Some m ∧ Ev (KGetMachine (machine_key m)) (inl cur) ∈ h ∧ cleanup_done m h
  | _ => True
  end.

(** [docker-machine rm], the deletion of an Azure resource group, and taking
    the finalizer off. *)
Definition destructive (e : Event) : Prop :=
  let '(Ev c _) := e in
  match c with
  | Exec _ _ args => head args = Some "rm"
  | AzBeginDelete _ _ => True
  | KPatch _ cur mod_ =>
      GetFinalizer ∈ Finalizers (Meta cur) ∧ GetFinalizer ∉ Finalizers (Meta mod_)
  | _ => False
  end.

Definition nothing_destroyed : Guard := λ _ e, ¬ destructive e.

(** The machine [req] was read with the finalizer on it, or a request that
    puts it there was answered with success. *)
Definition finalizer_known (req : ObjectKey) (h : list Event) : Prop :=
  (∃ m, Ev (KGetMachine req) (inl m) ∈ h ∧ GetFinalizer ∈ Finalizers (Meta m)) ∨
  (∃ k cur mod_ m, Ev (KPatch k cur mod_) (inl m) ∈ h ∧ GetFinalizer ∈ Finalizers (Meta mod_)) ∨
  (∃ obj m, Ev (KCreate obj) (inl m) ∈ h ∧ GetFinalizer ∈ Finalizers (Meta obj)).

(** Calls that bring resources into being. *)
Definition creating (e : Event) : Prop :=
  let '(Ev c _) := e in
  match c with
  | Exec _ _ args => head args = Some "create"
  | CreateVpc _ _ | CreateSubnet _ _ _ _ | CreateInternetGateway _
  | AttachInternetGateway _ _ _ | CreateRoute _ _ _ _ => True
  | _ => False
  end.

Definition finalizer_before_creation (req : ObjectKey) : Guard := λ h e,
  creating e → finalizer_known req h.

Definition nothing_created : Guard := λ _ e, ¬ creating e.

(** [createMachine] has nothing to do. *)
Definition creation_started (m : Machine) : bool :=
  IsConditionTrue (Conditions (Status m)) MachineConditionTypeMachineCreating ||
  IsConditionTrue (Conditions (Status m)) MachineConditionTypeMachineReady.

(** Every status the operator commits shows the phase of its conditions. *)
Definition phase_committed : Guard := λ _ e, coherent e.

Lemma finalizer_known_mono req h h' :
  finalizer_known req h → h `prefix_of` h' → finalizer_known req h'.
Proof.
  intros [(m & H & ?)|[(k & cur & mod_ & m & H & ?)|(o & m & H & ?)]] Hp;
    pose proof (elem_of_prefix _ _ _ H Hp); [left|right; left|right; right]; eauto 8.
Qed.

Section Guarantees.
Context {World : Type} `{SV : !Services World}.
Implicit Types s : St World.

(** ** A reconciliation whose machine was found *)

(** The state after the machine was loaded. *)
Definition loaded (req : ObjectKey) (m : Machine) (w : World) s : St World :=
  mkSt w (Some m) (trace s ++ [Ev (KGetMachine req) (inl m)]).

Lemma wp_Reconcile_loaded (G : Guard) (E : Prop) req s m w Q :
  serve (KGetMachine req) (world s) = (inl m, w) →
  G (trace s) (Ev (KGetMachine req) (inl m)) →
  wp G E
    (if decide (Phase (Status m) = "") then
       upd ← updateMachineStatus req;
       mret (Result_zero, match upd with inl _ => None | inr e => Some e end)
     else if deleting m then reconcile_delete else reconcile_normal req) Q (loaded req m w s) →
  wp G E (Reconcile req) Q s.
Proof.
  intros Hs HG Hwp. unfold Reconcile, updateMachineReconcile.
  apply wp_bind, wp_bind, wp_call. rewrite Hs. intros x w' Hx. simplify_eq.
  split; [done|]. apply wp_bind, wp_put_machine, wp_ret. simpl.
  apply wp_bind, wp_the_machine; [|done]. simpl. intros m' Hm'. simplify_eq.
  case_decide; [done|]. unfold isMarkedForDeletion.
  apply wp_bind, wp_bind, wp_the_machine; [|done]. simpl. intros m'' Hm''. simplify_eq.
  by apply wp_ret.
Qed.

(** ** The deleting half, under any guard *)

Definition fp_delete : list Class_ :=
  [CStatus; CPatch; CSecret; CFile; CEc2Session; CEc2Read; CEc2Delete; CEc2Vpc; CAzure].

Lemma safe_removeFinalizerAfterCleanup (G : Guard) :
  allows G fp_delete →
  (∀ h name x, G h (Ev (Exec None "docker-machine" (rm_command name)) x)) →
  safe G True (removeFinalizerAfterCleanup (World:=World)).
Proof.
  intros HG Hrm. unfold removeFinalizerAfterCleanup.
  apply safe_bind; [safe_run|]. intros m. case_match; [|safe_run].
  apply safe_try; [apply safe_update_own_status; [done|allowed]|]. intros _.
  apply safe_try.
  - unfold cleanupMachineResources, cleanup_cloud, deleteDockerMachine, cleanupAWSResources.
    apply safe_try; [safe_run|]. intros _. apply safe_try; [|intros _; safe_run].
    apply safe_bind; [safe_run|]. intros m'. apply safe_bind; [|intros; safe_run].
    apply quiet_safe, quiet_call. intros. apply Hrm.
  - intros _ s. apply wp_CreateOrPatch; [done|allowed|intros; allowed|intros; allowed|].
    intros. allowed.
Qed.

Lemma safe_reconcile_delete (G : Guard) :
  allows G fp_delete →
  (∀ h name x, G h (Ev (Exec None "docker-machine" (rm_command name)) x)) →
  safe G True (reconcile_delete (World:=World)).
Proof.
  intros HG Hrm. unfold reconcile_delete.
  apply safe_bind; [by apply safe_removeFinalizerAfterCleanup|].
  intros []; [unfold reconciled; safe_run|]. apply safe_requeueWithError; [done|allowed].
Qed.

(** ** The frame of [Reconcile]: what happens when the machine is not loaded,
    and when it is new *)

Lemma safe_Reconcile (G : Guard) req s :
  allows G [CStatus] →
  (∀ m w, serve (KGetMachine req) (world s) = (inl m, w) → Phase (Status m) ≠ "" →
     wp G True (if deleting m then reconcile_delete else reconcile_normal req)
       (λ _ _, True) (loaded req m w s)) →
  wp G True (Reconcile req) (λ _ _, True) s.
Proof.
  intros HG Hl. destruct (serve (KGetMachine req) (world s)) as [[m|e] w] eqn:Hs.
  - eapply wp_Reconcile_loaded; [done|allowed|]. case_decide; [|by apply Hl].
    apply safe_bind; [apply safe_updateMachineStatus; [done|allowed]|]. intros. safe_run.
  - unfold Reconcile, updateMachineReconcile.
    apply wp_bind, wp_bind, wp_call. rewrite Hs. intros x w' Hx. simplify_eq.
    split; [allowed|]. apply wp_ret. simpl. case_match; [by apply wp_ret|].
    apply safe_requeueWithError; [done|allowed].
Qed.

(** ** The finalizer goes last *)

Lemma kept_allows : allows finalizer_kept_until_cleanup
  [CStatus; CSecret; CExec; CFile; CSleep; CEc2Session; CEc2Read; CEc2Create; CEc2Delete; CEc2Vpc; CAzure].
Proof. by intros h [X [] x] Hfp _. Qed.

Lemma kept_patches : allows_patches finalizer_kept_until_cleanup.
Proof.
  split; simpl; try done.
  intros h k cur x Hin Hni. destruct Hni. exact (AddFinalizer_mono _ GetFinalizer _ Hin).
Qed.

(** The receiver is what the history says, up to its status. *)
Definition holding s : Prop :=
  ∃ m m0, machineObj s = Some m ∧ held (trace s) = Some m0 ∧ Meta m = Meta m0 ∧ Spec m = Spec m0.

Lemma holding_update_own_status s :
  holding s →
  wp finalizer_kept_until_cleanup True update_own_status (λ r s', r = inl tt → holding s') s.
Proof.
  intros (m & m0 & Hm & Hh & HM & HS). unfold update_own_status, updateMachineStatus, committer.
  apply wp_bind, wp_the_machine; [|done]. intros m' Hm'. assert (m' = m) as -> by congruence.
  apply wp_tryE, wp_call. intros r w _. split; [done|]. destruct r as [cur|e]; [|done].
  apply wp_bind, wp_now. intros n _. apply wp_bind, wp_the_machine; [|done]. simpl.
  intros m' Hm''. assert (m' = m) as -> by congruence. apply wp_bind, wp_put_machine. simpl.
  assert (held (trace s ++ [Ev (KGetMachine (machine_key m)) (inl cur)]) = Some m0) as Hh'
    by (apply held_app; [done|by repeat constructor]).
  case_decide.
  - apply wp_ret. intros _. do 2 eexists.
    split_and!; [done|done|rewrite <- HM|rewrite <- HS]; unfold SetSummary, Set_; simpl; by case_match.
  - apply wp_tryE, wp_call. intros x w' _. split; [done|]. destruct x as [m1|e]; [|done].
    apply wp_bind, wp_put_machine, wp_ret. intros _. exists m1, m1. simpl.
    split_and!; [done|by apply held_status|done|done].
Qed.

Lemma holding_cleanup s :
  holding s →
  wp finalizer_kept_until_cleanup True cleanupMachineResources
    (λ r s', r = inl tt → ∃ m m0, machineObj s' = Some m ∧ held (trace s') = Some m0 ∧
       Meta m = Meta m0 ∧ Spec m = Spec m0 ∧ cleanup_done m0 (trace s')) s.
Proof.
  intros (m & m0 & Hm & Hh & HM & HS).
  set (G := λ h e, finalizer_kept_until_cleanup h e ∧ status_answer e = None).
  assert (allows G fp_cleanup) as HG.
  { intros h [X [] x] Hfp _; discriminate Hfp || done. }
  destruct (cleanupMachineResources_achieves G True I m HG s Hm) as (l & Ht & Hg & Hr).
  exists l. split_and!; [done|intros l1 e l2 Hl; by apply (Hg l1 e l2 Hl)|].
  destruct (cleanupMachineResources s).1; [|done]. destruct Hr as [Hm' Hd]. intros Hok.
  exists m, m0. split_and!; [done| |done|done|by eapply cleanup_done_same, Hd].
  rewrite Ht. apply held_app; [done|]. apply Forall_forall. intros e (l1 & l2 & ->)%list_elem_of_split.
  by apply (Hg l1 e l2).
Qed.

Lemma kept_removeFinalizerAfterCleanup s :
  holding s →
  wp finalizer_kept_until_cleanup True removeFinalizerAfterCleanup (λ _ _, True) s.
Proof.
  pose proof kept_allows as HG. intros Hs. unfold removeFinalizerAfterCleanup.
  apply wp_bind, wp_the_machine; [|done]. intros m Hm. case_match; [|by apply wp_ret].
  apply wp_tryE. eapply wp_mono; [by apply holding_update_own_status|].
  intros [[]|e] s1 Hs1; [|done]. specialize (Hs1 eq_refl).
  apply wp_tryE. eapply wp_mono; [by apply holding_cleanup|].
  intros [[]|e] s2 Hs2; [|done]. destruct (Hs2 eq_refl) as (m1 & m0 & Hm1 & Hh & HM & HS & Hd).
  apply wp_CreateOrPatch; [done|allowed|done|done|].
  intros m2 g k cur x Hm2 _ _. exists m0. assert (m2 = m1) as -> by congruence.
  split_and!.
  - apply held_app; [done|by repeat constructor].
  - unfold machine_key. rewrite <- HM. set_solver.
  - eapply cleanup_done_mono; [done|]. by eexists.
Qed.

Lemma kept_Reconcile req s :
  trace s = [] →
  wp finalizer_kept_until_cleanup True (Reconcile (World:=World) req) (λ _ _, True) s.
Proof.
  pose proof kept_allows as HG. pose proof kept_patches as HP.
  assert (allows_commands finalizer_kept_until_cleanup) as HC by done.
  intros Hs. apply safe_Reconcile; [allowed|]. intros m w _ _. destruct (deleting m).
  - unfold reconcile_delete. apply wp_bind. eapply wp_mono.
    { apply kept_removeFinalizerAfterCleanup. exists m, m. simpl. by rewrite Hs. }
    intros r s' _. destruct r; [unfold reconciled; by apply wp_ret|].
    apply safe_requeueWithError; [done|allowed].
  - apply safe_reconcile_normal; [done|done|done|allowed].
Qed.

(** ** Nothing is destroyed unless the machine is being deleted *)

Lemma undestroyed_allows : allows nothing_destroyed fp_create.
Proof. intros h [X [] x] Hfp _; discriminate Hfp || by intros []. Qed.

Lemma undestroyed_patches : allows_patches nothing_destroyed.
Proof.
  split; unfold nothing_destroyed; simpl; try tauto.
  intros h k cur x [Hin Hni]. exact (Hni (AddFinalizer_mono _ GetFinalizer _ Hin)).
Qed.

Lemma undestroyed_commands : allows_commands nothing_destroyed.
Proof.
  split; unfold nothing_destroyed, allows_scp; simpl; [|done].
  unfold is_create_command. intros h t args x Hc. congruence.
Qed.

Lemma undestroyed_Reconcile req s m w :
  serve (KGetMachine req) (world s) = (inl m, w) → deleting m = false →
  wp nothing_destroyed True (Reconcile req) (λ _ _, True) s.
Proof.
  pose proof undestroyed_allows as HG. intros Hs Hdel. apply safe_Reconcile; [allowed|].
  intros m' w' Hs' _. assert (m' = m) as -> by congruence. rewrite Hdel.
  apply safe_reconcile_normal; [done|apply undestroyed_patches|apply undestroyed_commands|done].
Qed.

(** ** The finalizer comes first *)

Lemma before_allows req : allows (finalizer_before_creation req)
  [CStatus; CPatch; CSecret; CFile; CSleep; CEc2Session; CEc2Read; CEc2Delete; CEc2Vpc; CAzure].
Proof. intros h [X [] x] Hfp _; discriminate Hfp || by intros []. Qed.

(** Once the finalizer is known to be there, everything may be created. *)
Lemma known_allows_all req h0 :
  finalizer_known req h0 →
  ∀ h e, h0 `prefix_of` h → finalizer_before_creation req h e.
Proof. intros Hk h e Hp _. by eapply finalizer_known_mono. Qed.

Lemma ensureFinalizer_known req s m :
  machineObj s = Some m → Ev (KGetMachine req) (inl m) ∈ trace s →
  wp (finalizer_before_creation req) True ensureFinalizer
    (λ r s', r = inl tt → finalizer_known req (trace s')) s.
Proof.
  intros Hm Hin. pose proof (before_allows req) as HG. unfold ensureFinalizer.
  apply wp_bind, wp_the_machine; [|done]. intros m' Hm'. assert (m' = m) as -> by congruence.
  destruct (ContainsFinalizer m GetFinalizer) eqn:Hc.
  { apply wp_ret. intros _. left. exists m. split; [done|]. by apply ContainsFinalizer_spec. }
  unfold patchFinalizer, CreateOrPatch.
  apply wp_bind, wp_the_machine; [|done]. intros m' _.
  apply wp_bind, wp_call. intros g w1 _. split; [allowed|].
  destruct g as [group|e]; [|by apply wp_ret].
  apply wp_bind, wp_call. intros r w2 _. split; [allowed|].
  destruct r as [cur|e].
  - apply wp_tryE, wp_call. intros x w3 _. split; [allowed|].
    destruct x as [m2|e]; [|done]. apply wp_bind, wp_put_machine, wp_ret.
    intros _. right; left. do 4 eexists. split; [apply elem_of_last|].
    apply AddFinalizer_in.
  - destruct (IsNotFound e); [|by apply wp_ret].
    apply wp_tryE, wp_call. intros x w3 _. split; [allowed|].
    destruct x as [m2|e']; [|done]. apply wp_bind, wp_put_machine, wp_ret.
    intros _. right; right. do 2 eexists. split; [apply elem_of_last|].
    apply (AddFinalizer_in (Meta m')).
Qed.

Lemma before_reconcile_normal req s m :
  machineObj s = Some m → Ev (KGetMachine req) (inl m) ∈ trace s →
  wp (finalizer_before_creation req) True (reconcile_normal req) (λ _ _, True) s.
Proof.
  intros Hm Hin. pose proof (before_allows req) as HG. unfold reconcile_normal.
  apply wp_bind. eapply wp_mono; [by apply (ensureFinalizer_known req s m)|].
  intros [[]|e] s1 Hk.
  - specialize (Hk eq_refl). apply wp_guard_from.
    pose proof (known_allows_all req _ Hk) as Hall.
    apply safe_reconcile_create; [done|split; eauto| |intros h e _ _ Hp; auto].
    split; [eauto|]. intros h t user x Hp. auto.
  - case_match; [by apply wp_ret|]. apply safe_requeueWithError; [done|allowed].
Qed.

Lemma before_Reconcile req :
  safe (finalizer_before_creation req) True (Reconcile (World:=World) req).
Proof.
  pose proof (before_allows req) as HG. intros s. apply safe_Reconcile; [allowed|].
  intros m w Hs _. destruct (deleting m).
  - apply safe_reconcile_delete; [allowed|by repeat intro].
  - eapply before_reconcile_normal; [done|simpl; set_solver].
Qed.

(** ** Nothing is created while deleting, and nothing is created twice *)

Lemma uncreated_allows : allows nothing_created
  [CStatus; CPatch; CSecret; CFile; CSleep; CEc2Session; CEc2Read; CEc2Delete; CEc2Vpc; CAzure].
Proof. intros h [X [] x] Hfp _; discriminate Hfp || by intros []. Qed.

Lemma uncreated_delete : safe nothing_created True (reconcile_delete (World:=World)).
Proof.
  pose proof uncreated_allows as HG. apply safe_reconcile_delete; [allowed|by repeat intro].
Qed.

(** With the finalizer in place and the creation started or finished, what is
    left is to look for the script's result. *)
Lemma uncreated_normal req s m :
  machineObj s = Some m → GetFinalizer ∈ Finalizers (Meta m) → creation_started m = true →
  wp nothing_created True (reconcile_normal req) (λ _ _, True) s.
Proof.
  intros Hm Hf Hc. pose proof uncreated_allows as HG.
  unfold reconcile_normal, ensureFinalizer, reconcile_create, createMachine.
  apply wp_bind, wp_bind, wp_the_machine; [|done]. intros m1 Hm1.
  assert (m1 = m) as -> by congruence.
  rewrite (proj2 (ContainsFinalizer_spec m GetFinalizer) Hf). apply wp_ret.
  apply wp_bind, wp_bind, wp_the_machine; [|done]. intros m1 Hm2.
  assert (m1 = m) as -> by congruence.
  unfold creation_started in Hc. rewrite Hc. apply wp_ret.
  apply safe_bind; [apply safe_isScriptFinished; [done|allowed|by repeat intro]|].
  intros [b|e]; [|apply safe_requeueWithError; [done|allowed]].
  apply safe_bind; [apply safe_updateMachineStatus; [done|allowed]|]. intros. safe_run.
Qed.

(** ** Every status written shows the phase of its conditions *)

Lemma phase_Reconcile req : safe phase_committed True (Reconcile (World:=World) req).
Proof.
  assert (∀ fp, allows phase_committed fp) as HG by (intros fp h e _ He; exact He).
  intros s. apply safe_Reconcile; [apply HG|]. intros m w _ _. destruct (deleting m).
  - by apply safe_reconcile_delete.
  - by apply safe_reconcile_normal.
Qed.
End Guarantees.
