(* ===== verification/Safety.v ===== *)
(** * Safety of a reconciliation

    What holds of the calls of one [Reconcile] of the machine controller,
    whatever the services answer and whatever the receiver holds: creation and
    deletion are ordered around the finalizer, nothing is destroyed by mistake,
    nothing is created twice, and the statuses written are coherent. *)

From S2P Require Import Prelude GoLib Types Conditions ConditionsFacts Summary Effects Kube Aws Azure Cleanup Cluster MachineOps Reconcile Sim Logic History Footprint Yields Deletion Guarantees.

Section Safety.
Context {World : Type} `{SV : !Services World}.
Implicit Types s : St World.

(** C5: the finalizer goes last.  When a reconciliation takes the operator's
    finalizer off an object, then earlier in that reconciliation the object
    was read under the key of the machine [m] the operator holds, and the
    cleanup of [m] is done.  [m] is determined by the calls before ([held]):
    the answer of the last status patch, or else of the read the
    reconciliation began with.  That the cleanup is done means that
    [docker-machine rm] ran for [m] and succeeded (or failed with NotFound),
    that [m] names a driver, that the recorded VPC was deleted (or did not
    exist) if the driver is [amazonec2], and that the deletion of the resource
    group was started and finished if the driver is [azure]. *)
Theorem finalizer_removed_last req s i kind cur mod_ answer :
  trace s = [] →
  trace (Reconcile req s).2 !! i = Some (Ev (KPatch kind cur mod_) answer) →
  GetFinalizer ∈ Finalizers (Meta cur) →
  GetFinalizer ∉ Finalizers (Meta mod_) →
  let h := take i (trace (Reconcile req s).2) in
  ∃ m, held h = Some m ∧ Ev (KGetMachine (machine_key m)) (inl cur) ∈ h ∧ cleanup_done m h.
Proof.
  intros Hs Hi. exact (wp_at _ _ _ _ _ _ _ (kept_Reconcile req s Hs) Hs Hi).
Qed.

(** C6: the finalizer goes first.  When a reconciliation runs
    [docker-machine create] or creates a VPC, subnet, gateway or route, the
    operator's finalizer is already on the machine: it was read there, or the
    request that puts it there was answered with success. *)
Theorem finalizer_before_resources req s i e :
  trace s = [] →
  trace (Reconcile req s).2 !! i = Some e →
  creating e →
  finalizer_known req (take i (trace (Reconcile req s).2)).
Proof.
  intros Hs Hi. exact (wp_at _ _ _ _ _ _ _ (before_Reconcile req s) Hs Hi).
Qed.

(** C8: nothing is destroyed unless the machine is being deleted.  The
    reconciliation of a machine without deletion timestamp never runs
    [docker-machine rm], never deletes an Azure resource group and never takes
    the finalizer off. *)
Theorem no_destruction_without_deletion req s m w e :
  trace s = [] →
  serve (KGetMachine req) (world s) = (inl m, w) →
  deleting m = false →
  e ∈ trace (Reconcile req s).2 →
  ¬ destructive e.
Proof.
  intros Hs Hg Hd He.
  destruct (wp_elem _ _ _ _ _ _ (undestroyed_Reconcile req s m w Hg Hd) Hs He) as [h Hh].
  exact Hh.
Qed.

(** C9: a machine that is being deleted gets nothing new.  Its reconciliation
    never runs [docker-machine create] and creates no VPC, subnet, gateway or
    route. *)
Theorem no_creation_while_deleting req s m w e :
  trace s = [] →
  serve (KGetMachine req) (world s) = (inl m, w) →
  deleting m = true →
  e ∈ trace (Reconcile req s).2 →
  ¬ creating e.
Proof.
  intros Hs Hg Hd He.
  assert (wp nothing_created True (Reconcile req) (λ _ _, True) s) as Hwp.
  { apply safe_Reconcile; [eapply allows_sub; [apply uncreated_allows|done]|].
    intros m' w' Hg' _. assert (m' = m) as -> by congruence. rewrite Hd.
    apply uncreated_delete. }
  destruct (wp_elem _ _ _ _ _ _ Hwp Hs He) as [h Hh]. exact Hh.
Qed.

(** C7: a machine is created once.  When the machine carries the finalizer and
    its creation was started ([MachineCreating] is true) or finished
    ([MachineReady] is true), no reconciliation runs [docker-machine create]
    or creates cloud resources for it again. *)
Theorem created_once req s m w e :
  trace s = [] →
  serve (KGetMachine req) (world s) = (inl m, w) →
  GetFinalizer ∈ Finalizers (Meta m) →
  creation_started m = true →
  e ∈ trace (Reconcile req s).2 →
  ¬ creating e.
Proof.
  intros Hs Hg Hf Hc He.
  assert (wp nothing_created True (Reconcile req) (λ _ _, True) s) as Hwp.
  { apply safe_Reconcile; [eapply allows_sub; [apply uncreated_allows|done]|].
    intros m' w' Hg' _. assert (m' = m) as -> by congruence.
    destruct (deleting m); [apply uncreated_delete|by apply (uncreated_normal _ _ m)]. }
  destruct (wp_elem _ _ _ _ _ _ Hwp Hs He) as [h Hh]. exact Hh.
Qed.

(** C10: every status written is coherent.  Each status patch of a
    reconciliation carries the phase that [GetPhase] computes from the
    conditions and the deletion timestamp of the object it writes. *)
Theorem committed_phase_coherent req s old obj answer :
  trace s = [] →
  Ev (KStatusPatch old obj) answer ∈ trace (Reconcile req s).2 →
  Phase (Status obj) = GetPhase obj.
Proof.
  intros Hs He. destruct (wp_elem _ _ _ _ _ _ (phase_Reconcile req s) Hs He) as [h Hh]. exact Hh.
Qed.
End Safety.

(** ** The hypotheses at work *)

Lemma finalizer_removed_last_witness :
  ∃ i kind cur mod_ answer,
    trace (Reconcile demo_key deletion_start).2 !! i = Some (Ev (KPatch kind cur mod_) answer) ∧
    let h := take i (trace (Reconcile demo_key deletion_start).2) in
    ∃ m, held h = Some m ∧ Ev (KGetMachine (machine_key m)) (inl cur) ∈ h ∧ cleanup_done m h.
Proof.
  exists 8%nat. do 4 eexists. split; [by_eval|].
  eapply (finalizer_removed_last demo_key deletion_start 8);
    [reflexivity|by_eval|by_decide|by_decide].
Defined.

Lemma finalizer_before_resources_witness :
  finalizer_known demo_key (take 12 (trace (Reconcile demo_key creation_start).2)).
Proof.
  eapply (finalizer_before_resources demo_key creation_start 12);
    [reflexivity|by_eval|by_eval].
Defined.

Lemma no_destruction_without_deletion_witness :
  Forall (λ e, ¬ destructive e) (trace (Reconcile demo_key creation_start).2).
Proof.
  apply Forall_forall. intros e He.
  eapply (no_destruction_without_deletion demo_key creation_start);
    [reflexivity|by_eval|by_eval|exact He].
Defined.

Lemma no_creation_while_deleting_witness :
  Forall (λ e, ¬ creating e) (trace (Reconcile demo_key deletion_start).2).
Proof.
  apply Forall_forall. intros e He.
  eapply (no_creation_while_deleting demo_key deletion_start);
    [reflexivity|by_eval|by_eval|exact He].
Defined.

Lemma created_once_witness :
  Forall (λ e, ¬ creating e) (trace (Reconcile demo_key waiting_start).2).
Proof.
  apply Forall_forall. intros e He.
  eapply (created_once demo_key waiting_start);
    [reflexivity|by_eval|by_decide|by_eval|exact He].
Defined.

Lemma committed_phase_coherent_witness :
  ∃ old obj answer,
    Ev (KStatusPatch old obj) answer ∈ trace (Reconcile demo_key creation_start).2 ∧
    Phase (Status obj) = GetPhase obj.
Proof.
  assert (∃ old obj answer,
    trace (Reconcile demo_key creation_start).2 !! 5%nat =
      Some (Ev (KStatusPatch old obj) answer)) as (old & obj & answer & Hi)
    by (do 3 eexists; by_eval).
  exists old, obj, answer. apply list_elem_of_lookup_2 in Hi. split; [exact Hi|].
  exact (committed_phase_coherent demo_key creation_start old obj answer eq_refl Hi).
Defined.
