(* ===== verification/AwsSpec.v ===== *)
(** * The order in which a VPC is taken down

    EC2 refuses to delete a VPC that still contains a subnet, an attached
    gateway or a security group.  [deleteAwsVpc] goes from the inside out, as far
    as a subnet is recorded. *)

From S2P Require Import Prelude GoLib Types Conditions Summary Effects Kube Aws Azure Cleanup Cluster MachineOps Reconcile Sim Logic Footprint Yields Deletion.

(** Every security group that was found in the VPC was asked to go. *)
Definition groups_deleted (c : awsAuthCredential) (id : string) (h : list Event) : Prop :=
  ∃ gs, Ev (DescribeSecurityGroups c id) (inl gs) ∈ h ∧
    ∀ sg, Some sg ∈ gs → ∃ r, Ev (DeleteSecurityGroup c (sg_GroupId sg)) r ∈ h.

(** The recorded subnet was asked to go, and before it the recorded gateway. *)
Definition subnet_deleted (c : awsAuthCredential) (m : Machine) (h : list Event) : Prop :=
  ∃ h1 h2 r, h = h1 ++ Ev (DeleteSubnet c (annotation m awsSubnetIDAnnotation)) r :: h2 ∧
    (annotation m awsInternetGatewayIDAnnotation ≠ "" →
     ∃ r', Ev (DeleteInternetGateway c (annotation m awsInternetGatewayIDAnnotation)) r' ∈ h1).

Definition vpc_emptied (c : awsAuthCredential) (id : string) (m : Machine) (h : list Event) : Prop :=
  groups_deleted c id h ∧
  (annotation m awsSubnetIDAnnotation ≠ "" → subnet_deleted c m h).

Lemma subnet_deleted_mono c m h h' :
  subnet_deleted c m h → h `prefix_of` h' → subnet_deleted c m h'.
Proof.
  intros (h1 & h2 & r & -> & Hg) [l ->]. exists h1, (h2 ++ l), r. split; [|done].
  by rewrite <- app_assoc.
Qed.

(** The guard: a VPC goes only when it was emptied. *)
Definition vpc_last (c : awsAuthCredential) (id : string) (m : Machine) : Guard := λ h e,
  let '(Ev call _) := e in
  match call with
  | DeleteVpc c' id' => c' = c ∧ id' = id ∧ vpc_emptied c id m h
  | _ => True
  end.

(** The deletion of a subnet, a gateway, its attachment or its route. *)
Definition takes_part (e : Event) : bool :=
  let '(Ev call _) := e in
  match call with
  | DeleteSubnet _ _ | DetachInternetGateway _ _ _ | DeleteInternetGateway _ _ | DeleteRoute _ _ _ => true
  | _ => false
  end.

Definition parts_left : Guard := λ _ e, takes_part e = false.

Section AwsSpec.
Context {World : Type} `{SV : !Services World}.
Context (c : awsAuthCredential) (id : string) (m : Machine).
Implicit Types s : St World.

#[local] Abbreviation G := (vpc_last c id m).

Lemma vpc_last_allows : allows G
  [CStatus; CPatch; CSecret; CExec; CFile; CSleep; CEc2Session; CEc2Read; CEc2Create; CEc2Delete; CAzure].
Proof. by intros h [X [] x] Hfp _. Qed.

Lemma wp_delete_groups gs s :
  wp G True (delete_groups c gs) (λ _ s', machineObj s' = machineObj s ∧
    ∀ sg, Some sg ∈ gs → ∃ r, Ev (DeleteSecurityGroup c (sg_GroupId sg)) r ∈ trace s') s.
Proof.
  pose proof vpc_last_allows as HG.
  revert s. induction gs as [|p gs IH]; intros s; simpl; [apply wp_ret; set_solver|].
  apply wp_bind, wp_deref; [|done]. intros sg ->. apply wp_bind, wp_call. intros r w _.
  split; [allowed|]. apply wp_bind, wp_deref; [|done]. intros gid _. simpl.
  eapply wp_mono; [apply wp_extend, IH|]. simpl. intros _ s' [[Hm Hall] Hp]. split; [done|].
  intros sg' Hin. apply elem_of_cons in Hin as [[= ->]|Hin]; [|by apply Hall].
  exists r. eapply elem_of_prefix; [|exact Hp]. apply elem_of_last.
Qed.

Lemma wp_deleteSecurityGroup s :
  wp G True (deleteSecurityGroup c id) (λ r s', machineObj s' = machineObj s ∧
    (r = inl tt → groups_deleted c id (trace s'))) s.
Proof.
  pose proof vpc_last_allows as HG. unfold deleteSecurityGroup.
  apply wp_tryE, wp_call. intros r w _. split; [allowed|]. destruct r as [gs|e]; [|done].
  eapply wp_mono; [apply wp_extend, wp_delete_groups|]. simpl. intros r s' [[Hm Hall] Hp].
  split; [done|]. intros _. exists gs. split; [|done].
  eapply elem_of_prefix; [|exact Hp]. apply elem_of_last.
Qed.

Lemma wp_deleteAwsSubnet s :
  machineObj s = Some m →
  wp G True (deleteAwsSubnet c (annotation m awsSubnetIDAnnotation))
    (λ _ s', machineObj s' = Some m ∧ subnet_deleted c m (trace s')) s.
Proof.
  intros Hm. pose proof vpc_last_allows as HG. unfold deleteAwsSubnet.
  apply wp_bind, wp_the_machine; [|done]. intros m' Hm'. assert (m' = m) as -> by congruence.
  set (gw := annotation m awsInternetGatewayIDAnnotation).
  apply wp_bind. eapply (wp_mono _ _ _ (λ _ s', machineObj s' = Some m ∧
    (gw ≠ "" → ∃ r, Ev (DeleteInternetGateway c gw) r ∈ trace s'))).
  - case_decide as Hgw; [|by apply wp_ret]. unfold deleteAwsInternetGateway.
    apply wp_quiet; [apply quiet_deleteAwsRoute; [done|allowed]|]. intros _ s1 Hs1 _.
    apply wp_quiet; [apply quiet_call; intros; allowed|]. intros _ s2 Hs2 _.
    apply wp_bind, wp_call. intros r w _. split; [allowed|]. apply wp_ret. simpl.
    split; [congruence|]. intros _. exists r. apply elem_of_last.
  - intros _ s1 [Hs1 Hgw]. apply wp_bind, wp_call. intros r w _. split; [allowed|].
    apply wp_ret. simpl. split; [done|]. exists (trace s1), [], r. done.
Qed.

Lemma wp_deleteAwsVpc s :
  machineObj s = Some m → wp G True (deleteAwsVpc c id) (λ _ _, True) s.
Proof.
  intros Hm. pose proof vpc_last_allows as HG. unfold deleteAwsVpc.
  apply wp_bind, wp_the_machine; [|done]. intros m' Hm'. assert (m' = m) as -> by congruence.
  case_decide; [by apply wp_ret|].
  apply wp_bind. eapply (wp_mono _ _ _ (λ _ s', machineObj s' = Some m ∧
    (annotation m awsSubnetIDAnnotation ≠ "" → subnet_deleted c m (trace s')))).
  - case_decide as Hsn; [|by apply wp_ret].
    eapply wp_mono; [by apply wp_deleteAwsSubnet|]. simpl. naive_solver.
  - intros _ s1 [Hs1 Hsn]. apply wp_tryE.
    eapply wp_mono; [apply wp_extend, wp_deleteSecurityGroup|].
    intros [[]|e] s2 [[Hs2 Hg] Hp]; [|done]. specialize (Hg eq_refl).
    apply wp_bind, wp_call. intros r w _. split; [|by apply wp_ret].
    split_and!; [done|done|]. split; [done|]. intros Hne.
    eapply subnet_deleted_mono; [by apply Hsn|done].
Qed.

(** Without a recorded subnet, nothing but security groups is taken out of the
    VPC. *)
Lemma wp_deleteAwsVpc_parts s :
  machineObj s = Some m → annotation m awsSubnetIDAnnotation = "" →
  wp parts_left True (deleteAwsVpc c id) (λ _ _, True) s.
Proof.
  intros Hm Hsn. unfold deleteAwsVpc, deleteSecurityGroup.
  apply wp_bind, wp_the_machine; [|done]. intros m' Hm'. assert (m' = m) as -> by congruence.
  case_decide; [by apply wp_ret|]. rewrite Hsn, decide_False by auto. apply wp_bind, wp_ret.
  assert (∀ gs, safe parts_left True (delete_groups (World:=World) c gs)) as Hgs.
  { induction gs as [|p gs IH]; simpl; [safe_run|]. apply safe_bind; [safe_run|]. intros sg.
    apply safe_bind; [by apply quiet_safe, quiet_call|]. intros _. apply safe_bind; [safe_run|done]. }
  apply safe_try; [apply safe_try; [by apply quiet_safe, quiet_call|done]|]. intros _.
  apply safe_bind; [by apply quiet_safe, quiet_call|]. intros. safe_run.
Qed.

(** C23: a VPC is emptied of what is recorded before it is deleted.  When
    [deleteAwsVpc] asks EC2 to delete a VPC, it is the one it was called for,
    and the security groups of that VPC were listed and the deletion of each was
    requested before.  If the machine records a subnet, the deletion of the
    subnet was requested before, and before that the deletion of the gateway, if
    one is recorded too.  If the machine records no subnet, no subnet, gateway,
    attachment or route was deleted, also when a gateway is recorded. *)
Theorem vpc_deleted_last s i c' id' answer :
  trace s = [] → machineObj s = Some m →
  trace (deleteAwsVpc c id s).2 !! i = Some (Ev (DeleteVpc c' id') answer) →
  let h := take i (trace (deleteAwsVpc c id s).2) in
  c' = c ∧ id' = id ∧ groups_deleted c id h ∧
  (annotation m awsSubnetIDAnnotation ≠ "" → subnet_deleted c m h) ∧
  (annotation m awsSubnetIDAnnotation = "" → Forall (λ e, takes_part e = false) h).
Proof.
  intros Hs Hm Hi.
  destruct (wp_at _ _ _ _ _ _ _ (wp_deleteAwsVpc s Hm) Hs Hi) as (? & ? & ? & ?).
  split_and!; [done..|]. intros Hsn. apply Forall_forall. intros e He.
  destruct (wp_elem _ _ _ _ _ e (wp_deleteAwsVpc_parts s Hm Hsn) Hs) as [h' Hh]; [|exact Hh].
  apply list_elem_of_lookup in He as [j Hj]. apply lookup_take_Some in Hj as [Hj _].
  by eapply list_elem_of_lookup_2.
Qed.
End AwsSpec.

(** ** The hypotheses at work *)

Definition demo_credential : awsAuthCredential :=
  {| accessKey := "AK"; secretKey := "SK"; region := "us-east-1" |}.

(** A machine on EC2 with its VPC, subnet and gateway. *)
Definition aws_waiting : St Sim := reconcile_n 2 (fresh aws_start).

Lemma vpc_deleted_last_witness :
  ∃ m, machineObj aws_waiting = Some m ∧
    subnet_deleted demo_credential m
      (take 7 (trace (deleteAwsVpc demo_credential "vpc-1" aws_waiting).2)).
Proof.
  assert (∃ m, machineObj aws_waiting = Some m ∧ annotation m awsSubnetIDAnnotation = "subnet-1")
    as (m & Hm & Ha) by (eexists; split; [by_eval|by_eval]).
  exists m. split; [exact Hm|].
  eapply (vpc_deleted_last demo_credential "vpc-1" m aws_waiting 7);
    [reflexivity|exact Hm|by_eval|by rewrite Ha].
Defined.
