(* ===== verification/Waiting.v ===== *)
(** * Waiting for a state

    [waitForState] counts elapsed time in a 64-bit duration and stops when the
    count passes the timeout.  It is the loop that polls a fixed number of
    times. *)

From S2P Require Import Prelude GoLib Types Conditions Summary Effects Kube Aws Sim.

Section Waiting.
Context {World : Type} `{SV : !Services World}.
Implicit Types s : St World.

(** Poll at most [n] times, with a pause after each unsuccessful poll. *)
Fixpoint poll (n : nat) (retry : Z) (getStatus : M World (Res bool)) : M World (Res unit) :=
  match n with
  | O => fail (errorString "failed to get desired status")
  | S n =>
      r ← getStatus;
      match r with
      | inr e => fail e
      | inl true => ok
      | inl false => _ ← call (Sleep retry); poll n retry getStatus
      end
  end.

Lemma wait_loop_poll (retry timeout : Z) (getStatus : M World (Res bool)) :
  0 < retry → 0 ≤ timeout → timeout + retry ≤ max_int64 →
  ∀ n fuel t s, (n < fuel)%nat → 0 ≤ t →
    t + (Z.of_nat n - 1) * retry ≤ timeout < t + Z.of_nat n * retry →
    wait_loop fuel retry timeout t getStatus s = (r ← poll n retry getStatus; mret (Some r)) s.
Proof.
  intros Hr Ht Hmax n. induction n as [|n IH]; intros fuel t s Hf Ht0 Hn;
    (destruct fuel as [|fuel]; [lia|]); simpl.
  - destruct (Z.leb_spec t timeout); [lia|done].
  - destruct (Z.leb_spec t timeout); [|nia]. unfold mbind, M_bind.
    destruct (getStatus s) as [[[[]|e]|msg] s1]; [done| |done|done].
    unfold call. destruct (serve (Sleep retry) (world s1)) as [x w].
    assert (int64_add t retry = t + retry) as ->
      by (apply int64_wrap_id; unfold min_int64, max_int64 in *; lia).
    rewrite IH by (lia || nia). done.
Qed.

Lemma waitForState_poll (retry timeout : Z) (getStatus : M World (Res bool)) s :
  0 < retry → 0 ≤ timeout → timeout + retry ≤ max_int64 →
  waitForState retry timeout getStatus s =
    poll (Z.to_nat (timeout / retry + 1)) retry getStatus s.
Proof.
  intros Hr Ht Hmax. unfold waitForState, wait_fuel.
  assert (0 ≤ timeout / retry) by (apply Z.div_pos; lia).
  pose proof (Z.mul_div_le timeout retry Hr). pose proof (Z.mul_succ_div_gt timeout retry Hr).
  unfold mbind, M_bind.
  rewrite (wait_loop_poll retry timeout getStatus Hr Ht Hmax (Z.to_nat (timeout / retry + 1)));
    [|lia|lia|rewrite Z2Nat.id by lia; split; nia].
  unfold mbind, M_bind. by destruct (poll _ _ _ s) as [[]].
Qed.

(** Rounds of a poll that asks once each time: the answers of the rounds that
    were followed by a pause, and the answer of a last round without one. *)
Definition poll_rounds {X} (c : Call X) (retry : Z) (paused : list X) (final : option X) : list Event :=
  mjoin ((λ x, [Ev c x; Ev (Sleep retry) tt]) <$> paused) ++
  match final with Some x => [Ev c x] | None => [] end.

Lemma poll_calls {X} (c : Call X) n retry (getStatus : M World (Res bool)) s :
  (∀ s, ∃ x, trace (getStatus s).2 = trace s ++ [Ev c x]) →
  ∃ paused final, trace (poll n retry getStatus s).2 = trace s ++ poll_rounds c retry paused final ∧
    (length paused + length (option_list final) ≤ n)%nat.
Proof.
  intros Hg. revert s. induction n as [|n IH]; intros s; simpl.
  { exists [], None. split; [by rewrite app_nil_r|done]. }
  unfold mbind, M_bind. destruct (Hg s) as [x Hx].
  assert (∃ paused final, trace (getStatus s).2 = trace s ++ poll_rounds c retry paused final ∧
    (length paused + length (option_list final) ≤ S n)%nat) as Hlast
    by (exists [], (Some x); split; [done|simpl; lia]).
  destruct (getStatus s) as [[[[]|e]|msg] s1]; simpl in *; [done| |done|done].
  unfold call. destruct (serve (Sleep retry) (world s1)) as [[] w].
  destruct (IH (mkSt w (machineObj s1) (trace s1 ++ [Ev (Sleep retry) tt]))) as (paused & final & -> & Hle).
  exists (x :: paused), final. simpl. rewrite Hx, <- !app_assoc. split; [done|lia].
Qed.

Lemma find_vpc_state id vpcs s : (find_vpc id vpcs s).2 = s.
Proof.
  induction vpcs as [|p vpcs IH]; simpl; [done|]. unfold mbind, M_bind, deref.
  destruct p as [v|]; [|done]. simpl. destruct (vpc_VpcId v); [|done]. simpl.
  by case_decide.
Qed.

Lemma vpc_available_calls c id s :
  ∃ x, trace (vpc_available c (Some id) s).2 = trace s ++ [Ev (DescribeVpcs c [id]) x].
Proof.
  unfold vpc_available, getVPC, tryE, mbind, M_bind, deref. simpl. unfold call.
  destruct (serve (DescribeVpcs c [id]) (world s)) as [x w]. exists x. simpl.
  destruct x as [vpcs|e]; [|done].
  match goal with |- context [find_vpc id vpcs ?s1] =>
    pose proof (find_vpc_state id vpcs s1) as Hs;
    destruct (find_vpc id vpcs s1) as [[[v|e]|msg] s2] end; simpl in Hs; subst s2; [|done|done].
  by destruct (vpc_State v).
Qed.

(** C31: [waitForState] terminates and polls a fixed number of times.  For a
    positive pause and a timeout that does not overflow the duration, it
    behaves in every state, with every way to get the status, as the loop that
    polls at most [timeout / retry + 1] times: it ends early on an error or on
    success, pauses after every unsuccessful poll, and reports a failure after
    the last one.  In particular the loop variable never wraps around and the
    fuel of the model is never used up. *)
Theorem waitForState_polls (retry timeout : Z) (getStatus : M World (Res bool)) s :
  0 < retry → 0 ≤ timeout → timeout + retry ≤ max_int64 →
  waitForState retry timeout getStatus s =
    poll (Z.to_nat (timeout / retry + 1)) retry getStatus s.
Proof. apply waitForState_poll. Qed.

(** C32: waiting for a VPC takes a bounded number of calls.  [waitForState] as
    [createAwsVpc] uses it (every five seconds for a minute) makes no other
    calls than asking EC2 for that VPC, each time but possibly the last followed
    by a pause of five seconds; it asks at most thirteen times, and so pauses at
    most thirteen times. *)
Theorem vpc_wait_bounded c id s :
  ∃ paused final,
    trace (waitForState (5 * Second) (1 * Minute) (vpc_available c (Some id)) s).2 =
      trace s ++ poll_rounds (DescribeVpcs c [id]) (5 * Second) paused final ∧
    (length paused + length (option_list final) ≤ 13)%nat.
Proof.
  rewrite waitForState_poll by (vm_compute; congruence).
  apply (poll_calls _ 13), vpc_available_calls.
Qed.
End Waiting.

(** ** The hypotheses at work *)

Definition wait_credential : awsAuthCredential :=
  {| accessKey := "AK"; secretKey := "SK"; region := "us-east-1" |}.

Lemma waitForState_polls_witness :
  waitForState (5 * Second) (1 * Minute) (vpc_available wait_credential (Some "vpc-1"))
    (fresh aws_start) =
  poll 13 (5 * Second) (vpc_available wait_credential (Some "vpc-1")) (fresh aws_start).
Proof.
  apply (waitForState_polls (5 * Second) (1 * Minute)
           (vpc_available wait_credential (Some "vpc-1")) (fresh aws_start));
    vm_compute; congruence.
Defined.
