(* ===== verification/NoPanic.v ===== *)
(** * Reconciliations that do not panic

    The code dereferences pointers without looking: [Spec.Driver],
    [Spec.AuthSecret], and the identifiers in the answers of EC2.  The schema
    of the custom resource requires the first two of a machine that has a
    [spec], but does not require a [spec]; EC2 documents that it fills in the
    others.  With such answers no operation dereferences nil, the polling loop
    ends, and [Reconcile] returns.  A machine without [spec] is the subject of
    [machine_without_driver_panics] in [Defects.v]. *)

From S2P Require Import Prelude GoLib Types Conditions Summary Effects Kube Aws Azure Cleanup Cluster MachineOps Reconcile Logic Waiting Sim.

(** A machine whose [spec] has what the schema requires of a [spec].  The schema
    admits machines without [spec], which are not valid in this sense. *)
Definition valid (m : Machine) : Prop :=
  is_Some (Driver (Spec m)) ∧ is_Some (AuthSecret (Spec m)).

(** A list answer without nil entries, each with the fields the code reads. *)
Definition filled {A} (P : A → Prop) (l : list (option A)) : Prop :=
  Forall (λ p, ∃ a, p = Some a ∧ P a) l.

Definition vpc_filled (v : Vpc) : Prop := is_Some (vpc_VpcId v) ∧ is_Some (vpc_State v).

(** ** Complete answers *)

Definition complete_answer {X} (c : Call X) : X → Prop :=
  match c in Call X return X → Prop with
  | KGetMachine _ | KCreate _ | KPatch _ _ _ | KStatusPatch _ _ => λ x,
      match x with inl m => valid m | inr _ => True end
  | CreateVpc _ _ => λ x,
      match x with inl v => ∃ vpc, v = Some vpc ∧ is_Some (vpc_VpcId vpc) | inr _ => True end
  | DescribeVpcs _ _ => λ x,
      match x with
      | inl l => filled vpc_filled l
      | inr _ => True
      end
  | CreateSubnet _ _ _ _ => λ x,
      match x with inl v => ∃ sn, v = Some sn ∧ is_Some (sn_SubnetId sn) | inr _ => True end
  | CreateInternetGateway _ => λ x,
      match x with
      | inl v => ∃ gw, v = Some gw ∧ is_Some (igw_InternetGatewayId gw)
      | inr _ => True
      end
  | DescribeRouteTables _ => λ x,
      match x with inl l => filled (λ rt, is_Some (rt_VpcId rt)) l | inr _ => True end
  | DescribeSecurityGroups _ _ => λ x,
      match x with inl l => filled (λ sg, is_Some (sg_GroupId sg)) l | inr _ => True end
  | _ => λ _, True
  end.

(** The objects the operator writes have a driver and a secret too. *)
Definition valid_request {X} (c : Call X) : Prop :=
  match c with
  | KCreate obj => valid obj
  | KPatch _ _ mod_ => valid mod_
  | _ => True
  end.

(** What the operator relies on: as long as the objects it writes are valid,
    objects come back valid, and EC2 fills in identifiers and states. *)
Class CompleteServices (World : Type) `{!Services World} := {
  sane : World → Prop;
  serve_complete : ∀ {X} (c : Call X) (w : World),
    sane w → valid_request c → complete_answer c (serve c w).1 ∧ sane (serve c w).2
}.

Section NoPanic.
Context {World : Type} `{SV : !Services World} `{CS : !CompleteServices World}.
Implicit Types s : St World.

(** The receiver holds a valid machine. *)
Definition loaded s : Prop :=
  sane (world s) ∧ ∃ m, machineObj s = Some m ∧ valid m.

(** [m] does not panic on a loaded receiver, keeps it loaded, and returns a
    value in [Q]. *)
Definition sound {A} (m : M World A) (Q : A → Prop) : Prop :=
  ∀ s, loaded s → wp unguarded False m (λ a s', Q a ∧ loaded s') s.

Lemma sound_post {A} (m : M World A) (Q R : A → Prop) :
  sound m Q → (∀ a, Q a → R a) → sound m R.
Proof. intros Hm HQ s Hs. eapply wp_mono; [by apply Hm|]. naive_solver. Qed.

Lemma sound_ret {A} (a : A) (Q : A → Prop) : Q a → sound (mret a) Q.
Proof. intros HQ s Hs. by apply wp_ret. Qed.

Lemma sound_bind {A B} (m : M World A) (k : A → M World B) Q R :
  sound m Q → (∀ a, Q a → sound (k a) R) → sound (m ≫= k) R.
Proof.
  intros Hm Hk s Hs. apply wp_bind. eapply wp_mono; [by apply Hm|].
  intros a s' [HQ Hs']. by apply Hk.
Qed.

Lemma sound_try {A B} (m : M World (Res A)) (k : A → M World (Res B))
    (Q : Res A → Prop) (R : Res B → Prop) :
  sound m Q → (∀ a, Q (inl a) → sound (k a) R) → (∀ e, R (inr e)) → sound (tryE m k) R.
Proof.
  intros Hm Hk He. eapply sound_bind; [exact Hm|]. intros [a|e] HQ; [by apply Hk|].
  by apply sound_ret.
Qed.

Lemma sound_call {X} (c : Call X) : valid_request c → sound (call c) (complete_answer c).
Proof.
  intros Hc s (Hw & m & Hm & Hv). apply wp_call. intros x w Hx. split; [done|].
  destruct (serve_complete c (world s) Hw Hc) as [Ha Hw']. rewrite Hx in Ha, Hw'.
  split; [done|]. split; [done|]. by exists m.
Qed.

Lemma sound_machine : sound the_machine valid.
Proof.
  intros s (Hw & m & Hm & Hv). apply wp_the_machine; [|by rewrite Hm].
  intros m' Hm'. simplify_eq. split; [done|]. split; [done|]. by exists m.
Qed.

Lemma sound_deref {A} (p : option A) (Q : A → Prop) :
  (∃ a, p = Some a ∧ Q a) → sound (deref p) Q.
Proof. intros (a & -> & HQ). by apply sound_ret. Qed.

Lemma sound_deref_any {A} (p : option A) : is_Some p → sound (deref p) (λ _, True).
Proof. intros [a ->]. by apply sound_ret. Qed.

Lemma sound_put m : valid m → sound (put_machine m) (λ _, True).
Proof. intros Hv s [Hw _]. apply wp_put_machine. split; [done|]. split; [done|]. by exists m. Qed.

Lemma sound_now : sound now (λ _, True).
Proof. intros s Hs. by apply wp_now. Qed.

Lemma sound_range mp : sound (range mp) (λ _, True).
Proof. intros s Hs. by apply wp_range. Qed.
End NoPanic.

(** ** Automation

    [sound_run] follows the computation; the postcondition of an intermediate
    step is the one its lemma in the database [sound] gives. *)
Create HintDb sound discriminated.

(** Validity of the machine at hand, from one that differs in its status. *)
Ltac by_valid :=
  match goal with
  | H : valid _ |- is_Some (Driver _) => exact (proj1 H)
  | H : valid _ |- is_Some (AuthSecret _) => exact (proj2 H)
  | H : valid ?m |- valid _ => exact H
  | Hf : ∀ m, valid m → valid _, H : valid _ |- _ => exact (Hf _ H)
  | H : vpc_filled ?v |- is_Some (vpc_VpcId ?v) => exact (proj1 H)
  | H : vpc_filled ?v |- is_Some (vpc_State ?v) => exact (proj2 H)
  | H : ∃ _, _ ∧ _ |- ∃ _, _ ∧ _ => exact H
  | |- is_Some _ => done
  end.

Ltac sound_atom :=
  lazymatch goal with
  | |- sound (call _) _ => apply sound_call; first [exact I | by_valid]
  | |- sound the_machine _ => apply sound_machine
  | |- sound now _ => apply sound_now
  | |- sound (range _) _ => apply sound_range
  | |- sound (put_machine _) _ => apply sound_put; by_valid
  | |- sound (deref _) _ =>
      first [apply sound_deref_any; by_valid | apply sound_deref; by_valid]
  | |- sound _ _ => solve [eauto with sound]
  end.

Ltac sound_step :=
  lazymatch goal with
  | |- sound (mbind _ _) _ => eapply sound_bind; [sound_atom|intros ? ?]
  | |- sound (tryE _ _) _ => eapply sound_try; [sound_atom|intros ? ?|by intros]
  | |- sound (mret _) _ => by apply sound_ret
  | |- sound ok _ => by apply sound_ret
  | |- sound (fail _) _ => by apply sound_ret
  | |- sound (if _ then _ else _) _ => case_match
  | |- sound (match ?x with _ => _ end) _ => destruct x
  | |- sound _ _ => eapply sound_post; [sound_atom|by intros]
  end; cbn beta iota delta [complete_answer] in *.
Ltac sound_run := repeat sound_step.

Section Operations.
Context {World : Type} `{SV : !Services World} `{CS : !CompleteServices World}.
Implicit Types s : St World.

(** ** Status and metadata *)

Lemma summarise_valid n m opts p : valid m → valid (set_Phase (SetSummary n m opts) p).
Proof.
  intros Hv. unfold valid, SetSummary. simpl.
  by rewrite (proj1 (proj2 (proj2 (Set_meta n m _)))).
Qed.

Lemma sound_mark_true t : sound (mark_true t) (λ _, True).
Proof. unfold mark_true. sound_run. Qed.

Lemma sound_mark_false t r sv msg : sound (mark_false t r sv msg) (λ _, True).
Proof. unfold mark_false. sound_run. Qed.

Lemma sound_CreateOrPatch f : (∀ m, valid m → valid (f m)) → sound (CreateOrPatch f) (λ _, True).
Proof. intros Hf. unfold CreateOrPatch. sound_run. Qed.

Lemma sound_updateMachineStatus key : sound (updateMachineStatus key) (λ _, True).
Proof.
  unfold updateMachineStatus, committer. sound_run.
  eapply sound_bind; [by apply sound_put, summarise_valid|]. intros _ _. sound_run.
Qed.

#[local] Hint Resolve sound_mark_true sound_mark_false sound_updateMachineStatus : sound.

Lemma sound_update_own_status : sound update_own_status (λ _, True).
Proof. unfold update_own_status. sound_run. Qed.

#[local] Hint Resolve sound_update_own_status : sound.

Lemma sound_setInitialConditions : sound setInitialConditions (λ _, True).
Proof. unfold setInitialConditions. sound_run. Qed.

Lemma sound_patchFinalizer verb f : sound (patchFinalizer verb f) (λ _, True).
Proof. apply sound_CreateOrPatch. intros m Hm. unfold finalizer_transform. by repeat case_decide. Qed.

Lemma sound_patchAnnotation key v : sound (patchAnnotation key v) (λ _, True).
Proof. by apply sound_CreateOrPatch. Qed.

#[local] Hint Resolve sound_setInitialConditions sound_patchFinalizer sound_patchAnnotation : sound.

Lemma sound_ensureFinalizer : sound ensureFinalizer (λ _, True).
Proof. unfold ensureFinalizer. sound_run. Qed.

Lemma sound_requeueWithError msg err : sound (requeueWithError msg err) (λ _, True).
Proof. unfold requeueWithError. sound_run. Qed.

Lemma sound_getAuthSecret m : valid m → sound (getSecret (AuthSecret (Spec m))) (λ _, True).
Proof. intros Hv. unfold getSecret. sound_run. Qed.

Lemma sound_getScriptFilePath : sound (World:=World) getScriptFilePath (λ _, True).
Proof. unfold getScriptFilePath. sound_run. Qed.

#[local] Hint Resolve sound_ensureFinalizer sound_requeueWithError sound_getAuthSecret
  sound_getScriptFilePath : sound.

(** ** EC2 *)

Lemma sound_driverName : sound (World:=World) driverName (λ _, True).
Proof. unfold driverName. sound_run. Qed.

#[local] Hint Resolve sound_driverName : sound.

Lemma sound_last_route_table vpcId rts acc :
  filled (λ rt, is_Some (rt_VpcId rt)) rts →
  sound (World:=World) (last_route_table vpcId rts acc) (λ _, True).
Proof.
  intros Hf. revert acc. induction Hf as [|p rts (rt & -> & [id Hid]) _ IH]; intros acc; simpl.
  - by apply sound_ret.
  - apply (sound_bind _ _ (eq rt)); [by apply sound_ret|]. intros _ <-. rewrite Hid. apply IH.
Qed.

Lemma sound_find_vpc vpcId vpcs :
  filled vpc_filled vpcs →
  sound (World:=World) (find_vpc vpcId vpcs) (λ r, match r with inl v => vpc_filled v | inr _ => True end).
Proof.
  intros Hf. induction Hf as [|p vpcs (v & -> & [id Hid] & Hst) _ IH]; simpl.
  - by apply sound_ret.
  - apply (sound_bind _ _ (eq v)); [by apply sound_ret|]. intros _ <-. rewrite Hid. simpl.
    apply (sound_bind _ _ (eq id)); [by apply sound_ret|]. intros _ <-.
    case_decide; [|apply IH]. apply sound_ret. split; [by exists id|done].
Qed.

#[local] Hint Resolve sound_last_route_table sound_find_vpc : sound.

Lemma sound_getAWSCredentials : sound (World:=World) getAWSCredentials (λ _, True).
Proof. unfold getAWSCredentials. sound_run. Qed.

#[local] Hint Resolve sound_getAWSCredentials : sound.

Lemma sound_awsEC2Client : sound awsEC2Client (λ _, True).
Proof. unfold awsEC2Client, newAWSClientSession. sound_run. Qed.

Lemma sound_deleteAwsRoute c vpcId : sound (deleteAwsRoute c vpcId) (λ _, True).
Proof. unfold deleteAwsRoute. sound_run. Qed.

Lemma sound_createAwsRoute c vpcId gw : sound (createAwsRoute c vpcId gw) (λ _, True).
Proof. unfold createAwsRoute. sound_run. Qed.

#[local] Hint Resolve sound_awsEC2Client sound_deleteAwsRoute sound_createAwsRoute : sound.

Lemma sound_deleteAwsInternetGateway c gw vpcId :
  sound (deleteAwsInternetGateway c gw vpcId) (λ _, True).
Proof. unfold deleteAwsInternetGateway, detachInternetGatewayToVPC. sound_run. Qed.

#[local] Hint Resolve sound_deleteAwsInternetGateway : sound.

Lemma sound_createAwsInternetGateway c vpcId :
  sound (createAwsInternetGateway c vpcId) (λ _, True).
Proof.
  unfold createAwsInternetGateway, attachInternetGatewayToVPC.
  eapply sound_try; [sound_atom|simpl; intros out Hout|done].
  eapply sound_bind; [apply sound_deref; exact Hout|]. intros gw Hgw. sound_run.
Qed.

Lemma sound_deleteAwsSubnet c id : sound (deleteAwsSubnet c id) (λ _, True).
Proof.
  unfold deleteAwsSubnet. sound_run.
  apply (sound_bind _ _ (λ _, True)); [sound_run|]. intros _ _. sound_run.
Qed.

#[local] Hint Resolve sound_createAwsInternetGateway sound_deleteAwsSubnet : sound.

Lemma sound_createAwsSubnet c vpcId : sound (createAwsSubnet c vpcId) (λ _, True).
Proof.
  unfold createAwsSubnet. sound_run.
Qed.

Lemma sound_delete_groups c sgs :
  filled (λ sg, is_Some (sg_GroupId sg)) sgs → sound (delete_groups c sgs) (λ _, True).
Proof.
  intros Hf. induction Hf as [|p sgs (sg & -> & Hid) _ IH]; simpl; [by apply sound_ret|].
  apply (sound_bind _ _ (eq sg)); [by apply sound_ret|]. intros _ <-. sound_run.
Qed.

#[local] Hint Resolve sound_createAwsSubnet sound_delete_groups : sound.

Lemma sound_deleteSecurityGroup c vpcId : sound (deleteSecurityGroup c vpcId) (λ _, True).
Proof. unfold deleteSecurityGroup. sound_run. Qed.

#[local] Hint Resolve sound_deleteSecurityGroup : sound.

Lemma sound_deleteAwsVpc c vpcId : sound (deleteAwsVpc c vpcId) (λ _, True).
Proof.
  unfold deleteAwsVpc. sound_run.
  apply (sound_bind _ _ (λ _, True)); [sound_run|]. intros _ _. sound_run.
Qed.

Lemma sound_getVPC c id :
  sound (getVPC c (Some id)) (λ r, match r with inl v => vpc_filled v | inr _ => True end).
Proof. unfold getVPC. sound_run. Qed.

#[local] Hint Resolve sound_deleteAwsVpc sound_getVPC : sound.

Lemma sound_vpc_available c id : sound (vpc_available c (Some id)) (λ _, True).
Proof. unfold vpc_available. sound_run. Qed.

Lemma sound_poll n retry (getStatus : M World (Res bool)) :
  sound getStatus (λ _, True) → sound (poll n retry getStatus) (λ _, True).
Proof. intros Hg. induction n as [|n IH]; simpl; sound_run. Qed.

(** The loop [createAwsVpc] waits in ends. *)
Lemma sound_wait_vpc c id :
  sound (waitForState (5 * Second) (1 * Minute) (vpc_available c (Some id))) (λ _, True).
Proof.
  intros s Hs. eapply wp_ext; [by apply waitForState_poll; vm_compute|].
  by apply sound_poll, Hs; apply sound_vpc_available.
Qed.

#[local] Hint Resolve sound_wait_vpc : sound.

Lemma sound_obtain_vpc c :
  sound (obtain_vpc c) (λ r, match r with inl v => is_Some (vpc_VpcId v) | inr _ => True end).
Proof.
  unfold obtain_vpc. eapply sound_bind; [sound_atom|]. intros m Hm. case_decide.
  - eapply sound_try; [sound_atom|simpl; intros out Hout|done].
    eapply sound_bind; [apply sound_deref; exact Hout|]. intros vpc [id Hid]. rewrite Hid.
    apply (sound_bind _ _ (eq id)); [by apply sound_ret|]. intros _ <-.
    sound_run.
  - eapply sound_post; [apply sound_getVPC|]. intros [v|e]; [|done]. by intros [? _].
Qed.

#[local] Hint Resolve sound_obtain_vpc : sound.

Lemma sound_createAwsVpc c : sound (createAwsVpc c) (λ _, True).
Proof. unfold createAwsVpc. sound_run. Qed.

#[local] Hint Resolve sound_createAwsVpc : sound.

Lemma sound_createAWSEnvironment : sound createAWSEnvironment (λ _, True).
Proof. unfold createAWSEnvironment. sound_run. Qed.

Lemma sound_cleanupAWSResources : sound cleanupAWSResources (λ _, True).
Proof. unfold cleanupAWSResources. sound_run. Qed.

#[local] Hint Resolve sound_createAWSEnvironment sound_cleanupAWSResources : sound.

(** ** Deletion *)

Lemma sound_getAzureCredential : sound getAzureCredential (λ _, True).
Proof. unfold getAzureCredential. sound_run. Qed.

#[local] Hint Resolve sound_getAzureCredential : sound.

Lemma sound_deleteAzureResourceGroup : sound deleteAzureResourceGroup (λ _, True).
Proof. unfold deleteAzureResourceGroup. sound_run. Qed.

Lemma sound_remove_file path : sound (remove_file path) (λ _, True).
Proof. unfold remove_file. sound_run. Qed.

#[local] Hint Resolve sound_deleteAzureResourceGroup sound_remove_file : sound.

Lemma sound_deleteFiles : sound deleteFiles (λ _, True).
Proof. unfold deleteFiles. sound_run. Qed.

Lemma sound_deleteDockerMachine : sound deleteDockerMachine (λ _, True).
Proof. unfold deleteDockerMachine. sound_run. Qed.

Lemma sound_cleanup_cloud : sound cleanup_cloud (λ _, True).
Proof. unfold cleanup_cloud. sound_run. Qed.

#[local] Hint Resolve sound_deleteFiles sound_deleteDockerMachine sound_cleanup_cloud : sound.

Lemma sound_cleanupMachineResources : sound cleanupMachineResources (λ _, True).
Proof. unfold cleanupMachineResources. sound_run. Qed.

#[local] Hint Resolve sound_cleanupMachineResources : sound.

Lemma sound_removeFinalizerAfterCleanup : sound removeFinalizerAfterCleanup (λ _, True).
Proof. unfold removeFinalizerAfterCleanup. sound_run. Qed.

#[local] Hint Resolve sound_removeFinalizerAfterCleanup : sound.

(** ** Creation *)

Lemma sound_createPrerequisitesForMachine : sound createPrerequisitesForMachine (λ _, True).
Proof. unfold createPrerequisitesForMachine. sound_run. Qed.

Lemma sound_auth_args kvs acc : sound (World:=World) (auth_args kvs acc) (λ _, True).
Proof. revert acc. induction kvs as [|[k v] kvs IH]; intros acc; simpl; sound_run. Qed.

#[local] Hint Resolve sound_createPrerequisitesForMachine sound_auth_args : sound.

Lemma sound_getAuthSecretArgs : sound getAuthSecretArgs (λ _, True).
Proof. unfold getAuthSecretArgs. sound_run. Qed.

Lemma sound_getSecret ref : sound (getSecret (Some ref)) (λ _, True).
Proof. unfold getSecret. sound_run. Qed.

#[local] Hint Resolve sound_getAuthSecretArgs sound_getSecret : sound.

(** [getStartupScriptArgs] is called for a machine with a script. *)
Lemma wp_getStartupScriptArgs_total s m :
  sane (world s) → machineObj s = Some m → valid m → is_Some (ScriptRef (Spec m)) →
  wp unguarded False getStartupScriptArgs (λ _ s', True ∧ loaded s') s.
Proof.
  intros Hw Hm Hv [ref Href]. unfold getStartupScriptArgs.
  apply wp_bind, wp_the_machine; [|by rewrite Hm]. intros m' Hm'.
  assert (m' = m) as -> by congruence. rewrite Href.
  match goal with |- wp _ _ ?p _ _ => assert (sound p (λ _, True)) as H end.
  { sound_run. }
  apply H. split; [done|]. by exists m.
Qed.

Lemma sound_script_args : sound script_args (λ _, True).
Proof.
  intros s (Hw & m & Hm & Hv). unfold script_args. apply wp_bind, wp_the_machine; [|by rewrite Hm].
  intros m' Hm'. assert (m' = m) as -> by congruence.
  destruct (ScriptRef (Spec m)) as [ref|] eqn:Href.
  - apply wp_bind. eapply wp_mono; [by apply (wp_getStartupScriptArgs_total s m)|].
    intros r s' [_ Hs']. revert s' Hs'.
    match goal with |- ∀ s', _ → wp _ _ ?p _ _ => change (sound p (λ _, True)) end. sound_run.
  - apply wp_ret. split; [done|]. split; [done|]. by exists m.
Qed.

Lemma sound_getAnnotationsArgsForAWS : sound (World:=World) getAnnotationsArgsForAWS (λ _, True).
Proof. unfold getAnnotationsArgsForAWS. sound_run. Qed.

#[local] Hint Resolve sound_script_args sound_getAnnotationsArgsForAWS : sound.

Lemma sound_getMachineCreationArgs : sound getMachineCreationArgs (λ _, True).
Proof. unfold getMachineCreationArgs. sound_run. Qed.

Lemma sound_run_creation args : sound (run_creation args) (λ _, True).
Proof. unfold run_creation. sound_run. Qed.

#[local] Hint Resolve sound_getMachineCreationArgs sound_run_creation : sound.

Lemma sound_createMachine : sound createMachine (λ _, True).
Proof. unfold createMachine. sound_run. Qed.

(** ** The script *)

Lemma sound_getScpArgs : sound (World:=World) getScpArgs (λ _, True).
Proof. unfold getScpArgs. sound_run. Qed.

Lemma sound_record_result ret : sound (record_result ret) (λ _, True).
Proof.
  unfold record_result. apply (sound_bind _ _ (λ _, True)); [sound_run|]. intros r _. sound_run.
Qed.

#[local] Hint Resolve sound_createMachine sound_getScpArgs sound_record_result : sound.

Lemma sound_scan_result lines : sound (scan_result lines) (λ _, True).
Proof. induction lines as [|l lines IH]; simpl; sound_run. Qed.

#[local] Hint Resolve sound_scan_result : sound.

Lemma sound_isScriptFinished : sound isScriptFinished (λ _, True).
Proof. unfold isScriptFinished. sound_run. Qed.

#[local] Hint Resolve sound_isScriptFinished : sound.

(** ** [Reconcile] *)

Lemma sound_reconcile_create req : sound (reconcile_create req) (λ _, True).
Proof. unfold reconcile_create. sound_run. Qed.

#[local] Hint Resolve sound_reconcile_create : sound.

Lemma sound_reconcile_normal req : sound (reconcile_normal req) (λ _, True).
Proof. unfold reconcile_normal, reconciled. sound_run. Qed.

Lemma sound_reconcile_delete : sound reconcile_delete (λ _, True).
Proof. unfold reconcile_delete, reconciled. sound_run. Qed.

Lemma sound_isMarkedForDeletion : sound (World:=World) isMarkedForDeletion (λ _, True).
Proof. unfold isMarkedForDeletion. sound_run. Qed.

#[local] Hint Resolve sound_reconcile_normal sound_reconcile_delete
  sound_isMarkedForDeletion : sound.

(** What [Reconcile] does with a machine that could be read. *)
Lemma sound_reconcile_loaded req :
  sound (m ← the_machine;
         if decide (Phase (Status m) = "") then
           upd ← updateMachineStatus req;
           mret (Result_zero, match upd with inl _ => None | inr e => Some e end)
         else
           del ← isMarkedForDeletion;
           if del : bool then reconcile_delete else reconcile_normal req) (λ _, True).
Proof. sound_run. Qed.

Lemma wp_Reconcile_total req s :
  sane (world s) →
  (∀ m, machineObj s = Some m → valid m) →
  (∀ e w, serve (KGetMachine req) (world s) = (inr e, w) → IsNotFound e = false →
     is_Some (machineObj s)) →
  wp unguarded False (Reconcile req) (λ _ _, True) s.
Proof.
  intros Hw Hv Hread. unfold Reconcile, updateMachineReconcile.
  apply wp_bind, wp_bind, wp_call. intros x w Hx. split; [done|].
  destruct (serve_complete (KGetMachine req) (world s) Hw I) as [Hc Hw']. rewrite Hx in Hc, Hw'.
  destruct x as [m|e]; simpl in *.
  - apply wp_bind, wp_put_machine, wp_ret. eapply wp_mono; [apply sound_reconcile_loaded|done].
    split; [done|]. by exists m.
  - apply wp_ret. destruct (IsNotFound e) eqn:He; [by apply wp_ret|].
    destruct (Hread e w Hx He) as [m Hm].
    eapply wp_mono; [apply sound_requeueWithError|done]. split; [done|]. exists m. auto.
Qed.

(** C11: a reconciliation does not panic when machines have a driver and a secret
    reference.  When the API server answers with machines that have both (which
    the schema requires only of machines that have a [spec]), as long as those
    the operator writes have them, and EC2 fills in the identifiers it
    documents, [Reconcile] returns a result for every request, whatever errors
    the services report, unless the machine cannot be read before the receiver
    has loaded its first one.  No nil pointer is dereferenced, and the loop that
    waits for a VPC ends. *)
Theorem reconcile_returns req s :
  sane (world s) →
  (∀ m, machineObj s = Some m → valid m) →
  (∀ e w, serve (KGetMachine req) (world s) = (inr e, w) → IsNotFound e = false →
     is_Some (machineObj s)) →
  ∃ r, (Reconcile req s).1 = Normal r.
Proof.
  intros Hw Hv Hread.
  destruct (wp_normal _ _ _ _ (wp_Reconcile_total req s Hw Hv Hread)) as (r & Hr & _). by exists r.
Qed.
End Operations.

(** ** The hypotheses at work *)

(** The simulated server holds valid machines. *)
Definition sim_valid (w : Sim) : Prop := map_Forall (λ _, valid) (sim_machines w).

Lemma store_sim_valid w m : sim_valid w → valid m → sim_valid (store w m).
Proof.
  intros Hw Hm. unfold store, with_machines, sim_valid. case_match; simpl.
  - by apply map_Forall_delete.
  - by apply map_Forall_insert_2.
Qed.

Lemma filled_fmap {A B} (P : A → Prop) (f : B → A) (l : list B) :
  (∀ b, P (f b)) → filled P ((λ b, Some (f b)) <$> l).
Proof. intros Hf. apply Forall_fmap, Forall_true. intros b. by exists (f b). Qed.

Lemma sim_update_valid w k (f : Machine → Machine) :
  sim_valid w → (∀ m, valid m → valid (f m)) →
  match (sim_update w k f).1 with inl m => valid m | inr _ => True end ∧
  sim_valid (sim_update w k f).2.
Proof.
  intros Hw Hf. unfold sim_update.
  destruct (sim_machines w !! key_pair k) as [m|] eqn:Hm; [|done].
  assert (valid (f m)) by (apply Hf, (map_Forall_lookup_1 _ _ _ _ Hw Hm)).
  split; [done|]. by apply store_sim_valid.
Qed.

#[export] Program Instance Sim_CompleteServices : CompleteServices Sim := {| sane := sim_valid |}.
Next Obligation.
  intros X c w Hw Hc. simpl. destruct c; simpl in *;
    try (by split; [|repeat case_match]); try (by repeat case_match);
    try (by repeat case_match; split; [eexists; split; [done|by eexists]|]);
    try (by split; [eexists; split; [done|by eexists]|]);
    try (by apply sim_update_valid).
  - split; [|done]. destruct (sim_machines w !! key_pair key) as [m|] eqn:Hm; [|done].
    exact (map_Forall_lookup_1 _ _ _ _ Hw Hm).
  - split; [done|]. by apply store_sim_valid.
  - split; [done|]. unfold sim_exec. repeat case_match; done.
  - destruct (filter _ ids) as [|id l]; simpl; [done|]. split; [|done].
    assert (∀ i, vpc_filled {| vpc_VpcId := Some i; vpc_State := Some "available" |}) as Hv
      by (by split; eexists).
    constructor; [by eexists|]. by apply filled_fmap.
  - destruct (sim_gateways_fail w); simpl; [done|]. split; [|done]. eexists. split; [done|by eexists].
  - split; [|done]. apply filled_fmap. intros v. by eexists.
  - split; [|done]. constructor; [|constructor]. eexists; split; [done|by eexists].
Qed.

(** An AWS machine is created and the script is not finished. *)
Lemma reconcile_returns_witness :
  ∃ r, (Reconcile demo_key (reconcile_n 1 (fresh aws_start))).1 = Normal r.
Proof.
  apply (reconcile_returns demo_key (reconcile_n 1 (fresh aws_start))).
  - unfold sane, Sim_CompleteServices, sim_valid, valid. by_decide.
  - intros m Hm. vm_compute in Hm. injection Hm as <-. by split; eexists.
  - intros e w Hs. vm_compute in Hs. discriminate Hs.
Defined.
