(* ===== verification/Cooperation.v ===== *)
(** * Services that cooperate

    The interface the progress theorems are proved against.  It describes
    executions in which nothing goes wrong outside the operator and in which the
    cache keeps up with its writes: a read answers the version that is stored,
    a patch is stored, secrets can be read, [docker-machine] does what it is
    asked, and the start-up script ends after some attempts to fetch its result.
    The cache does not promise to keep up (see [System.v] and [StatusPatch.v]
    for what holds, and what does not, when it is late); the progress theorems
    say what the operator achieves when it does.  [View] is what the interface tells of a
    world.  The rules below run the operations that read and write the Machine
    object against it. *)

From S2P Require Import Prelude GoLib Types Conditions ConditionsFacts Summary StatusSpec StatusInv States Effects Kube Aws Azure Cleanup Cluster MachineOps Reconcile Evidence Logic.

(** What an object says besides its status, leaving out the version counters
    the server maintains. *)
Record Body := mkBody {
  b_key : ObjectKey;
  b_Spec : MachineSpec;
  b_Annotations : option (gmap string string);
  b_Finalizers : list string;
  b_DeletionTimestamp : option Z
}.

Definition body (m : Machine) : Body := {|
  b_key := machine_key m; b_Spec := Spec m; b_Annotations := Annotations (Meta m);
  b_Finalizers := Finalizers (Meta m); b_DeletionTimestamp := DeletionTimestamp (Meta m) |}.

Record Environment := mkEnv {
  e_secrets : gmap (string * string) Secret;
  e_attempts : nat;          (** attempts to fetch the result that will still fail *)
  e_vpcs : gmap string nat;  (** per VPC, the answers that will not say it is available *)
  e_docker : gset string     (** the docker machines that exist *)
}.

Record View := mkView {
  v_objects : gmap (string * string) Machine;
  v_env : Environment
}.

Definition set_attempts (n : nat) (e : Environment) : Environment :=
  mkEnv (e_secrets e) n (e_vpcs e) (e_docker e).

Definition set_vpcs (vs : gmap string nat) (e : Environment) : Environment :=
  mkEnv (e_secrets e) (e_attempts e) vs (e_docker e).

Definition set_vpc (id : string) (n : nat) (e : Environment) : Environment :=
  set_vpcs (<[id := n]> (e_vpcs e)) e.

Definition set_docker (ds : gset string) (e : Environment) : Environment :=
  mkEnv (e_secrets e) (e_attempts e) (e_vpcs e) ds.

(** An environment changes, the objects stay. *)
Definition in_env (g : Environment → Environment) (v : View) : View :=
  mkView (v_objects v) (g (v_env v)).

(** Storing an object; one that is being deleted goes with its last
    finalizer. *)
Definition store_object (m : Machine) (v : View) : View :=
  let k := key_pair (machine_key m) in
  mkView (if deleting m && bool_decide (Finalizers (Meta m) = []) then delete k (v_objects v)
          else <[k := m]> (v_objects v)) (v_env v).

Definition command (args : list string) (cmd : string) : Prop := head args = Some cmd.

#[export] Instance command_dec args cmd : Decision (command args cmd).
Proof. unfold command. apply _. Defined.

(** A patch from [a] to [b] carries the version of [b] where it is not that of
    [a], and the server refuses a version that is not its own; so the interface
    promises nothing of patches between different versions. *)
Definition version (m : Machine) : string := ResourceVersion (Meta m).

Class Cooperating (World : Type) `{!Services World} := {
  view : World → View;
  (** the result file on the local disk *)
  fetched : World → option string;
  coop_gvk : ∀ m w,
    (∃ g, (serve (KGVKForObject m) w).1 = inl g) ∧ view (serve (KGVKForObject m) w).2 = view w;
  coop_get : ∀ k m w,
    v_objects (view w) !! key_pair k = Some m →
    (serve (KGetMachine k) w).1 = inl m ∧ view (serve (KGetMachine k) w).2 = view w;
  coop_secret : ∀ k sec w,
    e_secrets (v_env (view w)) !! key_pair k = Some sec →
    (serve (KGetSecret k) w).1 = inl sec ∧ view (serve (KGetSecret k) w).2 = view w;
  coop_patch : ∀ kind cur mod_ w,
    v_objects (view w) !! key_pair (machine_key cur) = Some cur →
    machine_key mod_ = machine_key cur → version mod_ = version cur →
    ∃ m, (serve (KPatch kind cur mod_) w).1 = inl m ∧ body m = body mod_ ∧
         Status m = Status cur ∧
         view (serve (KPatch kind cur mod_) w).2 = store_object m (view w);
  coop_status : ∀ old obj w,
    v_objects (view w) !! key_pair (machine_key old) = Some old → version obj = version old →
    ∃ m, (serve (KStatusPatch old obj) w).1 = inl m ∧ body m = body old ∧
         Status m = Status obj ∧
         view (serve (KStatusPatch old obj) w).2 = store_object m (view w);
  coop_create : ∀ t args name w,
    command args "create" → last args = Some name →
    (ex_err (serve (Exec t "docker-machine" args) w).1 = None ∨
     strings_Contains (ex_stderr (serve (Exec t "docker-machine" args) w).1)
       "already exists" = true) ∧
    view (serve (Exec t "docker-machine" args) w).2 =
      in_env (λ e, set_docker ({[name]} ∪ e_docker e) e) (view w);
  coop_rm : ∀ t name w,
    name ∈ e_docker (v_env (view w)) →
    ex_err (serve (Exec t "docker-machine" ["rm"; name; "-y"]) w).1 = None ∧
    view (serve (Exec t "docker-machine" ["rm"; name; "-y"]) w).2 =
      in_env (λ e, set_docker (e_docker e ∖ {[name]}) e) (view w);
  coop_scp_pending : ∀ t args w n,
    command args "scp" → e_attempts (v_env (view w)) = S n →
    is_Some (ex_err (serve (Exec t "docker-machine" args) w).1) ∧
    view (serve (Exec t "docker-machine" args) w).2 =
      in_env (set_attempts n) (view w);
  coop_scp_done : ∀ t args w,
    command args "scp" → e_attempts (v_env (view w)) = O →
    ex_err (serve (Exec t "docker-machine" args) w).1 = None ∧
    (∃ content, fetched (serve (Exec t "docker-machine" args) w).2 = Some content ∧
       first_number (scan_lines content) = Some 0) ∧
    view (serve (Exec t "docker-machine" args) w).2 = view w;
  coop_open : ∀ content w,
    fetched w = Some content →
    (serve (OsOpen resultFile) w).1 = inl content ∧
    fetched (serve (OsOpen resultFile) w).2 = Some content ∧
    view (serve (OsOpen resultFile) w).2 = view w;
  coop_remove_result : ∀ w,
    is_Some (fetched w) → (serve (OsRemove resultFile) w).1 = inl tt;
  coop_remove : ∀ p w,
    (∀ e, (serve (OsRemove p) w).1 = inr e → os_IsExist e = false) ∧
    view (serve (OsRemove p) w).2 = view w;
  coop_stat : ∀ p w,
    (∀ e, (serve (OsStat p) w).1 = inr e → os_IsNotExist e = true) ∧
    view (serve (OsStat p) w).2 = view w;
  coop_write : ∀ p d perm w,
    (serve (OsWriteFile p d perm) w).1 = inl tt ∧
    view (serve (OsWriteFile p d perm) w).2 = view w
}.

(** The objects stored besides the one a reconciliation is about. *)
Class Others := others : gmap (string * string) Machine.

Definition alone : Others := (∅ : gmap (string * string) Machine).

(** ** Assertions *)

(** Every run ends normally, in a state that satisfies the postcondition. *)
Abbreviation runs := (wp unguarded False).

Section Assertions.
Context {World : Type} `{SV : !Services World} `{CO : !Cooperating World} `{OT : Others}.
Implicit Types (s : St World) (w : World) (b : Body) (f : States) (e : Environment) (P : string → Prop).

Definition body_deleting b : bool := negb (Time_IsZero (b_DeletionTimestamp b)).

(** [m] has the version that is stored. *)
Definition current (m : Machine) (v : View) : Prop :=
  ∀ m0, v_objects v !! key_pair (machine_key m) = Some m0 → version m = version m0.

(** The receiver holds the object [b], in the stored version, with conditions
    in the states [f]. *)
Definition Local b f s : Prop :=
  ∃ m, machineObj s = Some m ∧ body m = b ∧ cond_core (GetConditions m) ∧
       agree (states (GetConditions m)) f ∧ current m (view (world s)).

(** [m] is stored, next to the others. *)
Definition holds (v : View) (k : ObjectKey) (m : Machine) : Prop :=
  v_objects v !! key_pair k = Some m ∧ delete (key_pair k) (v_objects v) = others.

(** The server stores [b], with conditions in the states [f] and a phase in
    [P]. *)
Definition Stored b f P w : Prop :=
  ∃ m, holds (view w) (b_key b) m ∧ body m = b ∧
       cond_core (GetConditions m) ∧ agree (states (GetConditions m)) f ∧ P (Phase (Status m)).

(** What the receiver holds is what is stored. *)
Definition Synced b f e P s : Prop := Local b f s ∧ Stored b f P (world s) ∧ v_env (view (world s)) = e.

(** The conditions of the receiver may be ahead of the stored ones. *)
Definition Working b f e s : Prop :=
  Local b f s ∧ (∃ g P, Stored b g P (world s)) ∧ v_env (view (world s)) = e.

(** The phases a status update writes. *)
Definition updated b f (p : string) : Prop :=
  p ≠ "" ∧
  (body_deleting b = false → is_Some (f MachineConditionTypeMachineReady) → p = phase_of f).

Lemma Synced_Working b f e P s : Synced b f e P s → Working b f e s.
Proof. intros (Hl & Hs & He). split_and!; [done|by exists f, P|done]. Qed.

Lemma deleting_body m b : body m = b → deleting m = body_deleting b.
Proof. by intros <-. Qed.

(** Calls that keep the view keep the assertions. *)
Lemma Working_view b f e s w tr :
  Working b f e s → view w = view (world s) → Working b f e (mkSt w (machineObj s) tr).
Proof. unfold Working, Stored, Local. simpl. by intros H ->. Qed.

Lemma Synced_view b f e P s w tr :
  Synced b f e P s → view w = view (world s) → Synced b f e P (mkSt w (machineObj s) tr).
Proof. unfold Synced, Stored, Local. simpl. by intros H ->. Qed.

(** Nothing an assertion speaks about has changed. *)
Definition unchanged s s' : Prop :=
  machineObj s' = machineObj s ∧ view (world s') = view (world s).

Lemma unchanged_refl s : unchanged s s.
Proof. done. Qed.

Lemma unchanged_trans s1 s2 s3 : unchanged s1 s2 → unchanged s2 s3 → unchanged s1 s3.
Proof. intros [H1 H2] [H3 H4]. split; congruence. Qed.

Lemma Working_unchanged b f e s s' : Working b f e s → unchanged s s' → Working b f e s'.
Proof. unfold Working, Stored, Local. by intros H [-> ->]. Qed.

Lemma Synced_unchanged b f e P s s' : Synced b f e P s → unchanged s s' → Synced b f e P s'.
Proof. unfold Synced, Stored, Local. by intros H [-> ->]. Qed.

(** The environment changes, the objects stay. *)
Lemma Synced_env b f e P s g w tr :
  Synced b f e P s → view w = in_env g (view (world s)) →
  Synced b f (g e) P (mkSt w (machineObj s) tr).
Proof. unfold Synced, Stored, Local. simpl. intros (Hl & Hs & <-) ->. done. Qed.

Lemma Working_env b f e s g w tr :
  Working b f e s → view w = in_env g (view (world s)) →
  Working b f (g e) (mkSt w (machineObj s) tr).
Proof. unfold Working, Stored, Local. simpl. intros (Hl & Hs & <-) ->. done. Qed.

(** A call whose effect on the view is known. *)
Lemma runs_call {X} (c : Call X) Q s :
  (∀ tr, Q (serve c (world s)).1 (mkSt (serve c (world s)).2 (machineObj s) tr)) →
  runs (call c) Q s.
Proof. intros H. apply wp_call. intros x w Hx. rewrite Hx in H. split; [done|apply H]. Qed.

Lemma runs_answer {X} (c : Call X) (x : X) Q s :
  (serve c (world s)).1 = x ∧ view (serve c (world s)).2 = view (world s) →
  (∀ w tr, view w = view (world s) → Q x (mkSt w (machineObj s) tr)) →
  runs (call c) Q s.
Proof. intros [<- Hv] H. apply runs_call. intros tr. by apply H. Qed.

Lemma runs_machine b f e s Q :
  Working b f e s →
  (∀ m, machineObj s = Some m → body m = b → cond_core (GetConditions m) →
        agree (states (GetConditions m)) f → Q m s) →
  runs the_machine Q s.
Proof.
  intros ((m & Hm & Hb & Hc & Hf & _) & _) HQ. apply wp_the_machine; [|by rewrite Hm].
  intros m' Hm'. simplify_eq. by apply HQ.
Qed.

Lemma Working_current b f e s m :
  Working b f e s → machineObj s = Some m → current m (view (world s)).
Proof. intros ((m' & Hm' & _ & _ & _ & Hcur) & _) Hm. by simplify_eq. Qed.

(** What is stored is current, under its own version and any other status. *)
Lemma current_stored m m0 v :
  v_objects v !! key_pair (machine_key m) = Some m0 → version m = version m0 → current m v.
Proof. intros Hm0 Hv m1 Hm1. by simplify_eq. Qed.

Lemma current_Meta m m' v : Meta m' = Meta m → current m v → current m' v.
Proof. unfold current, version, machine_key. by intros ->. Qed.

(** ** Marks *)

Lemma Working_Set b f e s t m c0 tr :
  Working b f e s → machineObj s = Some m → c_Type c0 ∈ known_types → op_condition c0 →
  Working b (set_state f (c_Type c0) (c_Status c0, c_Reason c0)) e
    (mkSt (world s) (Some (Set_ t m (Some c0))) tr).
Proof.
  intros ((m' & Hm' & Hb & Hc & Hf & Hcur) & Hs & He) Hm Ht Hop.
  rewrite Hm in Hm'. injection Hm' as <-. split_and!; [|done|done].
  exists (Set_ t m (Some c0)). split_and!; [done|done|by apply cond_core_set| |].
  - intros t' Ht'. rewrite states_Set by apply Hc. by apply set_state_proper.
  - eapply current_Meta, Hcur. by destruct (Set_meta t m (Some c0)) as (_ & -> & _).
Qed.

Lemma runs_mark b f e s c0 :
  Working b f e s → c_Type c0 ∈ known_types → op_condition c0 →
  runs (n ← now; m ← the_machine; put_machine (Set_ n m (Some c0)))
    (λ _ s', Working b (set_state f (c_Type c0) (c_Status c0, c_Reason c0)) e s') s.
Proof.
  intros HW Ht Hop. apply wp_bind, wp_now. intros t _. apply wp_bind.
  eapply runs_machine; [done|]. intros m Hm Hb Hc Hf. apply wp_put_machine.
  by apply Working_Set.
Qed.

Lemma runs_mark_true b f e s t :
  Working b f e s → t ∈ known_types →
  runs (mark_true t) (λ _ s', Working b (set_state f t true_state) e s') s.
Proof. intros HW Ht. by apply (runs_mark b f e s (TrueCondition t) HW Ht), TrueCondition_op. Qed.

Lemma runs_mark_false b f e s t reason msg :
  Working b f e s → t ∈ known_types →
  runs (mark_false t reason ConditionSeverityError msg)
    (λ _ s', Working b (set_state f t (false_state reason)) e s') s.
Proof.
  intros HW Ht.
  by apply (runs_mark b f e s (FalseCondition t reason ConditionSeverityError msg) HW Ht),
    FalseCondition_op.
Qed.

(** ** Status updates *)

(** Not about to disappear. *)
Definition alive b : Prop := body_deleting b = false ∨ b_Finalizers b ≠ [].

Lemma store_object_others m v k m0 :
  holds v k m0 → machine_key m = k → delete (key_pair k) (v_objects (store_object m v)) = others.
Proof.
  intros [_ Ho] <-. unfold store_object. simpl. case_match; [by rewrite delete_delete_eq|].
  by rewrite delete_insert_eq.
Qed.

Lemma store_object_alive m v b m0 :
  holds v (b_key b) m0 → body m = b → alive b →
  holds (store_object m v) (b_key b) m ∧ v_env (store_object m v) = v_env v.
Proof.
  intros Hh Hb Ha. split; [|done]. split; [|by eapply store_object_others; [|rewrite <- Hb]].
  unfold store_object. simpl. rewrite (deleting_body m b Hb).
  rewrite <- Hb in *. simpl in *. destruct Ha as [->|Hf]; simpl; [apply lookup_insert_eq|].
  rewrite (bool_decide_false _ Hf), andb_false_r. apply lookup_insert_eq.
Qed.

Lemma summarised_updated t m b f :
  body m = b → cond_core (GetConditions m) → agree (states (GetConditions m)) f →
  updated b f (GetPhase (summarise t m)).
Proof.
  intros Hb Hc Hf. split; [apply GetPhase_nonempty|]. intros Hd Hr.
  rewrite summarise_phase_of, Hf; [done|done|by rewrite (deleting_body m b)|by rewrite Hf].
Qed.

Lemma runs_update b f e s :
  Working b f e s → alive b →
  runs (updateMachineStatus (b_key b))
    (λ r s', r = inl tt ∧ Synced b f e (updated b f) s') s.
Proof.
  intros HW Ha. pose proof HW as (_ & (g & P & m0 & Hm0 & Hb0 & _) & He).
  unfold updateMachineStatus. apply wp_tryE.
  eapply runs_answer; [by apply (coop_get (b_key b) m0), Hm0|]. intros w tr Hv.
  apply (Working_view _ _ _ _ w tr) in HW; [|done].
  apply wp_bind, wp_now. intros t _. apply wp_bind. eapply runs_machine; [exact HW|].
  intros m Hm Hb Hc Hf. simpl in Hm. apply wp_bind, wp_put_machine.
  set (m2 := set_Phase _ _). change (SetSummary t m [WithConditions ConditionsOrder]) with (summarise t m) in m2.
  pose proof (summarised_updated t m b f Hb Hc Hf) as Hp.
  assert (body m2 = b) as Hb2.
  { rewrite <- Hb. unfold m2, body, machine_key. simpl. unfold summarise, SetSummary.
    by destruct (Set_meta t m (summary m [WithConditions ConditionsOrder])) as (_ & -> & -> & _). }
  assert (current m2 (view w)) as Hcur.
  { eapply current_Meta, (Working_current _ _ _ _ _ HW Hm). unfold m2, summarise, SetSummary. simpl.
    by destruct (Set_meta t m (summary m [WithConditions ConditionsOrder])) as (_ & -> & _). }
  assert (cond_core (GetConditions m2)) as Hc2 by (by apply cond_core_summarise).
  assert (agree (states (GetConditions m2)) f) as Hf2 by (etrans; [by apply states_summarise|done]).
  assert (∀ m', Status m' = Status m2 → cond_core (GetConditions m') ∧
    agree (states (GetConditions m')) f ∧ updated b f (Phase (Status m'))) as Hst.
  { intros m' Hm'. unfold GetConditions, Machine_Getter, Machine_GetConditions in *.
    by rewrite Hm'. }
  unfold committer. case_decide as Heq.
  - apply wp_ok. split; [done|]. split_and!; [by exists m2| |].
    + exists m0. simpl. rewrite Hv. by split_and!; [done|done|apply Hst..].
    + simpl. by rewrite Hv.
  - apply wp_tryE, runs_call. intros tr'. simpl.
    assert (key_pair (machine_key m0) = key_pair (b_key b)) as Hk by (by rewrite <- Hb0).
    assert (version m2 = version m0) as Hver.
    { apply Hcur. assert (machine_key m2 = b_key b) as -> by (by rewrite <- Hb2). rewrite Hv. apply Hm0. }
    destruct (coop_status m0 m2 w) as (m3 & Hans3 & Hb3 & Hs3 & Hv3); [rewrite Hv, Hk; apply Hm0|done|].
    rewrite Hans3. apply wp_bind, wp_put_machine, wp_ok. rewrite Hb0 in Hb3.
    rewrite <- Hv in Hm0. destruct (store_object_alive m3 (view w) b m0 Hm0 Hb3 Ha) as [Hl Hen].
    split; [done|]. destruct (Hst m3 Hs3) as (? & ? & ?). split_and!.
    + exists m3. split_and!; [done..|]. simpl. rewrite Hv3. eapply current_stored; [|done].
      assert (machine_key m3 = b_key b) as -> by (by rewrite <- Hb3). apply Hl.
    + exists m3. simpl. by rewrite Hv3.
    + simpl. by rewrite Hv3, Hen, Hv.
Qed.

Lemma runs_update_own b f e s :
  Working b f e s → alive b →
  runs update_own_status (λ r s', r = inl tt ∧ Synced b f e (updated b f) s') s.
Proof.
  intros HW Ha. unfold update_own_status. apply wp_bind. eapply runs_machine; [done|].
  intros m _ Hb _ _. assert (machine_key m = b_key b) as -> by (by rewrite <- Hb).
  by apply runs_update.
Qed.

(** ** Patches *)

(** [CreateOrPatch] with a transformation that acts as [trb] on bodies. *)
Lemma runs_CreateOrPatch (tr : Machine → Machine) (trb : Body → Body) b f e P s :
  (∀ m, body (tr m) = trb (body m) ∧ version (tr m) = version m) → b_key (trb b) = b_key b →
  Synced b f e P s →
  runs (CreateOrPatch tr)
    (λ r s', r = inl tt ∧ ∃ m, machineObj s' = Some m ∧ body m = trb b ∧
       cond_core (GetConditions m) ∧ agree (states (GetConditions m)) f ∧ P (Phase (Status m)) ∧
       view (world s') = store_object m (view (world s))) s.
Proof.
  intros Htr Hkey HS. pose proof HS as (_ & (m0 & Hm0 & Hb0 & Hc0 & Hf0 & HP) & _).
  unfold CreateOrPatch. apply wp_bind. eapply runs_machine; [by eapply Synced_Working|].
  intros m Hm Hb _ _. destruct (coop_gvk m (world s)) as [[grp Hg] Hvg].
  apply wp_bind. eapply runs_answer; [by split|]. intros w tr1 Hw1. simpl.
  assert (machine_key m = b_key b) as -> by (by rewrite <- Hb).
  apply wp_bind. eapply runs_answer; [apply (coop_get (b_key b) m0); simpl; rewrite Hw1; apply Hm0|].
  intros w2 tr2 Hw2. simpl in *. apply wp_tryE, runs_call. intros tr3. simpl.
  set (kind := if isOfficialTypes grp then _ else _).
  assert (machine_key m0 = b_key b) as Hk0 by (by rewrite <- Hb0).
  assert (machine_key (tr m0) = machine_key m0) as Hk1.
  { change (b_key (body (tr m0)) = machine_key m0). by rewrite (proj1 (Htr m0)), Hb0, Hkey. }
  destruct (coop_patch kind m0 (tr m0) w2) as (m1 & Hans & Hb1 & Hs1 & Hv1);
    [rewrite Hw2, Hw1, Hk0; apply Hm0|done|apply Htr|].
  rewrite Hans. apply wp_bind, wp_put_machine, wp_ok. split; [done|].
  exists m1. unfold GetConditions, Machine_Getter, Machine_GetConditions in *. rewrite Hs1. simpl.
  by rewrite Hb1, (proj1 (Htr m0)), Hb0, Hv1, Hw2, Hw1.
Qed.

Lemma runs_patch (tr : Machine → Machine) (trb : Body → Body) b f e P s :
  (∀ m, body (tr m) = trb (body m) ∧ version (tr m) = version m) → b_key (trb b) = b_key b → alive (trb b) →
  Synced b f e P s →
  runs (CreateOrPatch tr) (λ r s', r = inl tt ∧ Synced (trb b) f e P s') s.
Proof.
  intros Htr Hkey Ha HS. eapply wp_mono; [by eapply runs_CreateOrPatch|].
  intros r s' (-> & m & Hm & Hb & Hc & Hf & HP & Hv). split; [done|].
  destruct HS as (_ & (m0 & Hm0 & _) & He). rewrite <- Hkey in Hm0.
  destruct (store_object_alive m (view (world s)) (trb b) m0 Hm0 Hb Ha) as [Hl Hen]. split_and!.
  - exists m. split_and!; [done..|]. rewrite Hv. eapply current_stored; [|done].
    assert (machine_key m = b_key (trb b)) as -> by (by rewrite <- Hb). apply Hl.
  - exists m. by rewrite Hv.
  - by rewrite Hv, Hen.
Qed.

Definition b_annotate (key value : string) b : Body :=
  mkBody (b_key b) (b_Spec b) (Some (<[key := value]> (default ∅ (b_Annotations b))))
    (b_Finalizers b) (b_DeletionTimestamp b).

Lemma runs_patchAnnotation key value b f e P s :
  Synced b f e P s → alive b →
  runs (patchAnnotation key value) (λ r s', r = inl tt ∧ Synced (b_annotate key value b) f e P s') s.
Proof. intros HS Ha. by eapply (runs_patch _ (b_annotate key value)). Qed.

Definition b_add_finalizer (fin : string) b : Body :=
  mkBody (b_key b) (b_Spec b) (b_Annotations b)
    (if decide (fin ∈ b_Finalizers b) then b_Finalizers b else b_Finalizers b ++ [fin])
    (b_DeletionTimestamp b).

Lemma runs_ensureFinalizer b f e P s :
  Synced b f e P s → body_deleting b = false →
  runs ensureFinalizer
    (λ r s', r = inl tt ∧ Synced (b_add_finalizer GetFinalizer b) f e P s') s.
Proof.
  intros HS Hd. unfold ensureFinalizer. apply wp_bind.
  eapply runs_machine; [by eapply Synced_Working|]. intros m Hm Hb _ _.
  assert (ContainsFinalizer m GetFinalizer = true ↔ GetFinalizer ∈ b_Finalizers b) as Hcf
    by (by rewrite ContainsFinalizer_spec, <- Hb).
  destruct (ContainsFinalizer m GetFinalizer).
  - apply wp_ok. split; [done|]. unfold b_add_finalizer. rewrite decide_True by by apply Hcf.
    by destruct b.
  - apply (runs_patch _ (b_add_finalizer GetFinalizer)); [|done|by left|done].
    intros m'. unfold finalizer_transform, b_add_finalizer, AddFinalizer. simpl.
    case_match eqn:Hf; unfold body; simpl.
    + rewrite decide_True by (by apply existsb_finalizer). by destruct m' as [? [] ? ?].
    + rewrite decide_False by (by rewrite <- existsb_finalizer, Hf). done.
Qed.
End Assertions.
