(* ===== verification/Provision.v ===== *)
(** * Preparing the AWS environment of a machine

    With EC2 cooperating, [createAWSEnvironment] succeeds, and afterwards the
    stored object records a VPC, a subnet and a gateway. *)

From S2P Require Import Prelude GoLib Types Conditions Summary StatusSpec StatusInv States Effects Kube Aws Azure Cleanup Cluster MachineOps Reconcile Logic Waiting NoPanic Cooperation.

(** EC2 does what it is asked; a new VPC is available after at most twelve
    descriptions that say otherwise. *)
Class Ec2Cooperating (World : Type) `{CO : Cooperating World} := {
  ec2_session : ∀ c w,
    (serve (AwsNewSession c) w).1 = inl tt ∧ view (serve (AwsNewSession c) w).2 = view w;
  ec2_sleep : ∀ d w, view (serve (Sleep d) w).2 = view w;
  ec2_vpc : ∀ c cidr w, ∃ vpc id n,
    (serve (CreateVpc c cidr) w).1 = inl (Some vpc) ∧ vpc_VpcId vpc = Some id ∧ id ≠ "" ∧
    (n ≤ 12)%nat ∧ view (serve (CreateVpc c cidr) w).2 = in_env (set_vpc id n) (view w);
  ec2_describe : ∀ c id n w,
    e_vpcs (v_env (view w)) !! id = Some n →
    ∃ v st, (serve (DescribeVpcs c [id]) w).1 = inl [Some v] ∧ vpc_VpcId v = Some id ∧
      vpc_State v = Some st ∧ (n = O → st = "available") ∧
      view (serve (DescribeVpcs c [id]) w).2 = in_env (set_vpc id (pred n)) (view w);
  ec2_subnet : ∀ c cidr vpc zone w,
    is_Some (e_vpcs (v_env (view w)) !! vpc) →
    ∃ sn id, (serve (CreateSubnet c cidr vpc zone) w).1 = inl (Some sn) ∧
      sn_SubnetId sn = Some id ∧ id ≠ "" ∧
      view (serve (CreateSubnet c cidr vpc zone) w).2 = view w;
  ec2_gateway : ∀ c w, ∃ gw id,
    (serve (CreateInternetGateway c) w).1 = inl (Some gw) ∧
    igw_InternetGatewayId gw = Some id ∧ id ≠ "" ∧
    view (serve (CreateInternetGateway c) w).2 = view w;
  ec2_attach : ∀ c gw vpc w,
    is_Some (e_vpcs (v_env (view w)) !! vpc) →
    (serve (AttachInternetGateway c gw vpc) w).1 = inl tt ∧
    view (serve (AttachInternetGateway c gw vpc) w).2 = view w;
  ec2_tables : ∀ c w, ∃ l,
    (serve (DescribeRouteTables c) w).1 = inl l ∧
    filled (λ rt, is_Some (rt_VpcId rt)) l ∧
    (∀ id, is_Some (e_vpcs (v_env (view w)) !! id) →
       ∃ rt, Some rt ∈ l ∧ rt_VpcId rt = Some id) ∧
    view (serve (DescribeRouteTables c) w).2 = view w;
  ec2_route : ∀ c cidr gw rt w,
    (serve (CreateRoute c cidr gw rt) w).1 = inl tt ∧
    view (serve (CreateRoute c cidr gw rt) w).2 = view w;
  ec2_delete_route : ∀ c cidr rt w, view (serve (DeleteRoute c cidr rt) w).2 = view w;
  ec2_detach : ∀ c gw vpc w, view (serve (DetachInternetGateway c gw vpc) w).2 = view w;
  ec2_delete_gateway : ∀ c gw w, view (serve (DeleteInternetGateway c gw) w).2 = view w;
  ec2_delete_subnet : ∀ c sn w, view (serve (DeleteSubnet c sn) w).2 = view w;
  ec2_groups : ∀ c vpc w, ∃ l,
    (serve (DescribeSecurityGroups c vpc) w).1 = inl l ∧
    filled (λ sg, is_Some (sg_GroupId sg)) l ∧
    view (serve (DescribeSecurityGroups c vpc) w).2 = view w;
  ec2_delete_group : ∀ c g w, view (serve (DeleteSecurityGroup c g) w).2 = view w;
  ec2_delete_vpc : ∀ c id w,
    ignore_missing (serve (DeleteVpc c id) w).1 = inl tt ∧
    ∃ vs, view (serve (DeleteVpc c id) w).2 = in_env (set_vpcs vs) (view w)
}.

(** ** Bodies *)

Definition b_annotation (b : Body) (k : string) : string :=
  match b_Annotations b with Some a => map_index a k | None => "" end.

Lemma body_annotation m b k : body m = b → annotation m k = b_annotation b k.
Proof. by intros <-. Qed.

Lemma b_annotation_annotate k v b k' :
  b_annotation (b_annotate k v b) k' = if decide (k' = k) then v else b_annotation b k'.
Proof.
  unfold b_annotation, map_index. simpl. case_decide as Hk.
  - subst. by rewrite lookup_insert_eq.
  - rewrite lookup_insert_ne by done. by destruct (b_Annotations b); simpl; rewrite ?lookup_empty.
Qed.

(** Same object up to annotations, same environment up to VPCs. *)
Definition same_object (b b' : Body) : Prop :=
  b_key b' = b_key b ∧ b_Spec b' = b_Spec b ∧ b_Finalizers b' = b_Finalizers b ∧
  b_DeletionTimestamp b' = b_DeletionTimestamp b.

Definition same_env (e e' : Environment) : Prop :=
  e_secrets e' = e_secrets e ∧ e_attempts e' = e_attempts e.

(** What the credentials need: keys in the auth secret and a region. *)
Definition aws_ready (b : Body) (e : Environment) : Prop :=
  ∃ ref sec, AuthSecret (b_Spec b) = Some ref ∧
    e_secrets e !! key_pair (ref_ObjectKey ref) = Some sec ∧
    map_index (Data sec) awsAccessKeyField ≠ "" ∧ map_index (Data sec) awsSecretKeyField ≠ "" ∧
    map_index (Parameters (b_Spec b)) awsRegionField ≠ "".

(** The recorded VPC is there. *)
Definition vpc_there (b : Body) (e : Environment) : Prop :=
  ∃ n, e_vpcs e !! b_annotation b awsVPCIDAnnotation = Some n ∧ (n ≤ 12)%nat.

(** The three annotations are there. *)
Definition environment_recorded (b : Body) : Prop :=
  b_annotation b awsVPCIDAnnotation ≠ "" ∧ b_annotation b awsSubnetIDAnnotation ≠ "" ∧
  b_annotation b awsInternetGatewayIDAnnotation ≠ "".

Section Provision.
Context {World : Type} `{EC : Ec2Cooperating World} `{OT : Others}.
Implicit Types (s : St World) (b : Body) (f : States) (e : Environment) (P : string → Prop).

Lemma runs_driverName b f e s d :
  Working b f e s → Driver (b_Spec b) = Some d →
  runs driverName (λ x s', x = lor_Name d ∧ s' = s) s.
Proof.
  intros HW Hd. unfold driverName. apply wp_bind. eapply runs_machine; [done|].
  intros m Hm Hb _ _. assert (Driver (Spec m) = Some d) as -> by (by rewrite <- Hb in Hd).
  by apply wp_bind, wp_ret, wp_ret.
Qed.

(** ** Credentials *)

Lemma runs_getSecret s ref sec :
  e_secrets (v_env (view (world s))) !! key_pair (ref_ObjectKey ref) = Some sec →
  runs (getSecret (Some ref)) (λ r s', r = inl sec ∧ unchanged s s') s.
Proof.
  intros Hs. unfold getSecret. apply wp_bind, wp_ret.
  eapply runs_answer; [by apply coop_secret|]. intros w tr Hw. by split; [|split].
Qed.

Lemma runs_awsEC2Client b f e s :
  Working b f e s → aws_ready b e →
  runs awsEC2Client (λ r s', (∃ c, r = inl c) ∧ unchanged s s') s.
Proof.
  intros HW (ref & sec & Hr & Hsec & Hak & Hsk & Hrg).
  unfold awsEC2Client, newAWSClientSession, getAWSCredentials. apply wp_tryE, wp_bind.
  eapply runs_machine; [done|]. intros m _ Hb _ _.
  assert (Spec m = b_Spec b) as Hspec by (by rewrite <- Hb). rewrite Hspec, Hr. apply wp_tryE.
  eapply wp_mono; [apply (runs_getSecret s ref sec)|].
  { by destruct HW as (_ & _ & ->). }
  intros r s1 [-> Hu]. simpl. unfold str_empty.
  rewrite (bool_decide_false _ Hak), (bool_decide_false _ Hsk), (bool_decide_false _ Hrg). simpl.
  apply wp_ret, wp_tryE. eapply runs_answer; [apply ec2_session|]. intros w tr Hw.
  apply wp_ret. split; [by eexists|]. eapply unchanged_trans; [done|by split].
Qed.

(** ** The VPC *)

Lemma find_vpc_first id v s :
  vpc_VpcId v = Some id → find_vpc (World:=World) id [Some v] s = (Normal (inl v), s).
Proof.
  intros Hid. unfold find_vpc, mbind, M_bind. simpl. rewrite Hid. simpl. by rewrite decide_True.
Qed.

Lemma runs_getVPC c b f e P s id n :
  Synced b f e P s → e_vpcs e !! id = Some n →
  runs (getVPC c (Some id)) (λ r s', ∃ v st e', r = inl v ∧ vpc_VpcId v = Some id ∧
    vpc_State v = Some st ∧ (n = O → st = "available") ∧ Synced b f e' P s' ∧ same_env e e' ∧
    e_vpcs e' !! id = Some (pred n)) s.
Proof.
  intros HS Hid. pose proof HS as (_ & _ & He). unfold getVPC. apply wp_bind, wp_ret, wp_tryE.
  apply runs_call. intros tr.
  destruct (ec2_describe c id n (world s)) as (v & st & Hans & Hv & Hst & Hav & Hview);
    [by rewrite He|].
  rewrite Hans. eapply wp_ext; [by apply find_vpc_first|]. apply wp_ret.
  exists v, st, (set_vpc id (pred n) e).
  split_and!; [done..|by apply (Synced_env _ _ _ _ s)|done|].
  simpl. by rewrite lookup_insert_eq.
Qed.

(** The machine's VPC is available after [n] more polls. *)
Lemma runs_poll_vpc c id b f P k : ∀ n e s,
  (n < k)%nat → Synced b f e P s → e_vpcs e !! id = Some n →
  runs (poll k (5 * Second) (vpc_available c (Some id))) (λ r s', ∃ e' n',
    r = inl tt ∧ Synced b f e' P s' ∧ same_env e e' ∧ e_vpcs e' !! id = Some n' ∧ (n' ≤ n)%nat) s.
Proof.
  induction k as [|k IH]; intros n e s Hn HS Hid; [lia|]. cbn [poll]. unfold vpc_available at 1.
  apply wp_bind, wp_tryE. eapply wp_mono; [by eapply runs_getVPC|].
  intros r s1 (v & st & e1 & -> & Hv & Hst & Hav & HS1 & He1 & Hid1). rewrite Hst.
  apply wp_bind, wp_ret, wp_ret. case_bool_decide as Hst'.
  - apply wp_ok. exists e1, (pred n). split_and!; [done..|lia].
  - destruct n as [|n]; [by destruct Hst'; apply Hav|]. apply wp_bind.
    eapply runs_answer; [split; [done|apply ec2_sleep]|]. intros w tr Hw.
    eapply wp_mono; [eapply (IH n e1); [lia|by apply Synced_view|done]|].
    intros r s2 (e2 & n2 & -> & HS2 & [He2 He2'] & Hid2 & Hn2). exists e2, n2.
    destruct He1. split_and!; [done|done|split; congruence|done|lia].
Qed.

Lemma runs_wait_vpc c id b f P n e s :
  (n ≤ 12)%nat → Synced b f e P s → e_vpcs e !! id = Some n →
  runs (waitForState (5 * Second) (1 * Minute) (vpc_available c (Some id))) (λ r s', ∃ e' n',
    r = inl tt ∧ Synced b f e' P s' ∧ same_env e e' ∧ e_vpcs e' !! id = Some n' ∧ (n' ≤ 12)%nat) s.
Proof.
  intros Hn HS Hid. eapply wp_ext; [by apply waitForState_poll; vm_compute|].
  change (Z.to_nat (1 * Minute / (5 * Second) + 1)) with 13%nat.
  eapply wp_mono; [eapply (runs_poll_vpc c id b f P 13 n e s); [lia|done|done]|].
  intros r s' (e' & n' & ? & ? & ? & ? & ?). exists e', n'. split_and!; [done..|lia].
Qed.

Lemma runs_obtain_vpc c b f e P s :
  Synced b f e P s → alive b →
  (b_annotation b awsVPCIDAnnotation = "" ∨ vpc_there b e) →
  runs (obtain_vpc c) (λ r s', ∃ v b' e', r = inl v ∧
    vpc_VpcId v = Some (b_annotation b' awsVPCIDAnnotation) ∧
    b_annotation b' awsVPCIDAnnotation ≠ "" ∧
    (∀ k, k ≠ awsVPCIDAnnotation → b_annotation b' k = b_annotation b k) ∧
    same_object b b' ∧ same_env e e' ∧ vpc_there b' e' ∧ Synced b' f e' P s') s.
Proof.
  intros HS Ha Hvpc. unfold obtain_vpc. apply wp_bind.
  eapply runs_machine; [by eapply Synced_Working|]. intros m Hm Hb _ _.
  rewrite (body_annotation m b) by done. case_decide as Hempty.
  - apply wp_tryE, runs_call. intros tr.
    destruct (ec2_vpc c awsVpcCIDR (world s)) as (v & id & n & -> & Hid & Hne & Hn & Hview).
    set (w := (serve (CreateVpc c awsVpcCIDR) (world s)).2) in *.
    assert (Synced b f (set_vpc id n e) P (mkSt w (machineObj s) tr)) as HS1
      by (by apply (Synced_env _ _ _ _ s)).
    apply wp_bind, wp_ret. rewrite Hid. apply wp_bind, wp_ret, wp_tryE.
    eapply wp_mono; [by apply (runs_patchAnnotation awsVPCIDAnnotation id)|]. intros r s2 [-> HS2].
    apply wp_bind. eapply wp_mono; [eapply (runs_wait_vpc c id _ _ _ n); [done|exact HS2|]|].
    { simpl. by rewrite lookup_insert_eq. }
    intros r s3 (e3 & n3 & -> & HS3 & [He3 He3'] & Hv3 & Hn3). apply wp_ret.
    exists v, (b_annotate awsVPCIDAnnotation id b), e3. unfold vpc_there.
    rewrite !b_annotation_annotate, decide_True by done.
    split_and!; [done|done|done| |done|done| |done].
    + intros k Hk. by rewrite b_annotation_annotate, decide_False.
    + by exists n3.
  - destruct Hvpc as [?|(n & Hn & Hle)]; [done|].
    eapply wp_mono; [by eapply runs_getVPC|].
    intros r s' (v & st & e' & -> & Hv & _ & _ & HS' & He' & Hv'). exists v, b, e'.
    split_and!; [done..| |done]. exists (pred n). split; [done|lia].
Qed.

(** ** Gateway and subnet *)

Lemma last_route_table_acc id l : ∀ acc s,
  filled (λ rt, is_Some (rt_VpcId rt)) l →
  ∃ r, last_route_table (World:=World) id l acc s = (Normal r, s) ∧
    (is_Some acc ∨ (∃ rt, Some rt ∈ l ∧ rt_VpcId rt = Some id) → is_Some r).
Proof.
  induction l as [|p l IH]; intros acc s Hf.
  { exists acc. split; [done|]. intros [?|(rt & Hrt & _)]; [done|]. by apply elem_of_nil in Hrt. }
  apply Forall_cons in Hf as [(rt & -> & [i Hi]) Hf]. simpl. unfold mbind, M_bind at 1. simpl.
  unfold M_bind. rewrite Hi. simpl.
  destruct (IH (if decide (i = id) then Some rt else acc) s Hf) as (r & -> & Hr).
  exists r. split; [done|]. intros Hor. apply Hr. destruct Hor as [Ha|(rt' & Hin & Hrt')].
  - left. by case_decide.
  - apply elem_of_cons in Hin as [[= ->]|Hin]; [|right; by exists rt'].
    left. rewrite Hi in Hrt'. injection Hrt' as ->. by rewrite decide_True.
Qed.

Lemma runs_createAwsRoute c id gw s :
  is_Some (e_vpcs (v_env (view (world s))) !! id) →
  runs (createAwsRoute c id gw) (λ r s', r = inl tt ∧ unchanged s s') s.
Proof.
  intros Hid. unfold createAwsRoute. apply wp_tryE.
  destruct (ec2_tables c (world s)) as (l & Hans & Hf & Hin & Hv).
  eapply runs_answer; [by split|]. intros w tr Hw.
  destruct (last_route_table_acc id l None (mkSt w (machineObj s) tr) Hf) as (r & Hr & Hsome).
  destruct Hsome as [rt ->]; [right; by apply Hin|].
  apply wp_bind. eapply wp_ext; [exact Hr|]. apply wp_ret, wp_tryE.
  eapply runs_answer; [apply ec2_route|]. intros w' tr' Hw'. apply wp_ok.
  split; [done|]. split; [done|]. simpl in *. congruence.
Qed.

Lemma runs_createAwsInternetGateway c b f e P s id :
  Synced b f e P s → alive b → is_Some (e_vpcs e !! id) →
  runs (createAwsInternetGateway c id) (λ r s', ∃ gw, r = inl tt ∧ gw ≠ "" ∧
    Synced (b_annotate awsInternetGatewayIDAnnotation gw b) f e P s') s.
Proof.
  intros HS Ha Hid. pose proof HS as (_ & _ & He). unfold createAwsInternetGateway. apply wp_tryE.
  destruct (ec2_gateway c (world s)) as (igw & gw & Hans & Hgw & Hne & Hv).
  eapply runs_answer; [by split|]. intros w tr Hw. apply wp_bind, wp_ret. rewrite Hgw.
  apply wp_bind, wp_ret, wp_bind. unfold attachInternetGatewayToVPC.
  eapply runs_answer; [by apply ec2_attach; simpl; rewrite Hw, He|]. intros w1 tr1 Hw1. simpl in Hw1.
  apply wp_bind. eapply wp_mono; [apply runs_createAwsRoute; simpl; by rewrite Hw1, Hw, He|].
  intros r s2 [-> Hu]. eapply wp_mono.
  - apply (runs_patchAnnotation awsInternetGatewayIDAnnotation gw b f e P); [|done].
    eapply Synced_unchanged; [|exact Hu]. apply (Synced_view b f e P s); [done|]. congruence.
  - intros r s3 [-> HS3]. by exists gw.
Qed.

Lemma runs_createAwsSubnet c b f e P s id :
  Synced b f e P s → alive b → is_Some (e_vpcs e !! id) →
  map_index (Parameters (b_Spec b)) awsRegionField ≠ "" →
  runs (createAwsSubnet c id) (λ r s', ∃ gw sn, r = inl tt ∧ gw ≠ "" ∧ sn ≠ "" ∧
    Synced (b_annotate awsSubnetIDAnnotation sn
              (b_annotate awsInternetGatewayIDAnnotation gw b)) f e P s') s.
Proof.
  intros HS Ha Hid Hrg. pose proof HS as (_ & _ & He). unfold createAwsSubnet. apply wp_bind.
  eapply runs_machine; [by eapply Synced_Working|]. intros m _ Hb _ _.
  assert (Spec m = b_Spec b) as -> by (by rewrite <- Hb). rewrite decide_False by done.
  apply wp_tryE.
  destruct (ec2_subnet c awsVpcCIDR id
    (map_index (Parameters (b_Spec b)) regionParameter +:+ defaultZone) (world s))
    as (sn & sid & Hans & Hsid & Hne & Hv); [by rewrite He|].
  eapply runs_answer; [by split|]. intros w tr Hw. apply wp_bind.
  eapply wp_mono; [by eapply runs_createAwsInternetGateway; [by apply Synced_view|..]|].
  intros r s1 (gw & -> & Hgw & HS1). apply wp_bind, wp_ret. rewrite Hsid. apply wp_bind, wp_ret.
  eapply wp_mono; [by apply (runs_patchAnnotation awsSubnetIDAnnotation sid)|].
  intros r s2 [-> HS2]. by exists gw, sid.
Qed.

(** ** The environment *)

Lemma same_object_alive b b' : same_object b b' → alive b → alive b'.
Proof. unfold alive, body_deleting. by intros (_ & _ & -> & ->). Qed.

(** The preparation can go ahead: nothing is recorded yet, or a VPC that is
    there, or everything. *)
Definition aws_preparable b e : Prop :=
  environment_recorded b ∨
  (aws_ready b e ∧ b_annotation b awsSubnetIDAnnotation = "" ∧
   (b_annotation b awsVPCIDAnnotation = "" ∨ vpc_there b e)).

Lemma runs_createAWSEnvironment b f e P s :
  Synced b f e P s → alive b → aws_preparable b e →
  runs createAWSEnvironment (λ r s', ∃ b' e', r = inl tt ∧ same_object b b' ∧ same_env e e' ∧
    environment_recorded b' ∧ Synced b' f e' P s') s.
Proof.
  intros HS Ha Hprep. unfold createAWSEnvironment. apply wp_bind.
  eapply runs_machine; [by eapply Synced_Working|]. intros m _ Hb _ _.
  rewrite !(body_annotation m b) by done. case_decide as Hrec.
  { apply wp_ok. by exists b, e. }
  destruct Hprep as [?|(Hr & Hsub & Hvpc)]; [done|]. apply wp_tryE.
  eapply wp_mono; [eapply runs_awsEC2Client; [by eapply Synced_Working|done]|].
  intros r s1 [[c ->] Hu]. unfold createAwsVpc. apply wp_tryE.
  eapply wp_mono; [eapply runs_obtain_vpc; [by eapply Synced_unchanged|done|done]|].
  intros r s2 (v & b2 & e2 & -> & Hv & Hne & Hoth & Hsame & Hse & (n & Hvn & _) & HS2). apply wp_bind.
  eapply runs_machine; [by eapply Synced_Working|]. intros m2 _ Hb2 _ _.
  rewrite Hv. apply wp_bind, wp_ret. rewrite (body_annotation m2 b2) by done.
  rewrite decide_True by (by rewrite Hoth). apply wp_bind.
  eapply wp_mono; [eapply runs_createAwsSubnet; [done|by eapply same_object_alive|by eexists|]|].
  { destruct Hr as (? & ? & ? & ? & ? & ? & ?), Hsame as (_ & -> & _). done. }
  intros r s3 (gw & sn & -> & Hgw & Hsn & HS3). apply wp_ok. do 2 eexists.
  split_and!; [done| |exact Hse| |exact HS3]; [by destruct Hsame as (? & ? & ? & ?)|].
  unfold environment_recorded. by rewrite !b_annotation_annotate.
Qed.
End Provision.
