(* ===== verification/CommandLine.v ===== *)
(** * The command line of [docker-machine create]

    What the operator puts on the command line, flag by flag, and that the
    credentials on it are those of the secret. *)

From S2P Require Import Prelude GoLib Types Conditions ConditionsFacts Summary Effects Kube Aws MachineOps Reconcile Sim Logic Footprint Yields Deletion.

(** ** The expected pieces *)

(** A credential as the driver expects it: base64 for Google. *)
Definition auth_value (driver v : string) : string :=
  if decide (driver = GoogleDriver) then EncodeToString v else v.

Definition auth_flags (driver : string) (kvs : list (string * string)) : list string :=
  mjoin ((λ kv, flag_args (kv.1, auth_value driver kv.2)) <$> kvs).

Definition network_flags (driver : string) (m : Machine) : list string :=
  if decide (driver = AWSDriver) then
    (if decide (annotation m awsVPCIDAnnotation ≠ "")
     then ["--amazonec2-vpc-id"; annotation m awsVPCIDAnnotation] else []) ++
    (if decide (annotation m awsSubnetIDAnnotation ≠ "")
     then ["--amazonec2-subnet-id"; annotation m awsSubnetIDAnnotation] else [])
  else [].

Definition script_path (m : Machine) : string :=
  "/tmp/" +:+ Namespace (Meta m) +:+ "-" +:+ Name (Meta m) +:+ "-startup.sh".

(** A secret with a name and a value in every entry. *)
Definition complete_secret (secret : Secret) : Prop :=
  map_Forall (λ k v, k ≠ "" ∧ v ≠ "") (Data secret).

#[export] Instance complete_secret_dec secret : Decision (complete_secret secret).
Proof. unfold complete_secret. apply _. Defined.

(** Reading flags and their values back. *)
Fixpoint pair_up (args : list string) : list (string * string) :=
  match args with
  | k :: v :: rest => (k, v) :: pair_up rest
  | _ => []
  end.

Lemma auth_value_empty d v : str_empty (auth_value d v) = str_empty v.
Proof.
  unfold auth_value. case_decide; [|done]. unfold str_empty.
  apply bool_decide_ext. destruct v as [|a [|b [|c v]]]; simpl; naive_solver.
Qed.

Definition auth_missing : error := errorString "auth secret not found".

Section CommandLine.
Context {World : Type} `{SV : !Services World}.
Implicit Types s : St World.

Lemma auth_args_run kvs acc s m d :
  machineObj s = Some m → Driver (Spec m) = Some d →
  auth_args kvs acc s =
    (Normal (if decide (Forall (λ kv, kv.1 ≠ "" ∧ kv.2 ≠ "") kvs)
             then inl (acc ++ auth_flags (lor_Name d) kvs) else inr auth_missing), s).
Proof.
  intros Hm Hd. revert acc. induction kvs as [|[k v] kvs IH]; intros acc.
  { rewrite decide_True by constructor. by rewrite app_nil_r. }
  assert (driverName s = (Normal (lor_Name d), s)) as Hdr.
  { unfold driverName, mbind, M_bind, the_machine, deref. rewrite Hm. simpl. by rewrite Hd. }
  cbn [auth_args]. unfold mbind at 1, M_bind at 1. rewrite Hdr.
  fold (auth_value (lor_Name d) v).
  rewrite auth_value_empty. unfold str_empty.
  destruct (bool_decide_reflect (v = "")) as [Hv|Hv];
    destruct (bool_decide_reflect (k = "")) as [Hk|Hk]; cbn [orb];
    try (rewrite decide_False by (rewrite Forall_cons; naive_solver); done).
  rewrite IH. case_decide as Hall.
  - rewrite decide_True by (constructor; [done|exact Hall]). unfold auth_flags. csimpl.
    by rewrite <- app_assoc.
  - by rewrite decide_False by (rewrite Forall_cons; naive_solver).
Qed.

Lemma complete_secret_perm secret kvs :
  kvs ≡ₚ map_to_list (Data secret) →
  Forall (λ kv, kv.1 ≠ "" ∧ kv.2 ≠ "") kvs ↔ complete_secret secret.
Proof.
  intros Hp. rewrite Hp. unfold complete_secret. rewrite map_Forall_to_list.
  apply Forall_iff. by intros [k v].
Qed.

Lemma getAuthSecretArgs_run s m d ref secret w :
  machineObj s = Some m → Driver (Spec m) = Some d → AuthSecret (Spec m) = Some ref →
  serve (KGetSecret (ref_ObjectKey ref)) (world s) = (inl secret, w) →
  ∃ kvs, kvs ≡ₚ map_to_list (Data secret) ∧
    (getAuthSecretArgs s).1 =
      Normal (if decide (complete_secret secret) then inl (auth_flags (lor_Name d) kvs)
              else inr auth_missing).
Proof.
  intros Hm Hd Hr Hs. exists (range_order w (Data secret)).
  pose proof (range_order_perm w (Data secret)) as Hp. split; [done|].
  unfold getAuthSecretArgs, getSecret, tryE, mbind, M_bind, the_machine, deref, call, range.
  rewrite Hm. simpl. rewrite Hr. simpl. rewrite Hs. simpl.
  rewrite (auth_args_run _ _ _ m d) by done. simpl. f_equal.
  pose proof (complete_secret_perm _ _ Hp). by repeat case_decide; try tauto.
Qed.

(** The credentials on the command line.  When the auth secret is read, the
    arguments are exactly one flag with its value for every entry of the secret,
    in some order, base64-encoded for the Google driver; when an entry has an
    empty name or an empty value, the result is an error. *)
Lemma auth_arguments s m d ref secret w :
  machineObj s = Some m → Driver (Spec m) = Some d → AuthSecret (Spec m) = Some ref →
  serve (KGetSecret (ref_ObjectKey ref)) (world s) = (inl secret, w) →
  ∃ kvs, kvs ≡ₚ map_to_list (Data secret) ∧
    (getAuthSecretArgs s).1 =
      Normal (if decide (complete_secret secret) then inl (auth_flags (lor_Name d) kvs)
              else inr auth_missing).
Proof. apply getAuthSecretArgs_run. Qed.

Lemma pair_up_flags (f : string → string) kvs :
  pair_up (mjoin ((λ kv : string * string, flag_args (kv.1, f kv.2)) <$> kvs)) =
    (λ kv, ("--" +:+ kv.1, f kv.2)) <$> kvs.
Proof. induction kvs as [|kv kvs IH]; [done|]. csimpl. by rewrite IH. Qed.

(** Google credentials survive the encoding.  For the Google driver, the
    arguments made from a complete auth secret read back, flag by flag, as the
    entries of the secret: decoding each value gives the value in the secret. *)
Lemma google_auth_roundtrip s m d ref secret w args :
  machineObj s = Some m → Driver (Spec m) = Some d → lor_Name d = GoogleDriver →
  AuthSecret (Spec m) = Some ref →
  serve (KGetSecret (ref_ObjectKey ref)) (world s) = (inl secret, w) →
  (getAuthSecretArgs s).1 = Normal (inl args) →
  (λ kv, (kv.1, DecodeString kv.2)) <$> pair_up args
    ≡ₚ (λ kv, ("--" +:+ kv.1, Some kv.2)) <$> map_to_list (Data secret).
Proof.
  intros Hm Hd Hg Hr Hs Hargs.
  destruct (getAuthSecretArgs_run s m d ref secret w Hm Hd Hr Hs) as (kvs & Hp & Heq).
  rewrite Hargs in Heq. case_decide; [|done]. injection Heq as ->.
  unfold auth_flags. rewrite (pair_up_flags (auth_value (lor_Name d))), <- list_fmap_compose, <- Hp.
  apply Permutation_refl'. apply list_fmap_ext. intros i kv _. unfold compose, auth_value. simpl.
  rewrite decide_True by done. by rewrite Decode_Encode.
Qed.

(** ** The whole command *)

(** What [docker-machine] is told about the start-up script. *)
Definition script_flags (m : Machine) (args : list string) (h : list Event) : Prop :=
  match ScriptRef (Spec m) with
  | None => args = []
  | Some ref =>
      ∃ secret k v, Ev (KGetSecret (ref_ObjectKey ref)) (inl secret) ∈ h ∧
        Data secret !! k = Some v ∧ k ≠ "" ∧ v ≠ "" ∧ args = ["--" +:+ k; script_path m]
  end.

Definition auth_flags_of (m : Machine) (driver : string) (args : list string) (h : list Event)
    : Prop :=
  ∃ ref secret kvs, AuthSecret (Spec m) = Some ref ∧
    Ev (KGetSecret (ref_ObjectKey ref)) (inl secret) ∈ h ∧
    kvs ≡ₚ map_to_list (Data secret) ∧ args = auth_flags driver kvs.

Lemma script_flags_mono m args h h' :
  script_flags m args h → h `prefix_of` h' → script_flags m args h'.
Proof.
  unfold script_flags. destruct (ScriptRef (Spec m)); [|done]. intros (secret & k & v & Hin & H) Hp.
  exists secret, k, v. split; [by eapply elem_of_prefix|done].
Qed.

Lemma auth_flags_of_mono m d args h h' :
  auth_flags_of m d args h → h `prefix_of` h' → auth_flags_of m d args h'.
Proof.
  intros (ref & secret & kvs & Hr & Hin & H) Hp. exists ref, secret, kvs.
  split_and!; [done|by eapply elem_of_prefix|apply H..].
Qed.

Lemma pick_user_data_elem kvs cur :
  pick_user_data kvs cur = cur ∨ pick_user_data kvs cur ∈ kvs.
Proof.
  revert cur. induction kvs as [|[k v] kvs IH]; intros cur; simpl; [by left|].
  case_match; [|right; by left]. destruct (IH (k, v)) as [->|?]; right; [by left|by right].
Qed.

(** The object the receiver holds has the metadata and the specification of
    [m]; only its status may have changed. *)
Definition holds (m : Machine) s : Prop :=
  ∃ m', machineObj s = Some m' ∧ Meta m' = Meta m ∧ Spec m' = Spec m.

Lemma wp_mark m (c : Condition) s Q :
  holds m s → (∀ s', holds m s' → trace s' = trace s → Q tt s') →
  wp unguarded True (n ← now; m ← the_machine; put_machine (Set_ n m (Some c))) Q s.
Proof.
  intros (m' & Hm & Hme & Hsp) HQ. apply wp_bind, wp_now. intros n _.
  apply wp_bind, wp_the_machine; [|done]. intros m'' Hm''. simplify_eq.
  apply wp_put_machine. apply HQ; [|done].
  destruct (Set_meta n m' (Some c)) as (_ & He & Hs & _).
  eexists. split; [done|]. rewrite He, Hs. done.
Qed.

Lemma wp_getStartupScriptArgs m ref s :
  holds m s → ScriptRef (Spec m) = Some ref →
  wp unguarded True getStartupScriptArgs (λ r s', holds m s' ∧
    ∀ args, r = inl args → script_flags m args (trace s')) s.
Proof.
  intros Hh Hr. pose proof Hh as (m0 & Hm & Hme & Hsp).
  unfold getStartupScriptArgs, getSecret, getScriptFilePath.
  apply wp_bind, wp_the_machine; [|done]. intros m' Hm'. simplify_eq.
  apply wp_tryE, wp_bind, wp_deref; [|done]. rewrite Hsp, Hr. intros ref' [= <-].
  apply wp_call. intros r w _. split; [done|]. destruct r as [secret|e]; [|done].
  apply wp_bind, wp_bind, wp_the_machine; [|done]. simpl. intros m' Hm'. simplify_eq.
  apply wp_ret, wp_bind, wp_range. intros kvs Hp.
  pose proof (pick_user_data_elem kvs ("", "")) as Hpick.
  destruct (pick_user_data kvs ("", "")) as [k v].
  unfold str_empty. destruct (bool_decide_reflect (k = "")) as [|Hk]; [by apply wp_ret|].
  destruct (bool_decide_reflect (v = "")) as [|Hv]; [by apply wp_ret|]. simpl.
  destruct Hpick as [[=]|Hin]; [by destruct Hk|]. rewrite Hp in Hin.
  apply elem_of_map_to_list in Hin. rewrite Hme.
  assert (∀ l, script_flags m ["--" +:+ k; script_path m]
    ((trace s ++ [Ev (KGetSecret (ref_ObjectKey ref)) (inl secret)]) ++ l)) as Hsf.
  { intros l. unfold script_flags. rewrite Hr. exists secret, k, v. set_solver. }
  apply wp_bind, wp_call. intros st w' _. split; [done|]. destruct st as [[]|e].
  - apply wp_ret. split; [done|]. intros args [= <-]. apply Hsf.
  - destruct (negb _); [by apply wp_ret|]. apply wp_tryE, wp_call. intros x w'' _.
    split; [done|]. destruct x; [|done]. apply wp_ret. split; [done|]. intros args [= <-].
    simpl. rewrite <- (app_assoc (trace s ++ _)). apply Hsf.
Qed.

Lemma wp_script_args m s :
  holds m s →
  wp unguarded True script_args (λ r s', holds m s' ∧
    ∀ args, r = inl args → script_flags m args (trace s')) s.
Proof.
  intros Hh. pose proof Hh as (m0 & Hm & Hme & Hsp). unfold script_args.
  apply wp_bind, wp_the_machine; [|done]. intros m' Hm'. simplify_eq. rewrite Hsp.
  destruct (ScriptRef (Spec m)) as [ref|] eqn:Hr.
  - apply wp_bind. eapply wp_mono; [by apply (wp_getStartupScriptArgs m ref)|].
    intros [args|e] s1 [Hh1 Hargs].
    + apply wp_bind. apply (wp_mark m (TrueCondition _)); [done|]. intros s2 Hh2 Ht2.
      apply wp_ret. rewrite Ht2. split; [done|]. intros a [= <-]. by apply Hargs.
    + apply wp_bind. apply (wp_mark m (FalseCondition _ _ _ _)); [done|]. intros s2 Hh2 Ht2.
      by apply wp_ret.
  - apply wp_ret. split; [done|]. intros args [= <-]. unfold script_flags. by rewrite Hr.
Qed.

Lemma wp_getAuthSecretArgs m d s :
  holds m s → Driver (Spec m) = Some d →
  wp unguarded True getAuthSecretArgs (λ r s', holds m s' ∧
    ∀ args, r = inl args → auth_flags_of m (lor_Name d) args (trace s')) s.
Proof.
  intros Hh Hd. pose proof Hh as (m0 & Hm & Hme & Hsp). unfold getAuthSecretArgs, getSecret.
  apply wp_bind, wp_the_machine; [|done]. intros m' Hm'. simplify_eq.
  apply wp_tryE, wp_bind, wp_deref; [|done]. rewrite Hsp. intros ref Hr.
  apply wp_call. intros r w _. split; [done|]. destruct r as [secret|e]; [|done].
  apply wp_bind, wp_range. intros kvs Hp. eexists []. rewrite app_nil_r.
  rewrite (auth_args_run kvs [] _ m0 d) by (simpl; congruence).
  split_and!; [done|apply guarded_nil|]. split; [done|]. intros args Heq.
  case_decide; [|done]. injection Heq as <-. exists ref, secret, kvs.
  split_and!; [done|apply elem_of_last|done|done].
Qed.

Lemma wp_getMachineCreationArgs s m d :
  machineObj s = Some m → Driver (Spec m) = Some d →
  wp unguarded True getMachineCreationArgs (λ r s', ∀ args, r = inl args →
    ∃ params scriptArgs authArgs,
      params ≡ₚ map_to_list (Parameters (Spec m)) ∧
      script_flags m scriptArgs (trace s') ∧
      auth_flags_of m (lor_Name d) authArgs (trace s') ∧
      args = ["create"; "--driver"; lor_Name d] ++ mjoin (flag_args <$> params) ++ scriptArgs ++
             authArgs ++ getAMIIDArg m ++ network_flags (lor_Name d) m ++ [Name (Meta m)]) s.
Proof.
  intros Hm Hd. unfold getMachineCreationArgs, getAnnotationsArgsForAWS, driverName.
  apply wp_bind, wp_bind, wp_the_machine; [|done]. intros m0 Hm0. assert (m0 = m) as -> by congruence.
  apply wp_bind, wp_deref; [|done]. intros d0 Hd0. assert (d0 = d) as -> by congruence. apply wp_ret.
  apply wp_bind, wp_the_machine; [|done]. intros m1 Hm1. assert (m1 = m) as -> by congruence.
  apply wp_bind, wp_range. intros params Hp.
  apply wp_tryE. eapply wp_mono; [apply wp_script_args; by eexists|].
  intros [scriptArgs|e] s1 [Hh1 Hscript]; [|done]. specialize (Hscript _ eq_refl).
  apply wp_bind. eapply wp_mono; [apply wp_extend, (wp_getAuthSecretArgs m d); done|].
  intros [authArgs|e] s2 [[Hh2 Hauth] Hp2].
  2: { apply wp_bind, (wp_mark m (FalseCondition _ _ _ _)); [done|]. intros. by apply wp_ret. }
  specialize (Hauth _ eq_refl).
  apply wp_bind, (wp_mark m (TrueCondition _)); [done|]. intros s3 (m3 & Hm3 & Hme & Hsp) Ht3.
  apply wp_bind, wp_the_machine; [|done]. intros m4 Hm4. assert (m4 = m3) as -> by congruence. clear Hm4.
  apply wp_bind, wp_bind, wp_bind, wp_the_machine; [|done]. intros m4 Hm4. assert (m4 = m3) as -> by congruence. clear Hm4.
  apply wp_bind, wp_deref; [|done]. rewrite Hsp. intros d1 Hd1. assert (d1 = d) as -> by congruence. apply wp_ret.
  apply wp_bind, wp_the_machine; [|done]. intros m4 Hm4.
  assert (m4 = m3) as -> by congruence. clear Hm4. apply wp_ret.
  apply wp_tryE. eapply wp_mono;
    [apply wp_extend, safe_update_own_status; [done|apply unguarded_allows]|].
  intros [[]|e] s4 [_ Hp4]; [|done]. apply wp_ret. intros args Heq. apply (inj inl) in Heq.
  rewrite Ht3 in Hp4. exists params, scriptArgs, authArgs. split_and!; [done| | |].
  - eapply script_flags_mono; [done|]. by etrans.
  - by eapply auth_flags_of_mono.
  - rewrite <- Heq. unfold network_flags, getAMIIDArg, annotation. rewrite Hme, Hsp.
    by rewrite <- !app_assoc.
Qed.

(** C22: the command line of a creation.  When [getMachineCreationArgs]
    succeeds, the arguments are [create --driver <driver>], then one flag per
    parameter of the machine (in some order), the flag with the path of the
    start-up script if the machine has one (from an entry of its script
    secret), the flags of the auth secret, the AMI of the region if it is
    known, the recorded VPC and subnet for the driver [amazonec2], and the
    machine's name, all taken from the machine as it was at the start. *)
Theorem creation_command s m d args s' :
  machineObj s = Some m → Driver (Spec m) = Some d →
  getMachineCreationArgs s = (Normal (inl args), s') →
  ∃ params scriptArgs authArgs,
    params ≡ₚ map_to_list (Parameters (Spec m)) ∧
    script_flags m scriptArgs (trace s') ∧
    auth_flags_of m (lor_Name d) authArgs (trace s') ∧
    args = ["create"; "--driver"; lor_Name d] ++ mjoin (flag_args <$> params) ++ scriptArgs ++
           authArgs ++ getAMIIDArg m ++ network_flags (lor_Name d) m ++ [Name (Meta m)].
Proof.
  intros Hm Hd Hrun. by eapply (wp_result _ _ _ _ _ _ _ (wp_getMachineCreationArgs s m d Hm Hd) Hrun).
Qed.
End CommandLine.

(** ** The hypotheses at work *)

Definition cred_ref : ObjectReference := {| ref_Namespace := "demo"; ref_Name := "cred" |}.

(** What the receiver holds while the machine waits for its script. *)
Lemma waiting_object :
  ∃ m, machineObj waiting_start = Some m ∧
    Driver (Spec m) = Some {| lor_Name := GoogleDriver |} ∧ AuthSecret (Spec m) = Some cred_ref.
Proof. eexists. split_and!; by_eval. Qed.

Lemma auth_arguments_witness :
  ∃ secret kvs,
    serve (KGetSecret (ref_ObjectKey cred_ref)) (world waiting_start) =
      (inl secret, world waiting_start) ∧
    kvs ≡ₚ map_to_list (Data secret) ∧
    (getAuthSecretArgs waiting_start).1 =
      Normal (if decide (complete_secret secret) then inl (auth_flags GoogleDriver kvs)
              else inr auth_missing).
Proof.
  destruct waiting_object as (m & Hm & Hd & Ha).
  assert (∃ secret, serve (KGetSecret (ref_ObjectKey cred_ref)) (world waiting_start) =
    (inl secret, world waiting_start)) as [secret Hs] by (eexists; by_eval).
  destruct (auth_arguments waiting_start m {| lor_Name := GoogleDriver |} cred_ref secret _
    Hm Hd Ha Hs) as (kvs & Hp & Heq).
  exists secret, kvs. split_and!; [exact Hs|exact Hp|exact Heq].
Defined.

Lemma google_auth_roundtrip_witness :
  (λ kv, (kv.1, DecodeString kv.2)) <$>
    pair_up ["--google-application-credentials-data"; "a2V5"]
    ≡ₚ (λ kv, ("--" +:+ kv.1, Some kv.2)) <$>
       map_to_list (Data {| Data := {["google-application-credentials-data" := "key"]} |}).
Proof.
  destruct waiting_object as (m & Hm & Hd & Ha).
  apply (google_auth_roundtrip waiting_start m {| lor_Name := GoogleDriver |} cred_ref
    {| Data := {["google-application-credentials-data" := "key"]} |} (world waiting_start));
    [exact Hm|exact Hd|reflexivity|exact Ha|by_eval|by_eval].
Defined.

Lemma creation_command_witness :
  ∃ m (s' : St Sim) params scriptArgs authArgs,
    machineObj waiting_start = Some m ∧
    params ≡ₚ map_to_list (Parameters (Spec m)) ∧
    script_flags m scriptArgs (trace s') ∧
    auth_flags_of m GoogleDriver authArgs (trace s') ∧
    ["create"; "--driver"; "google"; "--google-zone"; "us-central1-a"; "--google-project";
     "appscode-testing"; "--google-userdata"; "/tmp/demo-rancher-vm-startup.sh";
     "--google-application-credentials-data"; "a2V5"; "rancher-vm"] =
    ["create"; "--driver"; GoogleDriver] ++ mjoin (flag_args <$> params) ++ scriptArgs ++
      authArgs ++ getAMIIDArg m ++ network_flags GoogleDriver m ++ [Name (Meta m)].
Proof.
  destruct waiting_object as (m & Hm & Hd & Ha).
  assert (∃ s', getMachineCreationArgs waiting_start = (Normal (inl
    ["create"; "--driver"; "google"; "--google-zone"; "us-central1-a"; "--google-project";
     "appscode-testing"; "--google-userdata"; "/tmp/demo-rancher-vm-startup.sh";
     "--google-application-credentials-data"; "a2V5"; "rancher-vm"]), s')) as [s' Hrun]
    by (eexists; by_eval).
  destruct (creation_command waiting_start m {| lor_Name := GoogleDriver |} _ s' Hm Hd Hrun)
    as (params & scriptArgs & authArgs & H).
  exists m, s', params, scriptArgs, authArgs. split; [exact Hm|exact H].
Defined.
