(* ===== verification/Progress.v ===== *)
(** * Creating a machine when the services cooperate

    The creating half of the reconciler, run against [Cooperating]: the
    creation goes through, the script is asked about, and the stored status
    says so. *)

From S2P Require Import Prelude GoLib Types Conditions ConditionsFacts Summary StatusSpec StatusInv States Effects Kube Aws Azure Cleanup Cluster MachineOps Reconcile Evidence Logic Waiting NoPanic CommandLine Cooperation Provision.

(** A condition that is missing or true. *)
Definition not_failing (f : States) (t : string) : Prop :=
  match f t with Some (st, _) => st ≠ ConditionFalse | None => True end.

(** The machine was created; only the script is open. *)
Definition ready_states (f : States) : Prop :=
  f MachineConditionTypeMachineReady = Some true_state ∧
  not_failing f MachineConditionTypeAuthDataReady ∧
  not_failing f MachineConditionTypeScriptReady.

Definition readable (e : Environment) (ref : ObjectReference) : Prop :=
  ∃ sec, e_secrets e !! key_pair (ref_ObjectKey ref) = Some sec ∧ complete_secret sec.

(** What a creation needs: a driver, prepared or preparable for AWS; complete
    secrets; a script secret that is not empty, or no script and no complaint
    about one. *)
Definition creatable (b : Body) (f : States) (e : Environment) : Prop :=
  is_true f MachineConditionTypeMachineCreating = false ∧
  is_true f MachineConditionTypeMachineReady = false ∧
  (∃ d, Driver (b_Spec b) = Some d ∧ (lor_Name d = AWSDriver → aws_preparable b e)) ∧
  (∃ ref, AuthSecret (b_Spec b) = Some ref ∧ readable e ref) ∧
  match ScriptRef (b_Spec b) with
  | Some ref => ∃ sec, e_secrets e !! key_pair (ref_ObjectKey ref) = Some sec ∧
                       complete_secret sec ∧ Data sec ≠ ∅
  | None => not_failing f MachineConditionTypeScriptReady
  end.

Section Progress.
Context {World : Type} `{EC : Ec2Cooperating World} `{OT : Others}.
Implicit Types (s : St World) (b : Body) (f : States) (e : Environment) (P : string → Prop).

Lemma runs_setInitialConditions b f e s :
  Working b f e s → alive b →
  let f' := set_state (set_state f MachineConditionTypeMachineReady
                         (false_state ReasonMachineCreating))
              MachineConditionTypeClusterOperationComplete
              (false_state ReasonWaitingForScriptRun) in
  runs setInitialConditions (λ r s', r = inl tt ∧ Synced b f' e (updated b f') s') s.
Proof.
  intros HW Ha f'. unfold setInitialConditions.
  apply wp_bind. eapply wp_mono; [eapply runs_mark_false; [exact HW|by_decide]|].
  intros [] s1 HW1. apply wp_bind. eapply wp_mono; [eapply runs_mark_false; [exact HW1|by_decide]|].
  intros [] s2 HW2. by eapply runs_update_own.
Qed.

Lemma runs_createPrerequisites b f e P s d :
  Synced b f e P s → alive b → Driver (b_Spec b) = Some d →
  (lor_Name d = AWSDriver → aws_preparable b e) →
  runs createPrerequisitesForMachine (λ r s', ∃ b' e', r = inl tt ∧ same_object b b' ∧
    same_env e e' ∧ Synced b' f e' P s') s.
Proof.
  intros HS Ha Hd Haws. unfold createPrerequisitesForMachine. apply wp_bind.
  eapply wp_mono; [eapply runs_driverName; [by eapply Synced_Working|done]|].
  intros x s' [-> ->]. case_decide as Hdr.
  - eapply wp_mono; [by eapply runs_createAWSEnvironment; eauto|]. naive_solver.
  - apply wp_ok. by exists b, e.
Qed.

(** ** Arguments *)

Lemma pick_user_data_complete kvs cur :
  kvs ≠ [] → Forall (λ kv, kv.1 ≠ "" ∧ kv.2 ≠ "") kvs →
  let '(k, v) := pick_user_data kvs cur in k ≠ "" ∧ v ≠ "".
Proof.
  intros Hne Hf. destruct Hf as [|[k v] kvs [Hk Hv] _]; [done|]. simpl in *.
  unfold str_empty. by rewrite bool_decide_false.
Qed.

Lemma runs_getStartupScriptArgs b f e s ref sec :
  Working b f e s → ScriptRef (b_Spec b) = Some ref →
  e_secrets e !! key_pair (ref_ObjectKey ref) = Some sec → complete_secret sec → Data sec ≠ ∅ →
  runs getStartupScriptArgs (λ r s', (∃ a, r = inl a) ∧ unchanged s s') s.
Proof.
  intros HW Href Hsec Hc Hne. unfold getStartupScriptArgs. apply wp_bind.
  eapply runs_machine; [done|]. intros m Hm Hb _ _.
  assert (Spec m = b_Spec b) as -> by (by rewrite <- Hb). rewrite Href. apply wp_tryE.
  eapply wp_mono; [apply (runs_getSecret s ref sec); by destruct HW as (_ & _ & ->)|].
  intros r s1 [-> Hu]. unfold getScriptFilePath. apply wp_bind, wp_bind.
  eapply runs_machine; [by eapply Working_unchanged|]. intros m1 _ _ _ _. apply wp_ret, wp_bind, wp_range.
  intros kvs Hkvs.
  pose proof (pick_user_data_complete kvs ("", "")) as Hpick.
  destruct (pick_user_data kvs ("", "")) as [k v]. destruct Hpick as [Hk Hv].
  { intros ->. symmetry in Hkvs. by apply Permutation_nil_r, map_to_list_empty_iff in Hkvs. }
  { by eapply complete_secret_perm. }
  unfold str_empty. rewrite (bool_decide_false _ Hk), (bool_decide_false _ Hv). simpl.
  set (path := _ +:+ _). clearbody path. destruct (coop_stat path (world s1)) as [Hst Hvs].
  apply wp_bind, runs_call. intros tr.
  match goal with |- wp _ _ (match ?x with _ => _ end) _ _ => destruct x as [[]|err] eqn:Hx end.
  - apply wp_ret. split; [by eexists|]. by eapply unchanged_trans.
  - rewrite Hst by done. apply wp_tryE. eapply runs_answer; [apply coop_write|].
    intros w1 tr1 Hw1. apply wp_ret. split; [by eexists|]. eapply unchanged_trans; [exact Hu|].
    split; [done|]. by etrans; [exact Hw1|exact Hvs].
Qed.

(** The states after [script_args]. *)
Definition script_states b f : States :=
  match ScriptRef (b_Spec b) with
  | Some _ => set_state f MachineConditionTypeScriptReady true_state
  | None => f
  end.

Lemma runs_script_args b f e s :
  Working b f e s →
  match ScriptRef (b_Spec b) with
  | Some ref => ∃ sec, e_secrets e !! key_pair (ref_ObjectKey ref) = Some sec ∧
                       complete_secret sec ∧ Data sec ≠ ∅
  | None => True
  end →
  runs script_args (λ r s', (∃ a, r = inl a) ∧ Working b (script_states b f) e s') s.
Proof.
  intros HW Hsc. unfold script_args, script_states. apply wp_bind.
  eapply runs_machine; [done|]. intros m _ Hb _ _.
  assert (Spec m = b_Spec b) as -> by (by rewrite <- Hb).
  destruct (ScriptRef (b_Spec b)) as [ref|] eqn:Href.
  - destruct Hsc as (sec & Hsec & Hc & Hne). apply wp_bind.
    eapply wp_mono; [by eapply runs_getStartupScriptArgs|]. intros r s1 [[a ->] Hu].
    apply wp_bind. eapply wp_mono; [eapply runs_mark_true; [by eapply Working_unchanged|by_decide]|].
    intros [] s2 HW2. apply wp_ret. split; [by eexists|done].
  - apply wp_ret. split; [by eexists|done].
Qed.

Lemma runs_getAuthSecretArgs b f e s ref d :
  Working b f e s → Driver (b_Spec b) = Some d → AuthSecret (b_Spec b) = Some ref →
  readable e ref →
  runs getAuthSecretArgs (λ r s', (∃ a, r = inl a) ∧ unchanged s s') s.
Proof.
  intros HW Hd Href (sec & Hsec & Hc). unfold getAuthSecretArgs. apply wp_bind.
  eapply runs_machine; [done|]. intros m Hm Hb _ _.
  assert (Spec m = b_Spec b) as Hspec by (by rewrite <- Hb). rewrite Hspec, Href. apply wp_tryE.
  eapply wp_mono; [apply (runs_getSecret s ref sec); by destruct HW as (_ & _ & ->)|].
  intros r s1 [-> Hu]. apply wp_bind, wp_range. intros kvs Hkvs.
  eapply wp_ext; [eapply (auth_args_run kvs [] s1 m d); [by destruct Hu as [-> _]|by rewrite Hspec]|].
  rewrite decide_True by (by eapply complete_secret_perm). apply wp_ret. split; [by eexists|done].
Qed.

Lemma runs_getMachineCreationArgs b f e s d ref :
  Working b f e s → alive b → Driver (b_Spec b) = Some d →
  AuthSecret (b_Spec b) = Some ref → readable e ref →
  match ScriptRef (b_Spec b) with
  | Some ref => ∃ sec, e_secrets e !! key_pair (ref_ObjectKey ref) = Some sec ∧
                       complete_secret sec ∧ Data sec ≠ ∅
  | None => True
  end →
  let f' := set_state (script_states b f) MachineConditionTypeAuthDataReady true_state in
  runs getMachineCreationArgs (λ r s', (∃ args name, r = inl args ∧ command args "create" ∧
    last args = Some name) ∧ Working b f' e s') s.
Proof.
  intros HW Ha Hd Href Hread Hsc f'. unfold getMachineCreationArgs. apply wp_bind.
  eapply wp_mono; [by eapply runs_driverName|]. intros x s0 [-> ->]. apply wp_bind.
  eapply runs_machine; [done|]. intros m _ _ _ _. apply wp_bind, wp_range. intros params _.
  apply wp_tryE. eapply wp_mono; [by apply (runs_script_args b f e)|]. intros r s1 [[a ->] HW1].
  apply wp_bind. eapply wp_mono; [by eapply runs_getAuthSecretArgs|]. intros r s2 [[a2 ->] Hu].
  apply wp_bind. eapply wp_mono; [eapply runs_mark_true; [by eapply Working_unchanged|by_decide]|].
  intros [] s3 HW3. apply wp_bind. eapply runs_machine; [exact HW3|]. intros m2 _ _ _ _.
  apply wp_bind. unfold getAnnotationsArgsForAWS. apply wp_bind.
  eapply wp_mono; [by eapply runs_driverName|]. intros x s4 [-> ->]. apply wp_bind.
  eapply runs_machine; [exact HW3|]. intros m3 _ _ _ _. apply wp_ret, wp_tryE.
  eapply wp_mono; [by eapply runs_update_own|]. intros r s5 [-> HS]. apply wp_ret.
  split; [|by eapply Synced_Working]. do 2 eexists. split_and!; [done|done|].
  rewrite !app_assoc. apply last_snoc.
Qed.

(** [docker-machine create] and the marks around it. *)
Lemma runs_run_creation b f e s args name :
  Working b f e s → alive b → command args "create" → last args = Some name →
  let f' := set_state (set_state f MachineConditionTypeMachineCreating true_state)
              MachineConditionTypeMachineReady true_state in
  runs (run_creation args) (λ r s', ∃ e', r = inl tt ∧ same_env e e' ∧
    Synced b f' e' (updated b f') s') s.
Proof.
  intros HW Ha Hargs Hname f'. unfold run_creation. apply wp_bind.
  eapply wp_mono; [eapply runs_mark_true; [exact HW|by_decide]|]. intros [] s1 HW1.
  destruct (coop_create (Some machineCreationTimeout) args name (world s1) Hargs Hname) as [Hok Hv].
  apply wp_bind, runs_call. intros tr. set (x := (serve _ _).1) in *. clearbody x.
  eapply (Working_env _ _ _ _ _ _ tr) in HW1; [|exact Hv].
  match goal with |- runs _ _ ?s2 =>
    assert (runs (_ ← mark_true MachineConditionTypeMachineReady; update_own_status)
      (λ r s', ∃ e', r = inl tt ∧ same_env e e' ∧ Synced b f' e' (updated b f') s') s2) as Hend end.
  { apply wp_bind. eapply wp_mono; [eapply runs_mark_true; [exact HW1|by_decide]|].
    intros [] s2 HW2. eapply wp_mono; [by apply runs_update_own|]. intros r s3 [-> HS].
    eexists. split_and!; [done| |exact HS]. done. }
  destruct Hok as [->|Hex]; [exact Hend|]. destruct (ex_err x); [|exact Hend]. by rewrite Hex.
Qed.

(** ** [createMachine] *)

Lemma creating_guard b f e s (Q : Res unit → St World → Prop) (k : M World (Res unit)) :
  Working b f e s →
  (if is_true f MachineConditionTypeMachineCreating || is_true f MachineConditionTypeMachineReady
   then Q (inl tt) s else runs k Q s) →
  runs (m ← the_machine;
        if IsConditionTrue (Conditions (Status m)) MachineConditionTypeMachineCreating ||
           IsConditionTrue (Conditions (Status m)) MachineConditionTypeMachineReady then ok
        else k) Q s.
Proof.
  intros HW Hk. apply wp_bind. eapply runs_machine; [done|]. intros m _ _ [[Hnd _] _] Hf.
  rewrite !IsConditionTrue_states by done. unfold is_true in *. rewrite !Hf by done.
  case_match; [by apply wp_ok|done].
Qed.

(** The machine is created, now or earlier. *)
Lemma runs_createMachine b f e P s :
  Synced b f e P s → body_deleting b = false →
  ready_states f ∨ creatable b f e →
  runs createMachine (λ r s', ∃ b' f' e', r = inl tt ∧ same_object b b' ∧ same_env e e' ∧
    ready_states f' ∧ Working b' f' e' s') s.
Proof.
  intros HS Hd Hor. assert (alive b) as Ha by by left.
  apply (creating_guard b f e); [by eapply Synced_Working|]. destruct Hor as [Hr|Hc].
  { assert (is_true f MachineConditionTypeMachineReady = true) as ->
      by (unfold is_true; by rewrite (proj1 Hr)).
    rewrite orb_true_r. exists b, f, e. split_and!; [done..|by eapply Synced_Working]. }
  destruct Hc as (-> & -> & (d & Hdr & Haws) & (ref & Href & Hread) & Hsc). simpl.
  apply wp_tryE. eapply wp_mono; [eapply runs_setInitialConditions; [by eapply Synced_Working|done]|].
  intros r s1 [-> HS1]. apply wp_tryE.
  eapply wp_mono; [by eapply runs_createPrerequisites|].
  intros r s2 (b2 & e2 & -> & Hsame & Hse & HS2). pose proof Hsame as (Hk2 & Hsp2 & Hf2 & Hd2).
  assert (alive b2) as Ha2 by by eapply same_object_alive. pose proof Hse as [Hsec Hat].
  apply wp_tryE. eapply wp_mono.
  { eapply (runs_getMachineCreationArgs b2 _ e2 s2 d ref); [by eapply Synced_Working|done|..];
      rewrite ?Hsp2; unfold readable; rewrite ?Hsec; try done. by destruct (ScriptRef (b_Spec b)). }
  intros r s3 [(args & name & -> & Hargs & Hname) HW3].
  eapply wp_mono; [by eapply runs_run_creation|].
  intros r s4 (e4 & -> & [Hse4 Hat4] & HS4). do 3 eexists.
  split_and!; [done|done|split; [by rewrite Hse4|by rewrite Hat4]| |by eapply Synced_Working].
  unfold ready_states, not_failing, script_states, set_state. rewrite Hsp2.
  destruct (ScriptRef (b_Spec b)); by simpl.
Qed.

(** ** The script *)

Lemma unknown_not_true cs t :
  cond_core cs → t ∉ known_types → IsConditionTrue cs t = false.
Proof.
  intros [_ Hall] Ht. destruct (IsConditionTrue cs t) eqn:H; [|done].
  apply IsConditionTrue_spec in H as (c & Hc & <- & _). by destruct (Hall c Hc).
Qed.

(** The state of the script after asking for its result. *)
Definition script_state (n : nat) : string * string :=
  match n with
  | O => true_state
  | S _ => false_state ReasonWaitingForScriptCompletion
  end.

Definition pending (n : nat) : bool := match n with O => false | S _ => true end.

Definition asked e : Environment := set_attempts (pred (e_attempts e)) e.

Lemma asked_zero e : e_attempts e = O → asked e = e.
Proof. destruct e. simpl. by intros ->. Qed.

Lemma runs_record_zero b f e s :
  Working b f e s → is_Some (fetched (world s)) →
  runs (record_result 0) (λ r s', r = inl false ∧
    Working b (set_state f MachineConditionTypeClusterOperationComplete true_state) e s') s.
Proof.
  intros HW Hf. unfold record_result. apply wp_bind. rewrite decide_True by done. apply wp_bind.
  unfold mark_true, MarkTrue. apply wp_bind, wp_now. intros t _. apply wp_bind.
  eapply runs_machine; [done|]. intros m Hm Hb Hc Hst. apply wp_put_machine, wp_ret, wp_tryE.
  set (s1 := mkSt _ _ _).
  assert (Working b (set_state f MachineConditionTypeClusterOperationComplete true_state) e s1) as HW1.
  { apply (Working_Set b f e s t m (TrueCondition _)); [done|done|by_decide|apply TrueCondition_op]. }
  eapply runs_answer; [split; [by apply coop_remove_result|apply coop_remove]|].
  intros w tr Hw. apply wp_ret. split; [done|]. by apply Working_view.
Qed.

Lemma runs_isScriptFinished b f e s d :
  Working b f e s → f MachineConditionTypeMachineReady = Some true_state →
  Driver (b_Spec b) = Some d →
  runs isScriptFinished (λ r s', r = inl (pending (e_attempts e)) ∧
    Working b (set_state f MachineConditionTypeClusterOperationComplete
                 (script_state (e_attempts e))) (asked e) s') s.
Proof.
  intros HW Hr Hd. unfold isScriptFinished. apply wp_bind.
  eapply runs_machine; [done|]. intros m _ _ Hc Hf.
  rewrite IsConditionTrue_states by apply Hc. unfold is_true at 1. rewrite Hf, Hr by done. simpl.
  rewrite !unknown_not_true by (done || by_decide). simpl. apply wp_bind. unfold getScpArgs.
  apply wp_bind. eapply runs_machine; [done|]. intros m1 _ _ _ _. apply wp_bind.
  eapply wp_mono; [by eapply runs_driverName|]. intros x s0 [-> ->]. apply wp_ret.
  set (args := ["scp"; _; _]). assert (command args "scp") as Hargs by done. clearbody args.
  pose proof HW as (_ & _ & He). apply wp_bind, runs_call. intros tr.
  destruct (e_attempts e) as [|n] eqn:Hn.
  - destruct (coop_scp_done None args (world s) Hargs) as (Hok & (content & Hft & Hnum) & Hv);
      [by rewrite He|]. rewrite Hok.
    destruct (coop_open content _ Hft) as (Hans & Hft' & Hv'). apply wp_tryE, runs_call. intros tr2.
    cbn [world machineObj].
    rewrite Hans, scan_result_first, Hnum.
    rewrite asked_zero by done. apply runs_record_zero; [|by eexists].
    apply (Working_view b f e s); [done|]. etrans; [exact Hv'|exact Hv].
  - destruct (coop_scp_pending None args (world s) n Hargs) as [[err Herr] Hv]; [by rewrite He|].
    rewrite Herr. apply wp_bind. eapply wp_mono.
    + eapply (runs_mark_false b f (asked e)); [|by_decide].
      unfold asked. rewrite Hn. by apply (Working_env _ _ _ s).
    + intros [] s2 HW2. by apply wp_ret.
Qed.

(** ** [Reconcile] *)

(** The phase while, and after, the script runs. *)
Definition script_phase (n : nat) : string :=
  match n with
  | O => MachinePhaseSuccess
  | S _ => MachinePhaseWaitingForScriptCompletion
  end.

Lemma ready_phase f n :
  ready_states f →
  phase_of (set_state f MachineConditionTypeClusterOperationComplete (script_state n)) =
    script_phase n.
Proof.
  intros (Hr & Ha & Hs). unfold phase_of, failing_reason, ConditionsOrder.
  unfold not_failing in Ha, Hs. unfold set_state. cbn -[decide].
  rewrite !decide_False by by_decide. rewrite decide_True by done. rewrite Hr. simpl.
  destruct n as [|n]; simpl; [|done].
  destruct (f MachineConditionTypeAuthDataReady) as [[? ?]|];
    destruct (f MachineConditionTypeScriptReady) as [[? ?]|]; simpl;
    repeat (rewrite decide_False by done; simpl); done.
Qed.

Lemma ready_states_script f n :
  ready_states f →
  ready_states (set_state f MachineConditionTypeClusterOperationComplete (script_state n)).
Proof. by intros. Qed.

(** What a reconciliation asks for when the script was not done. *)
Definition requeue_of (n : nat) : Result :=
  if pending n then {| RequeueAfter := Minute * 1 |} else Result_zero.

(** One reconciliation that creates the machine, if needed, and asks for the
    result of the script. *)
Lemma runs_reconcile_normal b f e P s d :
  Synced b f e P s → body_deleting b = false → Driver (b_Spec b) = Some d →
  ready_states f ∨ creatable b f e →
  runs (reconcile_normal (b_key b)) (λ r s', ∃ b' f' e', r = (requeue_of (e_attempts e), None) ∧
    b_key b' = b_key b ∧ b_Spec b' = b_Spec b ∧ body_deleting b' = false ∧ ready_states f' ∧
    e_attempts e' = pred (e_attempts e) ∧
    Synced b' f' e' (λ p, p = script_phase (e_attempts e)) s') s.
Proof.
  intros HS Hd Hdr Hor. unfold reconcile_normal. apply wp_bind.
  eapply wp_mono; [by eapply runs_ensureFinalizer|]. intros r s1 [-> HS1].
  set (b1 := b_add_finalizer GetFinalizer b) in *. unfold reconcile_create. apply wp_bind.
  eapply wp_mono; [eapply (runs_createMachine b1); [done|done|exact Hor]|].
  intros r s2 (b2 & f2 & e2 & -> & (Hk & Hsp & Hfi & Hdt) & [Hse Hat] & Hr2 & HW2). apply wp_bind.
  eapply wp_mono; [eapply runs_isScriptFinished; [done|apply Hr2|by rewrite Hsp]|].
  intros r s3 [-> HW3]. apply wp_bind.
  assert (body_deleting b2 = false) as Hd2 by (unfold body_deleting; by rewrite Hdt).
  assert (b_key b = b_key b2) as -> by by rewrite Hk.
  eapply wp_mono; [eapply runs_update; [exact HW3|by left]|]. intros r s4 [-> (Hl & Hst & He)].
  apply wp_ret.
  exists b2, (set_state f2 MachineConditionTypeClusterOperationComplete
                (script_state (e_attempts e2))), (asked e2). rewrite <- Hat.
  split_and!; [done|done|by rewrite Hsp|done|by eapply ready_states_script|done|].
  split_and!; [exact Hl| |exact He]. destruct Hst as (m & ? & ? & ? & ? & _ & Hp). exists m.
  split_and!; [done..|]. rewrite Hp; [by apply ready_phase|done|].
  unfold set_state. rewrite decide_False by by_decide. rewrite (proj1 Hr2). by eexists.
Qed.
End Progress.
