(* ===== verification/Teardown.v ===== *)
(** * Deleting a machine when the services cooperate

    The cleanup goes through for every driver, and the finalizer comes off. *)

From S2P Require Import Prelude GoLib Types Conditions ConditionsFacts Summary StatusSpec StatusInv States Effects Kube Aws Azure Cleanup Cluster MachineOps Reconcile Logic NoPanic Cooperation Provision.

Class AzureCooperating (World : Type) `{CO : Cooperating World} := {
  az_credential : ∀ t c p w,
    (serve (AzNewClientSecretCredential t c p) w).1 = inl tt ∧
    view (serve (AzNewClientSecretCredential t c p) w).2 = view w;
  az_client : ∀ sub w,
    (serve (AzNewResourceGroupsClient sub) w).1 = inl tt ∧
    view (serve (AzNewResourceGroupsClient sub) w).2 = view w;
  az_begin : ∀ c g w,
    (∃ p, (serve (AzBeginDelete c g) w).1 = inl p) ∧ view (serve (AzBeginDelete c g) w).2 = view w;
  az_poll : ∀ p w,
    (serve (AzPollUntilDone p) w).1 = inl tt ∧ view (serve (AzPollUntilDone p) w).2 = view w
}.

Definition azure_ready (b : Body) (e : Environment) : Prop :=
  ∃ ref sec, AuthSecret (b_Spec b) = Some ref ∧
    e_secrets e !! key_pair (ref_ObjectKey ref) = Some sec ∧
    ∀ k, k ∈ [azureSubscriptionIDKeyField; azureTenantIDKeyField; azureClientIDKeyField;
              azureClientSecretKeyField] → map_index (Data sec) k ≠ "".

(** What the cleanup needs: the docker machine, which [docker-machine rm] fails
    without, a driver, and its credentials where it has
    resources in a cloud. *)
Definition removable (b : Body) (e : Environment) : Prop :=
  key_Name (b_key b) ∈ e_docker e ∧
  ∃ d, Driver (b_Spec b) = Some d ∧
    (lor_Name d = AWSDriver → aws_ready b e) ∧ (lor_Name d = AzureDriver → azure_ready b e).

Section Teardown.
Context {World : Type} `{CO : Cooperating World} `{EC : !Ec2Cooperating World} `{AZ : !AzureCooperating World} `{OT : Others}.
Implicit Types (s : St World) (b : Body) (f : States) (e : Environment) (P : string → Prop).

(** An operation whose answer does not matter and that leaves everything
    alone. *)
Definition harmless {A} (m : M World A) : Prop := ∀ s, runs m (λ _ s', unchanged s s') s.

Lemma harmless_bind {A B} (m : M World A) (k : A → M World B) :
  harmless m → (∀ a, harmless (k a)) → harmless (m ≫= k).
Proof.
  intros Hm Hk s. apply wp_bind. eapply wp_mono; [apply Hm|]. intros a s1 Hu1.
  eapply wp_mono; [apply Hk|]. intros r s2 Hu2. exact (unchanged_trans _ _ _ Hu1 Hu2).
Qed.

Lemma harmless_ret {A} (a : A) : harmless (mret a).
Proof. intros s. by apply wp_ret. Qed.

Lemma harmless_call {X} (c : Call X) :
  (∀ w, view (serve c w).2 = view w) → harmless (call c).
Proof. intros Hv s. apply runs_call. intros tr. split; [done|apply Hv]. Qed.

(** ** EC2 *)

Lemma harmless_deleteAwsRoute c id : harmless (deleteAwsRoute c id).
Proof.
  intros s. unfold deleteAwsRoute. apply wp_tryE.
  destruct (ec2_tables c (world s)) as (l & Hans & Hf & _ & Hv).
  eapply runs_answer; [by split|]. intros w tr Hw.
  destruct (last_route_table_acc id l None (mkSt w (machineObj s) tr) Hf) as (r & Hr & _).
  apply wp_bind. eapply wp_ext; [exact Hr|]. apply wp_ret. destruct r as [rt|]; [|by apply wp_ret].
  apply wp_tryE, runs_call. intros tr'. simpl.
  assert (unchanged s (mkSt (serve (DeleteRoute c allowAllIPs (rt_RouteTableId rt)) w).2
                         (machineObj s) tr')).
  { split; [done|]. simpl. rewrite ec2_delete_route. done. }
  case_match; [by apply wp_ok|done].
Qed.

Lemma harmless_deleteAwsInternetGateway c gw id : harmless (deleteAwsInternetGateway c gw id).
Proof.
  unfold deleteAwsInternetGateway, detachInternetGatewayToVPC.
  apply harmless_bind; [apply harmless_deleteAwsRoute|]. intros _.
  apply harmless_bind; [apply harmless_call, ec2_detach|]. intros _.
  apply harmless_bind; [apply harmless_call, ec2_delete_gateway|]. intros r. apply harmless_ret.
Qed.

Lemma harmless_delete_groups c l :
  filled (λ sg, is_Some (sg_GroupId sg)) l →
  ∀ s, runs (delete_groups c l) (λ r s', r = inl tt ∧ unchanged s s') s.
Proof.
  induction 1 as [|p l (sg & -> & [g Hg]) _ IH]; intros s; simpl; [by apply wp_ok|].
  apply wp_bind, wp_ret, wp_bind, runs_call. intros tr. rewrite Hg. apply wp_bind, wp_ret.
  eapply wp_mono; [apply IH|]. intros r s1 [-> Hu]. split; [done|].
  eapply unchanged_trans; [|exact Hu]. split; [done|apply ec2_delete_group].
Qed.

Lemma runs_deleteAwsSubnet c b f e P s sn :
  Synced b f e P s → runs (deleteAwsSubnet c sn) (λ _ s', unchanged s s') s.
Proof.
  intros HS. unfold deleteAwsSubnet. apply wp_bind.
  eapply runs_machine; [by eapply Synced_Working|]. intros m _ _ _ _.
  match goal with |- wp _ _ ?p _ _ => assert (harmless p) as Hh; [|apply Hh] end.
  apply harmless_bind.
  - case_decide; [apply harmless_deleteAwsInternetGateway|apply harmless_ret].
  - intros _. apply harmless_bind; [apply harmless_call, ec2_delete_subnet|]. intros r.
    apply harmless_ret.
Qed.

Lemma runs_deleteAwsVpc c b f e P s id :
  Synced b f e P s →
  runs (deleteAwsVpc c id) (λ r s', ∃ e', r = inl tt ∧ same_env e e' ∧ Synced b f e' P s') s.
Proof.
  intros HS. unfold deleteAwsVpc. apply wp_bind.
  eapply runs_machine; [by eapply Synced_Working|]. intros m _ _ _ _. case_decide.
  { apply wp_ok. by exists e. }
  apply wp_bind.
  assert (runs (if decide (annotation m awsSubnetIDAnnotation ≠ "")
                then deleteAwsSubnet c (annotation m awsSubnetIDAnnotation) else ok)
               (λ _ s', unchanged s s') s) as Hsub.
  { case_decide; [by eapply runs_deleteAwsSubnet|by apply wp_ok]. }
  eapply wp_mono; [exact Hsub|]. intros ? s1 Hu1. apply wp_tryE. unfold deleteSecurityGroup.
  apply wp_tryE. destruct (ec2_groups c id (world s1)) as (l & Hans & Hf & Hv).
  eapply runs_answer; [by split|]. intros w tr Hw.
  eapply wp_mono; [by apply harmless_delete_groups|]. intros r s2 [-> Hu2].
  assert (Synced b f e P s2) as HS2.
  { eapply Synced_unchanged; [exact HS|]. eapply unchanged_trans; [exact Hu1|].
    eapply unchanged_trans; [|exact Hu2]. by split. }
  apply wp_bind, runs_call. intros tr2. destruct (ec2_delete_vpc c id (world s2)) as [-> [vs Hv2]].
  apply wp_ret. exists (set_vpcs vs e). split_and!; [done|done|]. by apply (Synced_env _ _ _ _ s2).
Qed.

Lemma runs_cleanupAWSResources b f e P s :
  Synced b f e P s → aws_ready b e →
  runs cleanupAWSResources (λ r s', ∃ e', r = inl tt ∧ same_env e e' ∧ Synced b f e' P s') s.
Proof.
  intros HS Hr. unfold cleanupAWSResources. apply wp_tryE.
  eapply wp_mono; [eapply runs_awsEC2Client; [by eapply Synced_Working|done]|].
  intros r s1 [[c ->] Hu]. apply wp_bind.
  assert (Synced b f e P s1) as HS1 by by eapply Synced_unchanged.
  eapply runs_machine; [by eapply Synced_Working|]. intros m _ _ _ _. by apply runs_deleteAwsVpc.
Qed.

(** ** Azure *)

Lemma runs_getAzureCredential b f e s :
  Working b f e s → azure_ready b e →
  runs getAzureCredential (λ r s', (∃ c, r = inl c) ∧ unchanged s s') s.
Proof.
  intros HW (ref & sec & Hr & Hsec & Hk). unfold getAzureCredential. apply wp_bind.
  eapply runs_machine; [done|]. intros m _ Hb _ _.
  assert (Spec m = b_Spec b) as -> by (by rewrite <- Hb). rewrite Hr. apply wp_tryE.
  eapply wp_mono; [apply (runs_getSecret s ref sec); by destruct HW as (_ & _ & ->)|].
  intros r s1 [-> Hu]. unfold str_empty. cbv zeta.
  rewrite !bool_decide_false by (apply Hk; by_decide). apply wp_ret. split; [by eexists|done].
Qed.

Lemma runs_deleteAzureResourceGroup b f e P s :
  Synced b f e P s → azure_ready b e →
  runs deleteAzureResourceGroup (λ r s', r = inl tt ∧ Synced b f e P s') s.
Proof.
  intros HS Hr. unfold deleteAzureResourceGroup. apply wp_bind.
  eapply runs_machine; [by eapply Synced_Working|]. intros m _ _ _ _. apply wp_tryE.
  eapply wp_mono; [eapply runs_getAzureCredential; [by eapply Synced_Working|done]|].
  intros r s1 [[c ->] Hu]. apply (Synced_unchanged _ _ _ _ _ s1) in HS; [|done]. apply wp_tryE.
  eapply runs_answer; [apply az_credential|]. intros w2 tr2 Hw2.
  apply (Synced_view _ _ _ _ _ w2 tr2) in HS; [|done]. apply wp_tryE.
  eapply runs_answer; [apply az_client|]. intros w3 tr3 Hw3.
  apply (Synced_view _ _ _ _ _ w3 tr3) in HS; [|done]. apply wp_bind.
  eapply runs_machine; [by eapply Synced_Working|]. intros m1 _ _ _ _. apply wp_tryE.
  destruct (az_begin c (getResourceGroupName m1) w3) as [[p Hp] Hv].
  eapply runs_answer; [split; [exact Hp|exact Hv]|]. intros w4 tr4 Hw4.
  apply (Synced_view _ _ _ _ _ w4 tr4) in HS; [|done]. apply wp_tryE.
  eapply runs_answer; [apply az_poll|]. intros w5 tr5 Hw5. apply wp_ok. split; [done|].
  by apply (Synced_view _ _ _ _ _ w5 tr5) in HS.
Qed.

(** ** The cleanup *)

Lemma runs_remove_file p s : runs (remove_file p) (λ r s', r = inl tt ∧ unchanged s s') s.
Proof.
  unfold remove_file. apply wp_bind, runs_call. intros tr.
  destruct (coop_remove p (world s)) as [He Hv].
  match goal with |- wp _ _ (match ?x with _ => _ end) _ _ => destruct x as [[]|err] eqn:Hx end.
  - by apply wp_ok.
  - rewrite He by done. by apply wp_ok.
Qed.

Lemma runs_deleteFiles b f e s :
  Working b f e s → runs deleteFiles (λ r s', r = inl tt ∧ unchanged s s') s.
Proof.
  intros HW. unfold deleteFiles, getScriptFilePath. apply wp_bind, wp_bind.
  eapply runs_machine; [done|]. intros m _ _ _ _. apply wp_ret, wp_tryE.
  eapply wp_mono; [apply runs_remove_file|]. intros r s1 [-> Hu1].
  eapply wp_mono; [apply runs_remove_file|]. intros r s2 [-> Hu2].
  split; [done|]. exact (unchanged_trans _ _ _ Hu1 Hu2).
Qed.

Lemma runs_deleteDockerMachine b f e P s :
  Synced b f e P s → key_Name (b_key b) ∈ e_docker e →
  runs deleteDockerMachine (λ r s', ∃ e', r = inl tt ∧ same_env e e' ∧ Synced b f e' P s') s.
Proof.
  intros HS Hin. unfold deleteDockerMachine. apply wp_bind.
  eapply runs_machine; [by eapply Synced_Working|]. intros m _ Hb _ _.
  assert (Name (Meta m) = key_Name (b_key b)) as -> by (by rewrite <- Hb).
  apply wp_bind, runs_call. intros tr.
  destruct (coop_rm None (key_Name (b_key b)) (world s)) as [-> Hv]; [by destruct HS as (_ & _ & ->)|].
  apply wp_ok. eexists. split_and!; [done| |by eapply (Synced_env _ _ _ _ s)]. done.
Qed.

Lemma runs_cleanupMachineResources b f e P s :
  Synced b f e P s → removable b e →
  runs cleanupMachineResources (λ r s', ∃ e', r = inl tt ∧ same_env e e' ∧ Synced b f e' P s') s.
Proof.
  intros HS (Hdm & d & Hd & Haws & Haz). unfold cleanupMachineResources. apply wp_tryE.
  eapply wp_mono; [eapply runs_deleteFiles; by eapply Synced_Working|]. intros r s1 [-> Hu1].
  apply (Synced_unchanged _ _ _ _ _ s1) in HS; [|done]. apply wp_tryE.
  eapply wp_mono; [by eapply runs_deleteDockerMachine|]. intros r s2 (e2 & -> & Hse & HS2).
  unfold cleanup_cloud. apply wp_bind.
  eapply wp_mono; [eapply runs_driverName; [by eapply Synced_Working|done]|].
  intros x s3 [-> ->]. pose proof Hse as [Hse1 Hse2].
  assert (aws_ready b e → aws_ready b e2) by (unfold aws_ready; by rewrite Hse1).
  assert (azure_ready b e → azure_ready b e2) by (unfold azure_ready; by rewrite Hse1). case_decide.
  { eapply wp_mono; [eapply (runs_cleanupAWSResources b f e2); [exact HS2|by auto]|].
    intros r s3 (e3 & -> & [He3 He3'] & HS3). exists e3. by split_and!; [|split; congruence|]. }
  case_decide.
  - eapply wp_mono; [eapply (runs_deleteAzureResourceGroup b f e2); [exact HS2|by auto]|].
    intros r s3 [-> HS3]. by exists e2.
  - apply wp_ok. by exists e2.
Qed.

Definition b_remove_finalizer (fin : string) b : Body :=
  mkBody (b_key b) (b_Spec b) (b_Annotations b)
    (filter (λ name, name ≠ fin) (b_Finalizers b)) (b_DeletionTimestamp b).

(** The object is gone, or the finalizer is no longer on it. *)
Definition released (k : ObjectKey) (w : World) : Prop :=
  ∀ m, v_objects (view w) !! key_pair k = Some m → GetFinalizer ∉ Finalizers (Meta m).

(** Nothing else is stored than before. *)
Definition others_only (k : ObjectKey) (w : World) : Prop :=
  delete (key_pair k) (v_objects (view w)) = others.

Lemma store_object_released m v k :
  machine_key m = k → GetFinalizer ∉ Finalizers (Meta m) →
  ∀ m', v_objects (store_object m v) !! key_pair k = Some m' → GetFinalizer ∉ Finalizers (Meta m').
Proof.
  intros <- Hf m'. unfold store_object. simpl. case_match.
  - by rewrite lookup_delete_eq.
  - rewrite lookup_insert_eq. by intros [= <-].
Qed.

Lemma runs_removeFinalizer b f e P s :
  Synced b f e P s → removable b e → GetFinalizer ∈ b_Finalizers b →
  runs removeFinalizerAfterCleanup (λ r s', r = inl tt ∧ released (b_key b) (world s') ∧
    others_only (b_key b) (world s')) s.
Proof.
  intros HS Hrm Hfin. unfold removeFinalizerAfterCleanup. apply wp_bind.
  assert (alive b) as Ha by (right; intros Hn; rewrite Hn in Hfin; by apply elem_of_nil in Hfin).
  eapply runs_machine; [by eapply Synced_Working|]. intros m _ Hb _ _.
  assert (ContainsFinalizer m GetFinalizer = true) as ->
    by (apply ContainsFinalizer_spec; by rewrite <- Hb in Hfin).
  apply wp_tryE. eapply wp_mono; [eapply runs_update_own; [by eapply Synced_Working|done]|].
  intros r s1 [-> HS1]. apply wp_tryE.
  eapply wp_mono; [by eapply runs_cleanupMachineResources|].
  intros r s2 (e2 & -> & _ & HS2). unfold patchFinalizer.
  eapply wp_mono; [eapply (runs_CreateOrPatch _ (b_remove_finalizer GetFinalizer)); [|done|exact HS2]|].
  { done. }
  intros r s3 (-> & m3 & _ & Hb3 & _ & _ & _ & Hv3). split; [done|].
  assert (machine_key m3 = b_key b) as Hk3 by (change (b_key (body m3) = b_key b); by rewrite Hb3).
  destruct HS2 as (_ & (m0 & Hm0 & _) & _).
  unfold released, others_only. rewrite Hv3. split; [apply store_object_released|by eapply store_object_others].
  - done.
  - change (GetFinalizer ∉ b_Finalizers (body m3)). rewrite Hb3. simpl.
    rewrite list_elem_of_filter. by intros [? _].
Qed.

(** A reconciliation without the finalizer has nothing to do. *)
Lemma runs_removeFinalizer_released b f e s :
  Working b f e s → GetFinalizer ∉ b_Finalizers b →
  runs removeFinalizerAfterCleanup (λ r s', r = inl tt ∧ s' = s) s.
Proof.
  intros HW Hfin. unfold removeFinalizerAfterCleanup. apply wp_bind.
  eapply runs_machine; [done|]. intros m _ Hb _ _.
  destruct (ContainsFinalizer m GetFinalizer) eqn:Hc; [|by apply wp_ok].
  apply ContainsFinalizer_spec in Hc. by rewrite <- Hb in Hfin.
Qed.
End Teardown.
