(* ===== verification/SlowSim.v ===== *)
(** * A cooperating environment

    The services of [Sim.v] with a start-up script that takes its time: the
    first attempts to fetch its result fail, later ones bring a file that says
    0.  They implement the interfaces of the progress theorems. *)

From S2P Require Import Prelude GoLib Types Conditions Summary Effects Kube Aws Azure Cleanup Cluster MachineOps Reconcile Evidence Logic NoPanic Cooperation Provision Teardown Sim.

Record Slow := mkSlow { slow_sim : Sim; slow_left : nat }.

Definition scp_result (w : Slow) : ExecResult * Slow :=
  match slow_left w with
  | S n => ({| ex_err := Some (exit_status 1); ex_stdout := ""; ex_stderr := "scp" |},
            mkSlow (slow_sim w) n)
  | O => ({| ex_err := None; ex_stdout := ""; ex_stderr := "" |},
          mkSlow (with_files (slow_sim w) (<[resultFile := "0"]> (sim_files (slow_sim w)))) 0)
  end.

(** Everything but the script, and gateways, which can always be created, is
    answered by the simulation. *)
Definition slow_base {X} (c : Call X) (w : Slow) : X * Slow :=
  let '(x, w') := sim_serve c (slow_sim w) in (x, mkSlow w' (slow_left w)).

Definition slow_serve {X} (c : Call X) : Slow → X * Slow :=
  match c in Call X return Slow → X * Slow with
  | Exec t n args => λ w,
      if decide (command args "scp") then scp_result w else slow_base (Exec t n args) w
  | CreateInternetGateway _ => λ w,
      (inl (Some {| igw_InternetGatewayId := Some "igw-1" |}), w)
  | c => slow_base c
  end.

#[export] Instance Slow_Services : Services Slow := {|
  serve X c w := slow_serve c w;
  clock w := sim_clock (slow_sim w);
  range_order _ m := map_to_list m;
  range_order_perm _ _ := Permutation_refl _
|}.

Lemma slow_exec t n args w :
  serve (Exec t n args) w =
    if decide (command args "scp") then scp_result w else slow_base (Exec t n args) w.
Proof. done. Qed.

Lemma slow_exec_other t n args cmd w :
  command args cmd → cmd ≠ "scp" → serve (Exec t n args) w = slow_base (Exec t n args) w.
Proof. intros Hc Hne. rewrite slow_exec. case_decide; [|done]. unfold command in *. congruence. Qed.

Lemma slow_exec_scp t n args w :
  command args "scp" → serve (Exec t n args) w = scp_result w.
Proof. intros Hc. rewrite slow_exec. by rewrite decide_True. Qed.

Definition slow_view (w : Slow) : View :=
  mkView (sim_machines (slow_sim w))
    (mkEnv (sim_secrets (slow_sim w)) (slow_left w)
       (list_to_map ((λ v, (v, O)) <$> sim_vpcs (slow_sim w)))
       (list_to_set (sim_docker (slow_sim w)))).

Definition slow_fetched (w : Slow) : option string := sim_files (slow_sim w) !! resultFile.

Lemma slow_vpcs_lookup l id n :
  (list_to_map ((λ v : string, (v, O)) <$> l) : gmap string nat) !! id = Some n → n = O ∧ id ∈ l.
Proof.
  intros H%elem_of_list_to_map_2. apply list_elem_of_fmap in H as (v & [= -> ->] & Hv). done.
Qed.

Lemma store_view w m n :
  slow_view (mkSlow (store w m) n) = store_object m (slow_view (mkSlow w n)).
Proof. unfold store, store_object, slow_view. simpl. by case_match. Qed.

#[export] Program Instance Slow_Cooperating : Cooperating Slow := {|
  view := slow_view; fetched := slow_fetched
|}.
Next Obligation. intros m w. split; [by eexists|done]. Qed.
Next Obligation. intros k m w Hm. simpl in *. unfold slow_base. simpl. by rewrite Hm. Qed.
Next Obligation. intros k sec w Hs. simpl in *. unfold slow_base. simpl. by rewrite Hs. Qed.
Next Obligation.
  intros kind cur mod_ w Hm Hk. simpl in *. unfold slow_base. simpl. unfold sim_update. rewrite Hm.
  eexists. split_and!; [done|done|done|]. simpl. by rewrite store_view; destruct w.
Qed.
Next Obligation.
  intros old obj w Hm. simpl in *. unfold slow_base. simpl. unfold sim_update. rewrite Hm.
  eexists. split_and!; [done|done|done|]. simpl. by rewrite store_view; destruct w.
Qed.
Next Obligation.
  intros t args name w Hc Hl. rewrite (slow_exec_other _ _ _ _ _ Hc) by done. unfold slow_base. simpl. destruct args as [|a args]; [done|]. injection Hc as ->.
  unfold sim_exec. cbn [head]. rewrite Hl. cbn [default]. case_decide as Hin; simpl.
  - split; [by right|]. unfold slow_view, in_env, set_docker. simpl. do 2 f_equal.
    apply leibniz_equiv. set_solver.
  - split; [by left|]. done.
Qed.
Next Obligation.
  intros t name w Hin. rewrite (slow_exec_other _ _ _ "rm") by done. apply elem_of_list_to_set in Hin.
  unfold slow_base. simpl. rewrite decide_True by done. split; [done|].
  unfold slow_view, in_env, set_docker. simpl. do 2 f_equal.
  apply leibniz_equiv. intros x. rewrite elem_of_list_to_set, list_elem_of_filter. set_solver.
Qed.
Next Obligation.
  intros t args w n Hc Hn. simpl in Hn. rewrite slow_exec_scp by done. unfold scp_result. rewrite Hn.
  split; [by eexists|done].
Qed.
Next Obligation.
  intros t args w Hc Hn. simpl in Hn. rewrite slow_exec_scp by done. unfold scp_result. rewrite Hn.
  split_and!; [done| |].
  - exists "0". split; [|by_eval]. unfold slow_fetched. simpl. by rewrite lookup_insert_eq.
  - unfold slow_view. simpl. by rewrite Hn.
Qed.
Next Obligation.
  intros content w Hf. unfold slow_fetched in Hf. simpl. unfold slow_base. simpl.
  unfold resultFile in *. rewrite Hf. split_and!; [done| |by destruct w]. done.
Qed.
Next Obligation.
  intros w [content Hf]. unfold slow_fetched, resultFile in *. simpl. unfold slow_base. simpl.
  by rewrite Hf.
Qed.
Next Obligation.
  intros p w. simpl. unfold slow_base. simpl. destruct (sim_files (slow_sim w) !! p); simpl.
  - split; [done|]. done.
  - split; [by intros e [= <-]|by destruct w].
Qed.
Next Obligation.
  intros p w. simpl. unfold slow_base. simpl. destruct (sim_files (slow_sim w) !! p); simpl.
  - split; [done|by destruct w].
  - split; [by intros e [= <-]|by destruct w].
Qed.
Next Obligation. intros p d perm w. done. Qed.

(** ** EC2 and Azure *)

Lemma slow_same w : slow_view (mkSlow (slow_sim w) (slow_left w)) = slow_view w.
Proof. by destruct w. Qed.

Lemma slow_vpcs_elem l (id : string) :
  is_Some ((list_to_map ((λ v : string, (v, O)) <$> l) : gmap string nat) !! id) → id ∈ l.
Proof. intros [n H]. by apply slow_vpcs_lookup in H as [_ ?]. Qed.

Lemma sim_describe c id w :
  id ∈ sim_vpcs w →
  sim_serve (DescribeVpcs c [id]) w =
    (inl [Some {| vpc_VpcId := Some id; vpc_State := Some "available" |}], w).
Proof. intros Hin. unfold sim_serve. by rewrite filter_cons_True, filter_nil. Qed.

#[export] Program Instance Slow_Ec2 : Ec2Cooperating Slow.
Next Obligation. intros c w. split; [done|apply slow_same]. Qed.
Next Obligation. intros d w. apply slow_same. Qed.
Next Obligation.
  intros c cidr w. eexists _, _, O. split_and!; [done|done|done|lia|done].
Qed.
Next Obligation.
  intros c id n w Hid. apply slow_vpcs_lookup in Hid as Hn. destruct Hn as [-> Hin].
  cbn [serve Slow_Services slow_serve]. unfold slow_base. rewrite sim_describe by done.
  do 2 eexists. split_and!; [done|done|done|done|]. unfold slow_view, in_env, set_vpc, set_vpcs. simpl.
  by rewrite insert_id.
Qed.
Next Obligation.
  intros c cidr vpc zone w _. do 2 eexists. split_and!; [done|done|done|apply slow_same].
Qed.
Next Obligation. intros c w. do 2 eexists. by split_and!. Qed.
Next Obligation. intros c gw vpc w _. split; [done|apply slow_same]. Qed.
Next Obligation.
  intros c w. eexists. split_and!; [done| | |apply slow_same].
  - apply filled_fmap. intros v. by eexists.
  - intros id Hid%slow_vpcs_elem.
    exists {| rt_VpcId := Some id; rt_RouteTableId := Some ("rtb-" +:+ id) |}. split; [|done].
    apply list_elem_of_fmap. exists id. by split.
Qed.
Next Obligation. intros c cidr gw rt w. split; [done|apply slow_same]. Qed.
Next Obligation. intros c cidr rt w. apply slow_same. Qed.
Next Obligation. intros c gw vpc w. apply slow_same. Qed.
Next Obligation. intros c gw w. apply slow_same. Qed.
Next Obligation. intros c sn w. apply slow_same. Qed.
Next Obligation.
  intros c vpc w. eexists. split_and!; [done| |apply slow_same].
  constructor; [|constructor]. eexists. split; [done|by eexists].
Qed.
Next Obligation. intros c g w. apply slow_same. Qed.
Next Obligation.
  intros c id w. simpl. unfold slow_base. simpl. case_decide; simpl.
  - split; [done|]. eexists. done.
  - split; [done|]. eexists. rewrite slow_same. by destruct w.
Qed.

#[export] Program Instance Slow_Azure : AzureCooperating Slow.
Next Obligation. intros t c p w. split; [done|apply slow_same]. Qed.
Next Obligation. intros sub w. split; [done|apply slow_same]. Qed.
Next Obligation. intros c g w. split; [by eexists|apply slow_same]. Qed.
Next Obligation. intros p w. split; [done|apply slow_same]. Qed.

(** The machines of [Sim.v], with a script that needs three attempts. *)
Definition slow_start (w : Sim) : St Slow := mkSt (mkSlow w 3) None [].
