(* ===== verification/Liveness.v ===== *)
(** * Progress of the operator

    With cooperating services, repeated reconciliations bring a machine to
    [Success] and keep it there, and a deleted machine loses its finalizer.
    The environment of [Sim.v], with a script that takes its time, is an
    instance. *)

From S2P Require Import Prelude GoLib Types Conditions ConditionsFacts Summary StatusSpec StatusInv States Effects Kube Aws Azure Cleanup Cluster MachineOps Reconcile Evidence Logic Waiting NoPanic CommandLine Cooperation Provision Progress Teardown Sim SlowSim.

(** [n] reconciliations of a request in a row. *)
Fixpoint reconcile_times {World} `{!Services World} (n : nat) (req : ObjectKey) (s : St World)
    : St World :=
  match n with
  | O => s
  | S n => reconcile_times n req (Reconcile req s).2
  end.

Section Liveness.
Context {World : Type} `{CO : Cooperating World} `{EC : !Ec2Cooperating World} `{AZ : !AzureCooperating World} `{OT : Others}.
Implicit Types (s : St World) (b : Body) (f : States) (e : Environment) (P : string → Prop).

(** ** One reconciliation *)

(** The machine is read, and its phase decides. *)
Lemma runs_Reconcile b f e P s Q :
  Stored b f P (world s) → v_env (view (world s)) = e →
  (∀ p s', P p → Synced b f e (eq p) s' →
     runs (if decide (p = "") then
             upd ← updateMachineStatus (b_key b);
             mret (Result_zero, match upd with inl _ => None | inr e => Some e end)
           else if body_deleting b then reconcile_delete else reconcile_normal (b_key b)) Q s') →
  runs (Reconcile (b_key b)) Q s.
Proof.
  intros (m & Hm & Hb & Hc & Hf & HP) He HQ. unfold Reconcile, updateMachineReconcile.
  apply wp_bind, wp_bind. eapply runs_answer; [by apply (coop_get (b_key b) m), Hm|].
  intros w tr Hw. apply wp_bind, wp_put_machine, wp_ret.
  assert (Synced b f e (eq (Phase (Status m))) (mkSt w (Some m) tr)) as HS.
  { split_and!; [|exists m; simpl; by rewrite Hw|simpl; by rewrite Hw].
    exists m. split_and!; [done..|]. simpl. rewrite Hw. eapply current_stored; [|done].
    assert (machine_key m = b_key b) as -> by (by rewrite <- Hb). apply Hm. }
  specialize (HQ _ _ HP HS). apply wp_bind. eapply wp_ext; [done|]. apply wp_ret.
  case_decide; [exact HQ|]. apply wp_bind. unfold isMarkedForDeletion. apply wp_bind.
  eapply wp_ext; [done|]. apply wp_ret, wp_ret.
  change (negb (Time_IsZero (DeletionTimestamp (Meta m)))) with (deleting m).
  by rewrite (deleting_body m b Hb).
Qed.

(** The first reconciliation of a new object gives it a phase. *)
Lemma runs_Reconcile_first b f e s :
  Stored b f (eq "") (world s) → v_env (view (world s)) = e → alive b →
  runs (Reconcile (b_key b)) (λ r s', r = (Result_zero, None) ∧ Synced b f e (λ p, p ≠ "") s') s.
Proof.
  intros Hst He Ha. eapply runs_Reconcile; [exact Hst|exact He|]. intros p s1 <- HS.
  rewrite decide_True by done. apply wp_bind.
  eapply wp_mono; [eapply runs_update; [by eapply Synced_Working|done]|].
  intros r s2 [-> (Hl & (m & ? & ? & ? & ? & Hp) & Hv)]. apply wp_ret. split; [done|].
  split_and!; [done| |done]. exists m. split_and!; [done..|apply Hp].
Qed.

(** A later one creates the machine if needed, and asks about the script. *)
Lemma runs_Reconcile_next b f e s :
  Stored b f (λ p, p ≠ "") (world s) → v_env (view (world s)) = e → body_deleting b = false →
  is_Some (Driver (b_Spec b)) → ready_states f ∨ creatable b f e →
  runs (Reconcile (b_key b)) (λ r s', ∃ b' f' e', r = (requeue_of (e_attempts e), None) ∧
    b_key b' = b_key b ∧ b_Spec b' = b_Spec b ∧ body_deleting b' = false ∧ ready_states f' ∧
    e_attempts e' = pred (e_attempts e) ∧
    Synced b' f' e' (λ p, p = script_phase (e_attempts e)) s') s.
Proof.
  intros Hst He Hd [d Hdr] Hor. eapply runs_Reconcile; [exact Hst|exact He|]. intros p s1 Hp HS.
  rewrite decide_False by done. rewrite Hd. by eapply runs_reconcile_normal.
Qed.

Lemma runs_Reconcile_delete b f e s :
  Stored b f (λ p, p ≠ "") (world s) → v_env (view (world s)) = e → body_deleting b = true →
  removable b e → GetFinalizer ∈ b_Finalizers b →
  runs (Reconcile (b_key b)) (λ r s', r.2 = None ∧ released (b_key b) (world s') ∧ others_only (b_key b) (world s')) s.
Proof.
  intros Hst He Hd Hrm Hfin. eapply runs_Reconcile; [exact Hst|exact He|]. intros p s1 Hp HS.
  rewrite decide_False by done. rewrite Hd. unfold reconcile_delete. apply wp_bind.
  eapply wp_mono; [by eapply runs_removeFinalizer|]. intros r s2 (-> & Hr). by apply wp_ret.
Qed.

(** ** Reconciliations in a row *)

(** The machine exists, and [n] more attempts to fetch the result will fail. *)
Definition Ready (k : ObjectKey) (n : nat) (P : string → Prop) s : Prop :=
  ∃ b f e, b_key b = k ∧ is_Some (Driver (b_Spec b)) ∧ body_deleting b = false ∧
    ready_states f ∧ e_attempts e = n ∧ Stored b f P (world s) ∧ v_env (view (world s)) = e.

Lemma Ready_step k n s :
  Ready k n (λ p, p ≠ "") s →
  (Reconcile k s).1 = Normal (requeue_of n, None) ∧
  Ready k (pred n) (λ p, p = script_phase n) (Reconcile k s).2.
Proof.
  intros (b & f & e & <- & Hdr & Hd & Hr & <- & Hst & He).
  destruct (wp_normal _ _ _ _ (runs_Reconcile_next b f e s Hst He Hd Hdr (or_introl Hr)))
    as (r & Heq & b' & f' & e' & -> & Hk & Hsp & Hd' & Hr' & Hat & _ & Hst' & He').
  split; [done|]. exists b', f', e'.
  split_and!; [done|by rewrite Hsp|done..].
Qed.

Lemma script_phase_nonempty n : script_phase n ≠ "".
Proof. by destruct n. Qed.

Lemma Ready_weaken k n (P P' : string → Prop) s :
  (∀ p, P p → P' p) → Ready k n P s → Ready k n P' s.
Proof.
  intros HP (b & f & e & ? & ? & ? & ? & ? & (m & ? & ? & ? & ? & ?) & ?). exists b, f, e.
  split_and!; [done..| |done]. exists m. split_and!; [done..|by apply HP].
Qed.

Lemma Ready_script k n s :
  Ready k n (λ p, p = script_phase n) s → Ready k n (λ p, p ≠ "") s.
Proof. apply Ready_weaken. intros p ->. apply script_phase_nonempty. Qed.

(** Once ready with [n] attempts to go, the machine shows [Success] from
    reconciliation [n + 1] on. *)
Lemma Ready_times k : ∀ i n s,
  Ready k n (λ p, p ≠ "") s → (n < i)%nat →
  Ready k 0 (eq MachinePhaseSuccess) (reconcile_times i k s).
Proof.
  induction i as [|i IH]; intros n s HR Hi; [lia|]. simpl.
  destruct (Ready_step k n s HR) as [_ HR']. destruct i as [|i].
  { assert (n = 0%nat) as -> by lia. eapply Ready_weaken; [|exact HR']. by intros p ->. }
  destruct n as [|n].
  - apply (IH 0%nat); [|lia]. eapply Ready_weaken; [|exact HR']. by intros p ->.
  - apply (IH n); [|lia]. eapply Ready_weaken; [|exact HR']. by intros p ->.
Qed.

(** The phase that is stored. *)
Definition stored_phase (k : ObjectKey) (w : World) : option string :=
  (λ m, Phase (Status m)) <$> v_objects (view w) !! key_pair k.

Lemma Ready_phase k n p s : Ready k n (eq p) s → stored_phase k (world s) = Some p.
Proof.
  intros (b & f & e & <- & _ & _ & _ & _ & (m & [Hm _] & _ & _ & _ & ->) & _).
  unfold stored_phase. by rewrite Hm.
Qed.

(** From a machine that can be created to one that is ready. *)
Lemma creatable_Ready b f e s :
  Stored b f (λ p, p ≠ "") (world s) → v_env (view (world s)) = e → body_deleting b = false →
  creatable b f e →
  (Reconcile (b_key b) s).1 = Normal (requeue_of (e_attempts e), None) ∧
  Ready (b_key b) (pred (e_attempts e)) (λ p, p = script_phase (e_attempts e))
    (Reconcile (b_key b) s).2.
Proof.
  intros Hst He Hd Hc. pose proof Hc as (_ & _ & (d & Hdr & _) & _).
  assert (is_Some (Driver (b_Spec b))) as Hdr' by by exists d.
  destruct (wp_normal _ _ _ _ (runs_Reconcile_next b f e s Hst He Hd Hdr' (or_intror Hc)))
    as (r & Heq & b' & f' & e' & -> & Hk & Hsp & Hd' & Hr' & Hat & _ & Hst' & He').
  split; [done|]. exists b', f', e'. split_and!; [done|by rewrite Hsp|done..].
Qed.

Lemma Ready_success k n j s :
  Ready k (pred n) (λ p, p = script_phase n) s → (n ≤ j)%nat →
  stored_phase k (world (reconcile_times j k s)) = Some MachinePhaseSuccess.
Proof.
  intros HR Hj. destruct j as [|j].
  - assert (n = 0%nat) as -> by lia. eapply Ready_phase, Ready_weaken, HR. by intros p ->.
  - eapply Ready_phase, (Ready_times k (S j) (pred n)); [|lia].
    eapply Ready_weaken, HR. intros p ->. apply script_phase_nonempty.
Qed.

(** A machine reaches [Success] and stays there.  When the API server
    stores and answers objects, the secrets are readable and complete,
    [docker-machine] and EC2 do what they are asked, and the script's result
    can be fetched after [n] failed attempts, then a machine that is not being
    deleted and was not created yet, new or left behind by earlier failures
    before its creation, shows the phase [Success] after every number of
    reconciliations from [n + 2] on. *)
Lemma reaches_success b f e s i :
  Stored b f (λ _, True) (world s) → v_env (view (world s)) = e →
  body_deleting b = false → creatable b f e →
  (e_attempts e + 2 ≤ i)%nat →
  stored_phase (b_key b) (world (reconcile_times i (b_key b) s)) = Some MachinePhaseSuccess.
Proof.
  intros (m & Hm & Hb & Hc & Hf & _) He Hd Hcr Hi.
  destruct i as [|[|i]]; [lia|lia|]. destruct (decide (Phase (Status m) = "")) as [Hp|Hp].
  - assert (Stored b f (eq "") (world s)) as Hst by (exists m; by split_and!).
    destruct (wp_normal _ _ _ _ (runs_Reconcile_first b f e s Hst He (or_introl Hd)))
      as (r & _ & _ & _ & Hst1 & He1).
    simpl. apply (Ready_success _ (e_attempts e)); [|lia]. by apply (creatable_Ready b f e).
  - assert (Stored b f (λ p, p ≠ "") (world s)) as Hst by (exists m; by split_and!).
    change (reconcile_times (S (S i)) (b_key b) s)
      with (reconcile_times (S i) (b_key b) (Reconcile (b_key b) s).2).
    apply (Ready_success _ (e_attempts e)); [|lia]. by apply (creatable_Ready b f e).
Qed.

(** The one or two reconciliations that take a machine down. *)
Lemma release_times b f e s :
  Stored b f (λ _, True) (world s) → v_env (view (world s)) = e →
  body_deleting b = true → GetFinalizer ∈ b_Finalizers b → removable b e →
  ∃ n, (1 ≤ n ≤ 2)%nat ∧ released (b_key b) (world (reconcile_times n (b_key b) s)) ∧
    (∀ j, (j ≤ n)%nat → others_only (b_key b) (world (reconcile_times j (b_key b) s))) ∧
    ∀ j, (j < n)%nat → ∃ r, (Reconcile (b_key b) (reconcile_times j (b_key b) s)).1 = Normal (r, None) ∧
      ((S j = n)%nat ∨
       v_objects (view (world (reconcile_times j (b_key b) s))) !! key_pair (b_key b) ≠
       v_objects (view (world (reconcile_times (S j) (b_key b) s))) !! key_pair (b_key b)).
Proof.
  intros (m & Hm & Hb & Hc & Hf & _) He Hd Hfin Hrm.
  assert (alive b) as Ha by (right; intros Hn; rewrite Hn in Hfin; by apply elem_of_nil in Hfin).
  destruct (decide (Phase (Status m) = "")) as [Hp|Hp].
  - assert (Stored b f (eq "") (world s)) as Hst by (exists m; by split_and!).
    destruct (wp_normal _ _ _ _ (runs_Reconcile_first b f e s Hst He Ha)) as (r1 & Hr1 & -> & _ & Hst1 & He1).
    destruct (wp_normal _ _ _ _ (runs_Reconcile_delete b f _ _ Hst1 He1 Hd Hrm Hfin))
      as ([r2 er] & Hr2 & Hn2 & Hrel & Ho). simpl in Hn2. subst er.
    destruct Hst1 as (m1 & Hm1 & _ & _ & _ & Hp1).
    exists 2%nat. split_and!; [lia|lia|done| |].
    + intros [|[|[|j]]] Hj; [apply Hm|apply Hm1|done|lia].
    + intros [|[|j]] Hj; [|by exists r2; split; [|left]|lia]. eexists. split; [done|]. right. simpl.
      destruct Hm as [-> _], Hm1 as [-> _]. by intros [= <-].
  - assert (Stored b f (λ p, p ≠ "") (world s)) as Hst by (exists m; by split_and!).
    destruct (wp_normal _ _ _ _ (runs_Reconcile_delete b f e s Hst He Hd Hrm Hfin))
      as ([r er] & Hr & Hn & Hrel & Ho). simpl in Hn. subst er.
    exists 1%nat. split_and!; [lia|lia|done| |].
    + intros [|[|j]] Hj; [apply Hm|done|lia].
    + intros [|j] Hj; [|lia]. exists r. by split; [|left].
Qed.

(** A deleted machine is released.  When the services cooperate in the
    same way, and the credentials of the driver's cloud are readable, a machine
    that is being deleted has lost the operator's finalizer, or is gone, after
    one or two reconciliations, and none of them reports an error. *)
Lemma deletion_completes b f e s :
  Stored b f (λ _, True) (world s) → v_env (view (world s)) = e →
  body_deleting b = true → GetFinalizer ∈ b_Finalizers b → removable b e →
  ∃ i, (1 ≤ i ≤ 2)%nat ∧ released (b_key b) (world (reconcile_times i (b_key b) s)) ∧
    ∀ j, (j < i)%nat → ∃ r, (Reconcile (b_key b) (reconcile_times j (b_key b) s)).1 = Normal (r, None).
Proof.
  intros Hst He Hd Hfin Hrm. destruct (release_times b f e s Hst He Hd Hfin Hrm) as (n & Hn & Hrel & _ & Hj).
  exists n. split_and!; [lia|lia|done|]. intros j Hjn. destruct (Hj j Hjn) as (r & Hr & _). by exists r.
Qed.

(** The AWS environment is complete.  When EC2 cooperates and a new VPC
    becomes available within a minute, [createAWSEnvironment] succeeds for a
    machine that has no subnet recorded, and no VPC or one that exists;
    afterwards the stored object is the same but for its annotations, which
    record a VPC, a subnet and a gateway, and the status is untouched. *)
Lemma aws_environment_complete b f e P s :
  Synced b f e P s → body_deleting b = false → aws_ready b e →
  b_annotation b awsSubnetIDAnnotation = "" →
  (b_annotation b awsVPCIDAnnotation = "" ∨ vpc_there b e) →
  ∃ b', (createAWSEnvironment s).1 = Normal (inl tt) ∧ same_object b b' ∧
    environment_recorded b' ∧ Stored b' f P (world (createAWSEnvironment s).2).
Proof.
  intros HS Hd Hr Hsub Hvpc.
  destruct (wp_normal _ _ _ _ (runs_createAWSEnvironment b f e P s HS (or_introl Hd)
    (or_intror (conj Hr (conj Hsub Hvpc))))) as (r & Heq & b' & e' & -> & Hsame & _ & Hrec & _ & Hst & _).
  by exists b'.
Qed.
End Liveness.

(** ** The hypotheses at work *)

#[local] Existing Instance alone.

Definition no_states : States := λ _, None.

Lemma slow_stored (m : Machine) (auth : list (string * string)) P :
  machine_key m = demo_key → Conditions (Status m) = [] → P (Phase (Status m)) →
  Stored (OT := alone) (body m) no_states P (mkSlow (sim_start m auth) 3).
Proof.
  intros Hk Hc HP. exists m. simpl. rewrite Hk. split_and!; [split; by_eval|done| | |done].
  - simpl. unfold Machine_GetConditions. rewrite Hc. apply cond_core_nil.
  - simpl. unfold Machine_GetConditions. rewrite Hc. by intros t _.
Qed.

(** An Azure machine that was deleted before it got a phase. *)
Definition azure_deleted : Machine :=
  set_Meta (demo_machine AzureDriver []) {|
    Name := "rancher-vm"; Namespace := "demo"; ResourceVersion := "2"; Generation := 1;
    DeletionTimestamp := Some 5000; Finalizers := [GetFinalizer]; Annotations := None |}.

Definition azure_auth : list (string * string) :=
  [ (azureSubscriptionIDKeyField, "sub"); (azureTenantIDKeyField, "tenant");
    (azureClientIDKeyField, "client"); (azureClientSecretKeyField, "secret") ].

Definition azure_start : St Slow :=
  mkSt (mkSlow (with_docker (sim_start azure_deleted azure_auth) ["rancher-vm"]) 3) None [].

(** The network of an AWS machine is prepared. *)
Definition aws_loaded : St Slow := mkSt (mkSlow aws_start 3) (Some aws_machine) [].

Lemma aws_environment_complete_witness :
  ∃ b', (createAWSEnvironment aws_loaded).1 = Normal (inl tt) ∧ same_object (body aws_machine) b' ∧
    environment_recorded b' ∧ Stored b' no_states (λ _, True) (world (createAWSEnvironment aws_loaded).2).
Proof.
  apply (aws_environment_complete (body aws_machine) no_states (v_env (slow_view (mkSlow aws_start 3)))
           (λ _, True) aws_loaded).
  - split_and!; [|by apply slow_stored|done].
    exists aws_machine. split_and!; [done|done|apply cond_core_nil|by intros t _|].
    by apply (current_stored aws_machine aws_machine).
  - done.
  - do 2 eexists. split_and!; [done|by_eval|..]; by vm_compute.
  - done.
  - by left.
Defined.
