(* ===== verification/Memory.v ===== *)
(** * Objects in memory

    The rest of the development treats a Machine as a value.  In the program
    it is a struct that refers to other memory: pointers, slices with their
    backing arrays, and maps, which several structs may share.  Here are the
    structs as laid out in memory, a store, the operations of Go on it
    (allocation, slices, [append], maps), and the value a struct stands for.

    A field that holds a nil pointer, slice or map is [None].  A slice starts
    at the beginning of its backing array, as all slices of this program do,
    and its capacity is the length of the array. *)

From S2P Require Import Prelude Types.

Abbreviation loc := positive.

Record slice := mkSlice { sl_array : loc; sl_len : nat }.

(** ** Structs *)

Record ObjectMetaM := mkObjectMetaM {
  om_Name : string;
  om_Namespace : string;
  om_ResourceVersion : string;
  om_Generation : Z;
  om_DeletionTimestamp : option loc;
  om_Finalizers : option slice;
  om_Annotations : option loc
}.

Record MachineSpecM := mkMachineSpecM {
  ms_Driver : option loc;
  ms_ScriptRef : option loc;
  ms_AuthSecret : option loc;
  ms_Parameters : option loc
}.

Record MachineStatusM := mkMachineStatusM {
  mst_Conditions : option slice;
  mst_Phase : string
}.

Record MachineM := mkMachineM {
  mm_TypeMeta : TypeMeta;
  mm_ObjectMeta : ObjectMetaM;
  mm_Spec : MachineSpecM;
  mm_Status : MachineStatusM
}.

Record ListMetaM := mkListMetaM {
  lm_ResourceVersion : string;
  lm_Continue : string;
  lm_RemainingItemCount : option loc
}.

Record MachineListM := mkMachineListM {
  ml_TypeMeta : TypeMeta;
  ml_ListMeta : ListMetaM;
  ml_Items : option slice
}.

(** [DriverStatus] has no fields. *)
Record DriverStatus := mkDriverStatus {}.

Record DriverM := mkDriverM {
  dm_TypeMeta : TypeMeta;
  dm_ObjectMeta : ObjectMetaM;
  dm_Spec : DriverSpec;
  dm_Status : DriverStatus
}.

Record DriverListM := mkDriverListM {
  dl_TypeMeta : TypeMeta;
  dl_ListMeta : ListMetaM;
  dl_Items : option slice
}.

(** ** The store *)

(** [metav1.Time] behind a pointer. *)
Record Time := mkTime { seconds : Z }.

Inductive Cell :=
| CTime (t : Time)
| CInt64 (z : Z)
| CLocalRef (r : LocalObjectReference)
| CRef (r : ObjectReference)
| CMap (m : gmap string string)
| CStrings (l : list string)           (** backing arrays *)
| CConditions (l : list Condition)
| CMachines (l : list MachineM)
| CDrivers (l : list DriverM)
| CMachine (m : MachineM)              (** structs behind a pointer *)
| CMachineSpec (s : MachineSpecM)
| CMachineStatus (s : MachineStatusM)
| CMachineList (l : MachineListM)
| CDriver (d : DriverM)
| CDriverSpec (s : DriverSpec)
| CDriverStatus (s : DriverStatus)
| CDriverList (l : DriverListM).

Abbreviation Heap := (gmap loc Cell).

(** A computation on the store; [None] is a fault, the use of a location that
    is not there or holds something else. *)
Definition H (A : Type) : Type := Heap → option (A * Heap).

#[export] Instance H_ret : MRet H := λ A a h, Some (a, h).
#[export] Instance H_bind : MBind H := λ A B k m h,
  match m h with Some (a, h') => k a h' | None => None end.

(** [new] and [make]. *)
Definition alloc (c : Cell) : H loc := λ h,
  let l := fresh (dom h) in Some (l, <[l := c]> h).

Definition store (l : loc) (c : Cell) : H unit := λ h,
  match h !! l with Some _ => Some (tt, <[l := c]> h) | None => None end.

(** ** The kinds of cell *)

(** A type [A] whose values are cells. *)
Class CellOf (A : Type) := {
  to_cell : A → Cell;
  of_cell : Cell → option A;
  of_to_cell : ∀ a, of_cell (to_cell a) = Some a
}.

#[export] Instance Time_cell : CellOf Time.
Proof. refine {| to_cell := CTime; of_cell c := match c with CTime t => Some t | _ => None end |}. done. Defined.
#[export] Instance Int64_cell : CellOf Z.
Proof. refine {| to_cell := CInt64; of_cell c := match c with CInt64 z => Some z | _ => None end |}. done. Defined.
#[export] Instance LocalRef_cell : CellOf LocalObjectReference.
Proof. refine {| to_cell := CLocalRef; of_cell c := match c with CLocalRef r => Some r | _ => None end |}. done. Defined.
#[export] Instance Ref_cell : CellOf ObjectReference.
Proof. refine {| to_cell := CRef; of_cell c := match c with CRef r => Some r | _ => None end |}. done. Defined.
#[export] Instance Map_cell : CellOf (gmap string string).
Proof. refine {| to_cell := CMap; of_cell c := match c with CMap m => Some m | _ => None end |}. done. Defined.
#[export] Instance Strings_cell : CellOf (list string).
Proof. refine {| to_cell := CStrings; of_cell c := match c with CStrings l => Some l | _ => None end |}. done. Defined.
#[export] Instance Conditions_cell : CellOf (list Condition).
Proof. refine {| to_cell := CConditions; of_cell c := match c with CConditions l => Some l | _ => None end |}. done. Defined.
#[export] Instance Machines_cell : CellOf (list MachineM).
Proof. refine {| to_cell := CMachines; of_cell c := match c with CMachines l => Some l | _ => None end |}. done. Defined.
#[export] Instance Drivers_cell : CellOf (list DriverM).
Proof. refine {| to_cell := CDrivers; of_cell c := match c with CDrivers l => Some l | _ => None end |}. done. Defined.
#[export] Instance Machine_cell : CellOf MachineM.
Proof. refine {| to_cell := CMachine; of_cell c := match c with CMachine m => Some m | _ => None end |}. done. Defined.
#[export] Instance MachineSpec_cell : CellOf MachineSpecM.
Proof. refine {| to_cell := CMachineSpec; of_cell c := match c with CMachineSpec m => Some m | _ => None end |}. done. Defined.
#[export] Instance MachineStatus_cell : CellOf MachineStatusM.
Proof. refine {| to_cell := CMachineStatus; of_cell c := match c with CMachineStatus m => Some m | _ => None end |}. done. Defined.
#[export] Instance MachineList_cell : CellOf MachineListM.
Proof. refine {| to_cell := CMachineList; of_cell c := match c with CMachineList m => Some m | _ => None end |}. done. Defined.
#[export] Instance Driver_cell : CellOf DriverM.
Proof. refine {| to_cell := CDriver; of_cell c := match c with CDriver m => Some m | _ => None end |}. done. Defined.
#[export] Instance DriverSpec_cell : CellOf DriverSpec.
Proof. refine {| to_cell := CDriverSpec; of_cell c := match c with CDriverSpec m => Some m | _ => None end |}. done. Defined.
#[export] Instance DriverStatus_cell : CellOf DriverStatus.
Proof. refine {| to_cell := CDriverStatus; of_cell c := match c with CDriverStatus m => Some m | _ => None end |}. done. Defined.
#[export] Instance DriverList_cell : CellOf DriverListM.
Proof. refine {| to_cell := CDriverList; of_cell c := match c with CDriverList m => Some m | _ => None end |}. done. Defined.

(** Reading and writing what a non-nil reference refers to. *)
Definition peek {A} `{!CellOf A} (h : Heap) (l : loc) : option A := h !! l ≫= of_cell.

Definition load {A} `{!CellOf A} (l : loc) : H A := λ h, (λ a, (a, h)) <$> peek h l.

Definition new {A} `{!CellOf A} (a : A) : H loc := alloc (to_cell a).

Definition write {A} `{!CellOf A} (l : loc) (a : A) : H unit := store l (to_cell a).

(** ** The value of a struct *)

(** [*p], nil-aware. *)
Definition read_ptr {A} `{!CellOf A} (h : Heap) (p : option loc) : option (option A) :=
  match p with
  | None => Some None
  | Some l => Some <$> peek h l
  end.

(** The elements of a slice. *)
Definition read_slice {A} `{!CellOf (list A)} (h : Heap) (s : option slice) : option (list A) :=
  match s with
  | None => Some []
  | Some s =>
      arr ← peek (A := list A) h (sl_array s);
      if decide (sl_len s ≤ length arr)%nat then Some (take (sl_len s) arr) else None
  end.

Definition read_ObjectMeta (h : Heap) (v : ObjectMetaM) : option ObjectMeta :=
  t ← read_ptr h (om_DeletionTimestamp v);
  an ← read_ptr h (om_Annotations v);
  fs ← read_slice h (om_Finalizers v);
  Some {| Name := om_Name v; Namespace := om_Namespace v;
          ResourceVersion := om_ResourceVersion v; Generation := om_Generation v;
          DeletionTimestamp := seconds <$> t; Finalizers := fs; Annotations := an |}.

Definition read_MachineSpec (h : Heap) (v : MachineSpecM) : option MachineSpec :=
  d ← read_ptr h (ms_Driver v);
  sc ← read_ptr h (ms_ScriptRef v);
  au ← read_ptr h (ms_AuthSecret v);
  ps ← read_ptr h (ms_Parameters v);
  Some {| Driver := d; ScriptRef := sc; AuthSecret := au; Parameters := default ∅ ps |}.

Definition read_MachineStatus (h : Heap) (v : MachineStatusM) : option MachineStatus :=
  cs ← read_slice h (mst_Conditions v);
  Some {| Conditions := cs; Phase := mst_Phase v |}.

Definition read_Machine (h : Heap) (v : MachineM) : option Machine :=
  om ← read_ObjectMeta h (mm_ObjectMeta v);
  sp ← read_MachineSpec h (mm_Spec v);
  st ← read_MachineStatus h (mm_Status v);
  Some {| TypeMetaOf := mm_TypeMeta v; Meta := om; Spec := sp; Status := st |}.

Definition read_Driver (h : Heap) (v : DriverM) : option DriverResource :=
  om ← read_ObjectMeta h (dm_ObjectMeta v);
  Some {| d_TypeMeta := dm_TypeMeta v; d_Meta := om; d_Spec := dm_Spec v |}.

(** A list object: its own fields and the values of its items. *)
Definition ListValue (X : Type) : Type := TypeMeta * string * string * option Z * list X.

Definition read_list {V X} `{!CellOf (list V)} (read : Heap → V → option X) (h : Heap)
    (tm : TypeMeta) (lm : ListMetaM) (items : option slice) : option (ListValue X) :=
  n ← read_ptr h (lm_RemainingItemCount lm);
  vs ← read_slice (A := V) h items;
  xs ← mapM (read h) vs;
  Some (tm, lm_ResourceVersion lm, lm_Continue lm, n, xs).

Definition read_MachineList (h : Heap) (v : MachineListM) : option (ListValue Machine) :=
  read_list read_Machine h (ml_TypeMeta v) (ml_ListMeta v) (ml_Items v).

Definition read_DriverList (h : Heap) (v : DriverListM) : option (ListValue DriverResource) :=
  read_list read_Driver h (dl_TypeMeta v) (dl_ListMeta v) (dl_Items v).

(** ** The memory a struct refers to *)

Definition slice_ref (s : option slice) : option loc := sl_array <$> s.

Definition refs_ObjectMeta (v : ObjectMetaM) : list (option loc) :=
  [om_DeletionTimestamp v; om_Annotations v; slice_ref (om_Finalizers v)].

Definition refs_MachineSpec (v : MachineSpecM) : list (option loc) :=
  [ms_Driver v; ms_ScriptRef v; ms_AuthSecret v; ms_Parameters v].

Definition refs_MachineStatus (v : MachineStatusM) : list (option loc) :=
  [slice_ref (mst_Conditions v)].

Definition refs_Machine (v : MachineM) : list (option loc) :=
  refs_ObjectMeta (mm_ObjectMeta v) ++ refs_MachineSpec (mm_Spec v) ++
  refs_MachineStatus (mm_Status v).

Definition refs_Driver (v : DriverM) : list (option loc) := refs_ObjectMeta (dm_ObjectMeta v).

Definition refs_list {V} `{!CellOf (list V)} (refs : V → list (option loc)) (h : Heap)
    (lm : ListMetaM) (items : option slice) : list (option loc) :=
  lm_RemainingItemCount lm :: slice_ref items ::
  mjoin (refs <$> default [] (read_slice (A := V) h items)).
