(* ===== verification/DeepCopy.v ===== *)
(** * Deep copies

    [zz_generated.deepcopy.go] of [api/v1alpha1], on the store of [Memory.v],
    with the deep copies of the embedded types it calls.  [in.DeepCopyInto(out)]
    reads the struct [*in] and overwrites the struct [*out]; it is a function
    from the one to the other, which allocates what the new struct refers to. *)

From S2P Require Import Prelude Types Memory.

(** ** The generated patterns *)

(** [if in.F != nil { *out = new(T); **out = **in }] *)
Definition copy_ptr (A : Type) `{!CellOf A} (p : option loc) : H (option loc) :=
  match p with
  | None => mret None
  | Some l => a ← load (A := A) l; l' ← new a; mret (Some l')
  end.

(** [for key, val := range *in { ( *out)[key] = val }] *)
Fixpoint assign_all (out : loc) (kvs : list (string * string)) : H unit :=
  match kvs with
  | [] => mret tt
  | (key, val) :: rest =>
      m ← load (A := gmap string string) out;
      _ ← write out (<[key := val]> m);
      assign_all out rest
  end.

(** [if in.F != nil { *out = make(map[string]string, len( *in)); for ... }] *)
Definition copy_map (p : option loc) : H (option loc) :=
  match p with
  | None => mret None
  | Some l =>
      m ← load (A := gmap string string) l;
      out ← new (∅ : gmap string string);
      _ ← assign_all out (map_to_list m);
      mret (Some out)
  end.

(** The elements of a slice that is not nil. *)
Definition elements {A} `{!CellOf (list A)} (s : slice) : H (list A) := λ h,
  (λ l, (l, h)) <$> read_slice h (Some s).

(** [if in.F != nil { *out = make([]string, len( *in)); copy( *out, *in) }] *)
Definition copy_strings (s : option slice) : H (option slice) :=
  match s with
  | None => mret None
  | Some s =>
      l ← elements (A := string) s;
      out ← new l;
      mret (Some (mkSlice out (length l)))
  end.

Section CopySlice.
Context {V : Type} `{!CellOf (list V)} (zero : V) (DeepCopyInto : V → H V).

(** [for i := range *in { ( *in)[i].DeepCopyInto(&( *out)[i]) }] *)
Fixpoint copy_elements (out : loc) (i : nat) (l : list V) : H unit :=
  match l with
  | [] => mret tt
  | v :: rest =>
      v' ← DeepCopyInto v;
      arr ← load (A := list V) out;
      _ ← write out (<[i := v']> arr);
      copy_elements out (S i) rest
  end.

(** [if in.F != nil { *out = make([]T, len( *in)); for ... }] *)
Definition copy_slice (s : option slice) : H (option slice) :=
  match s with
  | None => mret None
  | Some s =>
      l ← elements (A := V) s;
      out ← new (replicate (length l) zero);
      _ ← copy_elements out 0 l;
      mret (Some (mkSlice out (length l)))
  end.
End CopySlice.

(** [DeepCopy]: nil for nil, otherwise a new struct. *)
Definition DeepCopy {V} `{!CellOf V} (DeepCopyInto : V → H V) (p : option loc) : H (option loc) :=
  match p with
  | None => mret None
  | Some l =>
      v ← load (A := V) l;
      v' ← DeepCopyInto v;
      out ← new v';
      mret (Some out)
  end.

(** ** Zero values *)

Definition zero_ObjectMeta : ObjectMetaM := mkObjectMetaM "" "" "" 0 None None None.
Definition zero_TypeMeta : TypeMeta := {| Kind := ""; APIVersion := "" |}.
Definition zero_Machine : MachineM :=
  mkMachineM zero_TypeMeta zero_ObjectMeta (mkMachineSpecM None None None None)
    (mkMachineStatusM None "").
Definition zero_Driver : DriverM :=
  mkDriverM zero_TypeMeta zero_ObjectMeta {| Builtin := false; DownloadURL := "" |}
    mkDriverStatus.
Definition zero_Condition : Condition :=
  {| c_Type := ""; c_Status := ""; c_ObservedGeneration := 0; c_Severity := "";
     c_LastTransitionTime := 0; c_Reason := ""; c_Message := "" |}.

(** ** Embedded types *)

Definition ObjectMeta_DeepCopyInto (v : ObjectMetaM) : H ObjectMetaM :=
  t ← copy_ptr Time (om_DeletionTimestamp v);
  an ← copy_map (om_Annotations v);
  fs ← copy_strings (om_Finalizers v);
  mret (mkObjectMetaM (om_Name v) (om_Namespace v) (om_ResourceVersion v) (om_Generation v)
          t fs an).

Definition ListMeta_DeepCopyInto (v : ListMetaM) : H ListMetaM :=
  n ← copy_ptr Z (lm_RemainingItemCount v);
  mret (mkListMetaM (lm_ResourceVersion v) (lm_Continue v) n).

(** A condition refers to nothing. *)
Definition Condition_DeepCopyInto (c : Condition) : H Condition := mret c.

(** ** [zz_generated.deepcopy.go] *)

Definition Driver_DeepCopyInto (v : DriverM) : H DriverM :=
  om ← ObjectMeta_DeepCopyInto (dm_ObjectMeta v);
  mret (mkDriverM (dm_TypeMeta v) om (dm_Spec v) (dm_Status v)).

Definition Driver_DeepCopy : option loc → H (option loc) := DeepCopy Driver_DeepCopyInto.

Definition DriverList_DeepCopyInto (v : DriverListM) : H DriverListM :=
  lm ← ListMeta_DeepCopyInto (dl_ListMeta v);
  items ← copy_slice zero_Driver Driver_DeepCopyInto (dl_Items v);
  mret (mkDriverListM (dl_TypeMeta v) lm items).

Definition DriverList_DeepCopy : option loc → H (option loc) := DeepCopy DriverList_DeepCopyInto.

Definition DriverSpec_DeepCopyInto (v : DriverSpec) : H DriverSpec := mret v.

Definition DriverSpec_DeepCopy : option loc → H (option loc) := DeepCopy DriverSpec_DeepCopyInto.

Definition DriverStatus_DeepCopyInto (v : DriverStatus) : H DriverStatus := mret v.

Definition DriverStatus_DeepCopy : option loc → H (option loc) :=
  DeepCopy DriverStatus_DeepCopyInto.

Definition MachineSpec_DeepCopyInto (v : MachineSpecM) : H MachineSpecM :=
  d ← copy_ptr LocalObjectReference (ms_Driver v);
  sc ← copy_ptr ObjectReference (ms_ScriptRef v);
  au ← copy_ptr ObjectReference (ms_AuthSecret v);
  ps ← copy_map (ms_Parameters v);
  mret (mkMachineSpecM d sc au ps).

Definition MachineSpec_DeepCopy : option loc → H (option loc) := DeepCopy MachineSpec_DeepCopyInto.

Definition MachineStatus_DeepCopyInto (v : MachineStatusM) : H MachineStatusM :=
  cs ← copy_slice zero_Condition Condition_DeepCopyInto (mst_Conditions v);
  mret (mkMachineStatusM cs (mst_Phase v)).

Definition MachineStatus_DeepCopy : option loc → H (option loc) :=
  DeepCopy MachineStatus_DeepCopyInto.

Definition Machine_DeepCopyInto (v : MachineM) : H MachineM :=
  om ← ObjectMeta_DeepCopyInto (mm_ObjectMeta v);
  sp ← MachineSpec_DeepCopyInto (mm_Spec v);
  st ← MachineStatus_DeepCopyInto (mm_Status v);
  mret (mkMachineM (mm_TypeMeta v) om sp st).

Definition Machine_DeepCopy : option loc → H (option loc) := DeepCopy Machine_DeepCopyInto.

Definition MachineList_DeepCopyInto (v : MachineListM) : H MachineListM :=
  lm ← ListMeta_DeepCopyInto (ml_ListMeta v);
  items ← copy_slice zero_Machine Machine_DeepCopyInto (ml_Items v);
  mret (mkMachineListM (ml_TypeMeta v) lm items).

Definition MachineList_DeepCopy : option loc → H (option loc) := DeepCopy MachineList_DeepCopyInto.

(** ** [DeepCopyObject]

    An interface value is nil, or a pointer with its type; a nil pointer with
    a type is not the nil interface. *)
Inductive RuntimeObject :=
| ODriver (p : option loc)
| ODriverList (p : option loc)
| OMachine (p : option loc)
| OMachineList (p : option loc).

(** [if c := in.DeepCopy(); c != nil { return c }; return nil] *)
Definition as_object (wrap : option loc → RuntimeObject) (copy : option loc → H (option loc))
    (p : option loc) : H (option RuntimeObject) :=
  c ← copy p;
  mret (match c with Some _ => Some (wrap c) | None => None end).

Definition Driver_DeepCopyObject : option loc → H (option RuntimeObject) :=
  as_object ODriver Driver_DeepCopy.
Definition DriverList_DeepCopyObject : option loc → H (option RuntimeObject) :=
  as_object ODriverList DriverList_DeepCopy.
Definition Machine_DeepCopyObject : option loc → H (option RuntimeObject) :=
  as_object OMachine Machine_DeepCopy.
Definition MachineList_DeepCopyObject : option loc → H (option RuntimeObject) :=
  as_object OMachineList MachineList_DeepCopy.
