(* ===== verification/DeepCopyFacts.v ===== *)
(** * Deep copies share nothing

    A deep copy has the value of the original, the same fields are nil, and
    everything it refers to is new memory; the original keeps its value. *)

From S2P Require Import Prelude Types Memory DeepCopy.

(** ** Reading in a larger store *)

Lemma peek_mono {A} `{!CellOf A} h h' l (a : A) : h ⊆ h' → peek h l = Some a → peek h' l = Some a.
Proof.
  unfold peek. intros Hsub. destruct (h !! l) as [c|] eqn:Hl; [|done].
  by rewrite (lookup_weaken _ _ _ _ Hl Hsub).
Qed.

Lemma peek_insert {A} `{!CellOf A} h l (a : A) : peek (<[l := to_cell a]> h) l = Some a.
Proof. unfold peek. rewrite lookup_insert_eq. apply of_to_cell. Qed.

Lemma peek_insert_ne {A} `{!CellOf A} h l l' c :
  l ≠ l' → peek (A := A) (<[l := c]> h) l' = peek h l'.
Proof. intros Hne. unfold peek. by rewrite lookup_insert_ne. Qed.

Lemma read_ptr_mono {A} `{!CellOf A} h h' p (x : option A) :
  h ⊆ h' → read_ptr h p = Some x → read_ptr h' p = Some x.
Proof.
  intros Hsub. destruct p as [l|]; simpl; [|done]. rewrite !fmap_Some.
  intros (a & Ha & ->). exists a. split; [by eapply peek_mono|done].
Qed.

Lemma read_slice_mono {A} `{!CellOf (list A)} h h' s (x : list A) :
  h ⊆ h' → read_slice h s = Some x → read_slice h' s = Some x.
Proof.
  intros Hsub. destruct s as [s|]; simpl; [|done]. rewrite !bind_Some.
  intros (arr & Ha & Hd). exists arr. split; [by eapply peek_mono|done].
Qed.

Lemma read_ptr_insert {A} `{!CellOf A} h l (a : A) :
  read_ptr (<[l := to_cell a]> h) (Some l) = Some (Some a).
Proof. simpl. by rewrite peek_insert. Qed.

Lemma read_slice_insert {A} `{!CellOf (list A)} h l (x : list A) :
  read_slice (<[l := to_cell x]> h) (Some (mkSlice l (length x))) = Some x.
Proof. simpl. rewrite peek_insert. simpl. by rewrite decide_True, take_ge by lia. Qed.

(** ** Copies *)

Definition same_nil (p p' : option loc) : Prop := is_Some p ↔ is_Some p'.

(** The same references are nil, and the others are memory allocated between
    [h] and [h'], each different from the rest. *)
Definition renewed (h h' : Heap) (rs rs' : list (option loc)) : Prop :=
  Forall2 same_nil rs rs' ∧ NoDup (omap id rs') ∧ ∀ l, Some l ∈ rs' → l ∈ dom h' ∧ l ∉ dom h.

(** [v'] in [h'] is a copy of [v] in [h], which stands for [x]. *)
Definition copied {V X} (read : Heap → V → option X) (refs : Heap → V → list (option loc))
    (h : Heap) (v : V) (x : X) (h' : Heap) (v' : V) : Prop :=
  h ⊆ h' ∧ read h' v' = Some x ∧ renewed h h' (refs h v) (refs h' v').

Lemma renewed_nil h h' : renewed h h' [] [].
Proof. split_and!; [constructor|constructor|]. by intros l ?%elem_of_nil. Qed.

(** One copy after the other. *)
Lemma renewed_app h h1 h2 rs1 rs1' rs2 rs2' :
  dom h ⊆ dom h1 → dom h1 ⊆ dom h2 →
  renewed h h1 rs1 rs1' → renewed h1 h2 rs2 rs2' → renewed h h2 (rs1 ++ rs2) (rs1' ++ rs2').
Proof.
  intros H01 H12 (Hn1 & Hd1 & Hf1) (Hn2 & Hd2 & Hf2). split_and!; [by apply Forall2_app| |].
  - rewrite omap_app. apply NoDup_app. split_and!; [done| |done].
    intros l (p & Hl1 & Hp)%list_elem_of_omap (q & Hl2 & Hq)%list_elem_of_omap.
    change (p = Some l) in Hp. change (q = Some l) in Hq. subst.
    destruct (Hf2 l Hl2) as [_ []]. by apply Hf1.
  - intros l [Hl|Hl]%elem_of_app; [destruct (Hf1 l Hl); auto|].
    destruct (Hf2 l Hl). split; [done|]. auto.
Qed.

Definition copier {V X} (read : Heap → V → option X) (refs : Heap → V → list (option loc))
    (into : V → H V) : Prop :=
  ∀ h v x, read h v = Some x → ∃ h' v', into v h = Some (v', h') ∧ copied read refs h v x h' v'.

Lemma alloc_fresh (h : Heap) : fresh (dom h) ∉ dom h.
Proof. apply is_fresh. Qed.

Lemma insert_fresh_subseteq (h : Heap) c : h ⊆ <[fresh (dom h) := c]> h.
Proof. apply insert_subseteq, not_elem_of_dom, alloc_fresh. Qed.

Definition ptr_refs (h : Heap) (p : option loc) : list (option loc) := [p].
Definition slice_refs (h : Heap) (s : option slice) : list (option loc) := [slice_ref s].

(** A field that is nil, and one that is copied to a new cell. *)
Lemma copied_nil {V X} (read : Heap → V → option X) refs h v x :
  read h v = Some x → refs h v = [None] → copied read refs h v x h v.
Proof.
  intros Hx Hr. split_and!; [done|done|]. rewrite Hr. split_and!; [by repeat constructor|constructor|].
  by intros l [=]%list_elem_of_singleton.
Qed.

Lemma copied_new {V X} (read : Heap → V → option X) refs h v x l c v' :
  let h' := <[fresh (dom h) := c]> h in
  read h' v' = Some x → refs h v = [Some l] → refs h' v' = [Some (fresh (dom h))] →
  copied read refs h v x h' v'.
Proof.
  intros h' Hx Hr Hr'. split_and!; [apply insert_fresh_subseteq|done|]. rewrite Hr, Hr'. split_and!.
  - by repeat constructor.
  - apply NoDup_singleton.
  - intros l' [= ->]%list_elem_of_singleton. split; [|apply alloc_fresh].
    apply elem_of_dom_2 with c, lookup_insert_eq.
Qed.

Lemma copy_ptr_copier A `{!CellOf A} : copier (read_ptr (A := A)) ptr_refs (copy_ptr A).
Proof.
  intros h [l|] x Hx.
  - pose proof Hx as (a & Ha & ->)%fmap_Some. unfold copy_ptr, mbind, H_bind, load. rewrite Ha. simpl.
    do 2 eexists. split; [done|]. eapply copied_new; [|done|done]. apply read_ptr_insert.
  - exists h, None. split; [done|]. by apply copied_nil.
Qed.

Lemma assign_all_run out kvs : ∀ h m,
  assign_all out kvs (<[out := CMap m]> h) =
    Some (tt, <[out := CMap (foldl (λ acc kv, <[kv.1 := kv.2]> acc) m kvs)]> h).
Proof.
  induction kvs as [|[k v] kvs IH]; intros h m; [done|].
  cbn [assign_all]. unfold mbind, H_bind at 1, load.
  assert (peek (<[out := CMap m]> h) out = Some m) as -> by exact (peek_insert h out m). simpl.
  unfold H_bind, write, store. rewrite lookup_insert_eq, insert_insert_eq. apply IH.
Qed.

Lemma foldl_insert_map (kvs : list (string * string)) : ∀ acc : gmap string string,
  NoDup kvs.*1 → (∀ k, k ∈ kvs.*1 → acc !! k = None) →
  foldl (λ acc kv, <[kv.1 := kv.2]> acc) acc kvs = list_to_map kvs ∪ acc.
Proof.
  induction kvs as [|[k v] kvs IH]; intros acc Hnd Hacc; simpl.
  { by rewrite (left_id_L ∅ (∪)). }
  apply NoDup_cons in Hnd as [Hk Hnd]. rewrite IH; [|done|].
  - rewrite <- insert_union_r by (by apply not_elem_of_list_to_map_1).
    by rewrite insert_union_l.
  - intros k' Hk'. rewrite lookup_insert_ne by set_solver. apply Hacc. by right.
Qed.

Lemma copy_map_copier : copier (read_ptr (A := gmap string string)) ptr_refs copy_map.
Proof.
  intros h [l|] x Hx.
  - pose proof Hx as (m & Hm & ->)%fmap_Some. unfold copy_map, mbind, H_bind, load. rewrite Hm.
    cbn [fmap option_fmap option_map]. unfold new, alloc. rewrite (assign_all_run _ _ h ∅).
    rewrite foldl_insert_map by (apply NoDup_fst_map_to_list || done).
    rewrite (right_id_L ∅ (∪)), list_to_map_to_list. do 2 eexists. split; [done|].
    eapply copied_new; [|done|done]. exact (read_ptr_insert h _ m).
  - exists h, None. split; [done|]. by apply copied_nil.
Qed.

Lemma copy_strings_copier : copier (read_slice (A := string)) slice_refs copy_strings.
Proof.
  intros h [s|] x Hx.
  - unfold copy_strings, mbind, H_bind, elements. rewrite Hx. do 2 eexists. split; [done|].
    eapply copied_new; [|done|done]. exact (read_slice_insert h _ x).
  - exists h, None. split; [done|]. by apply copied_nil.
Qed.

(** ** Structs *)

(** The value depends on the memory referred to, which is there. *)
Class Footprinted {V X} (read : Heap → V → option X) (refs : V → list (option loc)) : Prop := {
  stable_read : ∀ h h' v x,
    read h v = Some x → (∀ l c, Some l ∈ refs v → h !! l = Some c → h' !! l = Some c) →
    read h' v = Some x;
  stable_dom : ∀ h v x l, read h v = Some x → Some l ∈ refs v → l ∈ dom h
}.

Lemma read_mono {V X} (read : Heap → V → option X) refs `{!Footprinted read refs} h h' v x :
  h ⊆ h' → read h v = Some x → read h' v = Some x.
Proof.
  intros Hsub Hx. eapply stable_read; [exact Hx|]. intros l c _ Hl. by eapply lookup_weaken.
Qed.

Lemma peek_stable {A} `{!CellOf A} h h' l (a : A) :
  peek h l = Some a → (∀ c, h !! l = Some c → h' !! l = Some c) → peek h' l = Some a.
Proof.
  unfold peek. intros Ha Hh. destruct (h !! l) as [c|]; [|done]. by rewrite (Hh c).
Qed.

Lemma peek_dom {A} `{!CellOf A} h l (a : A) : peek h l = Some a → l ∈ dom h.
Proof. unfold peek. intros (c & Hc & _)%bind_Some. by apply elem_of_dom_2 in Hc. Qed.

#[export] Instance read_ptr_footprinted A `{!CellOf A} :
  Footprinted (read_ptr (A := A)) (λ p, [p]).
Proof.
  split.
  - intros h h' [l|] x Hx Hh; [|done]. apply fmap_Some in Hx as (a & Ha & ->). simpl.
    by rewrite (peek_stable h h' l a) by (intros; auto using list_elem_of_here).
  - intros h p x l Hx <-%list_elem_of_singleton. apply fmap_Some in Hx as (a & Ha & _).
    by eapply peek_dom.
Qed.

#[export] Instance read_slice_footprinted A `{!CellOf (list A)} :
  Footprinted (read_slice (A := A)) (λ s, [slice_ref s]).
Proof.
  split.
  - intros h h' [s|] x Hx Hh; [|done]. apply bind_Some in Hx as (arr & Ha & Hd). simpl.
    rewrite (peek_stable h h' _ arr Ha); [done|]. intros c. apply Hh. by left.
  - intros h [s|] x l Hx [= ->]%list_elem_of_singleton. apply bind_Some in Hx as (arr & Ha & _).
    by eapply peek_dom.
Qed.

(** Nothing is referred to, and two fields after each other. *)
#[export] Instance read_ret_footprinted {V} : Footprinted (λ _ (v : V), Some v) (λ _, []).
Proof. split; [done|]. by intros h v x l _ ?%elem_of_nil. Qed.

Definition refs_pair {V1 V2} (refs1 : V1 → list (option loc)) (refs2 : V2 → list (option loc))
    (v : V1 * V2) : list (option loc) := refs1 v.1 ++ refs2 v.2.

Section Pairs.
Context {V1 X1 V2 X2 : Type} (read1 : Heap → V1 → option X1) (read2 : Heap → V2 → option X2).

Definition read_pair (h : Heap) (v : V1 * V2) : option (X1 * X2) :=
  x1 ← read1 h v.1; x2 ← read2 h v.2; Some (x1, x2).

Lemma read_pair_Some h v x :
  read_pair h v = Some x ↔ read1 h v.1 = Some x.1 ∧ read2 h v.2 = Some x.2.
Proof.
  unfold read_pair. rewrite bind_Some. setoid_rewrite bind_Some. destruct x as [x1 x2]. naive_solver.
Qed.

#[global] Instance read_pair_footprinted refs1 refs2
    `{!Footprinted read1 refs1, !Footprinted read2 refs2} :
  Footprinted read_pair (refs_pair refs1 refs2).
Proof.
  split.
  - intros h h' v x. rewrite !read_pair_Some. intros [Hx1 Hx2] Hh. split.
    + eapply stable_read; [exact Hx1|]. intros l c Hl. apply Hh, elem_of_app. by left.
    + eapply stable_read; [exact Hx2|]. intros l c Hl. apply Hh, elem_of_app. by right.
  - intros h v x l. rewrite read_pair_Some. intros [Hx1 Hx2] [Hl|Hl]%elem_of_app.
    + exact (stable_dom _ _ _ _ Hx1 Hl).
    + exact (stable_dom _ _ _ _ Hx2 Hl).
Qed.
End Pairs.

(** A struct whose references are those of some of its fields. *)
Lemma footprinted_struct {S V X Y} (fields : S → V) (read : Heap → V → option X) refs
    (value : S → X → Y) (readS : Heap → S → option Y) :
  Footprinted read refs → (∀ h s, readS h s = value s <$> read h (fields s)) →
  Footprinted readS (λ s, refs (fields s)).
Proof.
  intros HF Hread. split.
  - intros h h' s y. rewrite !Hread, !fmap_Some. intros (x & Hx & ->) Hh. exists x.
    split; [|done]. by eapply stable_read.
  - intros h s y l. rewrite Hread, fmap_Some. intros (x & Hx & _). by apply (stable_dom _ _ _ _ Hx).
Qed.

(** Reading a struct field by field or all at once. *)
Ltac read_fields :=
  intros; unfold read_pair; simpl;
  repeat match goal with |- context [?m ≫= _] => destruct m; simpl; [|done] end; done.

Definition ObjectMeta_fields (v : ObjectMetaM) : option loc * (option loc * option slice) :=
  (om_DeletionTimestamp v, (om_Annotations v, om_Finalizers v)).

Definition MachineSpec_fields (v : MachineSpecM) :
    option loc * (option loc * (option loc * option loc)) :=
  (ms_Driver v, (ms_ScriptRef v, (ms_AuthSecret v, ms_Parameters v))).

Definition Machine_fields (v : MachineM) : ObjectMetaM * (MachineSpecM * MachineStatusM) :=
  (mm_ObjectMeta v, (mm_Spec v, mm_Status v)).

Definition ObjectMeta_value (v : ObjectMetaM)
    (x : option Time * (option (gmap string string) * list string)) : ObjectMeta :=
  {| Name := om_Name v; Namespace := om_Namespace v;
     ResourceVersion := om_ResourceVersion v; Generation := om_Generation v;
     DeletionTimestamp := seconds <$> x.1; Finalizers := x.2.2; Annotations := x.2.1 |}.

Definition MachineSpec_value (v : MachineSpecM)
    (x : option LocalObjectReference *
         (option ObjectReference * (option ObjectReference * option (gmap string string)))) :
    MachineSpec :=
  {| Driver := x.1; ScriptRef := x.2.1; AuthSecret := x.2.2.1; Parameters := default ∅ x.2.2.2 |}.

Definition MachineStatus_value (v : MachineStatusM) (x : list Condition) : MachineStatus :=
  {| Conditions := x; Phase := mst_Phase v |}.

Definition Machine_value (v : MachineM) (x : ObjectMeta * (MachineSpec * MachineStatus)) : Machine :=
  {| TypeMetaOf := mm_TypeMeta v; Meta := x.1; Spec := x.2.1; Status := x.2.2 |}.

Definition Driver_value (v : DriverM) (x : ObjectMeta) : DriverResource :=
  {| d_TypeMeta := dm_TypeMeta v; d_Meta := x; d_Spec := dm_Spec v |}.

Lemma ObjectMeta_read h v :
  read_ObjectMeta h v =
    ObjectMeta_value v <$> read_pair read_ptr (read_pair read_ptr read_slice) h (ObjectMeta_fields v).
Proof. unfold read_ObjectMeta. read_fields. Qed.

Lemma MachineSpec_read h v :
  read_MachineSpec h v =
    MachineSpec_value v <$>
      read_pair read_ptr (read_pair read_ptr (read_pair read_ptr read_ptr)) h (MachineSpec_fields v).
Proof. unfold read_MachineSpec. read_fields. Qed.

Lemma MachineStatus_read h v :
  read_MachineStatus h v = MachineStatus_value v <$> read_slice h (mst_Conditions v).
Proof. unfold read_MachineStatus. read_fields. Qed.

Lemma Machine_read h v :
  read_Machine h v =
    Machine_value v <$>
      read_pair read_ObjectMeta (read_pair read_MachineSpec read_MachineStatus) h (Machine_fields v).
Proof. unfold read_Machine. read_fields. Qed.

Lemma Driver_read h v :
  read_Driver h v = Driver_value v <$> read_ObjectMeta h (dm_ObjectMeta v).
Proof. unfold read_Driver. read_fields. Qed.

#[export] Instance ObjectMeta_footprinted : Footprinted read_ObjectMeta refs_ObjectMeta.
Proof. pose proof (footprinted_struct _ _ _ _ _ _ ObjectMeta_read) as HF. exact HF. Qed.

#[export] Instance MachineSpec_footprinted : Footprinted read_MachineSpec refs_MachineSpec.
Proof. pose proof (footprinted_struct _ _ _ _ _ _ MachineSpec_read) as HF. exact HF. Qed.

#[export] Instance MachineStatus_footprinted : Footprinted read_MachineStatus refs_MachineStatus.
Proof. pose proof (footprinted_struct _ _ _ _ _ _ MachineStatus_read) as HF. exact HF. Qed.

#[export] Instance Machine_footprinted : Footprinted read_Machine refs_Machine.
Proof. pose proof (footprinted_struct _ _ _ _ _ _ Machine_read) as HF. exact HF. Qed.

#[export] Instance Driver_footprinted : Footprinted read_Driver refs_Driver.
Proof. pose proof (footprinted_struct _ _ _ _ _ _ Driver_read) as HF. exact HF. Qed.

(** ** Slices of structs *)

Section Slices.
Context {V X : Type} `{!CellOf (list V)} (zero : V) (into : V → H V).
Context (read : Heap → V → option X) (refs : V → list (option loc)).
Context `{HF : !Footprinted read refs} (Hinto : copier read (λ _, refs) into).

Definition read_items (h : Heap) (s : option slice) : option (list X) :=
  vs ← read_slice (A := V) h s; mapM (read h) vs.

Definition refs_items (h : Heap) (s : option slice) : list (option loc) :=
  slice_ref s :: mjoin (refs <$> default [] (read_slice (A := V) h s)).

(** One round of the loop. *)
Lemma copy_element_run out i h v x arr :
  read h v = Some x → peek h out = Some arr →
  ∃ h2 v1,
    (∀ rest, copy_elements into out i (v :: rest) h = copy_elements into out (S i) rest h2) ∧
    peek h2 out = Some (<[i := v1]> arr) ∧
    (∀ l c, l ≠ out → h !! l = Some c → h2 !! l = Some c) ∧
    read h2 v1 = Some x ∧ renewed h h2 (refs v) (refs v1).
Proof using HF Hinto.
  intros Hx Harr. destruct (Hinto h v x Hx) as (h1 & v1 & Hv1 & Hs1 & Hr1 & Hn1 & Hd1 & Hf1).
  pose proof (peek_mono h h1 out arr Hs1 Harr) as Harr1. pose proof (peek_dom _ _ _ Harr) as Hoh.
  exists (<[out := to_cell (<[i := v1]> arr)]> h1), v1. split_and!; [|apply peek_insert| | |split_and!; [done|done|]].
  - intros rest. cbn [copy_elements]. unfold mbind, H_bind at 1. rewrite Hv1.
    unfold H_bind at 1, load. rewrite Harr1. cbn [fmap option_fmap option_map].
    unfold H_bind, write, store.
    destruct (h1 !! out) eqn:Ho; [done|by unfold peek in Harr1; rewrite Ho in Harr1].
  - intros l c Hl Hc. rewrite lookup_insert_ne by done. by eapply lookup_weaken.
  - eapply stable_read; [exact Hr1|]. intros l c Hl Hc.
    rewrite lookup_insert_ne; [done|]. intros <-. by destruct (Hf1 out Hl).
  - intros l Hl. rewrite dom_insert. destruct (Hf1 l Hl). set_solver.
Qed.

Lemma dom_keep (h h' : Heap) out :
  out ∈ dom h' → (∀ l c, l ≠ out → h !! l = Some c → h' !! l = Some c) → dom h ⊆ dom h'.
Proof.
  intros Hout Hkeep l [c Hc]%elem_of_dom. destruct (decide (l = out)) as [->|Hne]; [done|].
  apply elem_of_dom. exists c. auto.
Qed.

(** The loop fills the new array with copies, and touches nothing else. *)
Lemma copy_elements_run out vs : ∀ xs pre h0 h arr,
  h0 ⊆ h → out ∉ dom h0 → peek h out = Some arr →
  length arr = (length pre + length vs)%nat → take (length pre) arr = pre →
  Forall2 (λ v x, read h0 v = Some x) vs xs →
  ∃ h' vs', copy_elements into out (length pre) vs h = Some (tt, h') ∧
    (∀ l c, l ≠ out → h !! l = Some c → h' !! l = Some c) ∧
    peek h' out = Some (pre ++ vs') ∧ length vs' = length vs ∧
    Forall2 (λ v' x, read h' v' = Some x) vs' xs ∧
    renewed h h' (mjoin (refs <$> vs)) (mjoin (refs <$> vs')).
Proof using HF Hinto.
  induction vs as [|v vs IH]; intros xs pre h0 h arr Hsub Hout Harr Hlen Htake Hxs.
  { apply Forall2_nil_inv_l in Hxs as ->. exists h, []. split_and!; [done|done| |done|done|apply renewed_nil].
    rewrite app_nil_r. rewrite <- Htake. simpl in Hlen. by rewrite take_ge by lia. }
  apply Forall2_cons_inv_l in Hxs as (x & xs' & Hx & Hxs & ->). simpl in Hlen.
  destruct (copy_element_run out (length pre) h v x arr (read_mono read refs h0 h v x Hsub Hx) Harr)
    as (h2 & v1 & Hrun1 & Harr2 & Hh2 & Hr1 & Hn1).
  destruct (IH xs' (pre ++ [v1]) h0 h2 (<[length pre := v1]> arr))
    as (h' & vs' & Hrun & Hkeep & Hpk & Hl & Hrd & Hn); [|done|done| | |done|].
  - apply map_subseteq_spec. intros l c Hl. apply Hh2; [|by eapply lookup_weaken].
    intros ->. by apply elem_of_dom_2 in Hl.
  - rewrite length_insert, length_app, Hlen. simpl. lia.
  - rewrite length_app, Nat.add_1_r.
    erewrite take_S_r by (apply list_lookup_insert_eq; lia). by rewrite take_insert_ge, Htake by lia.
  - pose proof (peek_dom _ _ _ Harr) as Hoh. rewrite length_app, Nat.add_1_r in Hrun.
    exists h', (v1 :: vs'). rewrite Hrun1, Hpk, <- app_assoc.
    split_and!; [done|by auto|done|by simpl; f_equal| |].
    + constructor; [|done]. eapply stable_read; [exact Hr1|]. intros l c Hl'.
      apply Hkeep. intros ->. by destruct (proj2 (proj2 Hn1) out Hl').
    + eapply renewed_app; [| |exact Hn1|exact Hn]; (eapply dom_keep; [by eapply peek_dom|done]).
Qed.

Lemma copy_slice_copier : copier read_items refs_items (copy_slice zero into).
Proof using HF Hinto.
  intros h [s|] xs Hxs; [|exists h, None; split; [done|]; by apply copied_nil].
  apply bind_Some in Hxs as (vs & Hvs & Hxs%mapM_Some). unfold copy_slice.
  unfold mbind, H_bind at 1, elements. rewrite Hvs. cbn [fmap option_fmap option_map].
  unfold H_bind at 1, new, alloc. set (out := fresh (dom h)).
  set (h1 := <[out := to_cell (replicate (length vs) zero)]> h).
  destruct (copy_elements_run out vs xs [] h h1 (replicate (length vs) zero))
    as (h' & vs' & Hrun & Hkeep & Hpk & Hl & Hrd & Hn);
    [apply insert_fresh_subseteq|apply alloc_fresh|apply peek_insert|by rewrite length_replicate
    |done|done|].
  simpl in Hrun. unfold H_bind. rewrite Hrun. exists h', (Some (mkSlice out (length vs))).
  assert (h ⊆ h') as Hsub.
  { apply map_subseteq_spec. intros l c Hc.
    apply Hkeep; [|by eapply lookup_weaken, insert_fresh_subseteq].
    intros ->. apply (alloc_fresh h). by eapply elem_of_dom_2. }
  assert (read_slice (A := V) h' (Some (mkSlice out (length vs))) = Some vs') as Hvs'.
  { simpl. rewrite Hpk. simpl. rewrite decide_True by lia. by rewrite take_ge by lia. }
  split; [done|]. unfold copied, read_items, refs_items. rewrite Hvs, Hvs'.
  split_and!; [done|by apply mapM_Some|]. change (?x :: ?l) with ([x] ++ l).
  eapply (renewed_app h h1); [by apply subseteq_dom, insert_fresh_subseteq| | |exact Hn].
  - apply (dom_keep _ _ out); [by eapply peek_dom|done].
  - split_and!; [by repeat constructor|apply NoDup_singleton|].
    intros l [= ->]%list_elem_of_singleton. split; [by apply (peek_dom h1 out (replicate (length vs) zero)), peek_insert|apply alloc_fresh].
Qed.

(** A slice of structs keeps its value and its references as the store grows. *)
Lemma items_grow h h' s xs :
  h ⊆ h' → read_items h s = Some xs → read_items h' s = Some xs ∧ refs_items h' s = refs_items h s.
Proof using HF.
  intros Hsub (vs & Hvs & Hxs)%bind_Some. unfold read_items, refs_items.
  rewrite Hvs, (read_slice_mono h h' s vs Hsub Hvs). split; [|done]. apply mapM_Some.
  apply mapM_Some in Hxs. eapply Forall2_impl; [exact Hxs|]. intros v x. by apply (read_mono read refs).
Qed.
End Slices.

(** ** Structs *)

(** One field after the other; the references of the second may depend on
    the store. *)
Section CopyPair.
Context {V1 X1 V2 X2 : Type} (read1 : Heap → V1 → option X1) (read2 : Heap → V2 → option X2).
Context (refs1 : V1 → list (option loc)) (refs2 : Heap → V2 → list (option loc)).
Context `{!Footprinted read1 refs1} (into1 : V1 → H V1) (into2 : V2 → H V2).

Definition copy_pair (v : V1 * V2) : H (V1 * V2) :=
  v1 ← into1 v.1; v2 ← into2 v.2; mret (v1, v2).

Lemma copy_pair_copier :
  copier read1 (λ _, refs1) into1 → copier read2 refs2 into2 →
  (∀ h h' v x, h ⊆ h' → read2 h v = Some x → read2 h' v = Some x ∧ refs2 h' v = refs2 h v) →
  copier (read_pair read1 read2) (λ h v, refs1 v.1 ++ refs2 h v.2) copy_pair.
Proof using Type*.
  intros HC1 HC2 Hgrow h [v1 v2] x [Hx1 Hx2]%read_pair_Some. simpl in *.
  destruct (HC1 h v1 x.1 Hx1) as (h1 & v1' & E1 & S1 & R1 & N1).
  destruct (Hgrow h h1 v2 x.2 S1 Hx2) as [Hx2' Hrefs].
  destruct (HC2 h1 v2 x.2 Hx2') as (h2 & v2' & E2 & S2 & R2 & N2).
  exists h2, (v1', v2'). split; [by unfold copy_pair, mbind, H_bind; simpl; rewrite E1, E2|].
  split_and!; [by etrans| |].
  - apply read_pair_Some. split; [by eapply (read_mono read1 refs1)|done].
  - simpl. rewrite <- Hrefs. by eapply renewed_app; [apply subseteq_dom..| |].
Qed.
End CopyPair.

(** The case where the references of both are their own. *)
Lemma copy_fields_copier {V1 X1 V2 X2} (read1 : Heap → V1 → option X1)
    (read2 : Heap → V2 → option X2) refs1 refs2 into1 into2
    `{!Footprinted read1 refs1, !Footprinted read2 refs2} :
  copier read1 (λ _, refs1) into1 → copier read2 (λ _, refs2) into2 →
  copier (read_pair read1 read2) (λ _, refs_pair refs1 refs2) (copy_pair into1 into2).
Proof.
  intros HC1 HC2. apply (copy_pair_copier read1 read2 refs1 (λ _, refs2)); [done|done|].
  intros h h' v x Hsub Hx. split; [by eapply (read_mono read2 refs2)|done].
Qed.

(** A struct of which some fields are copied and the others assigned. *)
Lemma copy_struct_copier {S V X Y} (fields : S → V) (make : S → V → S) (value : S → X → Y)
    (read : Heap → V → option X) refs into readS intoS :
  copier read refs into →
  (∀ h s, readS h s = value s <$> read h (fields s)) →
  (∀ s v, fields (make s v) = v) → (∀ s v x, value (make s v) x = value s x) →
  (∀ s h, intoS s h = (v' ← into (fields s); mret (make s v')) h) →
  copier readS (λ h s, refs h (fields s)) intoS.
Proof.
  intros HC Hread Hfields Hvalue Hinto h s y. rewrite Hread, fmap_Some. intros (x & Hx & ->).
  destruct (HC h _ x Hx) as (h' & v' & E & Hsub & R & N). exists h', (make s v').
  rewrite Hinto. unfold mbind, H_bind. rewrite E. split; [done|]. split_and!; [done| |].
  - rewrite Hread, Hfields, R. simpl. by rewrite Hvalue.
  - by rewrite Hfields.
Qed.

(** Copying field by field or all at once. *)
Ltac copy_fields :=
  intros; unfold copy_pair, mbind, H_bind, mret, H_ret; simpl;
  repeat match goal with
         | |- context [match ?m with Some _ => _ | None => _ end] =>
             match m with context [match _ with _ => _ end] => fail 1 | _ => destruct m as [[]|] end
         end; done.

Lemma copy_conditions_copier :
  copier (read_slice (A := Condition)) (λ _ s, [slice_ref s])
    (copy_slice zero_Condition Condition_DeepCopyInto).
Proof.
  assert (copier (λ (_ : Heap) (c : Condition), Some c) (λ _ _, []) Condition_DeepCopyInto) as Hc.
  { intros h v x [= <-]. exists h, v. split; [done|]. split_and!; [done|done|apply renewed_nil]. }
  assert (∀ l : list Condition, mapM Some l = Some l) as Hid.
  { intros l. apply mapM_Some. by induction l; constructor. }
  intros h s x Hx.
  destruct (copy_slice_copier zero_Condition _ (λ _ c, Some c) (λ _, []) Hc h s x)
    as (h' & s' & Hrun & Hsub & Hr & Hn).
  { unfold read_items. rewrite Hx. apply (Hid x). }
  exists h', s'. split; [done|]. split_and!; [done| |].
  - unfold read_items in Hr. apply bind_Some in Hr as (vs & Hvs & Hr).
    change (mapM Some vs = Some x) in Hr. rewrite Hid in Hr. by injection Hr as ->.
  - assert (∀ l : list Condition, mjoin ((λ _, []) <$> l) = ([] : list (option loc))) as Hnone.
    { intros l. by induction l. }
    unfold refs_items in Hn. by rewrite !Hnone in Hn.
Qed.

Lemma ObjectMeta_copier :
  copier read_ObjectMeta (λ _, refs_ObjectMeta) ObjectMeta_DeepCopyInto.
Proof.
  pose proof (copy_struct_copier ObjectMeta_fields
    (λ s v, mkObjectMetaM (om_Name s) (om_Namespace s) (om_ResourceVersion s) (om_Generation s)
              v.1 v.2.2 v.2.1) ObjectMeta_value _ _ _ _ ObjectMeta_DeepCopyInto
    (copy_fields_copier _ _ _ _ _ _ (copy_ptr_copier Time)
       (copy_fields_copier _ _ _ _ _ _ copy_map_copier copy_strings_copier)) ObjectMeta_read)
    as HC. apply HC; [by intros s (? & ? & ?)|done|]. unfold ObjectMeta_DeepCopyInto. copy_fields.
Qed.

Lemma MachineSpec_copier :
  copier read_MachineSpec (λ _, refs_MachineSpec) MachineSpec_DeepCopyInto.
Proof.
  pose proof (copy_struct_copier MachineSpec_fields
    (λ s v, mkMachineSpecM v.1 v.2.1 v.2.2.1 v.2.2.2) MachineSpec_value _ _ _ _ MachineSpec_DeepCopyInto
    (copy_fields_copier _ _ _ _ _ _ (copy_ptr_copier LocalObjectReference)
       (copy_fields_copier _ _ _ _ _ _ (copy_ptr_copier ObjectReference)
          (copy_fields_copier _ _ _ _ _ _ (copy_ptr_copier ObjectReference) copy_map_copier)))
    MachineSpec_read)
    as HC. apply HC; [by intros s (? & ? & ? & ?)|done|]. unfold MachineSpec_DeepCopyInto. copy_fields.
Qed.

Lemma MachineStatus_copier :
  copier read_MachineStatus (λ _, refs_MachineStatus) MachineStatus_DeepCopyInto.
Proof.
  pose proof (copy_struct_copier mst_Conditions (λ s v, mkMachineStatusM v (mst_Phase s))
    MachineStatus_value _ _ _ _ MachineStatus_DeepCopyInto copy_conditions_copier MachineStatus_read)
    as HC. by apply HC.
Qed.

Lemma Machine_copier : copier read_Machine (λ _, refs_Machine) Machine_DeepCopyInto.
Proof.
  pose proof (copy_struct_copier Machine_fields
    (λ s v, mkMachineM (mm_TypeMeta s) v.1 v.2.1 v.2.2) Machine_value _ _ _ _ Machine_DeepCopyInto
    (copy_fields_copier _ _ _ _ _ _ ObjectMeta_copier
       (copy_fields_copier _ _ _ _ _ _ MachineSpec_copier MachineStatus_copier)) Machine_read)
    as HC. apply HC; [by intros s (? & ? & ?)|done|]. unfold Machine_DeepCopyInto. copy_fields.
Qed.

Lemma Driver_copier : copier read_Driver (λ _, refs_Driver) Driver_DeepCopyInto.
Proof.
  pose proof (copy_struct_copier dm_ObjectMeta
    (λ s v, mkDriverM (dm_TypeMeta s) v (dm_Spec s) (dm_Status s)) Driver_value _ _ _ _
    Driver_DeepCopyInto ObjectMeta_copier Driver_read) as HC. by apply HC.
Qed.

(** ** List objects *)

Definition ListMeta_value (tm : TypeMeta) (lm : ListMetaM) {X} (x : option Z * list X) : ListValue X :=
  (tm, lm_ResourceVersion lm, lm_Continue lm, x.1, x.2).

Lemma list_read {V X} `{!CellOf (list V)} (read : Heap → V → option X) h tm lm items :
  read_list read h tm lm items =
    ListMeta_value tm lm <$> read_pair (read_ptr (A := Z)) (read_items read) h (lm_RemainingItemCount lm, items).
Proof. unfold read_list, read_items. read_fields. Qed.

Lemma Items_copier {V X} `{!CellOf (list V)} zero (into : V → H V) (read : Heap → V → option X) refs
    `{!Footprinted read refs} :
  copier read (λ _, refs) into →
  copier (read_pair (read_ptr (A := Z)) (read_items read)) (λ h v, [v.1] ++ refs_items refs h v.2)
    (copy_pair (copy_ptr Z) (copy_slice zero into)).
Proof.
  intros HC. apply (copy_pair_copier (read_ptr (A := Z)) _ (λ p, [p])); [apply _|apply copy_ptr_copier|by apply copy_slice_copier|].
  intros h h' v x Hsub. by apply items_grow.
Qed.

Definition refs_MachineList (h : Heap) (v : MachineListM) : list (option loc) :=
  refs_list refs_Machine h (ml_ListMeta v) (ml_Items v).

Definition refs_DriverList (h : Heap) (v : DriverListM) : list (option loc) :=
  refs_list refs_Driver h (dl_ListMeta v) (dl_Items v).

Lemma MachineList_copier : copier read_MachineList refs_MachineList MachineList_DeepCopyInto.
Proof.
  pose proof (copy_struct_copier (λ s, (lm_RemainingItemCount (ml_ListMeta s), ml_Items s))
    (λ s v, mkMachineListM (ml_TypeMeta s) (mkListMetaM (lm_ResourceVersion (ml_ListMeta s))
              (lm_Continue (ml_ListMeta s)) v.1) v.2)
    (λ s, ListMeta_value (ml_TypeMeta s) (ml_ListMeta s)) _ _ _ _ MachineList_DeepCopyInto
    (Items_copier zero_Machine _ _ _ Machine_copier) (λ h s, list_read _ h _ _ _)) as HC.
  apply HC; [by intros s []|done|].
  unfold MachineList_DeepCopyInto, ListMeta_DeepCopyInto. copy_fields.
Qed.

Lemma DriverList_copier : copier read_DriverList refs_DriverList DriverList_DeepCopyInto.
Proof.
  pose proof (copy_struct_copier (λ s, (lm_RemainingItemCount (dl_ListMeta s), dl_Items s))
    (λ s v, mkDriverListM (dl_TypeMeta s) (mkListMetaM (lm_ResourceVersion (dl_ListMeta s))
              (lm_Continue (dl_ListMeta s)) v.1) v.2)
    (λ s, ListMeta_value (dl_TypeMeta s) (dl_ListMeta s)) _ _ _ _ DriverList_DeepCopyInto
    (Items_copier zero_Driver _ _ _ Driver_copier) (λ h s, list_read _ h _ _ _)) as HC.
  apply HC; [by intros s []|done|].
  unfold DriverList_DeepCopyInto, ListMeta_DeepCopyInto. copy_fields.
Qed.

(** ** Copies behind a pointer *)

(** [copy] makes copies of the structs of type [V]: no copy of nil, and
    otherwise a pointer to a new struct that stands for the same value. *)
Definition copies {V X} `{!CellOf V} (wrap : option loc → RuntimeObject)
    (read : Heap → V → option X) (refs : Heap → V → list (option loc))
    (copy : option loc → H (option RuntimeObject)) : Prop :=
  (∀ h, copy None h = Some (None, h)) ∧
  ∀ h p v x, peek h p = Some v → read h v = Some x →
    ∃ h' p' v', copy (Some p) h = Some (Some (wrap (Some p')), h') ∧
      peek h' p' = Some v' ∧ read h' v' = Some x ∧
      h ⊆ h' ∧ renewed h h' (Some p :: refs h v) (Some p' :: refs h' v').

Lemma DeepCopyObject_copies {V X} `{!CellOf V} wrap (read : Heap → V → option X) refs into :
  copier read refs into →
  (∀ h h' v x, h ⊆ h' → read h v = Some x → read h' v = Some x ∧ refs h' v = refs h v) →
  copies wrap read refs (as_object wrap (DeepCopy into)).
Proof.
  intros HC Hgrow. split; [done|]. intros h p v x Hv Hx.
  destruct (HC h v x Hx) as (h1 & v' & E & Hsub & R & Hn & Hd & Hf).
  set (p' := fresh (dom h1)). set (h' := <[p' := to_cell v']> h1).
  pose proof (insert_fresh_subseteq h1 (to_cell v')) as Hsub'.
  destruct (Hgrow h1 h' v' x Hsub' R) as [R' Hrefs]. exists h', p', v'. split_and!.
  - unfold as_object, DeepCopy, mbind, H_bind, load. rewrite Hv. simpl. by rewrite E.
  - apply peek_insert.
  - done.
  - by etrans.
  - rewrite Hrefs. split_and!; [by constructor| |].
    + simpl. apply NoDup_cons. split; [|done]. intros (q & Hq & Hp)%list_elem_of_omap.
      change (q = Some p') in Hp. subst q. apply (alloc_fresh h1). by apply Hf.
    + intros l [[= ->]|Hl]%elem_of_cons.
      * split; [by apply (peek_dom h' p' v'), peek_insert|]. intros Hl. apply (alloc_fresh h1).
        by apply (subseteq_dom h h1 Hsub).
      * destruct (Hf l Hl) as [Hl1 Hl2]. split; [|done]. by apply (subseteq_dom h1 h' Hsub').
Qed.

Lemma footprinted_grows {V X} (read : Heap → V → option X) refs `{!Footprinted read refs} h h' v x :
  h ⊆ h' → read h v = Some x → read h' v = Some x ∧ refs v = refs v.
Proof. intros Hsub Hx. split; [by eapply (read_mono read refs)|done]. Qed.

Lemma list_grows {V X} `{!CellOf (list V)} (read : Heap → V → option X) refs
    `{!Footprinted read refs} h h' tm lm items x :
  h ⊆ h' → read_list read h tm lm items = Some x →
  read_list read h' tm lm items = Some x ∧ refs_list refs h' lm items = refs_list refs h lm items.
Proof.
  intros Hsub. rewrite !list_read, !fmap_Some. intros (y & Hy & ->).
  apply read_pair_Some in Hy as [Hn Hi]. destruct (items_grow read refs h h' items y.2 Hsub Hi) as [Hi' Hr].
  split.
  - exists y. split; [|done]. apply read_pair_Some. split; [by eapply read_ptr_mono|done].
  - unfold refs_list. by injection Hr as ->.
Qed.

Lemma Machine_copies : copies OMachine read_Machine (λ _, refs_Machine) Machine_DeepCopyObject.
Proof. apply DeepCopyObject_copies; [apply Machine_copier|]. intros h h' v x. apply footprinted_grows; apply _. Qed.

(** C28: [DeepCopyObject] of each API object, [Driver], [DriverList],
    [Machine] and [MachineList], is a faithful and independent copy: for a nil
    pointer it returns the nil interface; otherwise it returns a pointer of
    the same type to a new struct with the same value, in which the same
    fields are nil and every other field refers to memory of its own,
    allocated by the copy; no memory that existed before is changed. *)
Theorem deep_copies_are_independent :
  copies OMachine read_Machine (λ _, refs_Machine) Machine_DeepCopyObject ∧
  copies OMachineList read_MachineList refs_MachineList MachineList_DeepCopyObject ∧
  copies ODriver read_Driver (λ _, refs_Driver) Driver_DeepCopyObject ∧
  copies ODriverList read_DriverList refs_DriverList DriverList_DeepCopyObject.
Proof.
  split_and!; [apply Machine_copies|apply DeepCopyObject_copies..].
  - apply MachineList_copier.
  - intros h h' v x. apply (list_grows read_Machine refs_Machine).
  - apply Driver_copier.
  - intros h h' v x. apply footprinted_grows; apply _.
  - apply DriverList_copier.
  - intros h h' v x. apply (list_grows read_Driver refs_Driver).
Qed.
