(* ===== verification/InPlace.v ===== *)
(** * Transformations in place

    [CreateOrPatch] hands a deep copy of the object it read to a closure that
    changes it in place, and then sends the difference between the object read
    and the changed copy.  Here are the closures of [patchFinalizer] and
    [patchAnnotation] on the store of [Memory.v], with [append] and the
    filtering in place of the finalizer helpers, and the proof that they do to
    the copy what the functions of [Kube.v] do to the value, and nothing to
    the object read. *)

From S2P Require Import Prelude Types Kube Memory DeepCopy DeepCopyFacts.

(** ** Slices *)

(** A panic. *)
Definition fault {A} : H A := λ _, None.

(** [s[i]], with the panic for an index out of range. *)
Definition index (s : option slice) (i : nat) : H string :=
  match s with
  | None => fault
  | Some s =>
      arr ← load (A := list string) (sl_array s);
      from_option mret fault (take (sl_len s) arr !! i)
  end.

(** [s[:0]] *)
Definition emptied (s : option slice) : option slice := (λ s, mkSlice (sl_array s) 0) <$> s.

Definition len (s : option slice) : nat := match s with Some s => sl_len s | None => 0 end.

Definition finalizers_of (s : option slice) : H (list string) := λ h, (λ l, (l, h)) <$> read_slice h s.

Section InPlace.
(** The capacity the runtime adds when an array has to grow. *)
Context (spare : nat → nat).

(** [append(s, x)] writes behind the slice where the array has room, and
    otherwise copies the slice to a larger array. *)
Definition append (s : option slice) (x : string) : H (option slice) :=
  match s with
  | None =>
      out ← new (x :: replicate (spare 0) "");
      mret (Some (mkSlice out 1))
  | Some s =>
      arr ← load (A := list string) (sl_array s);
      if decide (sl_len s < length arr)%nat then
        _ ← write (sl_array s) (<[sl_len s := x]> arr);
        mret (Some (mkSlice (sl_array s) (S (sl_len s))))
      else
        out ← new (take (sl_len s) arr ++ x :: replicate (spare (sl_len s)) "");
        mret (Some (mkSlice out (S (sl_len s))))
  end.

Definition set_finalizers (m : ObjectMetaM) (s : option slice) : ObjectMetaM :=
  mkObjectMetaM (om_Name m) (om_Namespace m) (om_ResourceVersion m) (om_Generation m)
    (om_DeletionTimestamp m) s (om_Annotations m).

Definition set_annotations (m : ObjectMetaM) (a : option loc) : ObjectMetaM :=
  mkObjectMetaM (om_Name m) (om_Namespace m) (om_ResourceVersion m) (om_Generation m)
    (om_DeletionTimestamp m) (om_Finalizers m) a.

(** ** The finalizer helpers of [core/v1] *)

Definition AddFinalizer_at (m : ObjectMetaM) (finalizer : string) : H ObjectMetaM :=
  names ← finalizers_of (om_Finalizers m);
  if existsb (λ name, bool_decide (name = finalizer)) names then mret m
  else
    s ← append (om_Finalizers m) finalizer;
    mret (set_finalizers m s).

(** [for _, name := range s { if name != finalizer { r = append(r, name) } }]
    from index [i], for the [n] indices left; [r] and [s] share an array. *)
Fixpoint filter_loop (s : option slice) (finalizer : string) (n i : nat) (r : option slice)
    : H (option slice) :=
  match n with
  | O => mret r
  | S n =>
      name ← index s i;
      r' ← (if decide (name = finalizer) then mret r else append r name);
      filter_loop s finalizer n (S i) r'
  end.

Definition RemoveFinalizer_at (m : ObjectMetaM) (finalizer : string) : H ObjectMetaM :=
  let s := om_Finalizers m in
  r ← filter_loop s finalizer (len s) 0 (emptied s);
  mret (set_finalizers m r).

(** ** The closures *)

Definition set_meta (mc : MachineM) (om : ObjectMetaM) : MachineM :=
  mkMachineM (mm_TypeMeta mc) om (mm_Spec mc) (mm_Status mc).

(** The closure of [patchFinalizer]. *)
Definition patchFinalizer_closure (verbType finalizerName : string) (p : loc) : H loc :=
  mc ← load (A := MachineM) p;
  om ← (if decide (verbType = VerbCreated) then AddFinalizer_at (mm_ObjectMeta mc) finalizerName
        else if decide (verbType = VerbDeleted) then
          RemoveFinalizer_at (mm_ObjectMeta mc) finalizerName
        else mret (mm_ObjectMeta mc));
  _ ← write p (set_meta mc om);
  mret p.

(** [anno := mc.GetAnnotations(); if anno == nil { anno = make(...) };
    anno[key] = value; mc.SetAnnotations(anno)] *)
Definition set_annotation (m : ObjectMetaM) (key value : string) : H ObjectMetaM :=
  anno ← match om_Annotations m with
         | None => new (∅ : gmap string string)
         | Some l => mret l
         end;
  kvs ← load (A := gmap string string) anno;
  _ ← write anno (<[key := value]> kvs);
  mret (set_annotations m (Some anno)).

(** The closure of [patchAnnotation]. *)
Definition patchAnnotation_closure (key value : string) (p : loc) : H loc :=
  mc ← load (A := MachineM) p;
  om ← set_annotation (mm_ObjectMeta mc) key value;
  _ ← write p (set_meta mc om);
  mret p.
End InPlace.

(** [mod, err := transform(cur.DeepCopyObject().(client.Object), ...)] of
    [CreateOrPatchE], with the type assertion of the closures. *)
Definition transform_copy (closure : loc → H loc) (cur : option loc) : H loc :=
  c ← Machine_DeepCopyObject cur;
  match c with
  | Some (OMachine (Some mc)) => closure mc
  | _ => fault
  end.

(** ** Writes *)

(** Only the locations of [ls] may change. *)
Definition keeps (ls : list (option loc)) (h h' : Heap) : Prop :=
  ∀ l c, Some l ∉ ls → h !! l = Some c → h' !! l = Some c.

Lemma keeps_refl ls h : keeps ls h h.
Proof. by intros l c. Qed.

Lemma keeps_insert ls h l c : Some l ∈ ls → keeps ls h (<[l := c]> h).
Proof. intros Hl l' c' Hl' Hc. rewrite lookup_insert_ne; [done|]. by intros <-. Qed.

Lemma keeps_alloc ls h c : keeps ls h (<[fresh (dom h) := c]> h).
Proof. intros l c' _ Hl. by eapply lookup_weaken, insert_fresh_subseteq. Qed.

Lemma keeps_mono ls ls' h h' : ls ⊆ ls' → keeps ls h h' → keeps ls' h h'.
Proof. intros Hs Hk l c Hl. apply Hk. set_solver. Qed.

Lemma keeps_read {V X} (read : Heap → V → option X) refs `{!Footprinted read refs} ls h h' v x :
  keeps ls h h' → (∀ l, Some l ∈ refs v → Some l ∉ ls) → read h v = Some x → read h' v = Some x.
Proof. intros Hk Hd Hx. eapply stable_read; [exact Hx|]. intros l c Hl. apply Hk. auto. Qed.

Lemma load_run {A} `{!CellOf A} h l (a : A) : peek h l = Some a → load l h = Some (a, h).
Proof. unfold load. by intros ->. Qed.

Lemma write_run {A B} `{!CellOf A, !CellOf B} h l (a : A) (b : B) :
  peek h l = Some a → write l b h = Some (tt, <[l := to_cell b]> h).
Proof.
  intros Ha%peek_dom. apply elem_of_dom in Ha as [c Hc]. unfold write, store. by rewrite Hc.
Qed.

Lemma read_slice_at {A} `{!CellOf (list A)} h l (a : list A) n :
  (n ≤ length a)%nat → read_slice (<[l := to_cell a]> h) (Some (mkSlice l n)) = Some (take n a).
Proof. intros Hn. unfold read_slice. simpl. rewrite peek_insert. simpl. by rewrite decide_True. Qed.

(** ** Finalizers *)

Section Finalizers.
Context (spare : nat → nat).

Lemma append_run h s l x :
  read_slice h s = Some l →
  ∃ h' s', append spare s x h = Some (s', h') ∧ read_slice h' s' = Some (l ++ [x]) ∧
    keeps [slice_ref s] h h'.
Proof.
  destruct s as [s|]; intros Hl.
  - pose proof Hl as (arr & Harr & Hd)%bind_Some. case_decide as Hlen; [|done].
    injection Hd as <-. unfold append, mbind, H_bind at 1. rewrite (load_run _ _ _ Harr).
    case_decide as Hroom.
    + unfold H_bind. rewrite (write_run _ _ arr (<[sl_len s := x]> arr) Harr). do 2 eexists. split; [done|].
      split; [|apply keeps_insert; by left]. rewrite read_slice_at by (rewrite length_insert; lia).
      by rewrite (take_S_r _ _ x), take_insert_ge by (done || by apply list_lookup_insert_eq).
    + unfold H_bind, new, alloc. do 2 eexists. split; [done|]. split; [|apply keeps_alloc].
      assert (length (take (sl_len s) arr) = sl_len s) as Ht by (rewrite length_take; lia).
      rewrite read_slice_at by (rewrite length_app, Ht; simpl; lia).
      rewrite take_app, take_ge by lia. by rewrite Ht, Nat.sub_succ_l, Nat.sub_diag.
  - injection Hl as <-. do 2 eexists. split; [done|]. split; [|apply keeps_alloc].
    by rewrite read_slice_at by (simpl; lia).
Qed.

(** The loop writes the names to keep over the ones already read. *)
Lemma filter_loop_run f h l m n : ∀ i j (a : list string),
  (j ≤ i)%nat → (i + n ≤ m)%nat → (m ≤ length a)%nat →
  ∃ a' j', filter_loop spare (Some (mkSlice l m)) f n i (Some (mkSlice l j)) (<[l := to_cell a]> h) =
      Some (Some (mkSlice l j'), <[l := to_cell a']> h) ∧
    (j' ≤ length a')%nat ∧ take j' a' = take j a ++ filter (λ name, name ≠ f) (take n (drop i a)).
Proof.
  induction n as [|n IH]; intros i j a Hji Him Hma.
  { exists a, j. split_and!; [done|lia|]. by rewrite app_nil_r. }
  destruct (lookup_lt_is_Some_2 a i) as [name Hname]; [lia|].
  cbn [filter_loop]. unfold mbind, H_bind at 1, index, mbind, H_bind at 1.
  rewrite (load_run _ _ a) by apply peek_insert. cbn [sl_len].
  rewrite lookup_take_lt, Hname by lia. cbn [from_option mret H_ret].
  erewrite drop_S by done. cbn [take]. rewrite filter_cons. destruct (decide (name = f)) as [Hf|Hf].
  - destruct (IH (S i) j a) as (a' & j' & Hrun & Hj' & Ht); [lia..|]. exists a', j'.
    unfold H_bind, mret, H_ret. rewrite decide_False by auto. by rewrite Hrun.
  - destruct (IH (S i) (S j) (<[j := name]> a)) as (a' & j' & Hrun & Hj' & Ht);
      [lia|lia|rewrite length_insert; lia|].
    exists a', j'. unfold H_bind, append, mret, H_ret. unfold mbind, H_bind. rewrite (load_run _ _ a) by apply peek_insert.
    cbn [sl_len sl_array]. rewrite decide_True by lia.
    rewrite (write_run _ _ a) by apply peek_insert. rewrite insert_insert_eq. cbn [mret H_ret].
    split; [done|]. split; [done|]. rewrite Ht, (decide_True (P := name ≠ f)) by done.
    rewrite (take_S_r _ _ name), take_insert_ge by (done || apply list_lookup_insert_eq; lia).
    rewrite drop_insert_lt by lia. by rewrite <- app_assoc.
Qed.

(** ** Operations on the metadata *)

(** [op] does [f] to the metadata, and changes nothing but what it refers to. *)
Definition implements_meta (op : ObjectMetaM → H ObjectMetaM) (f : ObjectMeta → ObjectMeta) : Prop :=
  ∀ h m x, read_ObjectMeta h m = Some x → NoDup (omap id (refs_ObjectMeta m)) →
    ∃ h' m', op m h = Some (m', h') ∧ read_ObjectMeta h' m' = Some (f x) ∧
      keeps (refs_ObjectMeta m) h h'.

Lemma read_ObjectMeta_Some h m x :
  read_ObjectMeta h m = Some x ↔
    ∃ t, read_ptr h (om_DeletionTimestamp m) = Some t ∧
      read_ptr h (om_Annotations m) = Some (Annotations x) ∧
      read_slice h (om_Finalizers m) = Some (Finalizers x) ∧
      x = {| Name := om_Name m; Namespace := om_Namespace m;
             ResourceVersion := om_ResourceVersion m; Generation := om_Generation m;
             DeletionTimestamp := seconds <$> t; Finalizers := Finalizers x;
             Annotations := Annotations x |}.
Proof.
  unfold read_ObjectMeta. split.
  - intros (t & Ht & (an & Han & (fs & Hfs & [= <-])%bind_Some)%bind_Some)%bind_Some.
    exists t. by split_and!.
  - intros (t & Ht & Han & Hfs & ->). rewrite Ht. simpl. rewrite Han. simpl. by rewrite Hfs.
Qed.

Lemma NoDup_refs (rs : list (option loc)) i j l :
  NoDup (omap id rs) → rs !! i = Some (Some l) → rs !! j = Some (Some l) → i = j.
Proof.
  revert i j. induction rs as [|r rs IH]; intros i j Hnd Hi Hj; [done|].
  destruct i as [|i], j as [|j]; simpl in *; [done| | |].
  - injection Hi as ->. simpl in Hnd. apply NoDup_cons in Hnd as [[] _].
    apply list_elem_of_omap. exists (Some l). split; [by eapply list_elem_of_lookup_2|done].
  - injection Hj as ->. simpl in Hnd. apply NoDup_cons in Hnd as [[] _].
    apply list_elem_of_omap. exists (Some l). split; [by eapply list_elem_of_lookup_2|done].
  - f_equal. apply IH; [|done|done]. destruct r; simpl in Hnd; [by apply NoDup_cons in Hnd as [_ ?]|done].
Qed.

(** The finalizers are replaced, the other fields are not touched. *)
Lemma set_finalizers_run h h' m x s fs :
  read_ObjectMeta h m = Some x → NoDup (omap id (refs_ObjectMeta m)) →
  keeps [slice_ref (om_Finalizers m)] h h' → read_slice h' s = Some fs →
  read_ObjectMeta h' (set_finalizers m s) = Some (set_Finalizers x fs) ∧
  keeps (refs_ObjectMeta m) h h'.
Proof.
  intros (t & Ht & Han & Hfs & Hx)%read_ObjectMeta_Some Hnd Hk Hs. split.
  - apply read_ObjectMeta_Some. exists t. split_and!; [| |done|by rewrite Hx].
    + eapply (keeps_read read_ptr (λ p, [p])); [done| |done].
      intros l Hl%list_elem_of_singleton Hl'%list_elem_of_singleton.
      by pose proof (NoDup_refs _ 0 2 l Hnd (f_equal Some (eq_sym Hl)) (f_equal Some (eq_sym Hl'))).
    + eapply (keeps_read read_ptr (λ p, [p])); [done| |done].
      intros l Hl%list_elem_of_singleton Hl'%list_elem_of_singleton.
      by pose proof (NoDup_refs _ 1 2 l Hnd (f_equal Some (eq_sym Hl)) (f_equal Some (eq_sym Hl'))).
  - eapply keeps_mono; [|done]. unfold refs_ObjectMeta. set_solver.
Qed.

Lemma AddFinalizer_implements f :
  implements_meta (λ m, AddFinalizer_at spare m f) (λ m, AddFinalizer m f).
Proof.
  intros h m x Hx Hnd. pose proof Hx as (t & _ & _ & Hfs & _)%read_ObjectMeta_Some.
  unfold AddFinalizer_at, finalizers_of, AddFinalizer, mbind, H_bind. rewrite Hfs. cbn [fmap option_fmap option_map].
  case_match.
  - exists h, m. split_and!; [done|done|apply keeps_refl].
  - destruct (append_run h _ _ f Hfs) as (h' & s' & -> & Hs' & Hk). exists h', (set_finalizers m s').
    split; [done|]. by eapply set_finalizers_run.
Qed.

Lemma RemoveFinalizer_implements f :
  implements_meta (λ m, RemoveFinalizer_at spare m f) (λ m, RemoveFinalizer m f).
Proof.
  intros h m x Hx Hnd. pose proof Hx as (t & _ & _ & Hfs & _)%read_ObjectMeta_Some.
  unfold RemoveFinalizer_at, RemoveFinalizer, mbind, H_bind.
  destruct (om_Finalizers m) as [[l n]|] eqn:Hs; simpl.
  - pose proof Hfs as (arr & Harr & Hd)%bind_Some. case_decide as Hlen; [|done]. injection Hd as Hd.
    simpl in Harr, Hlen, Hd. assert (h = <[l := to_cell arr]> h) as Hh.
    { unfold peek in Harr. apply bind_Some in Harr as (c & Hc & Ha). destruct c; try done.
      injection Ha as ->. by rewrite insert_id. }
    destruct (filter_loop_run f h l n n 0 0 arr) as (a' & j' & Hrun & Hj' & Ht); [lia..|].
    rewrite <- Hh in Hrun. rewrite Hrun. do 2 eexists. split; [done|]. eapply set_finalizers_run; [done|done| |].
    + rewrite Hs. apply keeps_insert. by left.
    + by rewrite read_slice_at, Ht, drop_0, Hd by done.
  - injection Hfs as Hfs. exists h, (set_finalizers m None). split; [done|].
    eapply set_finalizers_run; [done|done|apply keeps_refl|]. by rewrite <- Hfs.
Qed.

Lemma keep_implements : implements_meta mret id.
Proof. intros h m x Hx _. exists h, m. split_and!; [done|done|apply keeps_refl]. Qed.
End Finalizers.

Lemma set_annotations_run h h' m x l an :
  read_ObjectMeta h m = Some x → NoDup (omap id (refs_ObjectMeta m)) →
  keeps [om_Annotations m] h h' → peek h' l = Some an →
  read_ObjectMeta h' (set_annotations m (Some l)) = Some (set_Annotations x (Some an)) ∧
  keeps (refs_ObjectMeta m) h h'.
Proof.
  intros (t & Ht & Han & Hfs & Hx)%read_ObjectMeta_Some Hnd Hk Hs. split.
  - apply read_ObjectMeta_Some. exists t. split_and!; [|by simpl; rewrite Hs| |by rewrite Hx].
    + eapply (keeps_read read_ptr (λ p, [p])); [done| |done].
      intros k Hl%list_elem_of_singleton Hl'%list_elem_of_singleton.
      by pose proof (NoDup_refs _ 0 1 k Hnd (f_equal Some (eq_sym Hl)) (f_equal Some (eq_sym Hl'))).
    + eapply (keeps_read read_slice (λ s, [slice_ref s])); [done| |done].
      intros k Hl%list_elem_of_singleton Hl'%list_elem_of_singleton.
      by pose proof (NoDup_refs _ 2 1 k Hnd (f_equal Some (eq_sym Hl)) (f_equal Some (eq_sym Hl'))).
  - eapply keeps_mono; [|done]. unfold refs_ObjectMeta. set_solver.
Qed.

Lemma set_annotation_implements key value :
  implements_meta (λ m, set_annotation m key value)
    (λ m, set_Annotations m (Some (<[key := value]> (default ∅ (Annotations m))))).
Proof.
  intros h m x Hx Hnd. pose proof Hx as (t & _ & Han & _)%read_ObjectMeta_Some.
  unfold set_annotation, mbind, H_bind. destruct (om_Annotations m) as [l|] eqn:Hs; simpl in Han.
  - apply fmap_Some in Han as (an & Hpk & Han). cbn [mret H_ret]. rewrite (load_run _ _ _ Hpk).
    rewrite (write_run _ _ an (<[key := value]> an) Hpk). do 2 eexists. split; [done|].
    rewrite Han. eapply set_annotations_run; [done|done| |apply peek_insert].
    rewrite Hs. apply keeps_insert. by left.
  - injection Han as Han. unfold new, alloc. rewrite (load_run _ _ (∅ : gmap string string)) by apply peek_insert.
    rewrite (write_run _ _ (∅ : gmap string string)) by apply peek_insert. do 2 eexists. split; [done|].
    rewrite <- Han. rewrite insert_insert_eq.
    eapply set_annotations_run; [done|done|apply keeps_alloc|apply peek_insert].
Qed.

(** ** The closures *)

(** A closure that reads the machine, changes its metadata and writes it back. *)
Definition on_meta (op : ObjectMetaM → H ObjectMetaM) (p : loc) : H loc :=
  mc ← load (A := MachineM) p;
  om ← op (mm_ObjectMeta mc);
  _ ← write p (set_meta mc om);
  mret p.

Lemma read_Machine_Some h v x :
  read_Machine h v = Some x ↔
    read_ObjectMeta h (mm_ObjectMeta v) = Some (Meta x) ∧
    read_MachineSpec h (mm_Spec v) = Some (Spec x) ∧
    read_MachineStatus h (mm_Status v) = Some (Status x) ∧ TypeMetaOf x = mm_TypeMeta v.
Proof.
  rewrite Machine_read, fmap_Some. split.
  - by intros (y & (Hom & (Hsp & Hst)%read_pair_Some)%read_pair_Some & ->).
  - intros (Hom & Hsp & Hst & Htm). exists (Meta x, (Spec x, Status x)). split.
    + apply read_pair_Some. split; [done|]. by apply read_pair_Some.
    + destruct x. simpl in *. by subst.
Qed.

(** Writing the struct does not change what its fields refer to, whose
    memory has other types. *)
Lemma peek_other {A} `{!CellOf A} h p v v' l :
  peek (A := MachineM) h p = Some v → (∀ m, of_cell (A := A) (CMachine m) = None) →
  peek (A := A) (<[p := CMachine v']> h) l = peek h l.
Proof.
  intros (c & Hc & Hv)%bind_Some HA. destruct c; try done. unfold peek.
  destruct (decide (p = l)) as [<-|Hne]; [|by rewrite lookup_insert_ne].
  rewrite lookup_insert_eq, Hc. simpl. by rewrite !HA.
Qed.

Lemma read_Machine_write h p v v' w :
  peek (A := MachineM) h p = Some v → read_Machine (<[p := CMachine v']> h) w = read_Machine h w.
Proof.
  intros Hv. unfold read_Machine, read_ObjectMeta, read_MachineSpec, read_MachineStatus, read_ptr, read_slice.
  repeat case_match; by rewrite ?(peek_other h p v v' _ Hv) by done.
Qed.

Lemma NoDup_refs_app (rs1 rs2 : list (option loc)) :
  NoDup (omap id (rs1 ++ rs2)) → NoDup (omap id rs1) ∧ ∀ l, Some l ∈ rs2 → Some l ∉ rs1.
Proof.
  rewrite omap_app. intros (Hnd & Hsep & _)%NoDup_app. split; [done|]. intros l H2 H1.
  apply (Hsep l); apply list_elem_of_omap; by exists (Some l).
Qed.

(** On a machine that has its memory for itself, such a closure changes the
    metadata and nothing else. *)
Lemma on_meta_run op f h p v x :
  implements_meta op f → peek h p = Some v → read_Machine h v = Some x →
  NoDup (omap id (refs_Machine v)) → Some p ∉ refs_Machine v →
  ∃ h' v', on_meta op p h = Some (p, h') ∧ peek h' p = Some v' ∧
    read_Machine h' v' = Some (set_Meta x (f (Meta x))) ∧ keeps (Some p :: refs_Machine v) h h'.
Proof.
  intros Hop Hv (Hom & Hsp & Hst & Htm)%read_Machine_Some [Hnd Hsep]%NoDup_refs_app Hp.
  destruct (Hop h _ _ Hom Hnd) as (h1 & om' & Hrun & Hom' & Hk).
  assert (peek h1 p = Some v) as Hv1.
  { eapply peek_stable; [exact Hv|]. intros c. apply Hk. contradict Hp. apply elem_of_app. by left. }
  unfold on_meta, mbind, H_bind. rewrite (load_run _ _ _ Hv), Hrun, (write_run _ _ _ _ Hv1).
  exists (<[p := to_cell (set_meta v om')]> h1), (set_meta v om').
  split_and!; [done|apply peek_insert| |].
  - change (to_cell ?m) with (CMachine m). erewrite read_Machine_write by exact Hv1.
    apply read_Machine_Some. split_and!; [done| | |done].
    + eapply keeps_read; [apply _|exact Hk| |exact Hsp]. intros l Hl. apply Hsep, elem_of_app. by left.
    + eapply keeps_read; [apply _|exact Hk| |exact Hst]. intros l Hl. apply Hsep, elem_of_app. by right.
  - intros l c [Hl Hl']%not_elem_of_cons Hc. rewrite lookup_insert_ne by congruence. apply Hk; [|done].
    contradict Hl'. apply elem_of_app. by left.
Qed.

(** [closure], applied to a deep copy, makes [f] of the value read and leaves
    all memory that existed before alone. *)
Definition implements (closure : loc → H loc) (f : Machine → Machine) : Prop :=
  ∀ h cur v x, peek h cur = Some v → read_Machine h v = Some x →
    ∃ h' mod_ v', transform_copy closure (Some cur) h = Some (mod_, h') ∧
      peek h' mod_ = Some v' ∧ read_Machine h' v' = Some (f x) ∧
      h ⊆ h' ∧ mod_ ∉ dom h.

Lemma on_meta_implements op f closure g :
  implements_meta op f → (∀ p h, closure p h = on_meta op p h) →
  (∀ x, g x = set_Meta x (f (Meta x))) → implements closure g.
Proof.
  intros Hop Hcl Hg h cur v x Hv Hx.
  destruct (proj2 Machine_copies h cur v x Hv Hx) as (h1 & p & v1 & Hrun & Hv1 & Hx1 & Hsub & _ & Hnd & Hf).
  apply NoDup_cons in Hnd as [Hp Hnd].
  destruct (on_meta_run op f h1 p v1 x Hop Hv1 Hx1 Hnd) as (h' & v' & Hrun' & Hv' & Hx' & Hk).
  { contradict Hp. apply list_elem_of_omap. by exists (Some p). }
  exists h', p, v'. unfold transform_copy, mbind, H_bind. rewrite Hrun, Hcl, Hg.
  split_and!; [done|done|done| |].
  - apply map_subseteq_spec. intros l c Hl. apply Hk; [|by eapply lookup_weaken].
    intros Hl'. apply (Hf l Hl'). by eapply elem_of_dom_2.
  - apply Hf. by left.
Qed.

(** C27: the closures that [patchFinalizer] and [patchAnnotation] hand to
    [CreateOrPatch], run as in [CreateOrPatchE] on a deep copy of the object
    read, with [append], filtering in place and map assignment on memory,
    implement the transformations of values [finalizer_transform] and
    [annotation_transform]: they do not fault, the copy they return stands for
    the transformed machine, and no memory that existed before changes, so
    that the object read, from which the patch is computed, keeps its value. *)
Theorem patch_closures_refine spare verbType finalizerName key value :
  implements (patchFinalizer_closure spare verbType finalizerName)
    (finalizer_transform verbType finalizerName) ∧
  implements (patchAnnotation_closure key value) (annotation_transform key value).
Proof.
  split.
  - destruct (decide (verbType = VerbCreated)) as [Hv|Hv];
      [|destruct (decide (verbType = VerbDeleted)) as [Hv'|Hv']].
    + eapply on_meta_implements; [apply (AddFinalizer_implements spare finalizerName)| |].
      * intros p h. unfold patchFinalizer_closure, on_meta, mbind, H_bind.
        destruct (load p h) as [[mc h1]|]; [|done]. by rewrite decide_True.
      * intros x. unfold finalizer_transform. by rewrite decide_True.
    + eapply on_meta_implements; [apply (RemoveFinalizer_implements spare finalizerName)| |].
      * intros p h. unfold patchFinalizer_closure, on_meta, mbind, H_bind.
        destruct (load p h) as [[mc h1]|]; [|done]. by rewrite decide_False, decide_True.
      * intros x. unfold finalizer_transform. by rewrite decide_False, decide_True.
    + eapply on_meta_implements; [apply keep_implements| |].
      * intros p h. unfold patchFinalizer_closure, on_meta, mbind, H_bind.
        destruct (load p h) as [[mc h1]|]; [|done]. by rewrite !decide_False.
      * intros x. unfold finalizer_transform. rewrite !decide_False by done. by destruct x.
  - by eapply on_meta_implements; [apply (set_annotation_implements key value)| |].
Qed.

(** ** Pointers to elements *)

(** [&s[i]]: a place in an array. *)
Abbreviation elem_ptr := (loc * nat)%type.

Definition deref_elem (h : Heap) (p : elem_ptr) : option string :=
  arr ← peek (A := list string) h p.1; arr !! p.2.

(** [for i := 0; i < len(sl); i++ { ret = append(ret, &sl[i]) }], with [n]
    rounds left. *)
Fixpoint pointer_loop (a : loc) (n i : nat) (ret : list elem_ptr) : list elem_ptr :=
  match n with
  | O => ret
  | S n => pointer_loop a n (S i) (ret ++ [(a, i)])
  end.

Definition stringPSlice (sl : option slice) : list elem_ptr :=
  match sl with
  | None => []
  | Some s => pointer_loop (sl_array s) (sl_len s) 0 []
  end.

Lemma pointer_loop_seq a n : ∀ i ret, pointer_loop a n i ret = ret ++ ((a,.) <$> seq i n).
Proof.
  induction n as [|n IH]; intros i ret; simpl; [by rewrite app_nil_r|].
  by rewrite IH, <- app_assoc.
Qed.

(** The pointers refer to the strings of the slice, in order, and not to one
    variable. *)
Lemma stringPSlice_values h sl l :
  read_slice h sl = Some l → mapM (deref_elem h) (stringPSlice sl) = Some l ∧ NoDup (stringPSlice sl).
Proof.
  destruct sl as [[a n]|]; simpl; [|by intros [= <-]; split; [|constructor]].
  intros (arr & Harr & Hd)%bind_Some. case_decide as Hn; [|done]. injection Hd as <-.
  rewrite pointer_loop_seq. simpl. split; [|apply NoDup_fmap_2; [by intros ?? [=]|apply NoDup_seq]].
  apply mapM_Some, Forall2_fmap_l, Forall2_same_length_lookup_2.
  - by rewrite length_seq, length_take_le.
  - intros i k x [-> Hi]%lookup_seq Hx. unfold deref_elem. simpl. rewrite Harr. simpl.
    by rewrite lookup_take_lt in Hx by lia.
Qed.

(** ** Two machines in memory *)

(** Two structs, at 1 and 2, that share an array of finalizers. *)
Definition sharing_machine : MachineM :=
  mkMachineM zero_TypeMeta
    (mkObjectMetaM "vm" "demo" "7" 1 None (Some (mkSlice 3 3)) None)
    (mkMachineSpecM None None None None) (mkMachineStatusM None "").

Definition sharing_heap : Heap :=
  {[ 1%positive := CMachine sharing_machine; 2%positive := CMachine sharing_machine;
     3%positive := CStrings ["x"; GetFinalizer; "y"] ]}.

Definition finalizers_at (h : Heap) (p : loc) : option (list string) :=
  v ← peek (A := MachineM) h p; x ← read_Machine h v; Some (Finalizers (Meta x)).

(** Without a copy, removing the finalizer of the first overwrites the names
    of the second; on a deep copy, it does not. *)
Example removal_in_place :
  (∃ h', patchFinalizer_closure id VerbDeleted GetFinalizer 1 sharing_heap = Some (1%positive, h') ∧
     finalizers_at h' 1 = Some ["x"; "y"] ∧ finalizers_at h' 2 = Some ["x"; "y"; "y"]) ∧
  (∃ h' p, transform_copy (patchFinalizer_closure id VerbDeleted GetFinalizer) (Some 1%positive)
             sharing_heap = Some (p, h') ∧
     finalizers_at h' p = Some ["x"; "y"] ∧
     finalizers_at h' 1 = Some ["x"; GetFinalizer; "y"] ∧
     finalizers_at h' 2 = Some ["x"; GetFinalizer; "y"]).
Proof. split; repeat eexists; vm_compute; reflexivity. Qed.
