(* ===== verification/Server.v ===== *)
(** * The operator process

    [pkg/cmds/server/server.go] and the [run] command of [pkg/cmds/run.go]:
    the options and their flags, and [Run], which sets the manager up and
    starts it.  The manager, the client configuration and the parsing of flag
    texts are libraries; what they answer is the parameter [Runtime], about
    which nothing is assumed.  The calls and their answers are recorded in
    order.  The end of the process is a value: [os.Exit] and [klog.Fatalf] do
    not return. *)

From Stdlib Require Import SpecFloat.
From S2P Require Import Prelude Types Effects Kube.

(** ** The scheme *)

Record GroupVersionKind := mkGVK { gvk_Group : string; gvk_Version : string; gvk_Kind : string }.

Definition GroupVersion_Version : string := "v1alpha1".

(** The Go types the [init] functions of [driver_types.go] and
    [machine_types.go] register. *)
Definition SchemeBuilder : list string := ["Driver"; "DriverList"; "Machine"; "MachineList"].

(** A scheme: the Go types known, with their group, version and kind. *)
Abbreviation Scheme := (gmap string GroupVersionKind).

Definition AddToScheme (s : Scheme) : Scheme :=
  foldl (λ s t, <[t := mkGVK GroupVersion_Group GroupVersion_Version t]> s) s SchemeBuilder.

(** [init]; the types of [client-go] are a parameter. *)
Definition server_scheme (clientgo : Scheme → Scheme) : Scheme := AddToScheme (clientgo ∅).

(** ** Options *)

Definition time_Second : Z := 1000000000.
Definition time_Minute : Z := 60 * time_Second.

Record OperatorOptions := mkOptions {
  MasterURL : string;
  KubeconfigPath : string;
  LicenseFile : string;
  QPS : spec_float;
  Burst : Z;
  ResyncPeriod : Z;
  MaxNumRequeues : Z;
  NumThreads : Z;
  metricsAddr : string;
  enableLeaderElection : bool;
  probeAddr : string
}.

(** A [float64] and a [float32], from an integer. *)
Definition float64_of_Z (z : Z) : spec_float := binary_normalize 53 1024 z 0 false.
Definition float32_of_Z (z : Z) : spec_float := binary_normalize 24 128 z 0 false.

(** The conversion [float32(x)] rounds to the nearest, ties to even. *)
Definition float32 (x : spec_float) : spec_float :=
  match x with
  | S754_finite s m e => binary_normalize 24 128 (cond_Zopp s (Zpos m)) e s
  | _ => x
  end.

Definition NewOperatorOptions : OperatorOptions :=
  {| MasterURL := ""; KubeconfigPath := ""; LicenseFile := "";
     QPS := float64_of_Z 1000000; Burst := 1000000;
     ResyncPeriod := 10 * time_Minute; MaxNumRequeues := 5; NumThreads := 2;
     metricsAddr := ":8080"; enableLeaderElection := false; probeAddr := ":8081" |}.

(** ** Flags *)

Inductive FlagValue :=
| VString (s : string)
| VFloat64 (f : spec_float)
| VInt (z : Z)
| VDuration (z : Z)
| VBool (b : bool).

(** A flag is bound to a field: [flag_get] is its value, at first the default,
    and [flag_set] the assignment of a value of the field's type. *)
Record Flag := mkFlag {
  flag_name : string;
  flag_get : OperatorOptions → FlagValue;
  flag_set : FlagValue → OperatorOptions → option OperatorOptions
}.

Definition StringVar (name : string) (get : OperatorOptions → string)
    (set : string → OperatorOptions → OperatorOptions) : Flag :=
  mkFlag name (VString ∘ get) (λ v s, match v with VString x => Some (set x s) | _ => None end).
Definition Float64Var (name : string) (get : OperatorOptions → spec_float)
    (set : spec_float → OperatorOptions → OperatorOptions) : Flag :=
  mkFlag name (VFloat64 ∘ get) (λ v s, match v with VFloat64 x => Some (set x s) | _ => None end).
Definition IntVar (name : string) (get : OperatorOptions → Z)
    (set : Z → OperatorOptions → OperatorOptions) : Flag :=
  mkFlag name (VInt ∘ get) (λ v s, match v with VInt x => Some (set x s) | _ => None end).
Definition DurationVar (name : string) (get : OperatorOptions → Z)
    (set : Z → OperatorOptions → OperatorOptions) : Flag :=
  mkFlag name (VDuration ∘ get) (λ v s, match v with VDuration x => Some (set x s) | _ => None end).
Definition BoolVar (name : string) (get : OperatorOptions → bool)
    (set : bool → OperatorOptions → OperatorOptions) : Flag :=
  mkFlag name (VBool ∘ get) (λ v s, match v with VBool x => Some (set x s) | _ => None end).

Definition AddGoFlags : list Flag :=
  [ StringVar "master" MasterURL
      (λ x s, mkOptions x (KubeconfigPath s) (LicenseFile s) (QPS s) (Burst s) (ResyncPeriod s)
                (MaxNumRequeues s) (NumThreads s) (metricsAddr s) (enableLeaderElection s) (probeAddr s));
    StringVar "kubeconfig" KubeconfigPath
      (λ x s, mkOptions (MasterURL s) x (LicenseFile s) (QPS s) (Burst s) (ResyncPeriod s)
                (MaxNumRequeues s) (NumThreads s) (metricsAddr s) (enableLeaderElection s) (probeAddr s));
    StringVar "license-file" LicenseFile
      (λ x s, mkOptions (MasterURL s) (KubeconfigPath s) x (QPS s) (Burst s) (ResyncPeriod s)
                (MaxNumRequeues s) (NumThreads s) (metricsAddr s) (enableLeaderElection s) (probeAddr s));
    Float64Var "qps" QPS
      (λ x s, mkOptions (MasterURL s) (KubeconfigPath s) (LicenseFile s) x (Burst s) (ResyncPeriod s)
                (MaxNumRequeues s) (NumThreads s) (metricsAddr s) (enableLeaderElection s) (probeAddr s));
    IntVar "burst" Burst
      (λ x s, mkOptions (MasterURL s) (KubeconfigPath s) (LicenseFile s) (QPS s) x (ResyncPeriod s)
                (MaxNumRequeues s) (NumThreads s) (metricsAddr s) (enableLeaderElection s) (probeAddr s));
    DurationVar "resync-period" ResyncPeriod
      (λ x s, mkOptions (MasterURL s) (KubeconfigPath s) (LicenseFile s) (QPS s) (Burst s) x
                (MaxNumRequeues s) (NumThreads s) (metricsAddr s) (enableLeaderElection s) (probeAddr s));
    StringVar "metrics-bind-address" metricsAddr
      (λ x s, mkOptions (MasterURL s) (KubeconfigPath s) (LicenseFile s) (QPS s) (Burst s) (ResyncPeriod s)
                (MaxNumRequeues s) (NumThreads s) x (enableLeaderElection s) (probeAddr s));
    StringVar "health-probe-bind-address" probeAddr
      (λ x s, mkOptions (MasterURL s) (KubeconfigPath s) (LicenseFile s) (QPS s) (Burst s) (ResyncPeriod s)
                (MaxNumRequeues s) (NumThreads s) (metricsAddr s) (enableLeaderElection s) x);
    BoolVar "leader-elect" enableLeaderElection
      (λ x s, mkOptions (MasterURL s) (KubeconfigPath s) (LicenseFile s) (QPS s) (Burst s) (ResyncPeriod s)
                (MaxNumRequeues s) (NumThreads s) (metricsAddr s) x (probeAddr s)) ].

(** The flags of the command line, in order, with their values parsed; [None]
    for a flag that is not defined or a value of another type. *)
Definition set_flag (s : OperatorOptions) (name : string) (v : FlagValue) : option OperatorOptions :=
  f ← list_find (λ f, flag_name f = name) AddGoFlags; flag_set f.2 v s.

Fixpoint parse_flags (args : list (string * FlagValue)) (s : OperatorOptions)
    : option OperatorOptions :=
  match args with
  | [] => Some s
  | (name, v) :: rest => s' ← set_flag s name v; parse_flags rest s'
  end.

(** ** Calls of the process *)

(** [rest.Config]; what [Run] does not touch is [cfg_rest]. *)
Record Config := mkConfig { cfg_rest : string; cfg_QPS : spec_float; cfg_Burst : Z }.

(** [manager.Options]; the scheme and [NewClient] are the same in every run. *)
Record ManagerOptions := mkManagerOptions {
  Metrics_BindAddress : string;
  Cache_SyncPeriod : Z;
  HealthProbeBindAddress : string;
  LeaderElection : bool;
  LeaderElectionID : string
}.

(** The reconcilers, by the type they are [For]. *)
Inductive Reconciler := DriverReconciler | MachineReconciler.

Inductive SetupCall :=
| NewManager (cfg : Config) (opts : ManagerOptions)
| CompleteController (For_ : string) (r : Reconciler)
| AddHealthzCheck (name : string)
| AddReadyzCheck (name : string)
| StartManager.

Inductive SetupEvent :=
| EvBuildConfig (masterUrl kubeconfigPath : string) (answer : Res Config)
| EvCall (c : SetupCall) (answer : option error).

Record Runtime (W : Type) := mkRuntime {
  build_config : string → string → W → Res Config * W;
  answer_call : SetupCall → W → option error * W
}.
Arguments mkRuntime {W} _ _.
Arguments build_config {W} _ _ _ _.
Arguments answer_call {W} _ _ _.

(** A computation returns or ends the process. *)
Inductive Ended (A : Type) :=
| Returned (a : A)
| Exited (code : Z).
Arguments Returned {A} _.
Arguments Exited {A} _.

Definition P (W A : Type) : Type := W * list SetupEvent → Ended A * (W * list SetupEvent).

#[export] Instance P_ret W : MRet (P W) := λ A a s, (Returned a, s).
#[export] Instance P_bind W : MBind (P W) := λ A B k m s,
  match m s with
  | (Returned a, s') => k a s'
  | (Exited c, s') => (Exited c, s')
  end.

Definition os_Exit {W A} (code : Z) : P W A := λ s, (Exited code, s).

(** [klog.Fatalf] logs and exits. *)
Definition klog_Fatal {W A} : P W A := os_Exit 255.

Section Run.
Context {W : Type} (rt : Runtime W).

Definition BuildConfigFromFlags (masterUrl kubeconfigPath : string) : P W (Res Config) := λ s,
  let '(r, w) := build_config rt masterUrl kubeconfigPath s.1 in
  (Returned r, (w, s.2 ++ [EvBuildConfig masterUrl kubeconfigPath r])).

Definition perform (c : SetupCall) : P W (option error) := λ s,
  let '(r, w) := answer_call rt c s.1 in (Returned r, (w, s.2 ++ [EvCall c r])).

(** [SetupWithManager] of the two reconcilers. *)
Definition Driver_SetupWithManager : P W (option error) :=
  perform (CompleteController "Driver" DriverReconciler).
Definition Machine_SetupWithManager : P W (option error) :=
  perform (CompleteController "Machine" MachineReconciler).

(** [if err != nil { setupLog.Error(...); os.Exit(1) }] *)
Definition exit_on_error (err : option error) : P W unit :=
  match err with Some _ => os_Exit 1 | None => mret tt end.

Definition Run (s : OperatorOptions) : P W (option error) :=
  r ← BuildConfigFromFlags (MasterURL s) (KubeconfigPath s);
  cfg ← match r with inr _ => klog_Fatal | inl cfg => mret cfg end;
  let cfg := mkConfig (cfg_rest cfg) (float32 (QPS s)) (Burst s) in
  let syncPeriod := time_Second * 60 in
  err ← perform (NewManager cfg
    {| Metrics_BindAddress := ""; Cache_SyncPeriod := syncPeriod;
       HealthProbeBindAddress := probeAddr s; LeaderElection := enableLeaderElection s;
       LeaderElectionID := "54995429.klusters.dev" |});
  _ ← exit_on_error err;
  err ← Driver_SetupWithManager;
  _ ← exit_on_error err;
  err ← Machine_SetupWithManager;
  _ ← exit_on_error err;
  err ← perform (AddHealthzCheck "healthz");
  _ ← exit_on_error err;
  err ← perform (AddReadyzCheck "readyz");
  _ ← exit_on_error err;
  err ← perform StartManager;
  _ ← exit_on_error err;
  mret None.

(** The [run] command: the options are made, their flags are set from the
    command line, and [RunE] runs them. *)
Definition NewCmdRun (args : list (string * FlagValue)) : P W (option error) :=
  match parse_flags args NewOperatorOptions with
  | None => mret (Some (errorString "invalid flag"))
  | Some o => Run o
  end.

(** [main]: the code the process exits with. *)
Definition main (args : list (string * FlagValue)) (s : W * list SetupEvent)
    : Z * (W * list SetupEvent) :=
  match NewCmdRun args s with
  | (Exited code, s') => (code, s')
  | (Returned (Some _), s') => (1, s')
  | (Returned None, s') => (0, s')
  end.
End Run.

(** ** The version *)

(** The variables of [version.go], which the linker sets, and their copy in the
    version package. *)
Record version := mkVersion {
  Version : string; VersionStrategy : string; GitTag : string; GitBranch : string;
  CommitHash : string; CommitTimestamp : string; GoVersion : string; Compiler : string;
  Platform : string
}.

Definition zero_version : version := mkVersion "" "" "" "" "" "" "" "" "".

(** The assignments of [init], in order, on the version package's variable. *)
Definition version_init (build v : version) : version :=
  let v := mkVersion (Version build) (VersionStrategy v) (GitTag v) (GitBranch v) (CommitHash v) (CommitTimestamp v) (GoVersion v) (Compiler v) (Platform v) in
  let v := mkVersion (Version v) (VersionStrategy build) (GitTag v) (GitBranch v) (CommitHash v) (CommitTimestamp v) (GoVersion v) (Compiler v) (Platform v) in
  let v := mkVersion (Version v) (VersionStrategy v) (GitTag build) (GitBranch v) (CommitHash v) (CommitTimestamp v) (GoVersion v) (Compiler v) (Platform v) in
  let v := mkVersion (Version v) (VersionStrategy v) (GitTag v) (GitBranch build) (CommitHash v) (CommitTimestamp v) (GoVersion v) (Compiler v) (Platform v) in
  let v := mkVersion (Version v) (VersionStrategy v) (GitTag v) (GitBranch v) (CommitHash build) (CommitTimestamp v) (GoVersion v) (Compiler v) (Platform v) in
  let v := mkVersion (Version v) (VersionStrategy v) (GitTag v) (GitBranch v) (CommitHash v) (CommitTimestamp build) (GoVersion v) (Compiler v) (Platform v) in
  let v := mkVersion (Version v) (VersionStrategy v) (GitTag v) (GitBranch v) (CommitHash v) (CommitTimestamp v) (GoVersion build) (Compiler v) (Platform v) in
  let v := mkVersion (Version v) (VersionStrategy v) (GitTag v) (GitBranch v) (CommitHash v) (CommitTimestamp v) (GoVersion v) (Compiler build) (Platform v) in
  mkVersion (Version v) (VersionStrategy v) (GitTag v) (GitBranch v) (CommitHash v) (CommitTimestamp v) (GoVersion v) (Compiler v) (Platform build).

(** [version.Print]: the lines it prints. *)
Definition Print_version (v : version) : list string :=
  [ "Version = " +:+ Version v; "VersionStrategy = " +:+ VersionStrategy v; "GitTag = " +:+ GitTag v;
    "GitBranch = " +:+ GitBranch v; "CommitHash = " +:+ CommitHash v;
    "CommitTimestamp = " +:+ CommitTimestamp v ]
  ++ (if str_empty (GoVersion v) then [] else ["GoVersion = " +:+ GoVersion v])
  ++ (if str_empty (Compiler v) then [] else ["Compiler = " +:+ Compiler v])
  ++ (if str_empty (Platform v) then [] else ["Platform = " +:+ Platform v]).

(** Every variable arrives where it belongs, whatever was there. *)
Lemma version_init_eq build v : version_init build v = build.
Proof. by destruct build. Qed.

(** The report tells builds apart: no two builds print the same lines. *)
Lemma Print_version_inj v v' : Print_version v = Print_version v' → v = v'.
Proof.
  unfold Print_version, str_empty. intros Heq. destruct v, v'. simpl in Heq.
  injection Heq. clear Heq. intros Heq; intros; subst. revert Heq.
  repeat case_bool_decide; intros Heq; simplify_eq/=; done.
Qed.

(** ** The scheme knows the API *)

Lemma server_scheme_kinds clientgo t :
  t ∈ SchemeBuilder →
  server_scheme clientgo !! t = Some (mkGVK GroupVersion_Group GroupVersion_Version t).
Proof.
  unfold server_scheme, AddToScheme, SchemeBuilder. simpl. intros Ht.
  repeat (apply elem_of_cons in Ht as [->|Ht]; [by simplify_map_eq|]). by apply elem_of_nil in Ht.
Qed.

(** The group of the API is not an official one, so [CreateOrPatch] on a
    machine sends merge patches. *)
Lemma machine_merge_patch clientgo gvk :
  server_scheme clientgo !! "Machine" = Some gvk → isOfficialTypes (gvk_Group gvk) = false.
Proof. rewrite server_scheme_kinds by (unfold SchemeBuilder; set_solver). by intros [= <-]. Qed.

(** ** Flags *)

(** The flags are lenses on different fields. *)
Lemma flag_set_get f v s s' : f ∈ AddGoFlags → flag_set f v s = Some s' → flag_get f s' = v.
Proof.
  unfold AddGoFlags. intros Hf Hs.
  repeat (apply elem_of_cons in Hf as [->|Hf]; [destruct v; simplify_eq/=; done|]).
  by apply elem_of_nil in Hf.
Qed.

Lemma flag_set_other f g v s s' :
  f ∈ AddGoFlags → g ∈ AddGoFlags → flag_name f ≠ flag_name g → flag_set f v s = Some s' →
  flag_get g s' = flag_get g s.
Proof.
  unfold AddGoFlags. intros Hf Hg Hne Hs.
  repeat (apply elem_of_cons in Hf as [->|Hf];
    [destruct v; simplify_eq/=;
     repeat (apply elem_of_cons in Hg as [->|Hg]; [done|]); by apply elem_of_nil in Hg|]).
  by apply elem_of_nil in Hf.
Qed.

Lemma set_flag_Some s name v s' :
  set_flag s name v = Some s' →
  ∃ f, f ∈ AddGoFlags ∧ flag_name f = name ∧ flag_set f v s = Some s'.
Proof.
  intros ([i f] & (Hi & Hn & _)%list_find_Some & Hs)%bind_Some. exists f.
  split_and!; [by eapply list_elem_of_lookup_2|done|done].
Qed.

(** The value of a flag after the command line: the last one given. *)
Definition last_value (name : string) (args : list (string * FlagValue)) (default : FlagValue)
    : FlagValue :=
  foldl (λ v a, if decide (a.1 = name) then a.2 else v) default args.

Lemma parse_flags_value f args : ∀ s s',
  f ∈ AddGoFlags → parse_flags args s = Some s' →
  flag_get f s' = last_value (flag_name f) args (flag_get f s).
Proof.
  induction args as [|[name v] args IH]; intros s s' Hf; simpl; [by intros [= ->]|].
  intros (s1 & (g & Hg & <- & Hs)%set_flag_Some & Hp)%bind_Some. rewrite (IH s1 s' Hf Hp). f_equal.
  case_decide as Hn.
  - pose proof (flag_set_get g v s s1 Hg Hs) as <-. f_equal.
    clear -Hf Hg Hn. unfold AddGoFlags in *.
    repeat (apply elem_of_cons in Hf as [->|Hf];
      [repeat (apply elem_of_cons in Hg as [->|Hg]; [done|]); by apply elem_of_nil in Hg|]).
    by apply elem_of_nil in Hf.
  - by eapply flag_set_other.
Qed.

(** ** The start *)

(** What [Run] calls after the configuration was read, in order. *)
Definition startup_calls (s : OperatorOptions) (cfg : Config) : list SetupCall :=
  [ NewManager (mkConfig (cfg_rest cfg) (float32 (QPS s)) (Burst s))
      (mkManagerOptions "" 60000000000 (probeAddr s) (enableLeaderElection s) "54995429.klusters.dev");
    CompleteController "Driver" DriverReconciler;
    CompleteController "Machine" MachineReconciler;
    AddHealthzCheck "healthz"; AddReadyzCheck "readyz"; StartManager ].

Definition succeeded (c : SetupCall) : SetupEvent := EvCall c None.

Section Startup.
Context {W : Type} (rt : Runtime W).

Fixpoint run_all (cs : list SetupCall) : P W (option error) :=
  match cs with
  | [] => mret None
  | c :: cs => err ← perform rt c; _ ← exit_on_error err; run_all cs
  end.

Lemma Run_calls s st :
  Run rt s st =
    (r ← BuildConfigFromFlags rt (MasterURL s) (KubeconfigPath s);
     match r with inr _ => klog_Fatal | inl cfg => run_all (startup_calls s cfg) end) st.
Proof.
  unfold Run, mbind, P_bind, BuildConfigFromFlags.
  destruct (build_config rt _ _ _) as [[cfg|e] w]; reflexivity.
Qed.

Lemma run_all_spec cs : ∀ w tr,
  (∃ w', run_all cs (w, tr) = (Returned None, (w', tr ++ (succeeded <$> cs)))) ∨
  (∃ done c rest e w', cs = done ++ c :: rest ∧
     run_all cs (w, tr) = (Exited 1, (w', tr ++ (succeeded <$> done) ++ [EvCall c (Some e)]))).
Proof.
  induction cs as [|c cs IH]; intros w tr.
  { left. exists w. simpl. by rewrite app_nil_r. }
  cbn [run_all]. unfold mbind, P_bind, perform. cbn [fst snd].
  destruct (answer_call rt c w) as [[e|] w1].
  - right. by exists [], c, cs, e, w1.
  - simpl. destruct (IH w1 (tr ++ [EvCall c None])) as [(w' & Hrun)|(done' & c' & rest & e & w' & -> & Hrun)].
    + left. exists w'. rewrite Hrun, <- app_assoc. done.
    + right. exists (c :: done'), c', rest, e, w'. split; [done|]. rewrite Hrun, <- app_assoc. done.
Qed.
End Startup.

(** C29: [Run] sets the process up in a fixed order and starts the manager
    last.  Whatever the libraries answer: if no client configuration can be
    built, the process exits with 255 after that one call; otherwise it calls
    [manager.New] with the rate limits, probe address and leader election of
    the options, registers the controllers of [Driver] and [Machine], the
    health and the readiness check, and starts the manager, each only after
    all calls before it succeeded; it exits with 1 at the first failure, and
    returns without error if there is none. *)
Theorem run_startup {W} (rt : Runtime W) s w :
  (∃ e w', Run rt s (w, []) =
     (Exited 255, (w', [EvBuildConfig (MasterURL s) (KubeconfigPath s) (inr e)]))) ∨
  (∃ cfg w', Run rt s (w, []) =
     (Returned None, (w', EvBuildConfig (MasterURL s) (KubeconfigPath s) (inl cfg) ::
                          (succeeded <$> startup_calls s cfg)))) ∨
  (∃ cfg done c rest e w', startup_calls s cfg = done ++ c :: rest ∧ Run rt s (w, []) =
     (Exited 1, (w', EvBuildConfig (MasterURL s) (KubeconfigPath s) (inl cfg) ::
                     (succeeded <$> done) ++ [EvCall c (Some e)]))).
Proof.
  rewrite Run_calls. unfold mbind, P_bind, BuildConfigFromFlags. cbn [fst snd].
  destruct (build_config rt (MasterURL s) (KubeconfigPath s) w) as [[cfg|e] w1]; cbn.
  - right. destruct (run_all_spec rt (startup_calls s cfg) w1
      [EvBuildConfig (MasterURL s) (KubeconfigPath s) (inl cfg)])
      as [(w' & Hrun)|(done' & c & rest & e & w' & Hcs & Hrun)].
    + left. by exists cfg, w'.
    + right. by exists cfg, done', c, rest, e, w'.
  - left. by exists e, w1.
Qed.

(** The options [Run] looks at. *)
Definition effective (s : OperatorOptions) : string * string * spec_float * Z * string * bool :=
  (MasterURL s, KubeconfigPath s, float32 (QPS s), Burst s, probeAddr s, enableLeaderElection s).

Lemma Run_effective {W} (rt : Runtime W) s s' st :
  effective s = effective s' → Run rt s st = Run rt s' st.
Proof.
  intros Heq. rewrite !Run_calls. unfold startup_calls.
  by injection Heq as -> -> -> -> -> ->.
Qed.

(** A runtime in which everything succeeds. *)
Definition smooth : Runtime unit :=
  mkRuntime (λ _ _ w, (inl (mkConfig "" (float32_of_Z 0) 0), w)) (λ _ w, (None, w)).

(** C30: the options that matter.  Two option values make [Run] behave the
    same, in every runtime, if and only if they agree on the master URL, the
    kubeconfig path, the QPS limit rounded to a [float32], the burst limit,
    the probe address and the leader election.  In particular the license
    file, the resync period, the metrics address, [MaxNumRequeues] and
    [NumThreads] have no effect. *)
Theorem effective_options s s' :
  (∀ (W : Type) (rt : Runtime W) st, Run rt s st = Run rt s' st) ↔ effective s = effective s'.
Proof.
  split.
  - intros Hrun. specialize (Hrun unit smooth (tt, [])). cbn in Hrun. unfold effective.
    by injection Hrun as -> -> -> -> -> ->.
  - intros Heq W rt st. by apply Run_effective.
Qed.

(** Flags that are accepted and change nothing. *)
Definition idle_flags : list string := ["license-file"; "resync-period"; "metrics-bind-address"].

Lemma idle_flags_idle {W} (rt : Runtime W) name v s s' st :
  name ∈ idle_flags → set_flag s name v = Some s' → Run rt s' st = Run rt s st.
Proof.
  intros Hname Hs. apply Run_effective. unfold idle_flags in Hname.
  repeat (apply elem_of_cons in Hname as [->|Hname];
    [unfold set_flag in Hs; simpl in Hs; destruct v; simplify_eq/=; done|]).
  by apply elem_of_nil in Hname.
Qed.

(** The default limit of a million requests a second is a [float32]. *)
Lemma default_QPS_exact : float32 (QPS NewOperatorOptions) = float32_of_Z 1000000.
Proof. reflexivity. Qed.

(** With an address for the metrics on the command line, the process still
    starts the manager with the default one, and exits with 0. *)
Example main_smooth :
  ∃ tr, main smooth [("metrics-bind-address", VString ":9090"); ("leader-elect", VBool true)] (tt, []) =
    (0, (tt, tr)) ∧
    EvCall (NewManager (mkConfig "" (float32_of_Z 1000000) 1000000)
      (mkManagerOptions "" 60000000000 ":8081" true "54995429.klusters.dev")) None ∈ tr ∧
    last tr = Some (EvCall StartManager None).
Proof. eexists. split; [reflexivity|]. split; [|reflexivity]. right. left. Qed.
