(* ===== verification/WorkQueue.v ===== *)
(** * The work queue

    [k8s.io/client-go/util/workqueue], through which the controller hands
    requests to its workers: the queue with its dirty and processing sets
    ([queue.go]), delayed additions ([delaying_queue.go]), and the rate limiter
    that spaces out retries ([default_rate_limiters.go]).  Each operation runs
    under the queue's lock, so it is one function on the state.

    An addition with a delay travels through a channel to the loop that waits
    for it; here it arrives at once.  The times are in nanoseconds. *)

From S2P Require Import Prelude.

(** ** [queue.go] *)

Section Queue.
Context {T : Type} `{Countable T}.

Record Typed := mkTyped {
  queue : list T;
  dirty : gset T;
  processing : gset T;
  shuttingDown : bool
}.

Definition newQueue : Typed := mkTyped [] ∅ ∅ false.

Definition Add (item : T) (q : Typed) : Typed :=
  if shuttingDown q then q
  else if decide (item ∈ dirty q) then q
  else
    let dirty' := {[item]} ∪ dirty q in
    if decide (item ∈ processing q) then mkTyped (queue q) dirty' (processing q) (shuttingDown q)
    else mkTyped (queue q ++ [item]) dirty' (processing q) (shuttingDown q).

(** [Get] blocks while there is nothing to do. *)
Inductive GetResult :=
| Blocks
| Shutdown
| Got (item : T) (q : Typed).

Definition Get (q : Typed) : GetResult :=
  match queue q with
  | [] => if shuttingDown q then Shutdown else Blocks
  | item :: rest =>
      Got item (mkTyped rest (dirty q ∖ {[item]}) ({[item]} ∪ processing q) (shuttingDown q))
  end.

Definition Done (item : T) (q : Typed) : Typed :=
  let processing' := processing q ∖ {[item]} in
  if decide (item ∈ dirty q) then mkTyped (queue q ++ [item]) (dirty q) processing' (shuttingDown q)
  else mkTyped (queue q) (dirty q) processing' (shuttingDown q).

Definition ShutDown (q : Typed) : Typed := mkTyped (queue q) (dirty q) (processing q) true.

(** ** The invariant *)

(** The queue holds, once each, the items that need processing and are not
    being processed. *)
Definition queue_ok (q : Typed) : Prop :=
  NoDup (queue q) ∧ ∀ item, item ∈ queue q ↔ item ∈ dirty q ∧ item ∉ processing q.

Lemma newQueue_ok : queue_ok newQueue.
Proof. split; [constructor|]. set_solver. Qed.

Lemma Add_ok item q : queue_ok q → queue_ok (Add item q).
Proof.
  intros [Hnd Hq]. unfold Add. repeat case_decide; case_match; try done; split; simpl; try done.
  - set_solver.
  - apply NoDup_app. split_and!; [done| |apply NoDup_singleton]. set_solver.
  - set_solver.
Qed.

Lemma Get_ok item q q' :
  queue_ok q → Get q = Got item q' →
  queue_ok q' ∧ item ∈ dirty q ∧ (item ∉ processing q) ∧ processing q' = ({[item]} ∪ processing q) ∧
  dirty q' = (dirty q ∖ {[item]}).
Proof.
  intros [Hnd Hq]. unfold Get. destruct (queue q) as [|x rest]; [by destruct (shuttingDown q)|].
  intros [= -> <-]. apply NoDup_cons in Hnd as [Hx Hnd]. destruct (proj1 (Hq item)) as [Hd Hp]; [by left|].
  split_and!; [|done|done|done|done]. split; simpl; [done|]. intros y. specialize (Hq y). set_solver.
Qed.

(** Only an item that is being processed can be done. *)
Lemma Done_ok item q : queue_ok q → item ∈ processing q → queue_ok (Done item q).
Proof.
  intros [Hnd Hq] Hp. unfold Done. case_decide; split; simpl; try done.
  - apply NoDup_app. split_and!; [done| |apply NoDup_singleton]. set_solver.
  - intros y. specialize (Hq y). destruct (decide (y = item)); set_solver.
  - intros y. specialize (Hq y). destruct (decide (y = item)); set_solver.
Qed.

Lemma Add_dirty item q : shuttingDown q = false → dirty (Add item q) = {[item]} ∪ dirty q.
Proof. intros Hs. unfold Add. rewrite Hs. repeat case_decide; simpl; set_solver. Qed.

Lemma Add_processing item q : processing (Add item q) = processing q.
Proof. unfold Add. repeat case_match; done. Qed.

Lemma Add_shuttingDown item q : shuttingDown (Add item q) = shuttingDown q.
Proof. unfold Add. repeat case_match; done. Qed.

Lemma Done_dirty item q : dirty (Done item q) = dirty q.
Proof. unfold Done. by case_decide. Qed.

Lemma Done_processing item q : processing (Done item q) = (processing q ∖ {[item]}).
Proof. unfold Done. by case_decide. Qed.

Lemma Done_shuttingDown item q : shuttingDown (Done item q) = shuttingDown q.
Proof. unfold Done. by case_decide. Qed.

(** [Get] does not block while an item waits for a worker. *)
Lemma Get_available item q :
  queue_ok q → item ∈ dirty q → item ∉ processing q → ∃ item' q', Get q = Got item' q'.
Proof.
  intros [_ Hq] Hd Hp. unfold Get. destruct (queue q) as [|x rest]; [|eauto].
  assert (item ∈ ([] : list T)) as Hin by (by apply Hq). by apply elem_of_nil in Hin.
Qed.

(** ** Workers *)

(** Any number of workers and any number of clients of the queue, taking turns
    at its lock.  [w] is what the workers are at work on, one entry for each,
    and [asked] are the items added since a worker last took them. *)
Inductive queue_steps : Typed → list T → gset T → Prop :=
| qs_new : queue_steps newQueue [] ∅
| qs_add item q w asked :
    queue_steps q w asked →
    queue_steps (Add item q) w (if shuttingDown q then asked else {[item]} ∪ asked)
| qs_get item q q' w asked :
    queue_steps q w asked → Get q = Got item q' → queue_steps q' (item :: w) (asked ∖ {[item]})
| qs_done item q w w' asked :
    queue_steps q w asked → w ≡ₚ item :: w' → queue_steps (Done item q) w' asked
| qs_shutdown q w asked : queue_steps q w asked → queue_steps (ShutDown q) w asked.

Lemma queue_steps_ok q w asked :
  queue_steps q w asked →
  queue_ok q ∧ NoDup w ∧ dirty q = asked ∧ ∀ item, item ∈ processing q ↔ item ∈ w.
Proof.
  induction 1 as [|item q w asked _ (Hok & Hnd & <- & Hp)|item q q' w asked _ (Hok & Hnd & <- & Hp) Hget
    |item q w w' asked _ (Hok & Hnd & <- & Hp) Hw|q w asked _ (Hok & Hnd & <- & Hp)].
  - split_and!; [apply newQueue_ok|constructor|done|]. set_solver.
  - split_and!; [by apply Add_ok|done| |]; [|intros y; by rewrite Add_processing].
    destruct (shuttingDown q) eqn:Hs; [unfold Add; by rewrite Hs|by apply Add_dirty].
  - destruct (Get_ok item q q' Hok Hget) as (Hok' & _ & Hn & Hp' & Hd').
    split_and!; [done|apply NoDup_cons; split; [by rewrite <- Hp|done]|done|].
    intros y. rewrite Hp'. specialize (Hp y). set_solver.
  - rewrite Hw in Hnd. apply NoDup_cons in Hnd as [Hi Hnd].
    assert (item ∈ processing q) as Hpi by (rewrite Hp, Hw; by left).
    split_and!; [by apply Done_ok|done|apply Done_dirty|]. intros y. rewrite Done_processing.
    specialize (Hp y). rewrite Hw in Hp. set_solver.
  - split_and!; [|done|done|done]. destruct Hok as [Hq1 Hq2]. by split.
Qed.

(** C13: the work queue hands each request to one worker at a time and loses
    none.  Whatever sequence of additions, takings and completions any number
    of workers perform, no two of them work on the same item; and the items
    that are queued, each once, are exactly those that were added since they
    were last taken and that no worker is at work on; the others that were
    added are queued when their worker is done. *)
Theorem queue_exclusive_lossless q w asked :
  queue_steps q w asked →
  NoDup w ∧ NoDup (queue q) ∧
  (∀ item, item ∈ queue q ↔ item ∈ asked ∧ item ∉ w) ∧
  (∀ item, item ∈ asked → item ∈ w → item ∈ queue (Done item q)).
Proof.
  intros (Hok & Hnd & <- & Hp)%queue_steps_ok. pose proof Hok as [Hq1 Hq2]. split_and!; [done|done| |].
  - intros item. by rewrite Hq2, Hp.
  - intros item Hd Hw. rewrite <- Hp in Hw. destruct (Done_ok item q Hok Hw) as [_ Hq].
    apply Hq. rewrite Done_dirty, Done_processing. set_solver.
Qed.
End Queue.
Arguments Typed T {_ _}.
Arguments GetResult T {_ _}.

(** A request that is added again while a worker is at work on it. *)
Definition busy_queue : Typed string := mkTyped [] {["m"]} {["m"]} false.

Lemma queue_exclusive_lossless_witness :
  queue_steps busy_queue ["m"] {["m"]} ∧ "m" ∈ queue (Done "m" busy_queue).
Proof.
  assert (queue_steps busy_queue ["m"] {["m"]}) as Hsteps.
  { pose proof (qs_add "m" _ _ _ (qs_get "m" _ _ _ _ (qs_add "m" _ _ _ qs_new) eq_refl)) as Hs.
    vm_compute in Hs. vm_compute. exact Hs. }
  split; [exact Hsteps|].
  destruct (queue_exclusive_lossless busy_queue ["m"] {["m"]} Hsteps) as (_ & _ & _ & Hdone).
  apply Hdone; [apply elem_of_singleton_2; reflexivity|left].
Defined.

(** ** [delaying_queue.go] *)

Section Delaying.
Context {T : Type} `{Countable T}.

(** The queue, and the items that wait with the time they are ready at. *)
Record delayingType := mkDelaying {
  TypedInterface : Typed T;
  waitingEntryByData : gmap T Z
}.

Definition newDelayingQueue : delayingType := mkDelaying newQueue ∅.

Definition on_queue (f : Typed T → Typed T) (q : delayingType) : delayingType :=
  mkDelaying (f (TypedInterface q)) (waitingEntryByData q).

(** [insert]: an item that waits already keeps the earlier time. *)
Definition insert_entry (item : T) (readyAt : Z) (known : gmap T Z) : gmap T Z :=
  match known !! item with
  | Some t => if readyAt <? t then <[item := readyAt]> known else known
  | None => <[item := readyAt]> known
  end.

Definition AddAfter (now : Z) (item : T) (duration : Z) (q : delayingType) : delayingType :=
  if shuttingDown (TypedInterface q) then q
  else if duration <=? 0 then on_queue (Add item) q
  else mkDelaying (TypedInterface q) (insert_entry item (now + duration) (waitingEntryByData q)).

(** [waitingLoop] adds an entry whose time has come. *)
Definition add_ready (item : T) (q : delayingType) : delayingType :=
  mkDelaying (Add item (TypedInterface q)) (delete item (waitingEntryByData q)).

Lemma insert_entry_lookup item t known :
  insert_entry item t known !! item =
    Some (match known !! item with Some t' => Z.min t t' | None => t end).
Proof.
  unfold insert_entry. destruct (known !! item) as [t'|] eqn:Hl; [|apply lookup_insert_eq].
  destruct (Z.ltb_spec t t'); [rewrite lookup_insert_eq|rewrite Hl]; f_equal; lia.
Qed.

Lemma insert_entry_dom item t known : dom (insert_entry item t known) = {[item]} ∪ dom known.
Proof.
  unfold insert_entry. destruct (known !! item) as [t'|] eqn:Hl; [|apply dom_insert_L].
  apply elem_of_dom_2 in Hl. case_match; [by rewrite dom_insert_L|set_solver].
Qed.
End Delaying.
Arguments delayingType T {_ _}.

(** ** [default_rate_limiters.go] *)

Definition MaxInt64 : Z := 9223372036854775807.
Definition baseDelay : Z := 5 * 1000000.
Definition maxDelay : Z := 1000 * 1000000000.

Section RateLimiter.
Context {T : Type} `{Countable T}.

(** [TypedItemExponentialFailureRateLimiter]: the failures of each item. *)
Definition failures_of (failures : gmap T Z) (item : T) : Z := default 0 (failures !! item).

(** The code multiplies in [float64].  The product of [baseDelay] and a power
    of two is exact there, or infinite and above [MaxInt64]. *)
Definition exponential_delay (exp : Z) : Z :=
  let backoff := baseDelay * 2 ^ exp in
  if MaxInt64 <? backoff then maxDelay
  else if maxDelay <? backoff then maxDelay
  else backoff.

Definition When_item (item : T) (failures : gmap T Z) : Z * gmap T Z :=
  let exp := failures_of failures item in
  (exponential_delay exp, <[item := failures_of failures item + 1]> failures).

Definition Forget (item : T) (failures : gmap T Z) : gmap T Z := delete item failures.

(** [TypedMaxOfRateLimiter] with the item limiter and a token bucket, whose
    delay is an argument. *)
Definition When (bucket : Z) (item : T) (failures : gmap T Z) : Z * gmap T Z :=
  let '(curr, failures') := When_item item failures in
  let ret := if 0 <? curr then curr else 0 in
  (if ret <? bucket then bucket else ret, failures').

Lemma exponential_delay_min exp : 0 ≤ exp → exponential_delay exp = Z.min (baseDelay * 2 ^ exp) maxDelay.
Proof.
  intros Hexp. unfold exponential_delay.
  destruct (Z.ltb_spec MaxInt64 (baseDelay * 2 ^ exp)) as [Hb|Hb].
  - assert (maxDelay < MaxInt64) by done. lia.
  - destruct (Z.ltb_spec maxDelay (baseDelay * 2 ^ exp)); lia.
Qed.

Lemma exponential_delay_bounds exp : 0 ≤ exp → baseDelay ≤ exponential_delay exp ≤ maxDelay.
Proof.
  intros Hexp. rewrite exponential_delay_min by done.
  assert (0 < 2 ^ exp) by (apply Z.pow_pos_nonneg; lia).
  assert (baseDelay < maxDelay) by done. assert (0 < baseDelay) by done. nia.
Qed.

Lemma When_eq bucket item failures :
  0 ≤ failures_of failures item →
  When bucket item failures =
    (Z.max (exponential_delay (failures_of failures item)) bucket,
     <[item := failures_of failures item + 1]> failures).
Proof.
  intros Hf. unfold When, When_item. pose proof (exponential_delay_bounds _ Hf).
  assert (0 < baseDelay) by done. f_equal. repeat case_match; lia.
Qed.
End RateLimiter.
