(* ===== verification/Controller.v ===== *)
(** * The controller

    [sigs.k8s.io/controller-runtime/pkg/internal/controller]: a worker takes
    requests from the queue and has them reconciled; what [Reconcile] answers,
    an error, a panic or a time to wait, decides when the request comes back.
    The watch on machines adds a request for every object that changed, and
    now and then for every object.

    The controllers of this program run with the defaults: one worker, panics
    recovered, and the queue of [WorkQueue.v].  Time passes and notifications
    arrive whenever they like, so the controller is a transition relation. *)

From S2P Require Import Prelude GoLib Types Effects Kube Reconcile Sim WorkQueue.

(** A [reconcile.Request] is the name of an object. *)
Abbreviation request := (string * string)%type.

Definition request_key (req : request) : ObjectKey :=
  {| key_Namespace := req.1; key_Name := req.2 |}.

Lemma request_key_pair k : request_key (key_pair k) = k.
Proof. by destruct k. Qed.

Section Controller.
Context {World : Type} `{SV : !Services World}.
(** What the watch sees of the world. *)
Context (objects : World → gmap request Machine).

Record Controller := mkController {
  Queue : delayingType request;
  failures : gmap request Z;
  wall : Z;                                             (** the clock *)
  notifications : gset request;                         (** on their way from the server *)
  busy : option (request * (Result * option error));    (** what the worker has done *)
  reconciler : St World
}.

(** [Controller.Reconcile]: a panic is recovered and becomes an error. *)
Definition Controller_Reconcile (req : request) (s : St World) : (Result * option error) * St World :=
  match Reconcile (request_key req) s with
  | (Normal r, s') => (r, s')
  | (Panic msg, s') =>
      ((Result_zero, Some (errorString ("panic: " +:+ msg +:+ " [recovered]"))), s')
  end.

Lemma Controller_Reconcile_state req s :
  (Controller_Reconcile req s).2 = (Reconcile (request_key req) s).2.
Proof. unfold Controller_Reconcile. by destruct (Reconcile (request_key req) s) as [[] ?]. Qed.

Lemma Controller_Reconcile_normal req s r :
  (Reconcile (request_key req) s).1 = Normal r → (Controller_Reconcile req s).1 = r.
Proof. unfold Controller_Reconcile. destruct (Reconcile (request_key req) s) as [? ?]. by intros [= ->]. Qed.

(** [reconcileHandler], after the call of [Reconcile].  No error of this
    program is a [TerminalError], and it does not set [Result.Requeue]. *)
Definition handle_result (now bucket : Z) (req : request) (r : Result * option error)
    (q : delayingType request) (fs : gmap request Z) : delayingType request * gmap request Z :=
  match r with
  | (_, Some _) =>
      let '(delay, fs') := When bucket req fs in (AddAfter now req delay q, fs')
  | (result, None) =>
      if 0 <? RequeueAfter result then (AddAfter now req (RequeueAfter result) q, Forget req fs)
      else (q, Forget req fs)
  end.

(** The objects that differ between two states of the server. *)
Definition changed (before after : gmap request Machine) : gset request :=
  filter (λ k, before !! k ≠ after !! k) (dom before ∪ dom after).

(** The first half of [processNextWorkItem]: take a request and reconcile it. *)
Definition take_request (c : Controller) : option Controller :=
  match busy c, Get (TypedInterface (Queue c)) with
  | None, Got req q =>
      let '(r, s') := Controller_Reconcile req (reconciler c) in
      Some (mkController (mkDelaying q (waitingEntryByData (Queue c))) (failures c) (wall c)
              (notifications c ∪ changed (objects (world (reconciler c))) (objects (world s')))
              (Some (req, r)) s')
  | _, _ => None
  end.

(** The second half: handle the result, and be done with the request. *)
Definition finish_request (now bucket : Z) (c : Controller) : option Controller :=
  match busy c with
  | Some (req, r) =>
      let '(q, fs) := handle_result now bucket req r (Queue c) (failures c) in
      Some (mkController (on_queue (Done req) q) fs now (notifications c) None (reconciler c))
  | None => None
  end.

(** [EnqueueRequestForObject]. *)
Definition deliver (req : request) (c : Controller) : Controller :=
  mkController (on_queue (Add req) (Queue c)) (failures c) (wall c)
    (notifications c ∖ {[req]}) (busy c) (reconciler c).

Definition fire (now : Z) (req : request) (c : Controller) : Controller :=
  mkController (add_ready req (Queue c)) (failures c) now (notifications c) (busy c) (reconciler c).

Definition notify (req : request) (c : Controller) : Controller :=
  mkController (Queue c) (failures c) (wall c) ({[req]} ∪ notifications c) (busy c) (reconciler c).

(** ** Steps *)

Inductive label := Takes | Resyncs | Internal.

#[export] Instance label_eq_dec : EqDecision label.
Proof. solve_decision. Defined.

Inductive cstep : label → Controller → Controller → Prop :=
| step_take c c' : take_request c = Some c' → cstep Takes c c'
| step_finish now bucket c c' :
    wall c ≤ now → 0 ≤ bucket → finish_request now bucket c = Some c' → cstep Internal c c'
| step_deliver req c : req ∈ notifications c → cstep Internal c (deliver req c)
| step_fire now req t c :
    waitingEntryByData (Queue c) !! req = Some t → wall c ≤ now → t ≤ now →
    cstep Internal c (fire now req c)
| step_resync req c :
    req ∈ dom (objects (world (reconciler c))) → cstep Resyncs c (notify req c).

(** An execution, with the number of steps of each kind. *)
Inductive execution (c0 : Controller) : nat → nat → nat → Controller → Prop :=
| exec_start : execution c0 0 0 0 c0
| exec_take t r i c c' : execution c0 t r i c → cstep Takes c c' → execution c0 (S t) r i c'
| exec_resync t r i c c' : execution c0 t r i c → cstep Resyncs c c' → execution c0 t (S r) i c'
| exec_internal t r i c c' : execution c0 t r i c → cstep Internal c c' → execution c0 t r (S i) c'.

(** A controller that was just started and has been told of one object. *)
Definition started (req : request) (now : Z) (s : St World) : Controller :=
  mkController newDelayingQueue ∅ now {[req]} None s.

(** ** A scheduler *)

(** One way to run the controller: results first, then requests,
    notifications, and timers. *)
Definition next (c : Controller) : option (label * Controller) :=
  match finish_request (wall c) 0 c with
  | Some c' => Some (Internal, c')
  | None =>
      match take_request c with
      | Some c' => Some (Takes, c')
      | None =>
          match elements (notifications c), map_to_list (waitingEntryByData (Queue c)) with
          | req :: _, _ => Some (Internal, deliver req c)
          | [], (req, t) :: _ => Some (Internal, fire (Z.max (wall c) t) req c)
          | [], [] => None
          end
      end
  end.

Fixpoint schedule (n : nat) (t i : nat) (c : Controller) : nat * nat * Controller :=
  match n with
  | O => (t, i, c)
  | S n =>
      match next c with
      | Some (Takes, c') => schedule n (S t) i c'
      | Some (_, c') => schedule n t (S i) c'
      | None => (t, i, c)
      end
  end.

Lemma next_step c l c' : next c = Some (l, c') → l ≠ Resyncs ∧ cstep l c c'.
Proof.
  unfold next. destruct (finish_request (wall c) 0 c) eqn:Hf.
  { intros [= <- <-]. split; [done|]. by eapply (step_finish (wall c) 0). }
  destruct (take_request c) eqn:Ht; [intros [= <- <-]; split; [done|by apply step_take]|].
  destruct (elements (notifications c)) as [|req l'] eqn:Hn.
  - destruct (map_to_list (waitingEntryByData (Queue c))) as [|[req t] l'] eqn:Hw; [done|].
    intros [= <- <-]. split; [done|]. apply (step_fire _ req t); [|lia|lia].
    apply elem_of_map_to_list. rewrite Hw. by left.
  - intros [= <- <-]. split; [done|]. apply step_deliver, elem_of_elements. rewrite Hn. by left.
Qed.

Lemma schedule_execution c0 n : ∀ t r i c t' i' c',
  execution c0 t r i c → schedule n t i c = (t', i', c') → execution c0 t' r i' c'.
Proof.
  induction n as [|n IH]; intros t r i c t' i' c' Hex; simpl; [by intros [= <- <- <-]|].
  destruct (next c) as [[l c1]|] eqn:Hn; [|by intros [= <- <- <-]].
  apply next_step in Hn as [Hl Hstep].
  destruct l; [apply (IH (S t) r i c1)|done|apply (IH t r (S i) c1)]; by econstructor.
Qed.

(** ** No request is lost *)

(** The worker is at work on what the queue believes it is, and the queue is in
    order and open. *)
Definition controller_ok (c : Controller) : Prop :=
  let q := TypedInterface (Queue c) in
  queue_ok q ∧ shuttingDown q = false ∧ processing q = from_option (λ b, {[b.1]}) ∅ (busy c).

(** The request is queued, waits for its time, or is queued again when the
    worker is done with it. *)
Definition pending (req : request) (c : Controller) : Prop :=
  req ∈ dirty (TypedInterface (Queue c)) ∨ is_Some (waitingEntryByData (Queue c) !! req).

(** An addition with a delay keeps the queue in order and what is pending. *)
Lemma AddAfter_ok (now : Z) (req : request) (d : Z) (q : delayingType request) :
  let q' := AddAfter now req d q in
  queue_ok (TypedInterface q) → shuttingDown (TypedInterface q) = false →
  queue_ok (TypedInterface q') ∧ shuttingDown (TypedInterface q') = false ∧
  processing (TypedInterface q') = processing (TypedInterface q) ∧
  (dirty (TypedInterface q) ⊆ dirty (TypedInterface q')) ∧
  (dom (waitingEntryByData q) ⊆ dom (waitingEntryByData q')) ∧
  (req ∈ dirty (TypedInterface q') ∨ req ∈ dom (waitingEntryByData q')).
Proof.
  intros q' Hok Hs. subst q'. unfold AddAfter. rewrite Hs. case_match; simpl.
  - rewrite Add_shuttingDown, Add_processing, Add_dirty by done.
    split_and!; [by apply Add_ok|done|done|set_solver|done|set_solver].
  - rewrite insert_entry_dom. split_and!; set_solver.
Qed.

Lemma handle_result_ok (now bucket : Z) (req : request) (r : Result * option error) (q : delayingType request)
    (fs : gmap request Z) (q' : delayingType request) (fs' : gmap request Z) :
  handle_result now bucket req r q fs = (q', fs') →
  queue_ok (TypedInterface q) → shuttingDown (TypedInterface q) = false →
  queue_ok (TypedInterface q') ∧ shuttingDown (TypedInterface q') = false ∧
  processing (TypedInterface q') = processing (TypedInterface q) ∧
  (dirty (TypedInterface q) ⊆ dirty (TypedInterface q')) ∧
  (dom (waitingEntryByData q) ⊆ dom (waitingEntryByData q')) ∧
  (is_Some r.2 ∨ 0 < RequeueAfter r.1 →
     req ∈ dirty (TypedInterface q') ∨ req ∈ dom (waitingEntryByData q')).
Proof.
  intros Hr Hok Hs. unfold handle_result in Hr. destruct r as [result [e|]].
  - destruct (When bucket req fs) as [delay fs1]. simplify_eq.
    destruct (AddAfter_ok now req delay q Hok Hs) as (? & ? & ? & ? & ? & ?). done.
  - destruct (Z.ltb_spec 0 (RequeueAfter result)); simplify_eq.
    + destruct (AddAfter_ok now req (RequeueAfter result) q Hok Hs) as (? & ? & ? & ? & ? & ?). done.
    + split_and!; try done. intros [[? ?]|?]; simpl in *; [done|lia].
Qed.

Lemma finish_ok now bucket c c' :
  finish_request now bucket c = Some c' → controller_ok c →
  controller_ok c' ∧ (∀ req, pending req c → pending req c') ∧
  ∀ req r, busy c = Some (req, r) → is_Some r.2 ∨ 0 < RequeueAfter r.1 → pending req c'.
Proof.
  unfold finish_request. destruct (busy c) as [[req r]|] eqn:Hb; [|done].
  destruct (handle_result now bucket req r (Queue c) (failures c)) as [q fs] eqn:Hr.
  intros [= <-] (Hok & Hs & Hp). rewrite Hb in Hp. simpl in Hp.
  destruct (handle_result_ok _ _ _ _ _ _ _ _ Hr Hok Hs) as (Hok' & Hs' & Hp' & Hd & Hw & Hret).
  rewrite Hp in Hp'. unfold pending, controller_ok. simpl. rewrite Done_dirty, Done_shuttingDown, Done_processing, Hp'.
  setoid_rewrite <- elem_of_dom. split_and!; [apply Done_ok; [done|set_solver]|done|set_solver| |].
  - intros req' [?|?]; [left|right]; set_solver.
  - intros req' r' [= <- <-]. exact Hret.
Qed.

Lemma cstep_ok l c c' :
  cstep l c c' → controller_ok c →
  controller_ok c' ∧
  ∀ req, pending req c → (l = Takes → fst <$> busy c' ≠ Some req) → pending req c'.
Proof.
  intros [c1 c1' Ht|now bucket c1 c1' Hnow Hb Hf|req c1 Hn|now req t c1 Hw Hnow Ht|req c1 Hd] Hok.
  - unfold take_request in Ht. destruct Hok as (Hq & Hs & Hp). destruct (busy c1) as [|]; [done|].
    destruct (Get (TypedInterface (Queue c1))) as [| |req q] eqn:Hget; try done.
    destruct (Controller_Reconcile req (reconciler c1)) as [r s'] eqn:Hr. simplify_eq.
    destruct (Get_ok _ _ _ Hq Hget) as (Hok' & _ & _ & Hp' & Hd').
    assert (shuttingDown q = false) as Hs'.
    { unfold Get in Hget. by repeat case_match; simplify_eq. }
    unfold controller_ok, pending. simpl. rewrite Hp', Hp, Hd'. split_and!; [done|done|set_solver|].
    intros req' [Hd|Hw] Hne; [left|by right]. specialize (Hne eq_refl). set_solver.
  - destruct (finish_ok _ _ _ _ Hf Hok) as (? & ? & _). auto.
  - destruct Hok as (Hq & Hs & Hp). unfold controller_ok, pending. simpl.
    rewrite Add_shuttingDown, Add_processing, Add_dirty by done.
    split_and!; [by apply Add_ok|done|done|]. intros req' [?|?] _; [left|right]; set_solver.
  - destruct Hok as (Hq & Hs & Hp). unfold controller_ok, pending. simpl.
    rewrite Add_shuttingDown, Add_processing, Add_dirty by done.
    split_and!; [by apply Add_ok|done|done|]. intros req' [?|Hw'] _; [left; set_solver|].
    destruct (decide (req = req')) as [->|Hne]; [left; set_solver|right]. by rewrite lookup_delete_ne.
  - split; [done|]. intros req' Hp _. exact Hp.
Qed.

Lemma execution_ok req0 now0 s t r i c : execution (started req0 now0 s) t r i c → controller_ok c.
Proof.
  induction 1 as [|??????? Hs|??????? Hs|??????? Hs]; [|by eapply cstep_ok..].
  split_and!; [apply newQueue_ok|done|done].
Qed.

(** Steps in which the request is not taken. *)
Inductive untaken (req : request) (c : Controller) : Controller → Prop :=
| untaken_here : untaken req c c
| untaken_step l c' c'' :
    untaken req c c' → cstep l c' c'' → (l = Takes → fst <$> busy c'' ≠ Some req) → untaken req c c''.

(** While a request is pending, the controller has something to do. *)
Lemma pending_goes_on req c :
  controller_ok c → pending req c → ∃ l c', l ≠ Resyncs ∧ cstep l c c'.
Proof.
  intros (Hq & Hs & Hp) Hpend. destruct (busy c) as [[req' r]|] eqn:Hb.
  - destruct (finish_request (wall c) 0 c) as [c'|] eqn:Hf;
      [exists Internal, c'; split; [done|by eapply (step_finish (wall c) 0)]|].
    unfold finish_request in Hf. rewrite Hb in Hf. by destruct (handle_result _ _ _ _ _ _).
  - destruct Hpend as [Hd|[t Hw]].
    + simpl in Hp. destruct (Get_available req _ Hq Hd) as (item & q' & Hget); [rewrite Hp; set_solver|].
      destruct (take_request c) as [c'|] eqn:Ht; [exists Takes, c'; split; [done|by apply step_take]|].
      unfold take_request in Ht. rewrite Hb, Hget in Ht. by destruct (Controller_Reconcile _ _).
    + exists Internal, (fire (Z.max (wall c) t) req c). split; [done|]. apply (step_fire _ req t); [done|lia|lia].
Qed.

(** C14: no request is lost.  Whatever the services did, when a request that
    the controller has handled failed, panicked or asked for another time, then
    from there on, through any steps for this and other requests, it stays
    queued or waiting until it is taken again, and as long as it does the
    controller has a step to take without waiting for a resynchronisation. *)
Theorem request_not_lost req0 now0 s t r i c req res now bucket c1 c2 :
  execution (started req0 now0 s) t r i c →
  busy c = Some (req, res) → is_Some res.2 ∨ 0 < RequeueAfter res.1 →
  finish_request now bucket c = Some c1 →
  untaken req c1 c2 →
  pending req c2 ∧ ∃ l c3, l ≠ Resyncs ∧ cstep l c2 c3.
Proof.
  intros Hex Hb Hret Hf Hun. apply execution_ok in Hex as Hok.
  destruct (finish_ok _ _ _ _ Hf Hok) as (Hok1 & _ & Hp). specialize (Hp _ _ Hb Hret).
  assert (controller_ok c2 ∧ pending req c2) as [Hok2 Hp2].
  { induction Hun as [|l c' c'' _ [IHok IHp] Hstep Hne]; [done|].
    destruct (cstep_ok _ _ _ Hstep IHok) as [? Hpend]. auto. }
  split; [done|by eapply pending_goes_on].
Qed.

(** ** Results *)

(** How a result is handled: by the error or the time to wait in it. *)
Definition return_delay (bucket failed : Z) (r : Result * option error) : option Z :=
  match r with
  | (_, Some _) => Some (Z.max (Z.min (5000000 * 2 ^ failed) 1000000000000) bucket)
  | (result, None) => if 0 <? RequeueAfter result then Some (RequeueAfter result) else None
  end.

Definition earlier (now : Z) (delay waiting : option Z) : option Z :=
  match delay, waiting with
  | Some d, Some t => Some (Z.min (now + d) t)
  | Some d, None => Some (now + d)
  | None, w => w
  end.

Lemma handle_result_returns now bucket req r q fs :
  shuttingDown (TypedInterface q) = false → 0 ≤ failures_of fs req →
  let n := failures_of fs req in
  let '(q', fs') := handle_result now bucket req r q fs in
  TypedInterface q' = TypedInterface q ∧
  failures_of fs' req = match r.2 with Some _ => n + 1 | None => 0 end ∧
  waitingEntryByData q' !! req = earlier now (return_delay bucket n r) (waitingEntryByData q !! req).
Proof.
  intros Hs Hn n. unfold handle_result, return_delay. destruct r as [result [e|]].
  - rewrite When_eq by done. rewrite exponential_delay_min by done.
    change (Z.max (Z.min (baseDelay * 2 ^ failures_of fs req) maxDelay) bucket)
      with (Z.max (Z.min (5000000 * 2 ^ n) 1000000000000) bucket).
    set (d := Z.max _ bucket) in *. assert (0 < d) as Hd.
    { assert (0 < 2 ^ n) by (apply Z.pow_pos_nonneg; [lia|done]). lia. }
    unfold AddAfter. rewrite Hs. destruct (Z.leb_spec d 0); [lia|]. simpl. split_and!; [done| |].
    + unfold failures_of. by rewrite lookup_insert_eq.
    + rewrite insert_entry_lookup. by destruct (waitingEntryByData q !! req).
  - destruct (Z.ltb_spec 0 (RequeueAfter result)) as [Hr|Hr].
    + unfold AddAfter. rewrite Hs. destruct (Z.leb_spec (RequeueAfter result) 0); [lia|]. simpl.
      split_and!; [done| |].
      * unfold failures_of, Forget. by rewrite lookup_delete_eq.
      * rewrite insert_entry_lookup. by destruct (waitingEntryByData q !! req).
    + split_and!; [done| |by destruct (waitingEntryByData q !! req)].
      unfold failures_of, Forget. by rewrite lookup_delete_eq.
Qed.

(** C15: what [Reconcile] answers decides when a request comes back, whatever
    the services did.  After an error, and after a panic, which the controller
    recovers, the request waits for the delay of the rate limiter: five
    milliseconds doubled with every failure since the last success, at most
    1000 seconds, or longer if the bucket says so; with a time to wait it waits
    that time; otherwise for nothing; and the failures are forgotten unless
    there was one.  In all cases another time it already waited for is kept if
    it is earlier. *)
Theorem result_decides_return now bucket req s q fs :
  shuttingDown (TypedInterface q) = false → 0 ≤ failures_of fs req →
  let n := failures_of fs req in
  let backoff := Z.max (Z.min (5000000 * 2 ^ n) 1000000000000) bucket in
  let '(failed, delay) :=
    match (Reconcile (request_key req) s).1 with
    | Panic _ | Normal (_, Some _) => (true, Some backoff)
    | Normal (result, None) =>
        (false, if 0 <? RequeueAfter result then Some (RequeueAfter result) else None)
    end in
  let '(q', fs') := handle_result now bucket req (Controller_Reconcile req s).1 q fs in
  TypedInterface q' = TypedInterface q ∧
  failures_of fs' req = (if failed then n + 1 else 0) ∧
  waitingEntryByData q' !! req = earlier now delay (waitingEntryByData q !! req).
Proof.
  intros Hs Hn n backoff. pose proof (handle_result_returns now bucket req (Controller_Reconcile req s).1 q fs Hs Hn) as Hr.
  unfold Controller_Reconcile in *. by destruct (Reconcile (request_key req) s) as [[[result [e|]]|msg] s'].
Qed.
End Controller.
Arguments Controller World : clear implicits.

(** A machine whose script runs, after three failures, while the request waits
    for ten minutes: it comes back after one. *)
Lemma result_decides_return_witness :
  let req := key_pair demo_key in
  let q : delayingType request := mkDelaying newQueue {[ req := 600 * 1000000000 ]} in
  let '(q', fs') := handle_result 1000 0 req (Controller_Reconcile req waiting_start).1 q {[ req := 3 ]} in
  failures_of fs' req = 0 ∧ waitingEntryByData q' !! req = Some (60 * 1000000000 + 1000).
Proof.
  intros req q.
  pose proof (result_decides_return 1000 0 req waiting_start q {[ req := 3 ]} eq_refl ltac:(by_decide)) as Hr.
  assert ((Reconcile (request_key req) waiting_start).1 = Normal ({| RequeueAfter := 60 * 1000000000 |}, None)) as Hw
    by by_eval.
  rewrite Hw in Hr. simpl in Hr.
  destruct (handle_result 1000 0 req (Controller_Reconcile req waiting_start).1 q {[ req := 3 ]}) as [q' fs'].
  destruct Hr as (_ & Hf & Ht). split; [exact Hf|]. rewrite Ht. by_eval.
Defined.

(** A machine whose script runs, told of to a new controller: the controller
    delivers the notification and takes the request. *)
Definition waiting_controller : Controller Sim :=
  (schedule sim_machines 2 0 0 (started (key_pair demo_key) 0 waiting_start)).2.

Lemma request_not_lost_witness :
  ∃ c1, finish_request 0 0 waiting_controller = Some c1 ∧ pending (key_pair demo_key) c1.
Proof.
  destruct (schedule sim_machines 2 0 0 (started (key_pair demo_key) 0 waiting_start)) as [[t i] c] eqn:Hc.
  assert (waiting_controller = c) as Heq by (unfold waiting_controller; rewrite Hc; reflexivity).
  pose proof (schedule_execution sim_machines _ 2 0 0 0 _ _ _ _ (exec_start sim_machines _) Hc) as Hex.
  assert (busy waiting_controller = Some (key_pair demo_key, ({| RequeueAfter := 60 * 1000000000 |}, None))) as Hb
    by by_eval.
  destruct (finish_request 0 0 waiting_controller) as [c1|] eqn:Hf.
  - exists c1. split; [reflexivity|].
    eapply (request_not_lost sim_machines (key_pair demo_key) 0 waiting_start t 0 i c (key_pair demo_key) _ 0 0 c1 c1).
    + exact Hex.
    + rewrite <- Heq. exact Hb.
    + right. reflexivity.
    + rewrite <- Heq. exact Hf.
    + apply untaken_here.
  - unfold finish_request in Hf. rewrite Hb in Hf. discriminate Hf.
Defined.
