(* ===== verification/ControllerLoop.v ===== *)
(** * The controller does not forget a machine

    The answers of [Reconcile] and the notifications its own writes cause are
    enough to bring a machine to its goal: as long as it is not there, its
    request is queued, waiting or about to be queued.  Together with the
    progress of [Liveness.v], every execution of the controller, however its
    steps interleave, brings a machine to [Success] and a deleted machine to
    its release. *)

From S2P Require Import Prelude GoLib Types Conditions ConditionsFacts Summary StatusSpec StatusInv States Effects Kube Aws Azure Cleanup Cluster MachineOps Reconcile Evidence Logic Waiting Cooperation Provision Progress Teardown Sim SlowSim Liveness WorkQueue Controller.

(** ** The bookkeeping of one request *)

Section Loop.
Context {World : Type} `{SV : !Services World} (objects : World → gmap request Machine).
Context (req : request) (s0 : St World) (goal : World → Prop) (N : nat).
Implicit Types c : Controller World.

(** The state after [i] reconciliations of the request. *)
Definition after (i : nat) : St World := reconcile_times i (request_key req) s0.

(** In each of the first [N] reconciliations, the goal is reached, or the
    object changes, or the controller is asked to come back. *)
Definition comes_back (i : nat) : Prop :=
  ∃ r e, (Controller_Reconcile req (after i)).1 = (r, e) ∧
    (goal (world (after (S i))) ∨
     objects (world (after i)) !! req ≠ objects (world (after (S i))) !! req ∨
     0 < RequeueAfter r ∨ is_Some e).

Context (Hback : ∀ i, (i < N)%nat → comes_back i).
Context (Honly : ∀ i, (i ≤ N)%nat → dom (objects (world (after i))) ⊆ {[req]}).

(** The request will be looked at again. *)
Definition scheduled c : Prop :=
  req ∈ dirty (TypedInterface (Queue c)) ∨ req ∈ notifications c ∨
  req ∈ dom (waitingEntryByData (Queue c)) ∨
  ∃ r e, busy c = Some (req, (r, e)) ∧ (0 < RequeueAfter r ∨ is_Some e).

(** The controller knows of no other request. *)
Definition tidy c : Prop :=
  queue_ok (TypedInterface (Queue c)) ∧ shuttingDown (TypedInterface (Queue c)) = false ∧
  dirty (TypedInterface (Queue c)) ⊆ {[req]} ∧ notifications c ⊆ {[req]} ∧
  dom (waitingEntryByData (Queue c)) ⊆ {[req]} ∧
  processing (TypedInterface (Queue c)) = match busy c with Some _ => {[req]} | None => ∅ end ∧
  (∀ x, busy c = Some x → x.1 = req) ∧
  (∀ k, 0 ≤ failures_of (failures c) k).

(** Notifications and waiting requests, and twice what the worker is busy
    with: what internal steps use up. *)
Definition load c : nat :=
  (size (notifications c) + size (waitingEntryByData (Queue c)) +
   match busy c with Some _ => 2 | None => 0 end)%nat.

Lemma size_below (X : gset request) : X ⊆ {[req]} → (size X ≤ 1)%nat.
Proof. intros HX. rewrite <- (size_singleton (C := gset request) req). by apply subseteq_size. Qed.

Lemma size_map_below (m : gmap request Z) : dom m ⊆ {[req]} → (size m ≤ 1)%nat.
Proof. rewrite <- size_dom. apply size_below. Qed.

Lemma after_S i : after (S i) = (Reconcile (request_key req) (after i)).2.
Proof.
  unfold after. generalize s0. induction i as [|i IH]; intros s; [done|]. simpl in *. by rewrite <- IH.
Qed.

(** The result is handled: the request may wait, and the failures count. *)
Lemma handle_result_tidy now bucket r e q fs q' fs' :
  shuttingDown (TypedInterface q) = false → (∀ k, 0 ≤ failures_of fs k) →
  handle_result now bucket req (r, e) q fs = (q', fs') →
  TypedInterface q' = TypedInterface q ∧
  dom (waitingEntryByData q') ⊆ {[req]} ∪ dom (waitingEntryByData q) ∧
  dom (waitingEntryByData q) ⊆ dom (waitingEntryByData q') ∧
  (0 < RequeueAfter r ∨ is_Some e → req ∈ dom (waitingEntryByData q')) ∧
  (∀ k, 0 ≤ failures_of fs' k).
Proof.
  intros Hs Hf. assert (∀ d, 0 < d →
    AddAfter now req d q =
      mkDelaying (TypedInterface q) (insert_entry req (now + d) (waitingEntryByData q))) as Hafter.
  { intros d Hd. unfold AddAfter. rewrite Hs. destruct (Z.leb_spec d 0); [lia|done]. }
  assert (∀ k, 0 ≤ failures_of (Forget req fs) k) as Hforget.
  { intros k. unfold failures_of, Forget. destruct (decide (k = req)) as [->|Hne].
    - by rewrite lookup_delete_eq.
    - rewrite lookup_delete_ne by done. apply Hf. }
  unfold handle_result. destruct e as [e|].
  - rewrite When_eq by done. pose proof (exponential_delay_bounds _ (Hf req)).
    assert (0 < baseDelay) by done. rewrite Hafter by lia. intros [= <- <-]. simpl.
    rewrite insert_entry_dom. split_and!; [done|set_solver|set_solver|set_solver|].
    intros k. unfold failures_of at 1. destruct (decide (k = req)) as [->|Hne].
    + rewrite lookup_insert_eq. simpl. specialize (Hf req). lia.
    + rewrite lookup_insert_ne by done. apply Hf.
  - destruct (Z.ltb_spec 0 (RequeueAfter r)) as [Hr|Hr].
    + rewrite Hafter by done. intros [= <- <-]. simpl. rewrite insert_entry_dom.
      split_and!; [done|set_solver|set_solver|set_solver|done].
    + intros [= <- <-]. split_and!; [done|set_solver|set_solver| |done]. intros [?|[? ?]]; [lia|done].
Qed.

(** ** Steps *)

Lemma finish_step now bucket c c' :
  finish_request now bucket c = Some c' → tidy c →
  tidy c' ∧ reconciler c' = reconciler c ∧ (load c' < load c)%nat ∧ (scheduled c → scheduled c').
Proof.
  intros Hfin (Hok & Hsd & Hd & Hn & Hw & Hp & Hb & Hf). unfold finish_request in Hfin.
  destruct (busy c) as [[req' [r e]]|] eqn:Hbusy; [|done].
  pose proof (Hb _ eq_refl) as Heq. simpl in Heq. subst req'.
  destruct (handle_result now bucket req (r, e) (Queue c) (failures c)) as [q fs] eqn:Hh.
  injection Hfin as <-.
  destruct (handle_result_tidy now bucket r e _ _ q fs Hsd Hf Hh) as (Hq & Hdom & Hdom' & Hback' & Hf').
  assert (dom (waitingEntryByData q) ⊆ {[req]}) as Hw' by set_solver.
  unfold tidy, load, scheduled. simpl. rewrite Hq, Hbusy, Done_dirty, Done_processing, Done_shuttingDown.
  split_and!; try done.
  - apply Done_ok; [done|]. rewrite Hp. set_solver.
  - rewrite Hp. set_solver.
  - pose proof (size_map_below _ Hw'). assert (size (waitingEntryByData q) ≤ 1)%nat by done. lia.
  - intros [?|[?|[?|(r' & e' & [= <- <-] & ?)]]]; [by left|by right; left|right; right; left..]; [set_solver|].
    by apply Hback'.
Qed.

Lemma deliver_step req' c :
  req' ∈ notifications c → tidy c →
  tidy (deliver req' c) ∧ (load (deliver req' c) < load c)%nat ∧
  (scheduled c → scheduled (deliver req' c)).
Proof.
  intros Hin (Hok & Hsd & Hd & Hn & Hw & Hp & Hb & Hf).
  assert (req' = req) as -> by set_solver. unfold tidy, load, scheduled. simpl.
  rewrite Add_dirty, Add_processing, Add_shuttingDown by done. split_and!; try done.
  - by apply Add_ok.
  - set_solver.
  - set_solver.
  - rewrite size_difference by set_solver. rewrite size_singleton.
    assert (size (notifications c) ≠ 0)%nat by (apply size_non_empty_iff; set_solver). lia.
  - intros _. left. set_solver.
Qed.

Lemma fire_step now req' t c :
  waitingEntryByData (Queue c) !! req' = Some t → tidy c →
  tidy (fire now req' c) ∧ (load (fire now req' c) < load c)%nat ∧
  (scheduled c → scheduled (fire now req' c)).
Proof.
  intros Hin (Hok & Hsd & Hd & Hn & Hw & Hp & Hb & Hf).
  assert (req' = req) as -> by (apply elem_of_dom_2 in Hin; set_solver). unfold tidy, load, scheduled. simpl.
  rewrite Add_dirty, Add_processing, Add_shuttingDown by done. split_and!; try done.
  - by apply Add_ok.
  - set_solver.
  - set_solver.
  - rewrite map_size_delete, Hin. simpl.
    assert (size (waitingEntryByData (Queue c)) ≠ 0)%nat by (apply map_size_non_empty_iff; intros He; by rewrite He in Hin).
    lia.
  - intros _. left. set_solver.
Qed.

Lemma internal_step c c' :
  cstep objects Internal c c' → tidy c →
  tidy c' ∧ reconciler c' = reconciler c ∧ (load c' < load c)%nat ∧ (scheduled c → scheduled c').
Proof.
  intros Hstep Ht. inversion Hstep; subst.
  - by eapply finish_step.
  - by destruct (deliver_step req0 c) as (? & ? & ?).
  - by destruct (fire_step now req0 t c) as (? & ? & ?).
Qed.

(** A request is taken: it is the one we follow. *)
Lemma take_step i c c' :
  take_request objects c = Some c' → tidy c → reconciler c = after i → (i < N)%nat →
  tidy c' ∧ reconciler c' = after (S i) ∧ (load c' ≤ load c + 3)%nat ∧
  (goal (world (after (S i))) ∨ scheduled c').
Proof using Hback Honly.
  intros Htake (Hok & Hsd & Hd & Hn & Hw & Hp & Hb & Hf) Hrec Hi. unfold take_request in Htake.
  destruct (busy c) eqn:Hbusy; [done|].
  destruct (Get (TypedInterface (Queue c))) as [| |req' q] eqn:Hget; [done|done|].
  destruct (Get_ok req' _ q Hok Hget) as (Hok' & Hin & _ & Hp' & Hd').
  assert (req' = req) as -> by set_solver.
  assert (shuttingDown q = false) as Hsd'.
  { unfold Get in Hget. destruct (queue _); [by rewrite Hsd in Hget|]. by injection Hget as ? <-. }
  destruct (Hback i Hi) as (r & e & Hr & Hor). rewrite after_S in Hor.
  rewrite Hrec in Htake. pose proof (Controller_Reconcile_state req (after i)) as Hrun.
  destruct (Controller_Reconcile req (after i)) as [out s']. simpl in Hr, Hrun. subst out.
  injection Htake as <-. rewrite after_S, <- Hrun. rewrite <- Hrun in Hor. simpl.
  assert (changed (objects (world (after i))) (objects (world s')) ⊆ {[req]}) as Hch.
  { pose proof (Honly i) as H1. pose proof (Honly (S i)) as H2. rewrite after_S, <- Hrun in H2.
    unfold changed. specialize (H1 ltac:(lia)). specialize (H2 ltac:(lia)). set_solver. }
  assert (notifications c ∪ changed (objects (world (after i))) (objects (world s')) ⊆ {[req]}) as Hnc
    by set_solver.
  split_and!.
  - unfold tidy. simpl. rewrite Hp', Hp. split_and!; try done; [set_solver|set_solver|].
    by intros x [= <-].
  - done.
  - unfold load. simpl. rewrite Hbusy. pose proof (size_below _ Hnc). lia.
  - destruct Hor as [Hg|[Hne|Hr']]; [by left|right; right; left|right; right; right; right; by exists r, e].
    simpl. apply elem_of_union_r. unfold changed. apply elem_of_filter. split; [done|].
    apply elem_of_union. destruct (objects (world (after i)) !! req) eqn:H1;
      [left; by eapply elem_of_dom_2|right].
    destruct (objects (world s') !! req) eqn:H2; [by eapply elem_of_dom_2|done].
Qed.

(** ** Executions *)

Lemma execution_inv now t r i c :
  execution objects (started req now s0) t r i c → (t ≤ N)%nat →
  tidy c ∧ reconciler c = after t ∧ (i + load c ≤ 3 * t + r + 1)%nat ∧
  (goal (world (after t)) ∨ scheduled c).
Proof using Hback Honly.
  induction 1 as [|t r i c c' _ IH Hstep|t r i c c' _ IH Hstep|t r i c c' _ IH Hstep]; intros Ht.
  - split_and!; [|done| |right; right; left; simpl; set_solver].
    + unfold tidy. simpl. split_and!; try done. apply newQueue_ok.
    + unfold load, started. cbn [notifications Queue busy newDelayingQueue waitingEntryByData].
      rewrite size_singleton, map_size_empty. lia.
  - destruct IH as (Htidy & Hrec & Hload & _); [lia|]. inversion Hstep; subst.
    destruct (take_step t c c') as (? & ? & ? & ?); [done..|lia|]. split_and!; [done|done|lia|done].
  - destruct (IH Ht) as (Htidy & Hrec & Hload & Hgoal). inversion Hstep; subst.
    assert (req0 = req) as ->.
    { pose proof (Honly t Ht). rewrite <- Hrec in *. set_solver. }
    destruct Htidy as (Hok & Hsd & Hd & Hn & Hw & Hp & Hb & Hf). split_and!; [|done| |].
    + unfold tidy. simpl. split_and!; try done. set_solver.
    + assert (size ({[req]} ∪ notifications c) ≤ 1)%nat by (apply size_below; set_solver).
      unfold load in *. simpl. lia.
    + right. right. left. simpl. set_solver.
  - destruct (IH Ht) as (Htidy & Hrec & Hload & Hgoal).
    destruct (internal_step c c' Hstep Htidy) as (Htidy' & Hrec' & Hload' & Hsch).
    split_and!; [done|by rewrite Hrec'|lia|]. destruct Hgoal; auto.
Qed.

(** A step other than a resynchronisation can be taken. *)
Definition goes_on c : Prop := ∃ l c', l ≠ Resyncs ∧ cstep objects l c c'.

Lemma scheduled_goes_on c : tidy c → scheduled c → goes_on c.
Proof.
  intros (Hok & Hsd & Hd & Hn & Hw & Hp & Hb & Hf) Hsch. destruct (busy c) as [[req' r]|] eqn:Hbusy.
  - destruct (handle_result (wall c) 0 req' r (Queue c) (failures c)) as [q fs] eqn:Hh.
    eexists Internal, _. split; [done|]. eapply (step_finish _ (wall c) 0); [done|done|].
    unfold finish_request. by rewrite Hbusy, Hh.
  - destruct Hsch as [Hin|[Hin|[[t Hin]%elem_of_dom|(r & e & Hbs & _)]]]; [| | |by rewrite Hbusy in Hbs].
    + destruct (Get_available req _ Hok Hin) as (req' & q & Hget); [rewrite Hp; set_solver|].
      destruct (Controller_Reconcile req' (reconciler c)) as [r s'] eqn:Hr.
      eexists Takes, _. split; [done|]. apply step_take. unfold take_request. by rewrite Hbusy, Hget, Hr.
    + eexists Internal, _. split; [done|]. by apply step_deliver.
    + eexists Internal, _. split; [done|]. apply (step_fire _ (Z.max (wall c) t) req t); [done|lia|lia].
Qed.

(** As long as the goal is not reached the controller goes on, and it takes
    the request after a bounded number of other steps. *)
Lemma execution_progress now t r i c :
  execution objects (started req now s0) t r i c → (t ≤ N)%nat →
  reconciler c = after t ∧ (i ≤ 3 * t + r + 1)%nat ∧ (goal (world (after t)) ∨ goes_on c).
Proof using Hback Honly.
  intros Hex Ht. destruct (execution_inv now t r i c Hex Ht) as (Htidy & Hrec & Hload & Hor).
  split_and!; [done|lia|]. destruct Hor; [by left|right; by apply scheduled_goes_on].
Qed.
End Loop.

(** ** Machines *)

Section Machines.
Context {World : Type} `{CO : Cooperating World} `{EC : !Ec2Cooperating World} `{AZ : !AzureCooperating World} `{OT : Others}.
Implicit Types (s : St World) (b : Body) (f : States) (e : Environment) (k : ObjectKey).

(** The machines as the watch sees them. *)
Definition watched (w : World) : gmap request Machine := v_objects (view w).

(** On the way to [Success]: without a phase, not created, or created. *)
Definition Unborn k (P : string → Prop) s : Prop :=
  ∃ b f e, b_key b = k ∧ Stored b f P (world s) ∧ v_env (view (world s)) = e ∧
    body_deleting b = false ∧ creatable b f e.

Definition Stage k s : Prop :=
  Unborn k (eq "") s ∨ Unborn k (λ p, p ≠ "") s ∨ ∃ n, Ready k n (λ p, p ≠ "") s.

Lemma Stage_holds k s : Stage k s → ∃ m, holds (view (world s)) k m.
Proof.
  intros [(b & f & e & <- & (m & Hm & _) & _)|[(b & f & e & <- & (m & Hm & _) & _)
    |(n & b & f & e & <- & _ & _ & _ & _ & (m & Hm & _) & _)]]; by exists m.
Qed.

Lemma requeue_or_success n k s :
  Ready k (pred n) (λ p, p = script_phase n) s →
  stored_phase k (world s) = Some MachinePhaseSuccess ∨ 0 < RequeueAfter (requeue_of n).
Proof.
  intros HR. destruct n as [|n]; [left|by right].
  eapply Ready_phase, Ready_weaken, HR. by intros p ->.
Qed.

Lemma Stage_step k s :
  Stage k s →
  ∃ r, (Reconcile k s).1 = Normal (r, None) ∧ Stage k (Reconcile k s).2 ∧
    (stored_phase k (world (Reconcile k s).2) = Some MachinePhaseSuccess ∨
     watched (world s) !! key_pair k ≠ watched (world (Reconcile k s).2) !! key_pair k ∨
     0 < RequeueAfter r).
Proof.
  intros [(b & f & e & <- & Hst & He & Hd & Hc)|[(b & f & e & <- & Hst & He & Hd & Hc)|(n & HR)]].
  - destruct (wp_normal _ _ _ _ (runs_Reconcile_first b f e s Hst He (or_introl Hd)))
      as (r & Hr & -> & _ & Hst1 & He1). eexists. split_and!; [done| |].
    + right. left. exists b, f, e. by split_and!.
    + right. left. unfold watched. destruct Hst as (m & [-> _] & _ & _ & _ & Hp).
      destruct Hst1 as (m1 & [-> _] & _ & _ & _ & Hp1). by intros [= <-].
  - destruct (creatable_Ready b f e s Hst He Hd Hc) as [Hr HR]. eexists. split_and!; [done| |].
    + right. right. eexists. eapply Ready_weaken; [|exact HR]. intros p ->. apply script_phase_nonempty.
    + destruct (requeue_or_success _ _ _ HR); auto.
  - destruct (Ready_step k n s HR) as [Hr HR']. eexists. split_and!; [done| |].
    + right. right. eexists. eapply Ready_weaken; [|exact HR']. intros p ->. apply script_phase_nonempty.
    + destruct (requeue_or_success _ _ _ HR'); auto.
Qed.

Lemma Stage_times k s i : Stage k s → Stage k (reconcile_times i k s).
Proof.
  revert s. induction i as [|i IH]; intros s HS; [done|]. simpl. apply IH.
  by destruct (Stage_step k s HS) as (r & _ & ? & _).
Qed.
End Machines.

(** ** The theorems *)

Section Theorems.
Context {World : Type} `{CO : Cooperating World} `{EC : !Ec2Cooperating World} `{AZ : !AzureCooperating World}.
Implicit Types (s : St World) (b : Body) (f : States) (e : Environment) (c : Controller World).
#[local] Existing Instance alone.

Lemma alone_dom k (v : View) :
  delete (key_pair k) (v_objects v) = others → dom (v_objects v) ⊆ {[key_pair k]}.
Proof.
  intros Ho p [m' Hp]%elem_of_dom. destruct (decide (p = key_pair k)) as [->|Hne]; [set_solver|].
  assert (delete (key_pair k) (v_objects v) !! p = Some m') as Hp' by by rewrite lookup_delete_ne.
  by rewrite Ho in Hp'.
Qed.

Lemma Stored_unborn b f e s :
  Stored b f (λ _, True) (world s) → v_env (view (world s)) = e → body_deleting b = false →
  creatable b f e → Stage (b_key b) s.
Proof.
  intros (m & Hm & Hb & Hc & Hf & _) He Hd Hcr. destruct (decide (Phase (Status m) = "")) as [Hp|Hp].
  - left. exists b, f, e. split_and!; [done|by exists m|done|done|done].
  - right. left. exists b, f, e. split_and!; [done|by exists m|done|done|done].
Qed.


End Theorems.

(** ** The hypotheses at work *)

#[local] Existing Instance alone.

Definition aws_controller : Controller Slow := started (key_pair demo_key) 0 (slow_start aws_start).

Lemma aws_creatable : creatable (body aws_machine) no_states (v_env (slow_view (mkSlow aws_start 3))).
Proof.
  split_and!; [done|done| | |].
  - eexists. split; [done|]. intros _. right. split_and!; [|done|by left].
    do 2 eexists. split_and!; [done|by_eval|..]; by vm_compute.
  - eexists. split; [done|]. eexists. split; [by_eval|by_decide].
  - eexists. split_and!; [by_eval|by_decide|by vm_compute].
Qed.


