(* ===== verification/Recovery.v ===== *)
(** * A server that cannot be reached for a while

    The first reads of the Machine fail, as when the API server starts after
    the operator.  A new reconciler then panics in [requeueWithError]; the
    controller recovers the panic and retries with growing delays.  Here the
    two are put together: the operator still brings the machine to [Success],
    with one more request for each failed read. *)

From S2P Require Import Prelude GoLib Types Conditions ConditionsFacts Summary StatusSpec StatusInv States Effects Kube Aws Azure Cleanup Cluster MachineOps Reconcile Evidence Logic Waiting Cooperation Provision Progress Teardown Sim SlowSim Liveness WorkQueue Controller ControllerLoop.

(** ** Services with failing reads *)

(** The next [faults] reads of a machine fail with the error [fault]. *)
Record Faulty (fault : error) (World : Type) := mkFaulty { faults : nat; base : World }.
Arguments mkFaulty {fault World} _ _.
Arguments faults {fault World} _.
Arguments base {fault World} _.

Section Faulty.
Context {World : Type} `{SV : !Services World} {fault : error}.

Definition faulty_serve {X} (c : Call X) (w : Faulty fault World) : X * Faulty fault World :=
  match c in Call X return X * Faulty fault World with
  | KGetMachine k =>
      match faults w with
      | S n => (inr fault, mkFaulty n (base w))
      | O => let '(x, w') := serve (KGetMachine k) (base w) in (x, mkFaulty O w')
      end
  | c => let '(x, w') := serve c (base w) in (x, mkFaulty (faults w) w')
  end.

#[export] Instance Faulty_Services : Services (Faulty fault World) := {|
  serve X c w := faulty_serve c w;
  clock w := clock (base w);
  range_order w m := range_order (base w) m;
  range_order_perm w m := range_order_perm (base w) m
|}.

Definition is_get {X} (c : Call X) : bool := match c with KGetMachine _ => true | _ => false end.

(** Everything but a failing read is answered as before. *)
Lemma faulty_other {X} (c : Call X) n w :
  is_get c = false ∨ n = O →
  serve c (mkFaulty n w : Faulty fault World) = ((serve c w).1, mkFaulty n (serve c w).2).
Proof.
  intros Hc. unfold serve at 1. simpl.
  destruct c; simpl; try (by destruct (serve _ w)); destruct Hc as [?| ->]; try done.
  by destruct (serve _ w).
Qed.

(** ** They cooperate as far as the others do *)

Context `{CO : !Cooperating World}.

(** What can be relied on: no object while reads fail. *)
Definition hide (n : nat) (v : View) : View :=
  match n with O => v | S _ => mkView ∅ (v_env v) end.

Lemma hide_env n v : v_env (hide n v) = v_env v.
Proof. by destruct n. Qed.

Lemma hide_in_env n g v : hide n (in_env g v) = in_env g (hide n v).
Proof. by destruct n. Qed.

Lemma hide_lookup n v k m : v_objects (hide n v) !! k = Some m → n = O ∧ v_objects v !! k = Some m.
Proof. destruct n; [done|]. simpl. by rewrite lookup_empty. Qed.

(** Splits a faulty world and answers the call in the world below. *)
Ltac below w :=
  destruct w as [n w]; rewrite ?faulty_other by (by left); simpl in *; rewrite ?hide_env in *.

#[export] Instance Faulty_Cooperating : Cooperating (Faulty fault World).
Proof.
  refine (@Build_Cooperating _ _ (λ w, hide (faults w) (view (base w))) (λ w, fetched (base w))
            _ _ _ _ _ _ _ _ _ _ _ _ _ _).
  - intros m w. below w. by destruct (coop_gvk m w) as [? ->].
  - intros k m w Hk. destruct w as [n w]. apply hide_lookup in Hk as [Hn Hk]. simpl in Hn. subst n.
    rewrite faulty_other by (by right). simpl in *. by apply coop_get.
  - intros k sec w Hk. below w. by destruct (coop_secret k sec w Hk) as [? ->].
  - intros kind cur mod_ w Hk Hm. below w. apply hide_lookup in Hk as [-> Hk]. by apply coop_patch.
  - intros old obj w Hk. below w. apply hide_lookup in Hk as [-> Hk]. by apply coop_status.
  - intros t args name w Hc Hl. below w. destruct (coop_create t args name w Hc Hl) as [? ->].
    by rewrite hide_in_env.
  - intros t name w Hn. below w. destruct (coop_rm t name w Hn) as [? ->]. by rewrite hide_in_env.
  - intros t args w n' Hc Ha. below w. destruct (coop_scp_pending t args w n' Hc Ha) as [? ->].
    by rewrite hide_in_env.
  - intros t args w Hc Ha. below w. by destruct (coop_scp_done t args w Hc Ha) as (? & ? & ->).
  - intros content w Hf. below w. by destruct (coop_open content w Hf) as (? & ? & ->).
  - intros w Hf. below w. by apply coop_remove_result.
  - intros p w. below w. by destruct (coop_remove p w) as [? ->].
  - intros p w. below w. by destruct (coop_stat p w) as [? ->].
  - intros p d perm w. below w. by destruct (coop_write p d perm w) as [? ->].
Defined.

#[export] Instance Faulty_Ec2 `{EC : !Ec2Cooperating World} : Ec2Cooperating (Faulty fault World).
Proof.
  split.
  - intros c w. below w. by destruct (ec2_session c w) as [? ->].
  - intros d w. below w. by rewrite ec2_sleep.
  - intros c cidr w. below w. destruct (ec2_vpc c cidr w) as (vpc & id & k & H1 & H2 & H3 & H4 & ->).
    exists vpc, id, k. by rewrite hide_in_env.
  - intros c id k w Hk. below w. destruct (ec2_describe c id k w Hk) as (v & st & H1 & H2 & H3 & H4 & ->).
    exists v, st. by rewrite hide_in_env.
  - intros c cidr vpc zone w Hv. below w. destruct (ec2_subnet c cidr vpc zone w Hv) as (sn & id & H1 & H2 & H3 & ->).
    by exists sn, id.
  - intros c w. below w. destruct (ec2_gateway c w) as (gw & id & H1 & H2 & H3 & ->). by exists gw, id.
  - intros c gw vpc w Hv. below w. by destruct (ec2_attach c gw vpc w Hv) as [? ->].
  - intros c w. below w. destruct (ec2_tables c w) as (l & H1 & H2 & H3 & ->). by exists l.
  - intros c cidr gw rt w. below w. by destruct (ec2_route c cidr gw rt w) as [? ->].
  - intros c cidr rt w. below w. by rewrite ec2_delete_route.
  - intros c gw vpc w. below w. by rewrite ec2_detach.
  - intros c gw w. below w. by rewrite ec2_delete_gateway.
  - intros c sn w. below w. by rewrite ec2_delete_subnet.
  - intros c vpc w. below w. destruct (ec2_groups c vpc w) as (l & H1 & H2 & ->). by exists l.
  - intros c g w. below w. by rewrite ec2_delete_group.
  - intros c id w. below w. destruct (ec2_delete_vpc c id w) as (? & vs & ->). split; [done|].
    exists vs. by rewrite hide_in_env.
Qed.

#[export] Instance Faulty_Azure `{AZ : !AzureCooperating World} : AzureCooperating (Faulty fault World).
Proof.
  split.
  - intros t c p w. below w. by destruct (az_credential t c p w) as [? ->].
  - intros sub w. below w. by destruct (az_client sub w) as [? ->].
  - intros c g w. below w. by destruct (az_begin c g w) as [? ->].
  - intros p w. below w. by destruct (az_poll p w) as [? ->].
Qed.

End Faulty.

(** ** Recovery *)

Lemma reconcile_times_add {World} `{!Services World} i j req (s : St World) :
  reconcile_times (i + j) req s = reconcile_times j req (reconcile_times i req s).
Proof. revert s. induction i as [|i IH]; intros s; [done|]. apply IH. Qed.

Section Recovery.
Context {World : Type} `{CO : Cooperating World} `{EC : !Ec2Cooperating World} `{AZ : !AzureCooperating World}.
Context {fault : error} (Hfault : IsNotFound fault = false).
Implicit Types (w : World) (b : Body) (f : States) (e : Environment) (c : Controller (Faulty fault World)).
#[local] Existing Instance alone.

(** The watch sees the objects that are stored. *)
Definition seen (w : Faulty fault World) : gmap request Machine := v_objects (view (base w)).

(** A new reconciler whose read fails panics, and is as new as before. *)
Lemma faulty_Reconcile req n w tr :
  Reconcile req (mkSt (mkFaulty (S n) w : Faulty fault World) None tr) =
    (Panic "nil pointer dereference", mkSt (mkFaulty n w) None (tr ++ [Ev (KGetMachine req) (inr fault)])).
Proof.
  unfold Reconcile, updateMachineReconcile, mbind, M_bind, call. simpl. rewrite Hfault.
  unfold requeueWithError, update_own_status, mbind, M_bind, the_machine. done.
Qed.

Lemma faulty_times req i n w tr :
  ∃ tr', reconcile_times i req (mkSt (mkFaulty (i + n) w : Faulty fault World) None tr) =
    mkSt (mkFaulty n w) None tr'.
Proof.
  revert tr. induction i as [|i IH]; intros tr; [by exists tr|]. simpl. rewrite faulty_Reconcile. apply IH.
Qed.

(** Once a machine can be read, no more reads fail. *)
Lemma Stage_no_faults k (s : St (Faulty fault World)) :
  Stage k s → faults (world s) = O ∧ seen (world s) = watched (world s) ∧
    dom (seen (world s)) ⊆ {[key_pair k]}.
Proof.
  intros HS. destruct (Stage_holds k s HS) as [m Hm].
  assert (faults (world s) = O) as Hn by (destruct Hm as [Hl _]; apply (hide_lookup _ _ _ _ Hl)).
  assert (seen (world s) = watched (world s)) as Hs
    by (unfold seen, watched; destruct (world s) as [n w]; simpl in *; by subst n).
  split_and!; [done|done|]. rewrite Hs. unfold watched. apply alone_dom, Hm.
Qed.

Lemma stored_phase_base k (w : Faulty fault World) :
  stored_phase k w = Some MachinePhaseSuccess → stored_phase k (base w) = Some MachinePhaseSuccess.
Proof. by destruct w as [[|n] w]. Qed.

Section Run.
Context b f e (K : nat) w
  (Hst : Stored b f (λ _, True) w) (He : v_env (view w) = e) (Hd : body_deleting b = false) (Hcr : creatable b f e).

Definition faulty_start : St (Faulty fault World) := mkSt (mkFaulty K w) None [].
Definition faulty_after (i : nat) : St (Faulty fault World) := after (key_pair (b_key b)) faulty_start i.

Lemma faulty_before i :
  (i ≤ K)%nat → ∃ tr, faulty_after i = mkSt (mkFaulty (K - i) w) None tr.
Proof.
  intros Hi. unfold faulty_after, after, faulty_start. rewrite request_key_pair.
  destruct (faulty_times (b_key b) i (K - i) w []) as [tr Htr].
  replace (i + (K - i))%nat with K in Htr by lia. by exists tr.
Qed.

Lemma faulty_Stored tr : Stage (b_key b) (mkSt (mkFaulty O w : Faulty fault World) None tr).
Proof. by apply (Stored_unborn b f e). Qed.

Lemma faulty_Stage i : (K ≤ i)%nat → Stage (b_key b) (faulty_after i).
Proof.
  intros Hi. unfold faulty_after, after. rewrite request_key_pair.
  replace i with (K + (i - K))%nat by lia. rewrite reconcile_times_add. apply Stage_times.
  destruct (faulty_before K) as [tr Htr]; [lia|]. unfold faulty_after, after in Htr.
  rewrite request_key_pair in Htr. rewrite Htr. replace (K - K)%nat with O by lia. apply faulty_Stored.
Qed.

Lemma faulty_comes_back i :
  comes_back seen (key_pair (b_key b)) faulty_start
    (λ v, stored_phase (b_key b) v = Some MachinePhaseSuccess) i.
Proof.
  unfold comes_back. rewrite after_S, request_key_pair. fold (faulty_after i).
  destruct (decide (i < K)%nat) as [Hi|Hi].
  - destruct (faulty_before i) as [tr ->]; [lia|]. replace (K - i)%nat with (S (K - S i)) by lia.
    unfold Controller_Reconcile. rewrite request_key_pair, faulty_Reconcile. do 2 eexists. split; [done|].
    right. right. right. by eexists.
  - pose proof (faulty_Stage i ltac:(lia)) as HS.
    destruct (Stage_step (b_key b) _ HS) as (r & Hr & HS' & Hor).
    destruct (Stage_no_faults _ _ HS) as (_ & -> & _). destruct (Stage_no_faults _ _ HS') as (_ & -> & _).
    exists r, None. split; [by apply Controller_Reconcile_normal; rewrite request_key_pair|].
    destruct Hor as [?|[?|?]]; auto.
Qed.

Lemma faulty_only i : dom (seen (world (faulty_after i))) ⊆ {[key_pair (b_key b)]}.
Proof.
  destruct (decide (i < K)%nat) as [Hi|Hi].
  - destruct (faulty_before i) as [tr ->]; [lia|]. destruct Hst as (m & Hm & _). apply alone_dom, Hm.
  - apply (Stage_no_faults _ _ (faulty_Stage i ltac:(lia))).
Qed.

Lemma faulty_success i :
  (K + e_attempts e + 2 ≤ i)%nat →
  stored_phase (b_key b) (world (faulty_after i)) = Some MachinePhaseSuccess.
Proof.
  intros Hi. unfold faulty_after, after. rewrite request_key_pair.
  replace i with (K + (i - K))%nat by lia. rewrite reconcile_times_add.
  destruct (faulty_before K) as [tr Htr]; [lia|]. unfold faulty_after, after in Htr.
  rewrite request_key_pair in Htr. rewrite Htr. replace (K - K)%nat with O by lia.
  by apply (reaches_success b f e); [done|done|done|done|lia].
Qed.
End Run.

End Recovery.

(** ** The theorem at work *)

#[local] Existing Instance alone.

Definition unreachable : error := StatusError "ServiceUnavailable" 503 "the server is not available".

(** Two reads fail, and the script takes three attempts. *)
Definition unreachable_controller : Controller (Faulty unreachable Slow) :=
  started (key_pair demo_key) 0 (mkSt (mkFaulty 2 (mkSlow aws_start 3)) None []).

