(* ===== verification/Json.v ===== *)
(** * JSON merge patches

    [github.com/evanphx/json-patch/v5/merge.go], with which a patch is made
    from two versions of an object ([CreateMergePatch]) and applied to a third
    ([MergePatch]).  A document is an association list; as in the code, the
    order of its fields means nothing. *)

From S2P Require Import Prelude.

#[local] Unset Elimination Schemes.
Inductive JSON :=
| JNull
| JBool (b : bool)
| JNumber (z : Z)
| JString (s : string)
| JArray (l : list JSON)
| JObject (fs : list (string * JSON)).
#[local] Set Elimination Schemes.

Abbreviation Doc := (list (string * JSON)).

(** Induction through arrays and objects. *)
Lemma JSON_ind (P : JSON → Prop) :
  P JNull → (∀ b, P (JBool b)) → (∀ z, P (JNumber z)) → (∀ s, P (JString s)) →
  (∀ l, Forall P l → P (JArray l)) →
  (∀ fs, Forall (λ f, P f.2) fs → P (JObject fs)) → ∀ j, P j.
Proof.
  intros H1 H2 H3 H4 H5 H6. fix IH 1.
  intros [|b|z|s|l|fs]; [exact H1|apply H2|apply H3|apply H4|apply H5|apply H6].
  - induction l as [|j l IHl]; constructor; [apply IH|exact IHl].
  - induction fs as [|[k j] fs IHl]; constructor; [apply IH|exact IHl].
Qed.

(** ** Fields *)

Fixpoint get (k : string) (d : Doc) : option JSON :=
  match d with
  | [] => None
  | (k', v) :: d => if decide (k' = k) then Some v else get k d
  end.

(** [doc.set], [doc.remove] *)
Fixpoint set (k : string) (v : JSON) (d : Doc) : Doc :=
  match d with
  | [] => [(k, v)]
  | (k', v') :: d => if decide (k' = k) then (k, v) :: d else (k', v') :: set k v d
  end.

Definition remove (k : string) (d : Doc) : Doc := filter (λ f, f.1 ≠ k) d.

(** ** [merge.go] *)

Fixpoint matchesValue (av bv : JSON) {struct bv} : bool :=
  match av, bv with
  | JNull, JNull => true
  | JBool a, JBool b => bool_decide (a = b)
  | JNumber a, JNumber b => bool_decide (a = b)
  | JString a, JString b => bool_decide (a = b)
  | JObject a, JObject b =>
      bool_decide (length b = length a) &&
      (fix go (l : Doc) : bool :=
         match l with
         | [] => true
         | (key, bv) :: l =>
             match get key a with Some av => matchesValue av bv && go l | None => false end
         end) b
  | JArray a, JArray b =>
      bool_decide (length a = length b) &&
      (fix go (a b : list JSON) {struct b} : bool :=
         match a, b with
         | av :: a, bv :: b => matchesValue av bv && go a b
         | _, _ => true
         end) a b
  | _, _ => false
  end.

(** The fields of [a] that [b] does not have become null. *)
Definition deleted (a b : Doc) : Doc :=
  omap (λ f, match get f.1 b with None => Some (f.1, JNull) | Some _ => None end) a.

(** [getDiff]; [b] is the object's value, for the recursion. *)
Fixpoint getDiff (a : Doc) (b : JSON) {struct b} : Doc :=
  match b with
  | JObject b =>
      (fix go (l : Doc) : Doc :=
         match l with
         | [] => []
         | (key, bv) :: l =>
             match get key a with
             | None => (key, bv) :: go l
             | Some av =>
                 match av, bv with
                 | JObject at_, JObject _ =>
                     match getDiff at_ bv with
                     | [] => go l
                     | dst => (key, JObject dst) :: go l
                     end
                 | _, _ => if matchesValue av bv then go l else (key, bv) :: go l
                 end
             end
         end) b ++ deleted a b
  | _ => []
  end.

Definition CreateMergePatch (original modified : JSON) : JSON :=
  match original with JObject a => JObject (getDiff a modified) | _ => JNull end.

Fixpoint pruneNulls (n : JSON) : JSON :=
  match n with
  | JObject fs =>
      JObject ((fix go (l : Doc) : Doc :=
                  match l with
                  | [] => []
                  | (_, JNull) :: l => go l
                  | (k, v) :: l => (k, pruneNulls v) :: go l
                  end) fs)
  | JArray l => JArray (pruneNulls <$> l)
  | _ => n
  end.

(** [merge] without [mergeMerge], with the loop of [mergeDocs]. *)
Fixpoint merge (cur patch : JSON) {struct patch} : JSON :=
  match cur, patch with
  | JObject doc, JObject p =>
      JObject ((fix go (doc p : Doc) {struct p} : Doc :=
                  match p with
                  | [] => doc
                  | (k, JNull) :: p => go (remove k doc) p
                  | (k, v) :: p =>
                      match get k doc with
                      | None | Some JNull => go (set k (pruneNulls v) doc) p
                      | Some cur => go (set k (merge cur v) doc) p
                      end
                  end) doc p)
  | JObject _, _ => patch
  | _, _ => pruneNulls patch
  end.

Definition MergePatch (doc patch : JSON) : JSON := merge doc patch.

(** ** Looking at fields *)

Definition keys (d : Doc) : list string := d.*1.

Lemma get_None k d : get k d = None ↔ k ∉ keys d.
Proof.
  induction d as [|[k' v] d IH]; simpl; [set_solver|]. case_decide; set_solver.
Qed.

Lemma get_Some_elem k v d : get k d = Some v → (k, v) ∈ d.
Proof.
  induction d as [|[k' v'] d IH]; simpl; [done|]. case_decide as Hk; [|set_solver].
  intros [= ->]. subst. by left.
Qed.

Lemma get_elem k v d : NoDup (keys d) → (k, v) ∈ d → get k d = Some v.
Proof.
  induction d as [|[k' v'] d IH]; simpl; [by intros _ ?%elem_of_nil|].
  intros [Hk Hnd]%NoDup_cons [[= <- <-]|Hin]%elem_of_cons; [by rewrite decide_True|].
  rewrite decide_False; [by apply IH|]. intros ->. apply Hk, (list_elem_of_fmap_2 fst d (k, v) Hin).
Qed.

Lemma get_app k d1 d2 :
  get k (d1 ++ d2) = match get k d1 with Some v => Some v | None => get k d2 end.
Proof. induction d1 as [|[k' v] d1 IH]; simpl; [done|]. by case_decide. Qed.

Lemma get_set k k' v d : get k' (set k v d) = if decide (k = k') then Some v else get k' d.
Proof.
  induction d as [|[k1 v1] d IH]; simpl; [done|]. repeat (case_decide; simpl); congruence.
Qed.

Lemma get_remove k k' d : get k' (remove k d) = if decide (k = k') then None else get k' d.
Proof.
  unfold remove. induction d as [|[k1 v1] d IH]; simpl; [by case_decide|].
  rewrite filter_cons. repeat (case_decide; simpl in * ); try congruence.
Qed.

Lemma keys_set k v d : NoDup (keys d) → NoDup (keys (set k v d)).
Proof.
  intros Hnd. induction d as [|[k1 v1] d IH]; simpl in *; [apply NoDup_singleton|].
  apply NoDup_cons in Hnd as [Hk Hnd]. case_decide as Hkk; simpl; apply NoDup_cons.
  - by subst.
  - split; [|by apply IH]. rewrite <- get_None, get_set, decide_False by congruence. by apply get_None.
Qed.

Lemma keys_remove k d : NoDup (keys d) → NoDup (keys (remove k d)).
Proof.
  intros Hnd. induction d as [|[k1 v1] d IH]; simpl in *; [constructor|].
  apply NoDup_cons in Hnd as [Hk Hnd]. unfold remove. rewrite filter_cons. simpl. case_decide; [|by apply IH].
  simpl. apply NoDup_cons. split; [|by apply IH]. rewrite <- get_None. fold (remove k d).
  rewrite get_remove. case_decide; [done|by apply get_None].
Qed.

(** ** What the loops do, field by field *)

(** The loop of [mergeDocs]. *)
Definition merge_docs (doc p : Doc) : Doc :=
  match merge (JObject doc) (JObject p) with JObject d => d | _ => doc end.

Definition merge_field (cur patch : option JSON) : option JSON :=
  match patch with
  | None => cur
  | Some JNull => None
  | Some v =>
      match cur with
      | None | Some JNull => Some (pruneNulls v)
      | Some cur => Some (merge cur v)
      end
  end.

Lemma merge_docs_cons doc k v p :
  merge_docs doc ((k, v) :: p) =
    merge_docs (match merge_field (get k doc) (Some v) with
                | None => remove k doc
                | Some v' => set k v' doc
                end) p.
Proof. unfold merge_docs. destruct v; simpl; try done; destruct (get k doc) as [[]|]; done. Qed.

Lemma get_merge_docs p : ∀ doc k,
  NoDup (keys p) → get k (merge_docs doc p) = merge_field (get k doc) (get k p).
Proof.
  induction p as [|[k1 v1] p IH]; intros doc k; [done|]. simpl. intros [Hk Hnd]%NoDup_cons.
  rewrite merge_docs_cons, IH by done. case_decide as Hkk.
  - subst k1. apply get_None in Hk. rewrite Hk. change (merge_field ?x None) with x.
    destruct (merge_field (get k doc) (Some v1)); [by rewrite get_set, decide_True|by rewrite get_remove, decide_True].
  - f_equal. destruct (merge_field (get k1 doc) (Some v1));
      [by rewrite get_set, decide_False|by rewrite get_remove, decide_False].
Qed.

(** The loops of [getDiff]. *)
Definition diff_value (av bv : JSON) : option JSON :=
  match av, bv with
  | JObject at_, JObject _ =>
      match getDiff at_ bv with [] => None | dst => Some (JObject dst) end
  | _, _ => if matchesValue av bv then None else Some bv
  end.

Definition diff_field (av bv : option JSON) : option JSON :=
  match av, bv with
  | None, None => None
  | Some _, None => Some JNull
  | None, Some bv => Some bv
  | Some av, Some bv => diff_value av bv
  end.

(** The loop over [b]. *)
Definition diff_loop (a b : Doc) : Doc :=
  omap (λ f, pair f.1 <$> diff_field (get f.1 a) (Some f.2)) b.

Lemma getDiff_loops a b : getDiff a (JObject b) = diff_loop a b ++ deleted a b.
Proof.
  simpl. f_equal. unfold diff_loop. generalize b. intros l. induction l as [|[k v] l IH]; [done|]. simpl.
  destruct (get k a) as [av|]; simpl; [|by rewrite IH].
  unfold diff_value. destruct av, v; simpl; rewrite IH; try done; repeat case_match; simplify_eq/=; done.
Qed.

Lemma get_omap_None (g : string * JSON → option JSON) k d :
  k ∉ keys d → get k (omap (λ f, pair f.1 <$> g f) d) = None.
Proof.
  induction d as [|[k1 v1] d IH]; simpl; [done|]. intros [Hk Hd]%not_elem_of_cons.
  destruct (g (k1, v1)); simpl; [rewrite decide_False by done|]; by apply IH.
Qed.

Lemma get_omap (g : string * JSON → option JSON) k d :
  NoDup (keys d) →
  get k (omap (λ f, pair f.1 <$> g f) d) = (v ← get k d; g (k, v)).
Proof.
  induction d as [|[k1 v1] d IH]; simpl; [done|]. intros [Hk Hnd]%NoDup_cons.
  case_decide as Hkk; simpl.
  - subst k1. destruct (g (k, v1)) as [v|]; simpl; [by rewrite decide_True|by apply get_omap_None].
  - destruct (g (k1, v1)); simpl; [rewrite decide_False by done|]; by apply IH.
Qed.

Lemma keys_omap (g : string * JSON → option JSON) d :
  NoDup (keys d) → NoDup (keys (omap (λ f, pair f.1 <$> g f) d)).
Proof.
  induction d as [|[k1 v1] d IH]; simpl; [done|]. intros [Hk Hnd]%NoDup_cons.
  destruct (g (k1, v1)); simpl; [|by apply IH]. apply NoDup_cons. split; [|by apply IH].
  apply get_None. by apply get_omap_None.
Qed.

Lemma deleted_omap a b :
  deleted a b = omap (λ f, pair f.1 <$> match get f.1 b with None => Some JNull | Some _ => None end) a.
Proof. unfold deleted. induction a as [|[k v] a IH]; [done|]. simpl. destruct (get k b); simpl; [exact IH|f_equal; exact IH]. Qed.

Lemma get_diff a b k :
  NoDup (keys a) → NoDup (keys b) →
  get k (getDiff a (JObject b)) = diff_field (get k a) (get k b).
Proof.
  intros Ha Hb. rewrite getDiff_loops, get_app, deleted_omap, get_omap by done.
  unfold diff_loop. rewrite get_omap by done. destruct (get k b) as [bv|] eqn:Hkb; simpl.
  - destruct (diff_field (get k a) (Some bv)); [done|]. destruct (get k a); simpl; by rewrite ?Hkb.
  - destruct (get k a); simpl; by rewrite ?Hkb.
Qed.

Lemma keys_diff a b :
  NoDup (keys a) → NoDup (keys b) → NoDup (keys (getDiff a (JObject b))).
Proof.
  intros Ha Hb. rewrite getDiff_loops, deleted_omap. unfold keys. rewrite fmap_app. apply NoDup_app.
  split_and!; [by apply keys_omap| |by apply keys_omap].
  intros k Hk1 Hk2. assert (k ∈ keys b) as Hkb.
  { destruct (decide (k ∈ keys b)) as [?|Hn]; [done|]. exfalso.
    apply (get_omap_None (λ f, diff_field (get f.1 a) (Some f.2))) in Hn. by apply get_None in Hn. }
  assert (get k (omap (λ f, pair f.1 <$> match get f.1 b with None => Some JNull | Some _ => None end) a) = None) as Hn.
  { rewrite get_omap by done. destruct (get k a); simpl; [|done].
    destruct (get k b) eqn:Hkb'; [done|]. by apply get_None in Hkb'. }
  by apply get_None in Hn.
Qed.
