(* ===== verification/JsonFacts.v ===== *)
(** * Merge patches do what they are made for

    Documents are the same when they have the same fields, where a field that
    is null counts as absent.  Up to that, applying the patch made from two
    documents to the first gives the second. *)

From S2P Require Import Prelude Json.

(** ** The same document *)

(** A field, or nothing if it is absent or null. *)
Definition present (o : option JSON) : option JSON := match o with Some JNull => None | o => o end.
Definition field (k : string) (d : Doc) : option JSON := present (get k d).

#[local] Unset Elimination Schemes.
Inductive jequiv : JSON → JSON → Prop :=
| je_refl j : jequiv j j
| je_arr l l' : Forall2 jequiv l l' → jequiv (JArray l) (JArray l')
| je_obj d d' : (∀ k, option_Forall2 jequiv (field k d) (field k d')) → jequiv (JObject d) (JObject d').
#[local] Set Elimination Schemes.

#[export] Instance jequiv_refl : Reflexive jequiv.
Proof. intros j. apply je_refl. Qed.

Lemma field_elem k v d : field k d = Some v → (k, v) ∈ d.
Proof.
  unfold field. intros H. apply get_Some_elem. destruct (get k d) as [[]|]; by simplify_eq.
Qed.

(** What [jequiv] says, by the shape of the left document. *)
Lemma jequiv_arr l j : jequiv (JArray l) j → ∃ l', j = JArray l' ∧ Forall2 jequiv l l'.
Proof. intros Hj. inversion Hj; subst; eexists; (split; [done|]); [|done].
  by induction l; constructor.
Qed.

Lemma jequiv_obj d j :
  jequiv (JObject d) j →
  ∃ d', j = JObject d' ∧ ∀ k, option_Forall2 jequiv (field k d) (field k d').
Proof.
  intros Hj. inversion Hj; subst; eexists; (split; [done|]); [|done].
  intros k. destruct (field k d); constructor. reflexivity.
Qed.

#[export] Instance jequiv_sym : Symmetric jequiv.
Proof.
  intros j. induction j as [| | | |l IH|d IH] using JSON_ind; intros j' Hj; try (inversion Hj; reflexivity).
  - apply jequiv_arr in Hj as (l' & -> & Hl). apply je_arr.
    induction Hl; inversion IH; subst; constructor; auto.
  - apply jequiv_obj in Hj as (d' & -> & Hd). apply je_obj. intros k. rewrite Forall_forall in IH.
    specialize (Hd k). inversion Hd as [v v' Hv Hf|]; constructor.
    apply (IH (k, v)); [|done]. by apply field_elem.
Qed.

#[export] Instance jequiv_trans : Transitive jequiv.
Proof.
  intros j1 j2. revert j1. induction j2 as [| | | |l IH|d IH] using JSON_ind; intros j1 j3 H1 H2;
    try (inversion H2; subst; exact H1); symmetry in H1.
  - apply jequiv_arr in H1 as (l1 & -> & H1), H2 as (l3 & -> & H2). apply je_arr. revert l1 l3 H1 H2.
    induction IH as [|j l Hj Hl IHl]; intros l1 l3 H1 H2; inversion H1; inversion H2; subst; constructor; auto.
    eapply Hj; [symmetry|]; done.
  - apply jequiv_obj in H1 as (d1 & -> & H1), H2 as (d3 & -> & H2). apply je_obj. intros k.
    specialize (H1 k); specialize (H2 k). destruct (field k d) as [v|] eqn:Hk.
    + inversion H1; inversion H2; subst. constructor. rewrite Forall_forall in IH.
      eapply (IH (k, v)); [by apply field_elem|by symmetry|done].
    + inversion H1; inversion H2; constructor.
Qed.

(** No field twice, at any depth: what a Go map gives. *)
Fixpoint jwf (j : JSON) : Prop :=
  match j with
  | JArray l => foldr (λ j P, jwf j ∧ P) True l
  | JObject d => NoDup (keys d) ∧ foldr (λ f P, jwf f.2 ∧ P) True d
  | _ => True
  end.

Lemma jwf_arr l : jwf (JArray l) ↔ Forall jwf l.
Proof. simpl. induction l as [|j l IH]; simpl; [by split|]. by rewrite Forall_cons, IH. Qed.

Lemma jwf_obj d : jwf (JObject d) ↔ NoDup (keys d) ∧ Forall (λ f, jwf f.2) d.
Proof.
  simpl. f_equiv. induction d as [|f d IH]; simpl; [by split|]. by rewrite Forall_cons, IH.
Qed.

Lemma jwf_get d k v : jwf (JObject d) → get k d = Some v → jwf v.
Proof.
  intros [_ Hd]%jwf_obj Hk%get_Some_elem. rewrite Forall_forall in Hd. apply (Hd (k, v) Hk).
Qed.

(** Dropping nulls changes nothing. *)
Definition pruned (v : JSON) : option JSON := match v with JNull => None | v => Some (pruneNulls v) end.

Lemma pruneNulls_obj d : pruneNulls (JObject d) = JObject (omap (λ f, pair f.1 <$> pruned f.2) d).
Proof. simpl. f_equal. induction d as [|[k v] d IH]; [done|]. destruct v; simpl in *; by rewrite IH. Qed.

Lemma prune_jequiv j : jwf j → jequiv (pruneNulls j) j.
Proof.
  induction j as [| | | |l IH|d IH] using JSON_ind; intros Hwf; try reflexivity.
  - apply jwf_arr in Hwf. simpl. apply je_arr.
    induction IH; inversion Hwf; subst; constructor; auto.
  - rewrite pruneNulls_obj. pose proof Hwf as [Hnd _]%jwf_obj. apply je_obj. intros k. unfold field.
    rewrite get_omap by done. destruct (get k d) as [v|] eqn:Hk; simpl; [|constructor].
    rewrite Forall_forall in IH. pose proof (IH (k, v) (get_Some_elem _ _ _ Hk) (jwf_get _ _ _ Hwf Hk)) as Hv.
    destruct v; constructor; exact Hv.
Qed.

(** ** Matching values are the same *)

Lemma matches_obj a b :
  matchesValue (JObject a) (JObject b) = true →
  length b = length a ∧ Forall (λ f, ∃ av, get f.1 a = Some av ∧ matchesValue av f.2 = true) b.
Proof.
  simpl. intros [Hlen%bool_decide_eq_true Hgo]%andb_true_iff. split; [done|]. clear Hlen.
  induction b as [|[k v] b IH]; constructor; simpl; destruct (get k a) as [av|] eqn:Hk; try done;
    apply andb_true_iff in Hgo as [Hv Hgo]; eauto.
Qed.

(** A document with as many fields as another has no others. *)
Lemma keys_equal (a b : Doc) :
  NoDup (keys b) → length b = length a → (∀ k, k ∈ keys b → k ∈ keys a) →
  ∀ k, k ∈ keys a → k ∈ keys b.
Proof.
  intros Hb Hlen Hsub k Hk. assert (keys b ≡ₚ keys a) as ->; [|done].
  apply submseteq_length_Permutation; [by apply NoDup_submseteq|].
  unfold keys. rewrite !length_fmap. lia.
Qed.

Lemma matches_jequiv b : ∀ a, jwf b → matchesValue a b = true → jequiv a b.
Proof.
  induction b as [|b|z|s|l IH|d IH] using JSON_ind; intros [|b'|z'|s'|l'|d'] Hwf Hm; try done;
    try (simpl in Hm; apply bool_decide_eq_true in Hm; subst; reflexivity).
  - apply jwf_arr in Hwf. simpl in Hm. apply andb_true_iff in Hm as [Hlen%bool_decide_eq_true Hgo].
    apply je_arr. revert l' Hlen Hgo.
    induction IH as [|j l Hj Hl IHl]; intros [|j' l'] Hlen Hgo; simplify_eq/=; constructor;
      apply andb_true_iff in Hgo as [? ?]; inversion Hwf; auto.
  - apply matches_obj in Hm as [Hlen Hm]. pose proof Hwf as [Hnd _]%jwf_obj. rewrite Forall_forall in Hm, IH.
    apply je_obj. intros k. unfold field. destruct (get k d) as [v|] eqn:Hk.
    + apply get_Some_elem in Hk as Hin. destruct (Hm _ Hin) as (av & Hka & Hav). simpl in *.
      rewrite Hka. pose proof (IH _ Hin av (jwf_get _ _ _ Hwf Hk) Hav) as Hj. simpl in *.
      destruct v, av; try done; by constructor.
    + assert (get k d' = None) as ->; [|constructor]. apply get_None in Hk. apply get_None. intros Hk'.
      apply Hk. apply (keys_equal d' d); [done..| |done]. intros k0 Hk0.
      apply list_elem_of_fmap in Hk0 as ([k1 v1] & -> & Hin). destruct (Hm _ Hin) as (av & Hka & _).
      destruct (decide (k1 ∈ keys d')) as [|Hn]; [done|]. apply get_None in Hn. simpl in *. congruence.
Qed.

(** ** The round trip *)

Lemma merge_obj a p : merge (JObject a) (JObject p) = JObject (merge_docs a p).
Proof. done. Qed.

Lemma option_jequiv_refl (o : option JSON) : option_Forall2 jequiv o o.
Proof. destruct o; constructor. reflexivity. Qed.

(** A value that is replaced as a whole. *)
Lemma merge_replaces av bv :
  jwf bv → ¬ (∃ at_ bt, av = JObject at_ ∧ bv = JObject bt) →
  option_Forall2 jequiv (present (merge_field (Some av) (Some bv))) (present (Some bv)).
Proof.
  intros Hp%prune_jequiv Hn. destruct bv; try (by constructor); destruct av; simpl in *;
    try (by constructor); destruct Hn; eauto.
Qed.

Lemma present_jequiv av bv :
  jequiv av bv → option_Forall2 jequiv (present (Some av)) (present (Some bv)).
Proof. intros Hj. destruct av, bv; try constructor; done || inversion Hj. Qed.

Lemma diff_value_cases av bv :
  (∃ at_ bt, av = JObject at_ ∧ bv = JObject bt)
  ∨ ¬ (∃ at_ bt, av = JObject at_ ∧ bv = JObject bt)
    ∧ diff_value av bv = if matchesValue av bv then None else Some bv.
Proof. destruct av, bv; try (right; split; [by intros (? & ? & ? & ?)|done]). left. eauto. Qed.

(** A field both documents have: the patch leaves it, goes into it or replaces it. *)
Lemma merge_diff_value av bv :
  jwf bv →
  (∀ at_ bt, av = JObject at_ → bv = JObject bt → jequiv (merge av (JObject (getDiff at_ bv))) bv) →
  option_Forall2 jequiv (present (merge_field (Some av) (diff_value av bv))) (present (Some bv)).
Proof.
  intros Hwf IH. destruct (diff_value_cases av bv) as [(at_ & bt & -> & ->)|[Hn ->]].
  - specialize (IH _ _ eq_refl eq_refl). unfold diff_value.
    destruct (getDiff at_ (JObject bt)); constructor; exact IH.
  - destruct (matchesValue av bv) eqn:Hm; [|by apply merge_replaces].
    apply present_jequiv. by apply matches_jequiv.
Qed.

Lemma merge_diff b : ∀ a,
  jwf (JObject a) → jwf b → (∃ d, b = JObject d) → jequiv (merge (JObject a) (JObject (getDiff a b))) b.
Proof.
  induction b as [| | | | |d IH] using JSON_ind; intros a Ha Hb [d0 Hd0]; try done. clear d0 Hd0.
  rewrite merge_obj. apply je_obj. intros k. pose proof Ha as [Hna _]%jwf_obj. pose proof Hb as [Hnb _]%jwf_obj.
  unfold field. rewrite get_merge_docs, get_diff by (try apply keys_diff; done).
  destruct (get k a) as [av|] eqn:Hka, (get k d) as [bv|] eqn:Hkd; try (by constructor).
  - apply merge_diff_value; [by apply (jwf_get _ _ _ Hb Hkd)|]. intros at_ bt -> ->.
    rewrite Forall_forall in IH. apply (IH _ (get_Some_elem _ _ _ Hkd)); [| |by eexists].
    + apply (jwf_get _ _ _ Ha Hka).
    + apply (jwf_get _ _ _ Hb Hkd).
  - pose proof (jwf_get _ _ _ Hb Hkd) as Hbv. pose proof (prune_jequiv bv Hbv).
    destruct bv; constructor; done.
Qed.

(** C18: a merge patch made from two documents, applied to the first, gives the
    second: for every two documents without duplicate fields, the document
    [MergePatch] makes of the first has, at every depth, the fields of the
    second with the same values, where a null field counts as absent. *)
Theorem merge_patch_roundtrip (a b : Doc) :
  jwf (JObject a) → jwf (JObject b) →
  jequiv (MergePatch (JObject a) (CreateMergePatch (JObject a) (JObject b))) (JObject b).
Proof. intros Ha Hb. apply merge_diff; [done..|by eexists]. Qed.

Lemma merge_patch_roundtrip_witness :
  let a := [("driver", JString "google"); ("tags", JArray [JNull; JNumber 1]); ("meta", JObject [("a", JBool true); ("b", JNull)])] in
  let b := [("tags", JArray [JNumber 1]); ("meta", JObject [("b", JString "x")]); ("phase", JNull)] in
  jequiv (MergePatch (JObject a) (CreateMergePatch (JObject a) (JObject b))) (JObject b).
Proof.
  intros a b. apply (merge_patch_roundtrip a b); apply jwf_obj; (split; [apply (bool_decide_unpack _); vm_compute; exact I|]);
    repeat constructor; apply (bool_decide_unpack _); vm_compute; exact I.
Defined.

(** ** A patch carries the changes only *)

Lemma matches_obj_intro a b :
  length b = length a → Forall (λ f, ∃ av, get f.1 a = Some av ∧ matchesValue av f.2 = true) b →
  matchesValue (JObject a) (JObject b) = true.
Proof.
  intros Hlen Hb. simpl. rewrite bool_decide_eq_true_2 by done. simpl. clear Hlen.
  induction Hb as [|[k v] b (av & Hk & Hm) _ IH]; [done|]. simpl in *. by rewrite Hk, Hm.
Qed.

Lemma matches_refl j : jwf j → matchesValue j j = true.
Proof.
  induction j as [| | | |l IH|d IH] using JSON_ind; intros Hwf; try done; try (by apply bool_decide_eq_true).
  - apply jwf_arr in Hwf. simpl. rewrite bool_decide_eq_true_2 by done. simpl.
    induction IH; inversion Hwf; subst; simpl; [done|]. apply andb_true_iff. auto.
  - pose proof Hwf as [Hnd _]%jwf_obj. apply matches_obj_intro; [done|]. rewrite Forall_forall in *.
    intros [k v] Hin. apply get_elem in Hin as Hk; [|done]. exists v. split; [done|].
    apply (IH _ Hin). by eapply jwf_get.
Qed.

Lemma no_fields d : (∀ k, get k d = None) → d = [].
Proof.
  destruct d as [|[k v] d]; [done|]. intros Hd. specialize (Hd k). simpl in Hd. by rewrite decide_True in Hd.
Qed.

Lemma diff_value_refl j : jwf j → diff_value j j = None.
Proof.
  induction j as [| | | | |d IH] using JSON_ind; intros Hwf;
    try (unfold diff_value; by rewrite matches_refl).
  unfold diff_value. rewrite (no_fields (getDiff d (JObject d))); [done|]. intros k.
  pose proof Hwf as [Hnd _]%jwf_obj. rewrite get_diff by done. destruct (get k d) as [v|] eqn:Hk; [|done].
  rewrite Forall_forall in IH. apply (IH (k, v)); [by apply get_Some_elem|by eapply jwf_get].
Qed.

(** The patch from [a] to a document that differs in the field [k] only, on
    any document [s]. *)
Lemma get_merge_update (s a b : Doc) k k' :
  jwf (JObject a) → NoDup (keys b) → (∀ k', k ≠ k' → get k' b = get k' a) →
  get k' (merge_docs s (getDiff a (JObject b))) =
    if decide (k = k') then merge_field (get k s) (diff_field (get k a) (get k b)) else get k' s.
Proof.
  intros Ha Hb Hk. pose proof Ha as [Hna _]%jwf_obj.
  rewrite get_merge_docs, get_diff by (try apply keys_diff; done). case_decide as Hkk; [by subst|].
  rewrite Hk by done. destruct (get k' a) as [v|] eqn:Hv; [|done]. simpl.
  by rewrite diff_value_refl by (by eapply jwf_get).
Qed.
