(* ===== verification/PatchRace.v ===== *)
(** * Patches of a machine another client changes

    [CreateOrPatch] reads the machine, changes its copy and sends the
    difference as a merge patch ([MergeFrom], which carries no resource
    version).  The server applies the patch to the version it has by then.
    Here the machine is encoded as its JSON tags say, and the two
    transformations the operator hands to [CreateOrPatch] are followed through
    the patch: an annotation is set on whatever the server has; the
    finalizers, a JSON array, are replaced as a whole. *)

From S2P Require Import Prelude Types Kube Json JsonFacts.

(** ** Encoding *)

(** The fields of a struct; [None] for a field that [omitempty] leaves out. *)
Abbreviation Fields := (list (string * option JSON)).

Definition struct (fs : Fields) : Doc := omap (λ f, pair f.1 <$> f.2) fs.

Definition omit_if (b : bool) (j : JSON) : option JSON := if b then None else Some j.
Definition omit_string (s : string) : option JSON := omit_if (str_empty s) (JString s).
Definition omit_int (z : Z) : option JSON := omit_if (bool_decide (z = 0)) (JNumber z).
Definition pointer {A} (enc : A → JSON) (p : option A) : JSON := from_option enc JNull p.

Definition encode_map (m : gmap string string) : Doc := (λ f, (f.1, JString f.2)) <$> map_to_list m.
Definition encode_strings (l : list string) : JSON := JArray (JString <$> l).

(** [Finalizers] and [Annotations] are [omitempty]. *)
Definition encode_finalizers (l : list string) : option JSON :=
  omit_if (bool_decide (l = [])) (encode_strings l).
Definition encode_annotations (a : option (gmap string string)) : option JSON :=
  omit_if (bool_decide (default ∅ a = ∅)) (JObject (encode_map (default ∅ a))).

Section Encode.
Context (rfc3339 : Z → string).

(** [metav1.Time]: the zero time is null. *)
Definition encode_Time (t : Z) : JSON :=
  if bool_decide (t = 0) then JNull else JString (rfc3339 t).

(** [more] are the fields of the metadata that the model of [ObjectMeta] does
    not have (labels, owners, uid, ...). *)
Definition ObjectMeta_fields (more : Doc) (om : ObjectMeta) : Fields :=
  [ ("name", omit_string (Name om));
    ("namespace", omit_string (Namespace om));
    ("resourceVersion", omit_string (ResourceVersion om));
    ("generation", omit_int (Generation om));
    ("deletionTimestamp", encode_Time <$> DeletionTimestamp om);
    ("annotations", encode_annotations (Annotations om));
    ("finalizers", encode_finalizers (Finalizers om)) ]
  ++ ((λ f, (f.1, Some f.2)) <$> more).

Definition encode_ObjectMeta (more : Doc) (om : ObjectMeta) : Doc := struct (ObjectMeta_fields more om).

Definition encode_Driver (r : LocalObjectReference) : JSON :=
  JObject (struct [("name", omit_string (lor_Name r))]).
Definition encode_ObjectReference (r : ObjectReference) : JSON :=
  JObject (struct [("namespace", omit_string (ref_Namespace r)); ("name", Some (JString (ref_Name r)))]).

Definition encode_Condition (c : Condition) : JSON :=
  JObject (struct
    [ ("type", Some (JString (c_Type c)));
      ("status", Some (JString (c_Status c)));
      ("observedGeneration", omit_int (c_ObservedGeneration c));
      ("severity", omit_string (c_Severity c));
      ("lastTransitionTime", Some (encode_Time (c_LastTransitionTime c)));
      ("reason", omit_string (c_Reason c));
      ("message", omit_string (c_Message c)) ]).

(** Nil and empty slices and maps, which the model of the types does not tell
    apart, are encoded as nil ones. *)
Definition encode_Spec (sp : MachineSpec) : JSON :=
  JObject (struct
    [ ("driver", Some (pointer encode_Driver (Driver sp)));
      ("scriptRef", Some (pointer encode_ObjectReference (ScriptRef sp)));
      ("authSecret", Some (pointer encode_ObjectReference (AuthSecret sp)));
      ("parameters", Some (if bool_decide (Parameters sp = ∅) then JNull
                           else JObject (encode_map (Parameters sp)))) ]).

Definition encode_Status (st : MachineStatus) : JSON :=
  JObject (struct
    [ ("conditions", Some (if bool_decide (Conditions st = []) then JNull
                           else JArray (encode_Condition <$> Conditions st)));
      ("phase", Some (JString (Phase st))) ]).

Definition Machine_fields (more : Doc) (m : Machine) : Fields :=
  [ ("kind", omit_string (Kind (TypeMetaOf m)));
    ("apiVersion", omit_string (APIVersion (TypeMetaOf m)));
    ("metadata", Some (JObject (encode_ObjectMeta more (Meta m))));
    ("spec", Some (encode_Spec (Spec m)));
    ("status", Some (encode_Status (Status m))) ].

Definition encode_Machine (more : Doc) (m : Machine) : Doc := struct (Machine_fields more m).

(** [mergeFromPatch.Data] without the optimistic lock, for two objects with
    their further metadata. *)
Definition merge_from_data (more_from : Doc) (from : Machine) (more : Doc) (obj : Machine) : JSON :=
  CreateMergePatch (JObject (encode_Machine more_from from)) (JObject (encode_Machine more obj)).

(** The further metadata has names and values of its own. *)
Definition ObjectMeta_names : list string :=
  ["name"; "namespace"; "resourceVersion"; "generation"; "deletionTimestamp"; "annotations"; "finalizers"].
Definition more_ok (more : Doc) : Prop :=
  NoDup (ObjectMeta_names ++ keys more) ∧ Forall (λ f, jwf f.2) more.

(** ** Reading an encoded struct *)

Fixpoint assoc (k : string) (fs : Fields) : option JSON :=
  match fs with
  | [] => None
  | (k', o) :: fs => if decide (k' = k) then o else assoc k fs
  end.

Lemma keys_struct fs : keys (struct fs) `sublist_of` fs.*1.
Proof.
  induction fs as [|[k [j|]] fs IH]; simpl; [constructor|by apply sublist_skip|by apply sublist_cons].
Qed.

Lemma get_struct k fs : NoDup fs.*1 → get k (struct fs) = assoc k fs.
Proof.
  induction fs as [|[k' o] fs IH]; simpl; [done|]. intros [Hk Hnd]%NoDup_cons.
  destruct o as [j|]; simpl; case_decide as Hkk; auto.
  subst. apply get_None. intros Hin. apply Hk. eapply elem_of_sublist; [exact Hin|apply keys_struct].
Qed.

Lemma jwf_struct fs :
  NoDup fs.*1 → Forall (λ f, ∀ j, f.2 = Some j → jwf j) fs → jwf (JObject (struct fs)).
Proof.
  intros Hnd Hfs. apply jwf_obj. split; [eapply sublist_NoDup; [done|apply keys_struct]|].
  clear Hnd. induction Hfs as [|[k [j|]] fs Hj _ IH]; simpl; [constructor| |done].
  constructor; [by apply Hj|done].
Qed.

Lemma get_encode_map k m : get k (encode_map m) = JString <$> m !! k.
Proof.
  destruct (m !! k) as [v|] eqn:Hk; simpl.
  - apply get_elem; [unfold keys, encode_map; rewrite <- list_fmap_compose; apply NoDup_fst_map_to_list|].
    apply list_elem_of_fmap. exists (k, v). split; [done|]. by apply elem_of_map_to_list.
  - apply get_None. unfold keys, encode_map. rewrite <- list_fmap_compose.
    intros ([k' v] & -> & Hin)%list_elem_of_fmap. apply elem_of_map_to_list in Hin. simpl in *. congruence.
Qed.

(** ** Encodings have no field twice *)

Lemma jwf_map m : jwf (JObject (encode_map m)).
Proof.
  apply jwf_obj. split.
  - unfold keys, encode_map. rewrite <- list_fmap_compose. apply NoDup_fst_map_to_list.
  - apply Forall_forall. intros f (f' & -> & _)%list_elem_of_fmap. done.
Qed.

Lemma jwf_strings l : jwf (encode_strings l).
Proof. apply jwf_arr, Forall_fmap, Forall_true. done. Qed.

Lemma omit_if_Some b j v : omit_if b j = Some v → v = j.
Proof. destruct b; by intros [=]. Qed.

Lemma jwf_Time t : jwf (encode_Time t).
Proof. unfold encode_Time. by case_match. Qed.

(** Goals [jwf (JObject (struct fs))] with the names written out. *)
Ltac wf_struct :=
  apply jwf_struct; [apply (bool_decide_unpack _); vm_compute; exact I|];
  repeat (apply Forall_cons; split); try apply Forall_nil_2;
  intros j Hj; simpl in Hj; try (apply omit_if_Some in Hj); simplify_eq;
  try exact I; eauto using jwf_Time, jwf_map, jwf_strings.

Lemma jwf_ref r : jwf (encode_ObjectReference r).
Proof. unfold encode_ObjectReference. wf_struct. Qed.

Lemma jwf_Driver r : jwf (encode_Driver r).
Proof. unfold encode_Driver. wf_struct. Qed.

Lemma jwf_Condition c : jwf (encode_Condition c).
Proof. unfold encode_Condition. wf_struct. Qed.

Lemma jwf_pointer {A} (enc : A → JSON) p : (∀ a, jwf (enc a)) → jwf (pointer enc p).
Proof. intros He. destruct p; [apply He|exact I]. Qed.

Lemma jwf_Spec sp : jwf (encode_Spec sp).
Proof.
  unfold encode_Spec. wf_struct; try (apply jwf_pointer; auto using jwf_ref, jwf_Driver).
  case_match; [done|apply jwf_map].
Qed.

Lemma jwf_Status st : jwf (encode_Status st).
Proof.
  unfold encode_Status. wf_struct. case_match; [done|].
  apply jwf_arr, Forall_fmap, Forall_true. intros c. apply jwf_Condition.
Qed.

Lemma more_names more om : (ObjectMeta_fields more om).*1 = ObjectMeta_names ++ keys more.
Proof. unfold ObjectMeta_fields. rewrite fmap_app, <- list_fmap_compose. done. Qed.

Lemma jwf_ObjectMeta more om : more_ok more → jwf (JObject (encode_ObjectMeta more om)).
Proof.
  intros [Hnd Hmore]. apply jwf_struct; [by rewrite more_names|]. apply Forall_app. split.
  - repeat (apply Forall_cons; split); try apply Forall_nil_2; intros j Hj; simpl in Hj;
      try (apply omit_if_Some in Hj as ->; try exact I; auto using jwf_map, jwf_strings).
    apply fmap_Some in Hj as (t & _ & ->). apply jwf_Time.
  - apply Forall_fmap. eapply Forall_impl; [done|]. intros [k v] Hv j [= <-]. exact Hv.
Qed.

Lemma Machine_fields_nodup more m : NoDup (Machine_fields more m).*1.
Proof. apply (bool_decide_unpack _). vm_compute. exact I. Qed.

Lemma jwf_Machine more m : more_ok more → jwf (JObject (encode_Machine more m)).
Proof.
  intros Hmore. apply jwf_struct; [apply Machine_fields_nodup|].
  repeat (apply Forall_cons; split); try apply Forall_nil_2; intros j Hj; simpl in Hj;
    try (apply omit_if_Some in Hj); simplify_eq; try exact I; auto using jwf_ObjectMeta, jwf_Spec, jwf_Status.
Qed.

Lemma get_Machine k more m : get k (encode_Machine more m) = assoc k (Machine_fields more m).
Proof. apply get_struct, Machine_fields_nodup. Qed.

Lemma get_ObjectMeta k more om :
  more_ok more → get k (encode_ObjectMeta more om) = assoc k (ObjectMeta_fields more om).
Proof. intros [Hnd _]. apply get_struct. by rewrite more_names. Qed.

(** ** Patches of the metadata *)

Lemma merge_into s a b :
  merge_field (Some (JObject s)) (diff_value (JObject a) (JObject b)) =
    Some (JObject (merge_docs s (getDiff a (JObject b)))).
Proof. unfold diff_value. by destruct (getDiff a (JObject b)). Qed.

(** A patch between two versions that differ in the metadata gives the stored
    machine with its metadata patched. *)
Lemma patch_metadata more more' cur stored om om' :
  more_ok more →
  (∀ k, option_Forall2 jequiv
          (present (get k (merge_docs (encode_ObjectMeta more' (Meta stored))
                             (getDiff (encode_ObjectMeta more (Meta cur)) (JObject (encode_ObjectMeta more om))))))
          (field k (encode_ObjectMeta more' om'))) →
  jequiv (MergePatch (JObject (encode_Machine more' stored)) (merge_from_data more cur more (set_Meta cur om)))
         (JObject (encode_Machine more' (set_Meta stored om'))).
Proof.
  intros Hmore Hmeta. unfold MergePatch, merge_from_data, CreateMergePatch. rewrite merge_obj.
  apply je_obj. intros k. unfold field.
  rewrite (get_merge_update _ _ _ "metadata"), !get_Machine.
  - case_decide as Hk.
    + subst k. change (diff_field _ _) with
        (diff_value (JObject (encode_ObjectMeta more (Meta cur))) (JObject (encode_ObjectMeta more om))).
      change (assoc "metadata" (Machine_fields more' stored)) with
        (Some (JObject (encode_ObjectMeta more' (Meta stored)))).
      rewrite merge_into. constructor. by apply je_obj.
    + simpl. repeat case_decide; try done; apply option_jequiv_refl.
  - by apply jwf_Machine.
  - eapply sublist_NoDup; [apply Machine_fields_nodup|apply keys_struct].
  - intros k' Hk. rewrite !get_Machine. simpl. repeat case_decide; done.
Qed.

(** The same when the versions differ in one field of the metadata. *)
Lemma patch_metadata_field k0 more more' cur stored om om' :
  more_ok more → more_ok more' →
  (∀ k, k0 ≠ k → assoc k (ObjectMeta_fields more om) = assoc k (ObjectMeta_fields more (Meta cur))) →
  (∀ k, k0 ≠ k → assoc k (ObjectMeta_fields more' (Meta stored)) = assoc k (ObjectMeta_fields more' om')) →
  option_Forall2 jequiv
    (present (merge_field (assoc k0 (ObjectMeta_fields more' (Meta stored)))
                (diff_field (assoc k0 (ObjectMeta_fields more (Meta cur)))
                            (assoc k0 (ObjectMeta_fields more om)))))
    (present (assoc k0 (ObjectMeta_fields more' om'))) →
  jequiv (MergePatch (JObject (encode_Machine more' stored)) (merge_from_data more cur more (set_Meta cur om)))
         (JObject (encode_Machine more' (set_Meta stored om'))).
Proof.
  intros Hmore Hmore' Hsame Hsame' Hk0. apply patch_metadata; [done|]. intros k. unfold field.
  rewrite (get_merge_update _ _ _ k0), !get_ObjectMeta by
    (try apply (jwf_ObjectMeta more); try apply (proj1 (jwf_obj _) (jwf_ObjectMeta more _ Hmore));
     intros; rewrite ?get_ObjectMeta; auto).
  case_decide as Hk; [by subst k|]. rewrite Hsame' by done. apply option_jequiv_refl.
Qed.

(** Goals [assoc k fs = assoc k fs'] where the fields but one are the same. *)
Ltac same_fields := intros ? ?; simpl; repeat case_decide; done.

(** *** Finalizers *)

Lemma matches_strings l1 l2 : matchesValue (encode_strings l1) (encode_strings l2) = bool_decide (l1 = l2).
Proof.
  destruct (decide (l1 = l2)) as [->|Hne].
  - rewrite bool_decide_eq_true_2 by done. apply matches_refl, jwf_strings.
  - rewrite bool_decide_eq_false_2 by done. apply not_true_is_false. intros Hm. apply Hne. clear Hne.
    simpl in Hm. apply andb_true_iff in Hm as [Hlen%bool_decide_eq_true Hgo]. revert l2 Hlen Hgo.
    induction l1 as [|x l1 IH]; intros [|y l2] Hlen Hgo; simplify_eq/=; [done|].
    apply andb_true_iff in Hgo as [->%bool_decide_eq_true Hgo]. f_equal. by apply IH.
Qed.

Lemma prune_strings l : pruneNulls (encode_strings l) = encode_strings l.
Proof. simpl. unfold encode_strings. f_equal. rewrite <- list_fmap_compose. done. Qed.

Lemma merge_finalizers s a b :
  merge_field (encode_finalizers s) (diff_field (encode_finalizers a) (encode_finalizers b)) =
    encode_finalizers (if decide (b = a) then s else b).
Proof.
  unfold encode_finalizers, omit_if.
  destruct (decide (b = a)) as [->|Hne].
  - destruct (bool_decide (a = [])); [done|].
    change (diff_field (Some ?x) (Some ?y)) with (diff_value x y). by rewrite diff_value_refl by apply jwf_strings.
  - destruct (bool_decide_reflect (a = [])) as [->|Ha], (bool_decide_reflect (b = [])) as [->|Hb]; try done.
    + destruct (bool_decide (s = [])); simpl; by rewrite <- list_fmap_compose.
    + change (diff_field (Some ?x) (Some ?y)) with (if matchesValue x y then None else Some y).
      rewrite matches_strings, (bool_decide_eq_false_2 (a = b)) by (intros ->; done).
      destruct (bool_decide (s = [])); simpl; by rewrite <- list_fmap_compose.
Qed.

(** [finalizer_transform] changes the finalizers only. *)
Lemma finalizer_transform_meta verb f m :
  finalizer_transform verb f m =
    set_Meta m (set_Finalizers (Meta m) (Finalizers (Meta (finalizer_transform verb f m)))).
Proof.
  unfold finalizer_transform, AddFinalizer. repeat case_decide; [case_match|..]; by destruct m as [? []].
Qed.

(** *** Annotations *)

Lemma keys_encode_map m : NoDup (keys (encode_map m)).
Proof. apply (proj1 (jwf_obj _) (jwf_map m)). Qed.

Lemma getDiff_nil b : getDiff [] (JObject b) = b.
Proof.
  rewrite getDiff_loops. unfold diff_loop, deleted. simpl. rewrite app_nil_r.
  induction b as [|[k v] b IH]; [done|]. simpl. f_equal. exact IH.
Qed.

(** Setting a new object is merging into an empty one. *)
Lemma prune_merge p : NoDup (keys p) → jequiv (pruneNulls (JObject p)) (JObject (merge_docs [] p)).
Proof.
  intros Hp. rewrite pruneNulls_obj. apply je_obj. intros k. unfold field.
  rewrite get_omap, get_merge_docs by done. destruct (get k p) as [[]|]; apply option_jequiv_refl.
Qed.

Lemma merge_annotations_into s p :
  NoDup (keys p) →
  option_Forall2 jequiv (present (merge_field (encode_annotations s) (Some (JObject p))))
    (Some (JObject (merge_docs (encode_map (default ∅ s)) p))).
Proof.
  intros Hp. unfold encode_annotations, omit_if. case_bool_decide as Hs; constructor; [|reflexivity].
  rewrite Hs. unfold encode_map. rewrite map_to_list_empty. by apply prune_merge.
Qed.

Lemma diff_annotations a b :
  b ≠ default ∅ a → b ≠ ∅ →
  diff_field (encode_annotations a) (encode_annotations (Some b)) =
    Some (JObject (getDiff (encode_map (default ∅ a)) (JObject (encode_map b)))).
Proof.
  intros Hne Hb. unfold encode_annotations, omit_if. simpl default.
  rewrite (bool_decide_eq_false_2 (b = ∅)) by done. case_bool_decide as Ha.
  - rewrite Ha. unfold encode_map at 2. rewrite map_to_list_empty. simpl fmap. by rewrite getDiff_nil.
  - change (diff_field (Some ?x) (Some ?y)) with (diff_value x y). unfold diff_value.
    destruct (getDiff _ _) eqn:Hd; [|done]. exfalso. apply Hne. apply map_eq. intros k.
    pose proof (get_diff _ _ k (keys_encode_map (default ∅ a)) (keys_encode_map b)) as Hk.
    rewrite Hd in Hk. change (get k []) with (@None JSON) in Hk. rewrite !get_encode_map in Hk.
    destruct (default ∅ a !! k) as [v|], (b !! k) as [v'|]; try done.
    unfold diff_field, diff_value in Hk. simpl in Hk. case_bool_decide; congruence.
Qed.

Lemma merge_annotations s a k v :
  option_Forall2 jequiv
    (present (merge_field (encode_annotations s)
                (diff_field (encode_annotations a) (encode_annotations (Some (<[k:=v]> (default ∅ a)))))))
    (present (encode_annotations (if decide (default ∅ a !! k = Some v) then s
                                  else Some (<[k:=v]> (default ∅ s))))).
Proof.
  case_decide as Hv.
  - rewrite insert_id by done. replace (encode_annotations (Some (default ∅ a))) with (encode_annotations a) by done.
    assert (diff_field (encode_annotations a) (encode_annotations a) = None) as ->; [|apply option_jequiv_refl].
    unfold encode_annotations, omit_if. case_match; [done|]. apply diff_value_refl, jwf_map.
  - rewrite diff_annotations by (try apply insert_non_empty; intros Heq; apply Hv; by rewrite <- Heq, lookup_insert_eq).
    etrans; [apply merge_annotations_into, keys_diff; apply keys_encode_map|].
    unfold encode_annotations. simpl default. rewrite bool_decide_eq_false_2 by apply insert_non_empty.
    constructor. apply je_obj. intros k'. unfold field.
    rewrite (get_merge_update _ _ _ k); [|apply jwf_map|apply keys_encode_map|].
    + rewrite !get_encode_map. case_decide as Hk; [subst k'|by rewrite lookup_insert_ne; [apply option_jequiv_refl|]].
      rewrite !lookup_insert_eq. destruct (default ∅ a !! k) as [v'|]; simpl.
      * rewrite bool_decide_eq_false_2 by congruence.
        destruct (default ∅ s !! k); simpl; constructor; reflexivity.
      * destruct (default ∅ s !! k); simpl; constructor; reflexivity.
    + intros k1 Hk. by rewrite !get_encode_map, lookup_insert_ne.
Qed.

(** *** The operator's two patches *)

(** C16: setting an annotation is safe against other writers: the merge patch
    [patchAnnotation] sends for the version it has read, applied to whatever
    version the server has stored meanwhile, sets that one annotation there
    and changes nothing else of the stored machine: its other annotations,
    finalizers, labels, spec and status are kept.  When the version read has
    the annotation with the value already, nothing is sent and nothing
    changes, so that an annotation removed meanwhile is not restored. *)
Theorem annotation_patch_is_current more more' key value cur stored :
  more_ok more → more_ok more' →
  jequiv (MergePatch (JObject (encode_Machine more' stored))
            (merge_from_data more cur more (annotation_transform key value cur)))
         (JObject (encode_Machine more'
            (if decide (default ∅ (Annotations (Meta cur)) !! key = Some value) then stored
             else annotation_transform key value stored))).
Proof.
  intros Hmore Hmore'.
  set (om' := set_Annotations (Meta stored)
                (if decide (default ∅ (Annotations (Meta cur)) !! key = Some value) then Annotations (Meta stored)
                 else Some (<[key := value]> (default ∅ (Annotations (Meta stored)))))).
  replace (if decide _ then stored else _) with (set_Meta stored om')
    by (subst om'; case_decide; [by destruct stored as [? []]|done]).
  apply (patch_metadata_field "annotations"); try done; [same_fields|same_fields|].
  apply merge_annotations.
Qed.

(** C34: a finalizer patch is not: when [patchFinalizer] changes the version it
    has read, the finalizers of the stored machine become exactly those of the
    changed copy, so that a finalizer another client added (or removed)
    between the operator's read and its patch is undone; everything else of
    the stored machine is kept. *)
Theorem finalizer_patch_overwrites more more' verb f cur stored :
  more_ok more → more_ok more' →
  Finalizers (Meta (finalizer_transform verb f cur)) ≠ Finalizers (Meta cur) →
  jequiv (MergePatch (JObject (encode_Machine more' stored))
            (merge_from_data more cur more (finalizer_transform verb f cur)))
         (JObject (encode_Machine more'
            (set_Meta stored (set_Finalizers (Meta stored)
               (Finalizers (Meta (finalizer_transform verb f cur))))))).
Proof.
  intros Hmore Hmore' Hne. rewrite (finalizer_transform_meta verb f cur) at 1.
  apply (patch_metadata_field "finalizers"); try done; [same_fields|same_fields|].
  change (assoc "finalizers" _) with (encode_finalizers (Finalizers (Meta stored))) at 1.
  simpl assoc. rewrite merge_finalizers, decide_False by done. apply option_jequiv_refl.
Qed.
End Encode.

(** ** The theorems at work *)

(** A machine the operator has read, and the version another client has
    stored by the time the patch arrives. *)
Definition race_read : Machine :=
  {| TypeMetaOf := {| Kind := "Machine"; APIVersion := "docker-machine.klusters.dev/v1alpha1" |};
     Meta := {| Name := "m"; Namespace := "ns"; ResourceVersion := "7"; Generation := 1;
                DeletionTimestamp := None; Finalizers := []; Annotations := Some {["team" := "a"]} |};
     Spec := {| Driver := Some {| lor_Name := "google" |}; ScriptRef := None; AuthSecret := None;
                Parameters := {["zone" := "b"]} |};
     Status := {| Conditions := []; Phase := "" |} |}.

Definition race_stored : Machine :=
  set_Meta race_read
    {| Name := "m"; Namespace := "ns"; ResourceVersion := "8"; Generation := 1;
       DeletionTimestamp := None; Finalizers := ["backup.example.com"];
       Annotations := Some {["owner" := "x"]} |}.

Definition race_more : Doc := [("creationTimestamp", JNull); ("uid", JString "u")].
Definition race_labelled : Doc := ("labels", JObject [("tier", JString "db")]) :: race_more.

Lemma race_more_ok : more_ok race_more ∧ more_ok race_labelled.
Proof.
  assert (NoDup (ObjectMeta_names ++ keys race_labelled)) as Hnd
    by (apply (bool_decide_unpack _); vm_compute; exact I).
  split; split; try exact Hnd.
  - eapply sublist_NoDup; [exact Hnd|]. apply sublist_app; [done|]. apply sublist_cons. done.
  - repeat constructor.
  - repeat constructor. set_solver.
Qed.

Lemma annotation_patch_is_current_witness :
  jequiv (MergePatch (JObject (encode_Machine (λ _, "") race_labelled race_stored))
            (merge_from_data (λ _, "") race_more race_read race_more (annotation_transform "vpc" "v-1" race_read)))
         (JObject (encode_Machine (λ _, "") race_labelled
            (set_Meta race_stored (set_Annotations (Meta race_stored)
               (Some (<["vpc" := "v-1"]> {["owner" := "x"]})))))).
Proof.
  destruct race_more_ok. apply (annotation_patch_is_current (λ _, "") race_more race_labelled "vpc" "v-1" race_read race_stored);
    assumption.
Defined.

Lemma finalizer_patch_overwrites_witness :
  jequiv (MergePatch (JObject (encode_Machine (λ _, "") race_labelled race_stored))
            (merge_from_data (λ _, "") race_more race_read race_more (finalizer_transform VerbCreated GetFinalizer race_read)))
         (JObject (encode_Machine (λ _, "") race_labelled
            (set_Meta race_stored (set_Finalizers (Meta race_stored) [GetFinalizer])))).
Proof.
  destruct race_more_ok.
  apply (finalizer_patch_overwrites (λ _, "") race_more race_labelled VerbCreated GetFinalizer race_read race_stored);
    [assumption..|vm_compute; discriminate].
Defined.
