(* ===== verification/StatusPatch.v ===== *)
(** * The patch of a status

    The status committer compares two statuses and, when they differ, sends
    the difference of the two whole objects, the one that was just read (from
    a cache that may be out of date) and the receiver's.  The server merges it
    into what it has stored.  Here the outcome of that merge is followed: which
    version it carries, which the server takes as a condition, and which status,
    field by field.  The list of conditions and the phase are merged
    independently of each other. *)

From S2P Require Import Prelude Types Effects Kube Cooperation Json JsonFacts PatchRace.

(** The field [k2] of the object in the field [k1]. *)
Definition path (k1 k2 : string) (d : Doc) : option JSON :=
  match get k1 d with Some (JObject d1) => get k2 d1 | _ => None end.

Definition doc_version (d : Doc) : option JSON := path "metadata" "resourceVersion" d.

(** ** What the patch makes of a stored machine *)

Section StatusPatch.
Context (rfc3339 : Z → string).
Implicit Types (stored old obj : Machine) (more : Doc).

Abbreviation encode := (encode_Machine rfc3339).
Abbreviation data := (merge_from_data rfc3339).

(** The field [conditions] of a status. *)
Definition encode_conditions (cs : list Condition) : JSON :=
  if bool_decide (cs = []) then JNull else JArray (encode_Condition rfc3339 <$> cs).

Definition status_doc (st : MachineStatus) : Doc :=
  struct [("conditions", Some (encode_conditions (Conditions st))); ("phase", Some (JString (Phase st)))].

Lemma encode_Status_doc st : encode_Status rfc3339 st = JObject (status_doc st).
Proof. done. Qed.

(** The outcome, by fields. *)
Lemma get_outcome more_s stored more_o old more obj k :
  more_ok more_o → more_ok more →
  get k (merge_docs (encode more_s stored) (getDiff (encode more_o old) (JObject (encode more obj)))) =
    merge_field (get k (encode more_s stored)) (diff_field (get k (encode more_o old)) (get k (encode more obj))).
Proof.
  intros Ho Hb. pose proof (jwf_Machine rfc3339 more_o old Ho) as [Hno _]%jwf_obj.
  pose proof (jwf_Machine rfc3339 more obj Hb) as [Hnb _]%jwf_obj.
  by rewrite get_merge_docs, get_diff by (try apply keys_diff; done).
Qed.

Lemma version_field more m :
  more_ok more → get "resourceVersion" (encode_ObjectMeta rfc3339 more (Meta m)) = omit_string (version m).
Proof. intros Hm. by rewrite get_ObjectMeta. Qed.

Lemma doc_version_encode more m : more_ok more → doc_version (encode more m) = omit_string (version m).
Proof. intros Hm. unfold doc_version, path. rewrite get_Machine. by apply version_field. Qed.

Lemma omit_string_Some v : v ≠ "" → omit_string v = Some (JString v).
Proof. intros Hv. unfold omit_string, omit_if, str_empty. by rewrite bool_decide_eq_false_2. Qed.

(** The version in the outcome: the receiver's if the patch carries it. *)
Lemma outcome_version more_s stored more_o old more obj :
  more_ok more_s → more_ok more_o → more_ok more → version stored ≠ "" → version old ≠ "" → version obj ≠ "" →
  doc_version (merge_docs (encode more_s stored) (getDiff (encode more_o old) (JObject (encode more obj)))) =
    Some (JString (if decide (version obj = version old) then version stored else version obj)).
Proof.
  intros Hs Ho Hb Hvs Hvo Hvb. unfold doc_version, path. rewrite get_outcome, !get_Machine by done.
  change (diff_field _ _) with (diff_value (JObject (encode_ObjectMeta rfc3339 more_o (Meta old)))
    (JObject (encode_ObjectMeta rfc3339 more (Meta obj)))).
  change (assoc "metadata" _) with (Some (JObject (encode_ObjectMeta rfc3339 more_s (Meta stored)))).
  rewrite merge_into.
  pose proof (jwf_ObjectMeta rfc3339 more_o (Meta old) Ho) as [Hno _]%jwf_obj.
  pose proof (jwf_ObjectMeta rfc3339 more (Meta obj) Hb) as [Hnb _]%jwf_obj.
  rewrite get_merge_docs, get_diff, !version_field, !omit_string_Some by (try apply keys_diff; done).
  simpl. case_decide as Heq; [by rewrite Heq, bool_decide_eq_true_2|].
  by rewrite bool_decide_eq_false_2 by congruence.
Qed.

(** A field that is not an object on either side is left alone or replaced. *)
Lemma merge_plain s a b :
  jwf b → (∀ d, b ≠ JObject d) →
  option_Forall2 jequiv (present (merge_field (Some s) (diff_value a b)))
    (present (Some (if matchesValue a b then s else b))).
Proof.
  intros Hb Hn. destruct (diff_value_cases a b) as [(at_ & bt & _ & ->)|[_ ->]]; [by destruct (Hn bt)|].
  destruct (matchesValue a b); [apply option_jequiv_refl|].
  apply merge_replaces; [done|]. intros (? & ? & _ & ->). by eapply Hn.
Qed.

Lemma jwf_conditions cs : jwf (encode_conditions cs).
Proof.
  unfold encode_conditions. case_match; [done|]. apply jwf_arr, Forall_fmap, Forall_true.
  intros c. apply jwf_Condition.
Qed.

Lemma conditions_plain cs d : encode_conditions cs ≠ JObject d.
Proof. unfold encode_conditions. by case_match. Qed.

(** The status in the outcome. *)
Lemma outcome_status more_s stored more_o old more obj :
  more_ok more_o → more_ok more →
  ∃ st, get "status" (merge_docs (encode more_s stored) (getDiff (encode more_o old) (JObject (encode more obj)))) =
          Some (JObject st) ∧
    (∀ k, get k st = merge_field (get k (status_doc (Status stored)))
                       (diff_field (get k (status_doc (Status old))) (get k (status_doc (Status obj))))).
Proof.
  intros Ho Hb. rewrite get_outcome, !get_Machine by done.
  pose proof (jwf_Status rfc3339 (Status old)) as [Hno _]%jwf_obj.
  pose proof (jwf_Status rfc3339 (Status obj)) as [Hnb _]%jwf_obj.
  change (assoc "status" (Machine_fields rfc3339 more_s stored)) with (Some (encode_Status rfc3339 (Status stored))).
  change (diff_field (assoc "status" _) _) with
    (diff_value (encode_Status rfc3339 (Status old)) (encode_Status rfc3339 (Status obj))).
  rewrite !encode_Status_doc.
  rewrite merge_into. eexists. split; [done|]. intros k.
  by rewrite get_merge_docs, get_diff by (try apply keys_diff; done).
Qed.

End StatusPatch.

(** ** The theorem at work *)

(** The machine as the cache has it, in progress; the receiver's, with the
    conditions of a creation that was started, in the same phase; and the
    machine that is stored, in phase [Success] already. *)
Definition pending (t : string) : Condition :=
  {| c_Type := t; c_Status := "False"; c_ObservedGeneration := 0; c_Severity := "Error";
     c_LastTransitionTime := 5; c_Reason := "MachineCreating"; c_Message := "" |}.

Definition stale_read : Machine := set_Phase race_read MachinePhaseInProgress.
Definition stale_receiver : Machine :=
  set_Status stale_read {| Conditions := [pending "MachineReady"]; Phase := MachinePhaseInProgress |}.
Definition stale_stored : Machine := set_Phase race_stored MachinePhaseSuccess.

