(* ===== verification/Decode.v ===== *)
(** * Reading a Machine back from JSON

    [json.Unmarshal] into the API structs: a field that is absent or null
    leaves the zero value, fields that are not known are ignored, a value of
    another type is an error.  Reading inverts the encoding of [PatchRace.v],
    and does not tell documents apart that are the same up to null fields. *)

From S2P Require Import Prelude Types Json JsonFacts PatchRace.

(** The text of a time, and its parsing. *)
Class TimeCodec := {
  format_time : Z → string;
  parse_time : string → option Z;
  parse_format : ∀ t t', parse_time (format_time t) = Some t' → t' = t
}.

(** ** Values

    The argument is a field that is not null, or nothing. *)

Definition d_string (o : option JSON) : option string :=
  match o with None => Some "" | Some (JString s) => Some s | _ => None end.

Definition d_int (o : option JSON) : option Z :=
  match o with None => Some 0 | Some (JNumber z) => Some z | _ => None end.

(** An element of an array or a map, which may be null. *)
Definition d_elem {A} (dec : option JSON → option A) (j : JSON) : option A := dec (present (Some j)).

Definition d_list {A} (dec : option JSON → option A) (o : option JSON) : option (list A) :=
  match o with None => Some [] | Some (JArray l) => mapM (d_elem dec) l | _ => None end.

Definition d_struct {A} (dec : Doc → option A) (o : option JSON) : option A :=
  match o with None => dec [] | Some (JObject d) => dec d | _ => None end.

Definition d_pointer {A} (dec : option JSON → option A) (o : option JSON) : option (option A) :=
  match o with None => Some None | Some j => Some <$> dec (Some j) end.

(** Here a null value is an empty string under its key. *)
Definition d_map (o : option JSON) : option (option (gmap string string)) :=
  match o with
  | None => Some None
  | Some (JObject d) => Some ∘ list_to_map <$> mapM (λ f, pair f.1 <$> d_elem d_string f.2) d
  | _ => None
  end.

Section Decode.
Context `{TC : TimeCodec}.

(** [metav1.Time] *)
Definition d_time (o : option JSON) : option Z :=
  match o with None => Some 0 | Some (JString s) => parse_time s | _ => None end.

Definition decode_Condition (d : Doc) : option Condition :=
  ty ← d_string (field "type" d);
  st ← d_string (field "status" d);
  g ← d_int (field "observedGeneration" d);
  sev ← d_string (field "severity" d);
  t ← d_time (field "lastTransitionTime" d);
  re ← d_string (field "reason" d);
  msg ← d_string (field "message" d);
  Some {| c_Type := ty; c_Status := st; c_ObservedGeneration := g; c_Severity := sev;
          c_LastTransitionTime := t; c_Reason := re; c_Message := msg |}.

Definition decode_Status (d : Doc) : option MachineStatus :=
  cs ← d_list (d_struct decode_Condition) (field "conditions" d);
  p ← d_string (field "phase" d);
  Some {| Conditions := cs; Phase := p |}.

Definition decode_Driver (d : Doc) : option LocalObjectReference :=
  n ← d_string (field "name" d); Some {| lor_Name := n |}.

Definition decode_ObjectReference (d : Doc) : option ObjectReference :=
  ns ← d_string (field "namespace" d);
  n ← d_string (field "name" d);
  Some {| ref_Namespace := ns; ref_Name := n |}.

Definition decode_Spec (d : Doc) : option MachineSpec :=
  dr ← d_pointer (d_struct decode_Driver) (field "driver" d);
  sc ← d_pointer (d_struct decode_ObjectReference) (field "scriptRef" d);
  au ← d_pointer (d_struct decode_ObjectReference) (field "authSecret" d);
  ps ← d_map (field "parameters" d);
  Some {| Driver := dr; ScriptRef := sc; AuthSecret := au; Parameters := default ∅ ps |}.

Definition decode_ObjectMeta (d : Doc) : option ObjectMeta :=
  n ← d_string (field "name" d);
  ns ← d_string (field "namespace" d);
  rv ← d_string (field "resourceVersion" d);
  g ← d_int (field "generation" d);
  dt ← d_pointer d_time (field "deletionTimestamp" d);
  an ← d_map (field "annotations" d);
  fs ← d_list d_string (field "finalizers" d);
  Some {| Name := n; Namespace := ns; ResourceVersion := rv; Generation := g;
          DeletionTimestamp := dt; Finalizers := fs; Annotations := an |}.

Definition decode_Machine (d : Doc) : option Machine :=
  k ← d_string (field "kind" d);
  v ← d_string (field "apiVersion" d);
  om ← d_struct decode_ObjectMeta (field "metadata" d);
  sp ← d_struct decode_Spec (field "spec" d);
  st ← d_struct decode_Status (field "status" d);
  Some {| TypeMetaOf := {| Kind := k; APIVersion := v |}; Meta := om; Spec := sp; Status := st |}.

(** ** Documents that are the same *)

Lemma d_string_proper o o' : option_Forall2 jequiv o o' → d_string o = d_string o'.
Proof. by intros [j j' Hj|]; [inversion Hj|]. Qed.

Lemma d_int_proper o o' : option_Forall2 jequiv o o' → d_int o = d_int o'.
Proof. by intros [j j' Hj|]; [inversion Hj|]. Qed.

Lemma d_time_proper o o' : option_Forall2 jequiv o o' → d_time o = d_time o'.
Proof. by intros [j j' Hj|]; [inversion Hj|]. Qed.

Lemma d_list_proper {A} (dec : option JSON → option A) o o' :
  (∀ o o', option_Forall2 jequiv o o' → dec o = dec o') →
  option_Forall2 jequiv o o' → d_list dec o = d_list dec o'.
Proof.
  intros Hdec [j j' Hj|]; [|done]. destruct j; try (by inversion Hj).
  apply jequiv_arr in Hj as (l' & -> & Hl). simpl.
  induction Hl as [|x y l l' Hxy _ IH]; [done|]. simpl.
  assert (d_elem dec x = d_elem dec y) as -> by (by apply Hdec, present_jequiv). by rewrite IH.
Qed.

Definition same_fields_doc (d d' : Doc) : Prop := ∀ k, option_Forall2 jequiv (field k d) (field k d').

Lemma jequiv_fields d d' : jequiv (JObject d) (JObject d') → same_fields_doc d d'.
Proof. intros Hj. by apply jequiv_obj in Hj as (d1 & [= ->] & Hd). Qed.

Lemma d_struct_proper {A} (dec : Doc → option A) o o' :
  (∀ d d', same_fields_doc d d' → dec d = dec d') →
  option_Forall2 jequiv o o' → d_struct dec o = d_struct dec o'.
Proof.
  intros Hdec [j j' Hj|]; [|done]. destruct j; try (by inversion Hj).
  apply jequiv_obj in Hj as (d' & -> & Hd). by apply Hdec.
Qed.

Lemma decode_Condition_proper d d' : same_fields_doc d d' → decode_Condition d = decode_Condition d'.
Proof.
  intros Hd. unfold decode_Condition.
  rewrite !(d_string_proper _ _ (Hd _)), (d_int_proper _ _ (Hd _)), (d_time_proper _ _ (Hd _)). done.
Qed.

Lemma decode_Status_proper d d' : same_fields_doc d d' → decode_Status d = decode_Status d'.
Proof.
  intros Hd. unfold decode_Status. rewrite (d_string_proper _ _ (Hd "phase")).
  rewrite (d_list_proper _ _ _ (λ o o', d_struct_proper _ o o' decode_Condition_proper) (Hd "conditions")). done.
Qed.

(** ** Reading inverts the encoding *)

Lemma field_struct k fs : NoDup fs.*1 → field k (struct fs) = present (assoc k fs).
Proof. intros Hnd. unfold field. by rewrite get_struct. Qed.

Lemma assoc_here k o fs : assoc k ((k, o) :: fs) = o.
Proof. simpl. by rewrite decide_True. Qed.

Lemma assoc_there k k' o fs : k' ≠ k → assoc k ((k', o) :: fs) = assoc k fs.
Proof. intros Hk. simpl. by rewrite decide_False. Qed.

(** Reads the fields of a struct that is written out. *)
Ltac read_fields :=
  rewrite !field_struct by (apply (bool_decide_unpack _); vm_compute; exact I);
  repeat (rewrite assoc_here || rewrite assoc_there by discriminate).

Lemma d_omit_string s : d_string (present (omit_string s)) = Some s.
Proof. unfold omit_string, omit_if, str_empty. case_bool_decide; by subst. Qed.

Lemma d_omit_int z : d_int (present (omit_int z)) = Some z.
Proof. unfold omit_int, omit_if. case_bool_decide; by subst. Qed.

(** What reading gives for a list, when it gives it for the elements. *)
Lemma mapM_inverse {A B} (f : A → option B) (g : B → A) l :
  (∀ x, x ∈ l → f (g x) = Some x) → mapM f (g <$> l) = Some l.
Proof.
  intros Hl. apply mapM_Some, Forall2_fmap_l, Forall_Forall2_diag, Forall_forall. exact Hl.
Qed.

Lemma mapM_partial_inverse {A B} (f : A → option B) (g : B → A) l l' :
  (∀ x x', f (g x) = Some x' → x' = x) → mapM f (g <$> l) = Some l' → l' = l.
Proof.
  intros Hfg Hl%mapM_Some%Forall2_fmap_l. symmetry. apply list_eq_Forall2.
  eapply Forall2_impl; [exact Hl|]. intros x x' Hx. symmetry. by apply Hfg.
Qed.

(** Times that are read back as they were. *)
Definition readable (t : Z) : Prop := d_time (present (Some (encode_Time format_time t))) = Some t.

Lemma d_time_inverse t t' : d_time (present (Some (encode_Time format_time t))) = Some t' → t' = t.
Proof. unfold encode_Time. case_bool_decide; simpl; [by intros [= <-]|]. apply parse_format. Qed.

Abbreviation d_Condition := (d_elem (d_struct decode_Condition)).

Lemma decode_encode_Condition c :
  d_Condition (encode_Condition format_time c) =
    (t ← d_time (present (Some (encode_Time format_time (c_LastTransitionTime c))));
     Some {| c_Type := c_Type c; c_Status := c_Status c; c_ObservedGeneration := c_ObservedGeneration c;
             c_Severity := c_Severity c; c_LastTransitionTime := t; c_Reason := c_Reason c;
             c_Message := c_Message c |}).
Proof.
  change (d_Condition (encode_Condition format_time c)) with (decode_Condition (struct
    [ ("type", Some (JString (c_Type c))); ("status", Some (JString (c_Status c)));
      ("observedGeneration", omit_int (c_ObservedGeneration c)); ("severity", omit_string (c_Severity c));
      ("lastTransitionTime", Some (encode_Time format_time (c_LastTransitionTime c)));
      ("reason", omit_string (c_Reason c)); ("message", omit_string (c_Message c)) ])).
  unfold decode_Condition. read_fields. by rewrite !d_omit_string, !d_omit_int.
Qed.

Lemma decode_encode_Status st :
  (∀ c, c ∈ Conditions st → readable (c_LastTransitionTime c)) →
  d_struct decode_Status (Some (encode_Status format_time st)) = Some st.
Proof.
  intros Hc. unfold encode_Status, d_struct, decode_Status. read_fields.
  assert (d_list (d_struct decode_Condition) (present (Some
    (if bool_decide (Conditions st = []) then JNull
     else JArray (encode_Condition format_time <$> Conditions st)))) = Some (Conditions st)) as ->;
    [|by destruct st].
  case_bool_decide as Hn; [by rewrite Hn|]. apply mapM_inverse. intros c Hin.
  rewrite decode_encode_Condition, (Hc c Hin). by destruct c.
Qed.

(** Whatever status is read from an encoded one is that one. *)
Lemma decode_Status_inverse st d st' :
  jequiv (JObject d) (encode_Status format_time st) → decode_Status d = Some st' → st' = st.
Proof.
  intros Hj Hd. unfold encode_Status in Hj. apply jequiv_fields in Hj.
  rewrite (decode_Status_proper _ _ Hj) in Hd. revert Hd. unfold decode_Status. read_fields.
  set (cs := d_list _ _). destruct cs as [l|] eqn:Hl; [|done]. intros [= <-].
  assert (l = Conditions st) as ->; [|by destruct st]. unfold cs in Hl. revert Hl.
  case_bool_decide as Hn; [rewrite Hn; by intros [= <-]|]. apply mapM_partial_inverse.
  intros c c'. rewrite decode_encode_Condition.
  destruct (d_time _) as [t|] eqn:Ht; [|done]. intros [= <-]. apply d_time_inverse in Ht as ->. by destruct c.
Qed.

Lemma decode_encode_map m :
  mapM (λ f, pair f.1 <$> d_elem d_string f.2) (encode_map m) = Some (map_to_list m).
Proof. apply mapM_inverse. by intros [k v] _. Qed.

Lemma d_map_encode m : d_map (Some (JObject (encode_map m))) = Some (Some m).
Proof. unfold d_map. rewrite decode_encode_map. simpl. by rewrite list_to_map_to_list. Qed.

Lemma d_annotations a : a ≠ Some ∅ → d_map (present (encode_annotations a)) = Some a.
Proof.
  intros Ha. unfold encode_annotations, omit_if. case_bool_decide as He.
  - destruct a as [a|]; [|done]. simpl in He. by subst.
  - destruct a as [a|]; [|done]. apply d_map_encode.
Qed.

Lemma d_finalizers l : d_list d_string (present (encode_finalizers l)) = Some l.
Proof.
  unfold encode_finalizers, omit_if. case_bool_decide as Hl; [by subst|]. by apply mapM_inverse.
Qed.

Lemma d_driver r : d_pointer (d_struct decode_Driver) (present (Some (pointer encode_Driver r))) = Some r.
Proof.
  destruct r as [[n]|]; [|done]. unfold pointer, from_option, encode_Driver, present, d_pointer, d_struct, decode_Driver.
  read_fields. by rewrite d_omit_string.
Qed.

Lemma d_reference r :
  d_pointer (d_struct decode_ObjectReference) (present (Some (pointer encode_ObjectReference r))) = Some r.
Proof.
  destruct r as [[ns n]|]; [|done].
  unfold pointer, from_option, encode_ObjectReference, present, d_pointer, d_struct, decode_ObjectReference.
  read_fields. by rewrite d_omit_string.
Qed.

Lemma decode_encode_Spec sp : d_struct decode_Spec (Some (encode_Spec sp)) = Some sp.
Proof.
  unfold encode_Spec, d_struct, decode_Spec. read_fields. rewrite d_driver, !d_reference. simpl mbind.
  destruct sp as [dr sc au ps]. simpl. case_bool_decide as Hp; [by subst|]. by rewrite d_map_encode.
Qed.

(** Metadata as Go has it when it was read: no empty maps, no zero pointers. *)
Definition canonical (m : Machine) : Prop :=
  Annotations (Meta m) ≠ Some ∅ ∧
  (∀ t, DeletionTimestamp (Meta m) = Some t → t ≠ 0 ∧ readable t) ∧
  ∀ c, c ∈ Conditions (Status m) → readable (c_LastTransitionTime c).

Lemma d_deletion o :
  (∀ t, o = Some t → t ≠ 0 ∧ readable t) → d_pointer d_time (present (encode_Time format_time <$> o)) = Some o.
Proof.
  intros Ho. destruct o as [t|]; [|done]. destruct (Ho t eq_refl) as [Hz Hr]. unfold readable in Hr. simpl in *.
  unfold encode_Time in *. rewrite bool_decide_eq_false_2 in * by done. simpl in *. by rewrite Hr.
Qed.

Lemma decode_encode_ObjectMeta more m :
  more_ok more → canonical m →
  decode_ObjectMeta (encode_ObjectMeta format_time more (Meta m)) = Some (Meta m).
Proof.
  intros Hmore (Ha & Hd & _). unfold decode_ObjectMeta, field. rewrite !get_ObjectMeta by done.
  unfold ObjectMeta_fields. cbn [app]. repeat (rewrite assoc_here || rewrite assoc_there by discriminate).
  rewrite !d_omit_string, d_omit_int, (d_deletion _ Hd), (d_annotations _ Ha), d_finalizers. by destruct (Meta m).
Qed.

(** C19: a Machine survives its encoding: reading the JSON of a machine, with
    whatever further metadata, gives the machine back, if its maps and pointers
    are as reading makes them and its times can be read. *)
Theorem machine_json_roundtrip more m :
  more_ok more → canonical m → decode_Machine (encode_Machine format_time more m) = Some m.
Proof.
  intros Hmore Hm. unfold encode_Machine, Machine_fields, decode_Machine. read_fields.
  rewrite !d_omit_string.
  change (d_struct decode_ObjectMeta (present (Some (JObject ?d)))) with (decode_ObjectMeta d).
  change (present (Some (encode_Spec ?x))) with (Some (encode_Spec x)).
  change (present (Some (encode_Status ?f ?x))) with (Some (encode_Status f x)).
  rewrite decode_encode_ObjectMeta, decode_encode_Spec, decode_encode_Status by (done || apply Hm).
  by destruct m as [[] ? ? ?].
Qed.
End Decode.
