(* ===== verification/Rfc3339.v ===== *)
(** * Times as text

    [time.RFC3339] in UTC with whole seconds, the form [metav1.Time] writes:
    [2006-01-02T15:04:05Z].  A time is the number of seconds since the start of
    the year 1.  Years of more than four digits, and years before 0, are
    written as [AppendFormat] writes them and cannot be read. *)

From Stdlib Require Import Ascii.
From S2P Require Import Prelude Types JsonFacts PatchRace Decode.

(** ** The calendar *)

Definition leap (y : Z) : bool := (y mod 4 =? 0) && (negb (y mod 100 =? 0) || (y mod 400 =? 0)).

(** Days before each month. *)
Definition days_before : list Z := [0; 31; 59; 90; 120; 151; 181; 212; 243; 273; 304; 334].

(** [l] says whether it is in a leap year. *)
Definition before_month (l : bool) (month : Z) : Z :=
  nth (Z.to_nat (month - 1)) days_before 0 + (if l && (2 <? month) then 1 else 0).

(** Days before the year [y], counted from the year 1. *)
Definition before_year (y : Z) : Z := let p := y - 1 in 365 * p + p / 4 - p / 100 + p / 400.

Definition days_of (y month day : Z) : Z := before_year y + before_month (leap y) month + (day - 1).

(** The year, month and day of a day, by cycles of 400, 100, 4 and 1 years. *)
Definition year_of (days : Z) : Z :=
  let n400 := days / 146097 in
  let d := days mod 146097 in
  let n100 := Z.min 3 (d / 36524) in
  let d := d - 36524 * n100 in
  let n4 := d / 1461 in
  let d := d - 1461 * n4 in
  let n1 := Z.min 3 (d / 365) in
  400 * n400 + 100 * n100 + 4 * n4 + n1 + 1.

Fixpoint month_from (fuel : nat) (l : bool) (yday month : Z) : Z :=
  match fuel with
  | O => month
  | S fuel => if (month <? 12) && (before_month l (month + 1) <=? yday) then month_from fuel l yday (month + 1) else month
  end.

Definition month_of (l : bool) (yday : Z) : Z := month_from 12 l yday 1.

Definition civil (days : Z) : Z * Z * Z :=
  let y := year_of days in
  let yday := days - before_year y in
  let month := month_of (leap y) yday in
  (y, month, yday - before_month (leap y) month + 1).

(** The days of a month, as [time.Parse] checks them. *)
Definition days_in (l : bool) (month : Z) : Z :=
  if month =? 12 then 31 else before_month l (month + 1) - before_month l month.

(** *** Years *)

(** The days before a year, by the cycles it is in. *)
Lemma before_year_cycles n400 n100 n4 n1 :
  0 ≤ n100 ≤ 3 → 0 ≤ n4 ≤ 24 → 0 ≤ n1 ≤ 3 →
  before_year (400 * n400 + 100 * n100 + 4 * n4 + n1 + 1) =
    146097 * n400 + 36524 * n100 + 1461 * n4 + 365 * n1.
Proof.
  intros H100 H4 H1. unfold before_year. set (p := _ - 1).
  assert (p / 4 = 100 * n400 + 25 * n100 + n4) as -> by (unfold p; Z.div_mod_to_equations; lia).
  assert (p / 100 = 4 * n400 + n100) as -> by (unfold p; Z.div_mod_to_equations; lia).
  assert (p / 400 = n400) as -> by (unfold p; Z.div_mod_to_equations; lia).
  unfold p. lia.
Qed.

(** The last year of four is a leap year, but for three centuries of four. *)
Lemma leap_cycles n400 n100 n4 :
  0 ≤ n100 ≤ 3 → 0 ≤ n4 ≤ 24 → (n4 = 24 → n100 = 3) →
  leap (400 * n400 + 100 * n100 + 4 * n4 + 3 + 1) = true.
Proof.
  intros H100 H4 Hc. unfold leap. set (y := _ + 1).
  assert (y mod 4 = 0) as -> by (unfold y; Z.div_mod_to_equations; lia). simpl.
  destruct (decide (n4 = 24)) as [->|Hne].
  - specialize (Hc eq_refl). assert (y mod 400 = 0) as -> by (unfold y; Z.div_mod_to_equations; lia).
    apply orb_true_r.
  - assert (y mod 100 = 4 * n4 + 4) as ->.
    { replace y with (4 * n4 + 4 + (4 * n400 + n100) * 100) by (unfold y; lia).
      rewrite Z_mod_plus_full. apply Z.mod_small. lia. }
    by rewrite (proj2 (Z.eqb_neq (4 * n4 + 4) 0)) by lia.
Qed.

Definition year_length (l : bool) : Z := if l then 366 else 365.

Lemma year_of_spec d : 0 ≤ d - before_year (year_of d) < year_length (leap (year_of d)).
Proof.
  unfold year_of. pose proof (Z.div_mod d 146097) as H400. pose proof (Z.mod_pos_bound d 146097) as B400.
  set (n400 := d / 146097) in *. set (r := d mod 146097) in *. clearbody n400 r.
  pose proof (Z.div_mod r 36524) as H100. pose proof (Z.mod_pos_bound r 36524) as B100.
  set (n100 := Z.min 3 (r / 36524)). set (r1 := r - 36524 * n100).
  assert (0 ≤ n100 ≤ 3 ∧ 0 ≤ r1 ≤ 36524 ∧ (r1 = 36524 → n100 = 3)) as (I100 & J100 & K100) by lia.
  assert (d = 146097 * n400 + 36524 * n100 + r1) as Hd by lia. clearbody n100 r1.
  clear H400 B400 H100 B100 r.
  pose proof (Z.div_mod r1 1461) as H4. pose proof (Z.mod_pos_bound r1 1461) as B4.
  set (n4 := r1 / 1461) in *. set (r2 := r1 - 1461 * n4).
  assert (0 ≤ n4 ≤ 24 ∧ 0 ≤ r2 ≤ 1460) as [I4 J4] by lia.
  assert (r1 = 1461 * n4 + r2) as Hr1 by lia. clearbody n4 r2. clear H4 B4.
  pose proof (Z.div_mod r2 365) as H1. pose proof (Z.mod_pos_bound r2 365) as B1.
  set (n1 := Z.min 3 (r2 / 365)).
  assert (0 ≤ n1 ≤ 3 ∧ 0 ≤ r2 - 365 * n1 ≤ 365 ∧ (r2 - 365 * n1 = 365 → n1 = 3)) as (I1 & J1 & K1) by lia.
  clearbody n1. clear H1 B1. rewrite before_year_cycles by done.
  destruct (decide (r2 - 365 * n1 = 365)) as [Hl|Hl].
  - rewrite (K1 Hl) in *. rewrite leap_cycles by lia. simpl. lia.
  - assert (365 ≤ year_length (leap (400 * n400 + 100 * n100 + 4 * n4 + n1 + 1)))
      by (unfold year_length; case_match; lia). lia.
Qed.

(** *** Months, for every day of the two kinds of years *)

Definition month_ok (l : bool) (yday : Z) : bool :=
  let m := month_of l yday in
  let day := yday - before_month l m + 1 in
  (1 <=? m) && (m <=? 12) && (1 <=? day) && (day <=? days_in l m) && (day <=? 31).

Fixpoint all_below (n : nat) (d : Z) (f : Z → bool) : bool :=
  match n with O => true | S n => f d && all_below n (d + 1) f end.

Lemma all_below_spec n d f : all_below n d f = true → ∀ x, d ≤ x < d + Z.of_nat n → f x = true.
Proof.
  revert d. induction n as [|n IH]; intros d H x Hx; [lia|]. simpl in H. apply andb_true_iff in H as [Hd H].
  destruct (decide (x = d)) as [->|Hne]; [done|]. apply (IH (d + 1)); [done|lia].
Qed.

Lemma month_of_spec l yday : 0 ≤ yday < year_length l → month_ok l yday = true.
Proof.
  intros Hd. apply (all_below_spec (Z.to_nat (year_length l)) 0); [by destruct l; vm_compute|].
  rewrite Z2Nat.id; [lia|by destruct l].
Qed.

Lemma civil_spec d y m day :
  civil d = (y, m, day) →
  days_of y m day = d ∧ 1 ≤ m ≤ 12 ∧ 1 ≤ day ≤ days_in (leap y) m ∧ day ≤ 31.
Proof.
  intros [= <- <- <-]. pose proof (month_of_spec _ _ (year_of_spec d)) as H. revert H.
  unfold month_ok, days_of. rewrite !andb_true_iff, !Z.leb_le. lia.
Qed.

(** ** Digits *)

Definition digit (n : Z) : ascii := ascii_of_N (Z.to_N (48 + n)).

Definition digit_of (a : ascii) : option Z :=
  let n := Z.of_N (N_of_ascii a) in
  if (48 <=? n) && (n <=? 57) then Some (n - 48) else None.

Lemma digit_of_digit n : 0 ≤ n < 10 → digit_of (digit n) = Some n.
Proof.
  intros Hn. unfold digit_of, digit. rewrite N_ascii_embedding by lia. rewrite Z2N.id by lia.
  rewrite !(proj2 (Z.leb_le _ _)) by lia. simpl. f_equal. lia.
Qed.

(** The last [w] digits of a number. *)
Fixpoint pad (w : nat) (n : Z) : list ascii :=
  match w with
  | O => []
  | S w => digit (n / 10 ^ Z.of_nat w mod 10) :: pad w n
  end.

(** Reads [w] digits. *)
Fixpoint number (w : nat) (acc : Z) (l : list ascii) : option (Z * list ascii) :=
  match w with
  | O => Some (acc, l)
  | S w => match l with
           | a :: l => n ← digit_of a; number w (10 * acc + n) l
           | [] => None
           end
  end.

Lemma number_pad_mod w n acc l :
  number w acc (pad w n ++ l) = Some (acc * 10 ^ Z.of_nat w + n mod 10 ^ Z.of_nat w, l).
Proof.
  revert acc. induction w as [|w IH]; intros acc.
  - simpl. rewrite Z.mod_1_r. do 2 f_equal. lia.
  - cbn [number pad app]. rewrite digit_of_digit by (apply Z.mod_pos_bound; lia). cbn [mbind option_bind].
    rewrite IH. rewrite Nat2Z.inj_succ, Z.pow_succ_r by lia. rewrite (Z.mul_comm 10 (10 ^ _)).
    rewrite Z.rem_mul_r by lia. do 2 f_equal. lia.
Qed.

Lemma number_pad w n l : 0 ≤ n < 10 ^ Z.of_nat w → number w 0 (pad w n ++ l) = Some (n, l).
Proof. intros Hn. rewrite number_pad_mod, Z.mod_small by done. done. Qed.

(** ** The text *)

(** The digits of [q] that come before those of a list, none for 0. *)
Fixpoint lead (fuel : nat) (q : Z) (acc : list ascii) : list ascii :=
  match fuel with
  | O => acc
  | S fuel => if q <=? 0 then acc else lead fuel (q / 10) (digit (q mod 10) :: acc)
  end.

(** A year has at least four digits. *)
Definition year_text (y : Z) : list ascii :=
  let a := Z.abs y in
  (if y <? 0 then ["-"%char] else []) ++ lead (Z.to_nat (a / 10000)) (a / 10000) (pad 4 a).

Definition format_list (t : Z) : list ascii :=
  let '(y, m, day) := civil (t / 86400) in
  let s := t mod 86400 in
  year_text y ++ "-"%char :: pad 2 m ++ "-"%char :: pad 2 day ++ "T"%char ::
    pad 2 (s / 3600) ++ ":"%char :: pad 2 (s / 60 mod 60) ++ ":"%char :: pad 2 (s mod 60) ++ ["Z"%char].

Definition format (t : Z) : string := String.string_of_list_ascii (format_list t).

Definition expect (c : ascii) (l : list ascii) : option (list ascii) :=
  match l with
  | a :: l => if decide (a = c) then Some l else None
  | [] => None
  end.

Definition parse_list (l : list ascii) : option Z :=
  '(y, l) ← number 4 0 l; l ← expect "-"%char l;
  '(m, l) ← number 2 0 l; l ← expect "-"%char l;
  '(day, l) ← number 2 0 l; l ← expect "T"%char l;
  '(h, l) ← number 2 0 l; l ← expect ":"%char l;
  '(mi, l) ← number 2 0 l; l ← expect ":"%char l;
  '(s, l) ← number 2 0 l; l ← expect "Z"%char l;
  if bool_decide (l = []) && (1 <=? m) && (m <=? 12) && (1 <=? day) && (day <=? days_in (leap y) m) &&
     (h <? 24) && (mi <? 60) && (s <? 60)
  then Some (86400 * days_of y m day + 3600 * h + 60 * mi + s)
  else None.

Definition parse (s : string) : option Z := parse_list (String.list_ascii_of_string s).

Lemma expect_here c l : expect c (c :: l) = Some l.
Proof. simpl. by rewrite decide_True. Qed.

Lemma lead_le0 fuel q acc : q ≤ 0 → lead fuel q acc = acc.
Proof. intros Hq. destruct fuel; [done|]. simpl. by rewrite (proj2 (Z.leb_le q 0)). Qed.

Lemma year_text_4 y : 0 ≤ y < 10000 → year_text y = pad 4 y.
Proof.
  intros Hy. unfold year_text. rewrite (proj2 (Z.ltb_ge y 0)) by lia.
  rewrite Z.abs_eq by lia. rewrite Z.div_small by lia. done.
Qed.

(** Splits a time into its day and the hours, minutes and seconds of it. *)
Lemma time_of_day s : 0 ≤ s < 86400 →
  0 ≤ s / 3600 < 24 ∧ 0 ≤ s / 60 mod 60 < 60 ∧ 0 ≤ s mod 60 < 60 ∧
  s = 3600 * (s / 3600) + 60 * (s / 60 mod 60) + s mod 60.
Proof.
  intros Hs. assert (s / 3600 = s / 60 / 60) as -> by (by rewrite Z.div_div by lia).
  Z.div_mod_to_equations. lia.
Qed.

Lemma parse_format_4 t y m day :
  civil (t / 86400) = (y, m, day) → 0 ≤ y < 10000 → parse_list (format_list t) = Some t.
Proof.
  intros Hc Hy. destruct (civil_spec _ _ _ _ Hc) as (Hd & Hm & Hday & Hday').
  pose proof (Z.mod_pos_bound t 86400) as Hb. pose proof (Z.div_mod t 86400) as Ht.
  destruct (time_of_day (t mod 86400)) as (Hh & Hmi & Hs & Heq); [lia|].
  unfold format_list, parse_list. rewrite Hc, year_text_4 by done.
  repeat (rewrite number_pad by (simpl; lia); cbn [mbind option_bind];
          rewrite expect_here; cbn [mbind option_bind]).
  rewrite bool_decide_eq_true_2, !(proj2 (Z.leb_le _ _)), !(proj2 (Z.ltb_lt _ _)) by (done || lia).
  cbn [andb]. f_equal. rewrite Hd. lia.
Qed.

(** *** Years that cannot be read *)

Lemma digit_not_dash n : 0 ≤ n < 10 → digit n ≠ "-"%char.
Proof. intros Hn Heq. pose proof (digit_of_digit n Hn) as Hd. rewrite Heq in Hd. by vm_compute in Hd. Qed.

Abbreviation no_dash := (Forall (λ c, c ≠ "-"%char)).

Lemma pad_no_dash w n : no_dash (pad w n).
Proof. induction w; simpl; [done|]. constructor; [apply digit_not_dash, Z.mod_pos_bound; lia|done]. Qed.

Lemma lead_digits fuel q acc : no_dash acc → no_dash (lead fuel q acc) ∧ (length acc ≤ length (lead fuel q acc))%nat.
Proof.
  revert q acc. induction fuel as [|fuel IH]; intros q acc Hacc; [done|]. simpl. case_match; [done|].
  destruct (IH (q / 10) (digit (q mod 10) :: acc)) as [Hl Hn].
  - constructor; [apply digit_not_dash, Z.mod_pos_bound; lia|done].
  - simpl in Hn. split; [done|lia].
Qed.

Lemma lead_longer fuel q acc :
  0 < q → fuel ≠ 0%nat → no_dash acc → (S (length acc) ≤ length (lead fuel q acc))%nat.
Proof.
  intros Hq Hf Hacc. destruct fuel as [|fuel]; [done|]. simpl. rewrite (proj2 (Z.leb_gt q 0)) by lia.
  apply (lead_digits fuel (q / 10) (digit (q mod 10) :: acc)).
  constructor; [apply digit_not_dash, Z.mod_pos_bound; lia|done].
Qed.

Lemma length_pad w n : length (pad w n) = w.
Proof. induction w; simpl; congruence. Qed.

Lemma number_rest w acc l n l' : number w acc l = Some (n, l') → l' = drop w l.
Proof.
  revert acc l. induction w as [|w IH]; intros acc l H; simpl in H; [by simplify_eq|].
  destruct l as [|a l]; [done|]. destruct (digit_of a); [|done]. by apply (IH _ _ H).
Qed.

Lemma parse_no_dash text rest : no_dash text → (5 ≤ length text)%nat → parse_list (text ++ rest) = None.
Proof.
  intros Hd Hl. unfold parse_list. destruct (number 4 0 (text ++ rest)) as [[n l]|] eqn:Hn; [|done].
  apply number_rest in Hn as ->. cbn [mbind option_bind].
  destruct (lookup_lt_is_Some_2 text 4) as [c Hc]; [lia|].
  rewrite (drop_S (text ++ rest) c 4) by (by apply lookup_app_l_Some). simpl.
  rewrite decide_False; [done|]. by apply (proj1 (Forall_lookup _ _) Hd 4%nat).
Qed.

Lemma parse_format_other t y m day :
  civil (t / 86400) = (y, m, day) → ¬ 0 ≤ y < 10000 → parse_list (format_list t) = None.
Proof.
  intros Hc Hy. unfold format_list. rewrite Hc. unfold year_text. destruct (Z.ltb_spec y 0) as [Hneg|Hpos]; [done|].
  rewrite Z.abs_eq by lia. cbn [app]. assert (0 < y / 10000) as Hq by (apply Z.div_str_pos; lia).
  apply parse_no_dash.
  - apply lead_digits, pad_no_dash.
  - pose proof (lead_longer (Z.to_nat (y / 10000)) (y / 10000) (pad 4 y)) as Hlen.
    rewrite length_pad in Hlen. apply Hlen; [done|lia|apply pad_no_dash].
Qed.

(** The times that can be read are those of the years 0 to 9999. *)
Lemma parse_format_spec t :
  parse (format t) = if bool_decide (0 ≤ (civil (t / 86400)).1.1 < 10000) then Some t else None.
Proof.
  unfold parse, format. rewrite String.list_ascii_of_string_of_list_ascii.
  destruct (civil (t / 86400)) as [[y m] day] eqn:Hc. simpl.
  case_bool_decide; [by eapply parse_format_4|by eapply parse_format_other].
Qed.

Definition Rfc3339_codec : TimeCodec.
Proof.
  refine {| format_time := format; parse_time := parse |}.
  intros t t'. rewrite parse_format_spec. case_bool_decide; [by intros [= <-]|done].
Defined.

(** ** The theorem at work *)

(** A machine that is being deleted, since 2024-02-29T12:30:05Z. *)
Definition leap_day : Z := 86400 * days_of 2024 2 29 + 45005.

Lemma leap_day_text : format leap_day = "2024-02-29T12:30:05Z".
Proof. by vm_compute. Qed.

Definition leaving : Machine :=
  set_Status (set_Meta race_read
      {| Name := "m"; Namespace := "ns"; ResourceVersion := "9"; Generation := 2;
         DeletionTimestamp := Some leap_day; Finalizers := ["backup.example.com"];
         Annotations := Some {[ "vpc" := "v-1" ]} |})
    {| Conditions := [ {| c_Type := "Ready"; c_Status := "False"; c_ObservedGeneration := 3; c_Severity := "Info";
                          c_LastTransitionTime := leap_day; c_Reason := ""; c_Message := "" |} ];
       Phase := "Terminating" |}.

(** It is written with its times as texts, and read back. *)
Lemma machine_json_roundtrip_witness :
  decode_Machine (TC := Rfc3339_codec) (encode_Machine format race_labelled leaving) = Some leaving.
Proof.
  apply (machine_json_roundtrip (TC := Rfc3339_codec)); [apply race_more_ok|].
  assert (readable (TC := Rfc3339_codec) leap_day) as Hr by (vm_compute; reflexivity). split_and!.
  - intros Heq. discriminate (f_equal (λ a, default ∅ a !! "vpc") Heq).
  - intros t [= <-]. split; [vm_compute; discriminate|exact Hr].
  - intros c Hc. apply list_elem_of_singleton in Hc as ->. exact Hr.
Defined.
