(* ===== verification/Outcomes.v ===== *)
(** * Outcomes of operations

    What the operations return and leave behind, branch by branch: the result
    of the start-up script, when a reconciliation asks to be repeated, a
    machine that is gone, and the finalizer. *)

From S2P Require Import Prelude GoLib Types Conditions ConditionsFacts Summary StatusSpec StatusInv Effects Kube Aws Cleanup Cluster MachineOps Reconcile Evidence Sim Logic Footprint Yields Deletion Guarantees.

Section Outcomes.
Context {World : Type} `{SV : !Services World}.
Implicit Types s : St World.

(** ** The result of the script *)

Definition scp_args (d : string) (m : Machine) : list string :=
  ["scp"; scp_source (getDefaultUser d) (Name (Meta m)); "/tmp"].

(** What [isScriptFinished] records for the number [ret]. *)
Definition result_mark (now : Z) (m : Machine) (ret : Z) : Machine :=
  if decide (ret = 0) then MarkTrue now m MachineConditionTypeClusterOperationComplete
  else MarkFalse now m MachineConditionTypeClusterOperationComplete
         ReasonClusterOperationFailed ConditionSeverityError "failed to create cluster".

Lemma record_result_run ret s m x w :
  machineObj s = Some m → serve (OsRemove resultFile) (world s) = (x, w) →
  record_result ret s =
    (Normal (match x with
             | inr e => inr e
             | inl _ => if decide (ret = 0) then inl false else inr create_failed
             end),
     mkSt w (Some (result_mark (clock (world s)) m ret)) (trace s ++ [Ev (OsRemove resultFile) x])).
Proof.
  intros Hm Hx. unfold record_result, result_mark, mark_true, mark_false.
  unfold mbind, M_bind, tryE, mbind, M_bind, call, now, the_machine, deref, put_machine.
  case_decide; simpl; rewrite Hm; simpl; rewrite Hx; by destruct x.
Qed.

Lemma getScpArgs_run s m d :
  machineObj s = Some m → Driver (Spec m) = Some d →
  getScpArgs s = (Normal (scp_args (lor_Name d) m), s).
Proof.
  intros Hm Hd. unfold getScpArgs, driverName, mbind, M_bind, the_machine, deref.
  rewrite Hm. simpl. rewrite Hm. simpl. by rewrite Hd.
Qed.

(** C21: the result of the start-up script, on every path.  Without a true
    [MachineReady], or with one of the conditions the guard looks for,
    [isScriptFinished] does nothing; without a driver it panics.  Otherwise it
    fetches the result file.  If that fails, the cluster operation is marked as
    waiting and the answer is to come back, whether there is a local file or
    not.  If the fetched file cannot be opened, that error is returned and no
    condition changes.  Otherwise the first line that holds a number decides: 0
    marks the operation complete, any other number marks it failed and is an
    error; the local copy is removed, and an error of the removal is returned
    instead.  A file without a number is an error that changes no condition and
    leaves the file. *)
Theorem script_outcome s m :
  machineObj s = Some m →
  isScriptFinished s =
    if negb (IsConditionTrue (Conditions (Status m)) MachineConditionTypeMachineReady) ||
       IsConditionTrue (Conditions (Status m)) MachinePhaseSuccess ||
       IsConditionTrue (Conditions (Status m)) MachinePhaseFailed
    then (Normal (inl false), s) else
    match Driver (Spec m) with
    | None => (Panic "nil pointer dereference", s)
    | Some d =>
        let scp := Exec None "docker-machine" (scp_args (lor_Name d) m) in
        let '(out, w1) := serve scp (world s) in
        let '(opened, w2) := serve (OsOpen resultFile) w1 in
        let '(removed, w3) := serve (OsRemove resultFile) w2 in
        match ex_err out, opened with
        | Some _, _ =>
            (Normal (inl true),
             mkSt w1 (Some (MarkFalse (clock w1) m MachineConditionTypeClusterOperationComplete
                              ReasonWaitingForScriptCompletion ConditionSeverityError
                              "waiting for script completion"))
               (trace s ++ [Ev scp out]))
        | None, inr e =>
            (Normal (inr e), mkSt w2 (Some m) (trace s ++ [Ev scp out; Ev (OsOpen resultFile) opened]))
        | None, inl content =>
            match first_number (scan_lines content) with
            | Some ret =>
                (Normal (match removed with
                         | inr e => inr e
                         | inl _ => if decide (ret = 0) then inl false else inr create_failed
                         end),
                 mkSt w3 (Some (result_mark (clock w2) m ret))
                   (trace s ++ [Ev scp out; Ev (OsOpen resultFile) opened;
                                Ev (OsRemove resultFile) removed]))
            | None =>
                (Normal (inr create_failed),
                 mkSt w2 (Some m) (trace s ++ [Ev scp out; Ev (OsOpen resultFile) opened]))
            end
        end
    end.
Proof.
  intros Hm. unfold isScriptFinished.
  unfold mbind at 1, M_bind at 1, the_machine at 1, deref at 1. rewrite Hm. simpl.
  destruct (IsConditionTrue _ MachineConditionTypeMachineReady); [|done]. simpl.
  destruct (_ || _); [done|]. unfold mbind at 1, M_bind at 1.
  destruct (Driver (Spec m)) as [d|] eqn:Hd.
  2: { unfold getScpArgs, driverName, mbind, M_bind, the_machine, deref. rewrite Hm. simpl.
       rewrite Hm. simpl. by rewrite Hd. }
  rewrite (getScpArgs_run s m d Hm Hd). unfold mbind at 1, M_bind at 1, call at 1. set (scp := Exec _ _ _).
  destruct (serve scp (world s)) as [out w1]. destruct (serve (OsOpen resultFile) w1) as [opened w2] eqn:Hopen.
  destruct (serve (OsRemove resultFile) w2) as [removed w3] eqn:Hrm. destruct (ex_err out) as [err|].
  { unfold mark_false, mbind, M_bind, now, the_machine, deref, put_machine. simpl. by rewrite Hm. }
  unfold tryE, mbind at 1, M_bind at 1, call at 1. simpl. rewrite Hopen.
  destruct opened as [content|e]; [|by rewrite Hm, <- app_assoc]. rewrite scan_result_first.
  destruct (first_number (scan_lines content)) as [ret|].
  - erewrite record_result_run; [|simpl; exact Hm|simpl; exact Hrm]. simpl. by rewrite <- !app_assoc.
  - unfold fail. simpl. by rewrite Hm, <- app_assoc.
Qed.

(** ** Asking to be called again *)

(** The script's result could not be fetched. *)
Definition script_pending (h : list Event) : Prop :=
  ∃ source x, Ev (Exec None "docker-machine" ["scp"; source; "/tmp"]) x ∈ h ∧ is_Some (ex_err x).

Lemma scan_result_not_true lines :
  yields unguarded True (scan_result lines) (λ r : Res bool, r ≠ inl true).
Proof.
  assert (∀ fp, allows unguarded fp) as HG by done.
  rewrite scan_result_first. case_match; [|by apply yields_ret].
  unfold record_result. apply safe_bind; [safe_run|]. intros ce.
  eapply (yields_try _ _ _ _ (λ _, True)); [|intros _ _; case_match; by apply yields_ret|done].
  intros s'. apply wp_call. intros y w _. split; [done|]. by destruct y.
Qed.

Lemma pending_isScriptFinished s :
  wp unguarded True isScriptFinished (λ r s', r = inl true → script_pending (trace s')) s.
Proof.
  unfold isScriptFinished. apply wp_bind, wp_the_machine; [|done]. intros m _.
  case_match; [by apply wp_ret|]. case_match; [by apply wp_ret|].
  apply wp_bind. unfold getScpArgs.
  apply wp_bind, wp_the_machine; [|done]. intros m' _.
  apply wp_quiet; [by apply quiet_driverName|]. intros d s1 _ _. apply wp_ret.
  apply wp_bind, wp_call. intros out w _. split; [done|].
  destruct (ex_err out) as [err|] eqn:Herr.
  - apply wp_bind. eapply wp_mono; [apply wp_extend, safe_mark_false; done|].
    intros _ s2 [_ Hp]. apply wp_ret. intros _. do 2 eexists.
    split; [eapply elem_of_prefix; [apply elem_of_last|exact Hp]|]. by rewrite Herr.
  - apply wp_tryE, wp_call. intros r w' _. split; [done|]. destruct r; [|done].
    eapply wp_mono; [apply scan_result_not_true|]. done.
Qed.

(** The answer to the controller manager. *)
Definition requeues_when_pending (r : Result * option error) s : Prop :=
  RequeueAfter r.1 = 0 ∨ (RequeueAfter r.1 = Minute ∧ script_pending (trace s)).

Lemma zero_requeues (m : M World (Result * option error)) s :
  yields unguarded True m (λ r, RequeueAfter r.1 = 0) →
  wp unguarded True m requeues_when_pending s.
Proof. intros Hy. eapply wp_mono; [apply Hy|]. by left. Qed.

Lemma yields_requeueWithError msg err :
  yields unguarded True (requeueWithError (World:=World) msg err) (λ r, RequeueAfter r.1 = 0).
Proof.
  unfold requeueWithError. apply safe_bind; [by apply safe_update_own_status|].
  intros []; by apply yields_ret.
Qed.

Lemma requeue_reconcile_create req s :
  wp unguarded True (reconcile_create req) requeues_when_pending s.
Proof.
  assert (∀ fp, allows unguarded fp) as HG by done. unfold reconcile_create.
  apply wp_bind. eapply wp_mono; [by apply safe_createMachine|]. intros [[]|e] s1 _.
  2: { apply zero_requeues, yields_requeueWithError. }
  apply wp_bind. eapply wp_mono; [apply pending_isScriptFinished|]. intros [b|e] s2 Hb.
  2: { apply zero_requeues, yields_requeueWithError. }
  apply wp_bind. eapply wp_mono; [apply wp_extend, safe_updateMachineStatus; done|].
  intros upd s3 [_ Hp]. apply wp_ret. destruct b; [|by left]. right. split; [done|].
  destruct (Hb eq_refl) as (source & x & Hin & Hx). exists source, x.
  split; [by eapply elem_of_prefix|done].
Qed.

Lemma requeue_Reconcile req s : wp unguarded True (Reconcile req) requeues_when_pending s.
Proof.
  assert (∀ fp, allows unguarded fp) as HG by done. unfold Reconcile.
  apply wp_bind. eapply wp_mono.
  { assert (safe unguarded True (updateMachineReconcile (World:=World) req)) as Hs
      by (apply safe_bind; [by apply quiet_safe, quiet_call|]; intros []; safe_run).
    apply Hs. }
  intros [message [err|]] s1 _.
  { case_match; [apply wp_ret; by left|]. apply zero_requeues, yields_requeueWithError. }
  apply wp_bind, wp_the_machine; [|done]. intros m _. case_decide.
  { apply zero_requeues, safe_bind; [by apply safe_updateMachineStatus|]. intros.
    by apply yields_ret. }
  apply wp_bind. unfold isMarkedForDeletion. apply wp_bind, wp_the_machine; [|done]. intros m' _.
  apply wp_ret. case_match.
  - apply zero_requeues. unfold reconcile_delete, reconciled.
    apply safe_bind; [by apply safe_removeFinalizerAfterCleanup|].
    intros []; [by apply yields_ret|apply yields_requeueWithError].
  - unfold reconcile_normal, reconciled.
    apply wp_bind. eapply wp_mono; [by apply safe_ensureFinalizer|]. intros [[]|e] s2 _.
    + apply requeue_reconcile_create.
    + case_match; [apply wp_ret; by left|]. apply zero_requeues, yields_requeueWithError.
Qed.

(** A reconciliation asks to be repeated only while it waits.  The answer
    to the controller manager is to requeue after one minute, and then fetching
    the script's result was tried in this reconciliation and failed; or not to
    requeue. *)
Lemma requeue_only_when_pending req s r err s' :
  Reconcile req s = (Normal (r, err), s') →
  RequeueAfter r = 0 ∨ (RequeueAfter r = Minute ∧ script_pending (trace s')).
Proof. intros Hrun. exact (wp_result _ _ _ _ _ _ _ (requeue_Reconcile req s) Hrun). Qed.

(** ** A machine that is gone *)

(** A machine that is gone is left alone.  When the machine of a request
    is not found, the reconciliation ends without an error and without any
    further call, and the receiver keeps what it held. *)
Theorem reconcile_not_found req s e w :
  serve (KGetMachine req) (world s) = (inr e, w) → IsNotFound e = true →
  Reconcile req s =
    (Normal (Result_zero, None),
     mkSt w (machineObj s) (trace s ++ [Ev (KGetMachine req) (inr e)])).
Proof.
  intros Hs He. unfold Reconcile, updateMachineReconcile, mbind, M_bind, call. rewrite Hs. simpl.
  by rewrite He.
Qed.
End Outcomes.

(** ** The finalizer *)

(** Removing the finalizer undoes adding it.  [AddFinalizer] puts the
    finalizer at the end of the list if it is not there and changes nothing
    else; [RemoveFinalizer] then restores the metadata exactly.  Adding twice is
    adding once, and after removing it is not there. *)
Theorem finalizer_roundtrip (om : ObjectMeta) (f : string) :
  RemoveFinalizer (AddFinalizer om f) f = RemoveFinalizer om f ∧
  (f ∉ Finalizers om → RemoveFinalizer (AddFinalizer om f) f = om) ∧
  AddFinalizer (AddFinalizer om f) f = AddFinalizer om f ∧
  f ∈ Finalizers (AddFinalizer om f) ∧ f ∉ Finalizers (RemoveFinalizer om f).
Proof.
  assert (∀ l : list string, f ∉ l → filter (λ name, name ≠ f) l = l) as Hfl.
  { intros l Hl. induction l as [|x l IH]; [done|].
    rewrite filter_cons_True by set_solver. f_equal. apply IH. set_solver. }
  assert (RemoveFinalizer (AddFinalizer om f) f = RemoveFinalizer om f) as Hra.
  { unfold RemoveFinalizer, AddFinalizer. case_match; [done|]. simpl. unfold set_Finalizers. simpl.
    f_equal. rewrite filter_app, filter_cons_False by auto. apply app_nil_r. }
  split_and!; [done| | |apply AddFinalizer_in|].
  - intros Hni. rewrite Hra. unfold RemoveFinalizer. rewrite Hfl by done. by destruct om.
  - unfold AddFinalizer at 1. by rewrite (proj2 (existsb_finalizer f _) (AddFinalizer_in om f)).
  - simpl. rewrite list_elem_of_filter. by intros [? _].
Qed.

(** ** The hypotheses at work *)

Definition failed_script : St Sim := script_done "7" waiting_start.

Lemma script_outcome_witness :
  (isScriptFinished failed_script).1 = Normal (inr create_failed) ∧
  (isScriptFinished waiting_start).1 = Normal (inl true).
Proof.
  assert (∃ m1 m2, machineObj failed_script = Some m1 ∧ machineObj waiting_start = Some m2)
    as (m1 & m2 & H1 & H2) by (do 2 eexists; split; by_eval).
  rewrite (script_outcome failed_script m1 H1), (script_outcome waiting_start m2 H2).
  vm_compute in H1. vm_compute in H2. injection H1 as <-. injection H2 as <-. split; by_eval.
Defined.

Lemma requeue_only_when_pending_witness :
  script_pending (trace (Reconcile demo_key waiting_start).2).
Proof.
  edestruct (requeue_only_when_pending demo_key waiting_start) as [H|[_ H]];
    [by_eval|vm_compute in H; discriminate H|exact H].
Defined.
