(* ===== verification/Defects.v ===== *)
(** * Where the code falls short

    Behaviours of the code that are not what it means to do, as theorems about
    every service and every state in which the flaw can show. *)

From S2P Require Import Prelude GoLib Types Conditions ConditionsFacts Summary StatusSpec StatusInv States Effects Kube Aws Azure Cleanup Cluster MachineOps Reconcile Evidence Sim Logic History Footprint Yields Deletion Guarantees Outcomes.

Section Defects.
Context {World : Type} `{SV : !Services World}.
Implicit Types s : St World.

(** C33: a failing API server makes a fresh reconciler panic.  When the
    receiver holds no machine yet (no request was served since the start) and
    reading the machine fails with an error other than NotFound, [Reconcile]
    panics: [requeueWithError] reads the key of [r.machineObj], which is nil.
    The controller recovers the panic, and reports it in place of the error. *)
Theorem first_read_failure_panics req s e w :
  machineObj s = None →
  serve (KGetMachine req) (world s) = (inr e, w) → IsNotFound e = false →
  (Reconcile req s).1 = Panic "nil pointer dereference".
Proof.
  intros Hm Hs He. unfold Reconcile, updateMachineReconcile, mbind, M_bind, call. rewrite Hs.
  simpl. rewrite He. unfold requeueWithError, update_own_status, mbind, M_bind, the_machine.
  simpl. by rewrite Hm.
Qed.

Lemma unknown_condition cs t :
  (∀ c, c ∈ cs → c_Type c ∈ known_types) → t ∉ known_types → IsConditionTrue cs t = false.
Proof.
  intros Hk Ht. apply not_true_iff_false. intros (c & Hc & <- & _)%IsConditionTrue_spec. auto.
Qed.

(** A finished script is checked again.  [isScriptFinished] means to
    return early for a machine in phase [Success] or [Failed], but it looks for
    conditions of these types, and the operator has none.  So for every ready
    machine with the operator's conditions, whatever its phase, it runs
    [docker-machine scp] again. *)
Lemma finished_script_checked_again s m d :
  machineObj s = Some m → Driver (Spec m) = Some d →
  (∀ c, c ∈ Conditions (Status m) → c_Type c ∈ known_types) →
  IsConditionTrue (Conditions (Status m)) MachineConditionTypeMachineReady = true →
  ∃ out l, trace (isScriptFinished s).2 =
    trace s ++ Ev (Exec None "docker-machine" (scp_args (lor_Name d) m)) out :: l.
Proof.
  intros Hm Hd Hk Hr. set (scp := Exec None "docker-machine" _).
  destruct (serve scp (world s)) as [out w] eqn:Hx. exists out. unfold isScriptFinished.
  unfold mbind at 1, M_bind at 1, the_machine at 1, deref at 1. rewrite Hm. simpl. rewrite Hr.
  rewrite !unknown_condition by (done || apply (bool_decide_unpack _); by vm_compute).
  simpl. unfold mbind at 1, M_bind at 1. rewrite (getScpArgs_run s m d Hm Hd).
  unfold mbind at 1, M_bind at 1, call at 1. fold scp. rewrite Hx.
  match goal with |- ∃ l, trace (?k ?s1).2 = _ =>
    assert (wp unguarded True k (λ _ _, True) s1) as (l & Hl & _) end.
  { destruct (ex_err out).
    - apply safe_bind; [by apply safe_mark_false|]. intros _. by apply yields_ret.
    - apply safe_try; [by apply quiet_safe, quiet_call|]. intros content.
      by apply safe_scan_result. }
  exists l. etrans; [exact Hl|]. simpl. by rewrite <- app_assoc.
Qed.

Lemma remove_file_run path s x w :
  serve (OsRemove path) (world s) = (x, w) → (∀ e, x = inr e → os_IsExist e = false) →
  remove_file path s = (Normal (inl tt), mkSt w (machineObj s) (trace s ++ [Ev (OsRemove path) x])).
Proof.
  intros Hx He. unfold remove_file, mbind, M_bind, call. rewrite Hx.
  destruct x as [[]|e]; [done|]. by rewrite (He e eq_refl).
Qed.

(** The local result file is not removed, and errors of removing files are
    swallowed.  Whatever the two removals of [deleteFiles] answer, unless it is
    an error that satisfies [os.IsExist] (which a removal never gives),
    [deleteFiles] succeeds; and the second file it removes is [tmpresult.txt]
    in the working directory, not the [/tmp/result.txt] that
    [isScriptFinished] reads. *)
Lemma delete_files_wrong_path s m x w1 y w2 :
  machineObj s = Some m →
  let script := "/tmp/" +:+ Namespace (Meta m) +:+ "-" +:+ Name (Meta m) +:+ "-startup.sh" in
  serve (OsRemove script) (world s) = (x, w1) →
  serve (OsRemove "tmpresult.txt") w1 = (y, w2) →
  (∀ e, x = inr e → os_IsExist e = false) → (∀ e, y = inr e → os_IsExist e = false) →
  deleteFiles s =
    (Normal (inl tt), mkSt w2 (Some m)
       (trace s ++ [Ev (OsRemove script) x; Ev (OsRemove "tmpresult.txt") y])) ∧
  resultFile ≠ "tmpresult.txt".
Proof.
  intros Hm script Hx Hy Ex Ey. split; [|done].
  assert (getScriptFilePath s = (Normal script, s)) as Hp.
  { unfold getScriptFilePath, mbind, M_bind, the_machine, deref. by rewrite Hm. }
  unfold deleteFiles, tryE, mbind at 1, M_bind at 1. rewrite Hp.
  unfold mbind, M_bind. rewrite (remove_file_run script s x w1 Hx Ex).
  rewrite (remove_file_run _ _ y w2) by done. simpl. by rewrite Hm, <- app_assoc.
Qed.

Lemma not_api_not_found e : asAPIStatus e = None → IsNotFound e = false.
Proof.
  intros He. unfold IsNotFound, reasonAndCodeForError. rewrite He. by vm_compute.
Qed.

(** C36: a docker machine that is already gone blocks the deletion.
    [deleteDockerMachine] means to ignore that the machine does not exist, with
    [client.IgnoreNotFound]; but that recognises only errors of the Kubernetes
    API, and the error of a command is none.  So every failure of
    [docker-machine rm], also for a machine that was never created, is
    returned. *)
Theorem rm_failure_returned s m r w e :
  machineObj s = Some m →
  let rm := Exec None "docker-machine" ["rm"; Name (Meta m); "-y"] in
  serve rm (world s) = (r, w) → ex_err r = Some e → asAPIStatus e = None →
  deleteDockerMachine s = (Normal (inr e), mkSt w (Some m) (trace s ++ [Ev rm r])).
Proof.
  intros Hm rm Hr He Ha.
  unfold deleteDockerMachine, mbind, M_bind, the_machine, deref, call. rewrite Hm. simpl. fold rm.
  rewrite Hr, He. unfold IgnoreNotFound. rewrite not_api_not_found by done. by rewrite Hm.
Qed.

(** Only the object and its status are read and written. *)
Definition status_only : Guard := λ _ e, in_fp [CStatus] e = true.

Lemma status_only_allows : allows status_only [CStatus].
Proof. by intros h e He _. Qed.

(** C37: a failed creation is final.  For a machine that is not being deleted and
    carries the finalizer: once [MachineCreating] is true but the machine is not
    ready (the creation failed, or the operator was stopped while it ran), a
    reconciliation of the machine only reads it and writes its status: it neither
    tries the creation again nor looks at the script. *)
Theorem failed_creation_final req s m w e :
  trace s = [] →
  serve (KGetMachine req) (world s) = (inl m, w) →
  deleting m = false → GetFinalizer ∈ Finalizers (Meta m) →
  IsConditionTrue (Conditions (Status m)) MachineConditionTypeMachineCreating = true →
  IsConditionTrue (Conditions (Status m)) MachineConditionTypeMachineReady = false →
  e ∈ trace (Reconcile req s).2 → in_fp [CStatus] e = true.
Proof.
  intros Hs Hg Hd Hf Hc Hr He. pose proof status_only_allows as HG.
  assert (wp status_only True (Reconcile req) (λ _ _, True) s) as Hwp.
  { apply safe_Reconcile; [allowed|]. intros m' w' Hg' _. assert (m' = m) as -> by congruence.
    rewrite Hd. unfold reconcile_normal, ensureFinalizer, reconcile_create, createMachine,
      isScriptFinished.
    apply wp_bind, wp_bind, wp_the_machine; [|done]. simpl. intros m1 [= <-].
    rewrite (proj2 (ContainsFinalizer_spec m GetFinalizer) Hf). apply wp_ret.
    apply wp_bind, wp_bind, wp_the_machine; [|done]. simpl. intros m1 [= <-].
    rewrite Hc. apply wp_ret. apply wp_bind, wp_bind, wp_the_machine; [|done]. simpl.
    intros m1 [= <-]. rewrite Hr. apply wp_ret.
    apply safe_bind; [apply safe_updateMachineStatus; [done|allowed]|]. intros. safe_run. }
  destruct (wp_elem _ _ _ _ _ _ Hwp Hs He) as [h Hh]. exact Hh.
Qed.
(** ** Success does not last *)

(** What [updateMachineStatus] writes for the machine [m] at the time [n]. *)
Definition committed (n : Z) (m : Machine) : Machine :=
  set_Phase (summarise n m) (GetPhase (summarise n m)).

Definition waiting_again (n : Z) (m : Machine) : Machine :=
  MarkFalse n m MachineConditionTypeClusterOperationComplete
    ReasonWaitingForScriptCompletion ConditionSeverityError "waiting for script completion".

Lemma waiting_failing f :
  failing_reason f = None →
  failing_reason (set_state f MachineConditionTypeClusterOperationComplete
    (false_state ReasonWaitingForScriptCompletion)) = Some ReasonWaitingForScriptCompletion.
Proof.
  unfold failing_reason, ConditionsOrder, set_state. simpl. intros Hf.
  repeat (match goal with
    | |- context [f ?t] => destruct (f t) as [[st r]|]; simpl in *
    | |- context [decide (?a = ConditionFalse)] => destruct (decide (a = ConditionFalse)); simpl in *
    end; try done).
Qed.

Lemma waiting_again_phase n n' (m : Machine) :
  cond_core (GetConditions m) → deleting m = false → failing_reason (states (GetConditions m)) = None →
  IsConditionTrue (GetConditions m) MachineConditionTypeMachineReady = true →
  GetPhase (summarise n' (waiting_again n m)) = MachinePhaseWaitingForScriptCompletion ∧
  IsConditionTrue (GetConditions (summarise n' (waiting_again n m)))
    MachineConditionTypeClusterOperationComplete = false.
Proof.
  intros Hc Hd Hf Hr. set (t := MachineConditionTypeClusterOperationComplete).
  assert (t ∈ known_types) as Ht by by_decide.
  assert (cond_core (GetConditions (waiting_again n m))) as Hc'
    by (apply cond_core_set; [done|exact Ht|apply FalseCondition_op]).
  assert (agree (states (GetConditions (waiting_again n m)))
    (set_state (states (GetConditions m)) t (false_state ReasonWaitingForScriptCompletion))) as Ha
    by (intros t' _; unfold waiting_again, MarkFalse; by rewrite states_Set by apply Hc).
  split.
  - rewrite summarise_phase_of; [|done|exact Hd|].
    + rewrite Ha. unfold phase_of. by rewrite waiting_failing.
    + rewrite Ha by done. unfold set_state. rewrite decide_False by done.
      rewrite IsConditionTrue_states in Hr by apply Hc. unfold is_true in Hr.
      by destruct (states _ _); [eexists|].
  - rewrite IsConditionTrue_states by (by apply cond_core_summarise). unfold is_true.
    rewrite (states_summarise n' _ Hc' t), (Ha t) by done. unfold set_state. by rewrite decide_True.
Qed.

(** The calls of a status update. *)
Lemma updateMachineStatus_run key s m :
  machineObj s = Some m →
  let '(r, w2) := serve (KGetMachine key) (world s) in
  let obj := committed (clock w2) m in
  ∃ upd s', updateMachineStatus key s = (Normal upd, s') ∧
    trace s' = trace s ++
      match r with
      | inr e => [Ev (KGetMachine key) (inr e)]
      | inl old =>
          Ev (KGetMachine key) (inl old) ::
          (if decide (GetStatus old = GetStatus obj) then []
           else [Ev (KStatusPatch old obj) (serve (KStatusPatch old obj) w2).1])
      end.
Proof.
  intros Hm. destruct (serve (KGetMachine key) (world s)) as [r w2] eqn:Hr. intros obj.
  unfold updateMachineStatus, tryE, mbind, M_bind, call. rewrite Hr.
  destruct r as [old|e]; [|by do 2 eexists].
  unfold now, the_machine, deref, put_machine. simpl. rewrite Hm. unfold committer. simpl.
  unfold obj, committed, summarise. case_decide.
  { by do 2 eexists. }
  unfold tryE, mbind, M_bind, call. simpl.
  destruct (serve (KStatusPatch _ _) w2) as [[m'|e] w3]; do 2 eexists; (split; [done|]); simpl;
    by rewrite <- app_assoc.
Qed.

Lemma script_waiting s m d out w1 e :
  machineObj s = Some m → Driver (Spec m) = Some d →
  (∀ c, c ∈ Conditions (Status m) → c_Type c ∈ known_types) →
  IsConditionTrue (Conditions (Status m)) MachineConditionTypeMachineReady = true →
  let scp := Exec None "docker-machine" (scp_args (lor_Name d) m) in
  serve scp (world s) = (out, w1) → ex_err out = Some e →
  isScriptFinished s =
    (Normal (inl true), mkSt w1 (Some (waiting_again (clock w1) m)) (trace s ++ [Ev scp out])).
Proof.
  intros Hm Hd Hk Hr scp Hx He. unfold isScriptFinished.
  unfold mbind at 1, M_bind at 1, the_machine at 1, deref at 1. rewrite Hm. simpl. rewrite Hr.
  rewrite !unknown_condition by (done || apply (bool_decide_unpack _); by vm_compute).
  simpl. unfold mbind at 1, M_bind at 1. rewrite (getScpArgs_run s m d Hm Hd).
  unfold mbind at 1, M_bind at 1, call at 1. fold scp. rewrite Hx, He.
  unfold mark_false, mbind, M_bind, now, the_machine, deref, put_machine. simpl. by rewrite Hm.
Qed.

(** C35: success does not last.  Take a machine in phase [Success] that is not
    being deleted, carries the finalizer and has a driver, with conditions of
    the operator's own, [MachineReady] true and none that counts failing.  Its
    reconciliation runs [docker-machine scp] again: [isScriptFinished] means to
    return early for a finished machine, but looks for conditions named after
    the phases, which do not exist.  If the command fails (the machine was
    restarted, say, and the result file is gone), the reconciliation reads the
    machine again and, unless that read fails or already shows it, writes a
    status with the phase [WaitingForScriptCompletion] in which
    [ClusterOperationComplete] is not true. *)
Theorem success_does_not_last req s m d w out w1 e :
  trace s = [] →
  serve (KGetMachine req) (world s) = (inl m, w) →
  Phase (Status m) = MachinePhaseSuccess → deleting m = false →
  GetFinalizer ∈ Finalizers (Meta m) → Driver (Spec m) = Some d →
  cond_core (GetConditions m) → failing_reason (states (GetConditions m)) = None →
  IsConditionTrue (GetConditions m) MachineConditionTypeMachineReady = true →
  let scp := Exec None "docker-machine" (scp_args (lor_Name d) m) in
  serve scp w = (out, w1) → ex_err out = Some e →
  ∃ obj,
    Phase (Status obj) = MachinePhaseWaitingForScriptCompletion ∧
    IsConditionTrue (GetConditions obj) MachineConditionTypeClusterOperationComplete = false ∧
    machine_key obj = machine_key m ∧
    trace (Reconcile req s).2 =
      [Ev (KGetMachine req) (inl m); Ev scp out] ++
      match serve (KGetMachine req) w1 with
      | (inr e, _) => [Ev (KGetMachine req) (inr e)]
      | (inl old, w2) =>
          Ev (KGetMachine req) (inl old) ::
          (if decide (GetStatus old = GetStatus obj) then []
           else [Ev (KStatusPatch old obj) (serve (KStatusPatch old obj) w2).1])
      end.
Proof.
  intros Hs Hg Hp Hd Hf Hdr Hc Hfail Hr scp Hx He.
  set (n' := clock (serve (KGetMachine req) w1).2).
  destruct (waiting_again_phase (clock w1) n' m Hc Hd Hfail Hr) as [Hph Hco].
  exists (committed n' (waiting_again (clock w1) m)). split_and!; [exact Hph|exact Hco| |].
  { unfold machine_key, committed, summarise, SetSummary. by destruct (summary _ _). }
  assert (IsConditionTrue (Conditions (Status m)) MachineConditionTypeMachineReady = true) as Hr' by done.
  assert (Reconcile req s = reconcile_normal req (Guarantees.loaded req m w s)) as ->.
  { unfold Reconcile, updateMachineReconcile, mbind, M_bind, call. rewrite Hg. simpl.
    rewrite Hp. simpl. unfold deleting in Hd. by rewrite Hd. }
  assert (reconcile_normal req (Guarantees.loaded req m w s) =
    reconcile_create req (Guarantees.loaded req m w s)) as ->.
  { unfold reconcile_normal, ensureFinalizer, mbind, M_bind. simpl.
    by rewrite (proj2 (ContainsFinalizer_spec m GetFinalizer) Hf). }
  assert (createMachine (Guarantees.loaded req m w s) = (Normal (inl tt), Guarantees.loaded req m w s)) as Hcm.
  { unfold createMachine, mbind, M_bind. simpl. by rewrite Hr', orb_true_r. }
  unfold reconcile_create, mbind, M_bind. rewrite Hcm.
  rewrite (script_waiting _ m d out w1 e) by (done || intros c Hc'; by apply Hc).
  set (s1 := mkSt w1 _ _).
  pose proof (updateMachineStatus_run req s1 (waiting_again (clock w1) m) eq_refl) as Hu.
  unfold n'. simpl in Hu. destruct (serve (KGetMachine req) w1) as [r w2].
  destruct Hu as (upd & s2 & -> & Ht). simpl. rewrite Ht. unfold s1. simpl. rewrite Hs.
  by destruct r.
Qed.

(** ** A VPC that was rolled back *)

(** EC2 does not know the VPC: an error, or a list without it. *)
Definition vpc_unknown (id : string) (r : Res (list (option Vpc))) : Prop :=
  match r with
  | inr _ => True
  | inl vpcs => Forall (λ p, ∃ v id', p = Some v ∧ vpc_VpcId v = Some id' ∧ id' ≠ id) vpcs
  end.

Lemma find_vpc_unknown id vpcs s :
  vpc_unknown id (inl vpcs) →
  find_vpc id vpcs s = (Normal (inr (errorString ("no vpc found with id " +:+ id))), s).
Proof.
  simpl. induction 1 as [|p vpcs (v & id' & -> & Hv & Hne) _ IH]; [done|].
  simpl. unfold mbind, M_bind, deref. simpl. rewrite Hv. simpl. by rewrite decide_False.
Qed.

(** The object is neither read nor written. *)
Definition objects_untouched : Guard := λ _ e, asked e = None.

Lemma untouched_allows : allows objects_untouched
  [CSecret; CExec; CFile; CSleep; CEc2Session; CEc2Read; CEc2Create; CEc2Delete; CEc2Vpc; CAzure].
Proof. intros h [X [] x] Hfp _; discriminate Hfp || done. Qed.

(** C38: a rolled-back VPC strands the machine.  Undoing the creation of a VPC
    ([deleteAwsVpc]) leaves the receiver as it is and neither reads nor writes
    the object, so the annotation with the id of the VPC stays.  And as long as
    a VPC is recorded but not the whole environment, and EC2 does not know that
    VPC (it answers an error, or a list without it), preparing the environment
    ends in an error after asking for the VPC: nothing is created, no other VPC
    is looked for, and the record stays, so that the next reconciliation is in
    the same situation. *)
Theorem vpc_rollback_strands s m c s1 r w :
  machineObj s = Some m → annotation m awsVPCIDAnnotation ≠ "" →
  ¬ (annotation m awsSubnetIDAnnotation ≠ "" ∧ annotation m awsInternetGatewayIDAnnotation ≠ "") →
  awsEC2Client s = (Normal (inl c), s1) →
  let describe := DescribeVpcs c [annotation m awsVPCIDAnnotation] in
  serve describe (world s1) = (r, w) → vpc_unknown (annotation m awsVPCIDAnnotation) r →
  (∃ e, createAWSEnvironment s = (Normal (inr e), mkSt w (Some m) (trace s1 ++ [Ev describe r]))) ∧
  ∀ c' id s2 x s3, deleteAwsVpc c' id s2 = (Normal x, s3) →
    machineObj s3 = machineObj s2 ∧
    ∃ l, trace s3 = trace s2 ++ l ∧ Forall (λ e, asked e = None) l.
Proof.
  intros Hm Ha Hn Hc describe Hr Hu. split.
  - assert (machineObj s1 = Some m) as Hm1.
    { rewrite <- Hm. assert (quiet (World:=World) unguarded True awsEC2Client) as Hq
        by by apply quiet_awsEC2Client. exact (wp_result _ _ _ _ _ _ _ (Hq s) Hc). }
    unfold createAWSEnvironment, mbind at 1, M_bind at 1, the_machine at 1. rewrite Hm. simpl.
    rewrite decide_False by tauto. unfold tryE, mbind, M_bind. rewrite Hc.
    unfold createAwsVpc, obtain_vpc, tryE, mbind, M_bind, the_machine. rewrite Hm1. simpl.
    rewrite decide_False by done. unfold getVPC, tryE, mbind, M_bind, call. simpl. fold describe.
    rewrite Hr. destruct r as [vpcs|e]; [|exists e; by rewrite Hm1].
    rewrite find_vpc_unknown by done. eexists. by rewrite Hm1.
  - intros c' id s2 x s3 Hx. pose proof untouched_allows as HG.
    assert (quiet (World:=World) objects_untouched True (deleteAwsVpc c' id)) as Hq
      by (apply quiet_deleteAwsVpc; [done|allowed]).
    destruct (Hq s2) as (l & Ht & Hg & Hm2). rewrite Hx in Ht, Hm2. simpl in *. split; [done|].
    exists l. split; [done|]. apply Forall_forall. intros e (l1 & l2 & ->)%list_elem_of_split.
    by apply (Hg l1 e l2).
Qed.

(** ** One docker machine for several objects *)

(** C39: machines of the same name share one docker machine.  The name given to
    [docker-machine] is the name of the object without its namespace.  When
    [docker-machine create] fails because a machine of the name exists, whoever
    created it, the machine is marked ready and its status is written as after
    a creation.  And [deleteDockerMachine] runs the same command with the same
    effect for every object of the name, in whatever namespace: deleting one
    removes the docker machine of the others. *)
Theorem same_name_shares_docker_machine s m args out w err :
  machineObj s = Some m →
  let create := Exec (Some machineCreationTimeout) "docker-machine" args in
  serve create (world s) = (out, w) → ex_err out = Some err →
  strings_Contains (ex_stderr out) "already exists" = true →
  run_creation args s =
    update_own_status (mkSt w
      (Some (MarkTrue (clock w)
               (MarkTrue (clock (world s)) m MachineConditionTypeMachineCreating)
               MachineConditionTypeMachineReady))
      (trace s ++ [Ev create out])) ∧
  ∀ m' w0 h, Name (Meta m') = Name (Meta m) →
    let del x := deleteDockerMachine (mkSt w0 (Some x) h) in
    (del m').1 = (del m).1 ∧ world (del m').2 = world (del m).2 ∧ trace (del m').2 = trace (del m).2.
Proof.
  intros Hm create Hx He Hc. split.
  - unfold run_creation, mark_true, mbind, M_bind, now, the_machine, deref, put_machine, call. simpl.
    rewrite Hm. simpl. fold create. rewrite Hx, He, Hc. done.
  - intros m' w0 h Hn del. unfold del, deleteDockerMachine, mbind, M_bind, call. simpl.
    rewrite Hn. destruct (serve _ w0) as [r w']. by destruct (ex_err r).
Qed.

(** ** A machine without a driver *)

(** A call about a machine was answered with a machine that has no driver. *)
Definition driverless_answer (e : Event) : bool :=
  match asked e with
  | None => true
  | Some _ => match answered e with
              | Some m => bool_decide (Driver (Spec m) = None)
              | None => false
              end
  end.

Definition driverless (h : list Event) : Prop := Forall (λ e, driverless_answer e = true) h.

(** The receiver has no driver, as long as no answer had one. *)
Definition holds_driverless s : Prop :=
  driverless (trace s) → ∃ m, machineObj s = Some m ∧ Driver (Spec m) = None.

Lemma driverless_setInitialConditions s :
  holds_driverless s →
  wp unguarded True setInitialConditions
    (λ r s', match r with inl _ => holds_driverless s' | inr _ => ¬ driverless (trace s') end) s.
Proof.
  unfold holds_driverless. intros Hs.
  unfold setInitialConditions, mark_false, update_own_status, updateMachineStatus, committer.
  do 2 (apply wp_bind, wp_bind, wp_now; intros ? _; apply wp_bind, wp_the_machine; [|done];
        intros ? ?; apply wp_put_machine; simpl in * ).
  simplify_eq/=. apply wp_bind, wp_the_machine; [|done]. simpl. intros m2 Hm2.
  apply wp_tryE, wp_call. intros r w _. split; [done|]. destruct r as [old|e]; simpl.
  2: { intros Hd. apply Forall_app in Hd as [_ Hd]. by inversion Hd. }
  apply wp_bind, wp_now. intros n3 _. apply wp_bind, wp_the_machine; [|done]. simpl. intros m3 Hm3.
  apply wp_bind, wp_put_machine. simpl. case_decide.
  - apply wp_ret. simpl. intros [Hd _]%Forall_app. destruct (Hs Hd) as (m0 & Hm0 & Hdr). simplify_eq.
    eexists. split; [done|]. simpl. unfold SetSummary. by destruct (summary _ _).
  - apply wp_tryE, wp_call. intros x w' _. split; [done|]. destruct x as [m4|e]; simpl.
    + apply wp_bind, wp_put_machine, wp_ret. simpl. intros [_ Hd]%Forall_app. exists m4. split; [done|].
      inversion Hd as [|? ? Hb _]. by apply bool_decide_eq_true in Hb.
    + intros [_ Hd]%Forall_app. by inversion Hd.
Qed.

Lemma driverless_extends {A} (k : M World A) s :
  safe unguarded True k → ¬ driverless (trace s) →
  wp unguarded True k (λ _ s', ¬ driverless (trace s')) s.
Proof.
  intros Hk Hs. eapply wp_mono; [apply wp_extend, Hk|]. intros a s' [_ [l Hl]] Hd. apply Hs.
  rewrite Hl in Hd. by apply Forall_app in Hd as [? _].
Qed.

(** C40: a machine without a driver makes the reconciliation panic.  The schema
    of the resource does not require [spec], and so admits a machine without a
    driver.  When such a machine that is not being deleted, carries the
    finalizer and was not created yet is reconciled, and every call about it is
    answered with success and without a driver, the reconciliation panics:
    [createPrerequisitesForMachine] reads the name of the driver through a nil
    pointer. *)
Theorem machine_without_driver_panics req s m w :
  trace s = [] →
  serve (KGetMachine req) (world s) = (inl m, w) →
  Phase (Status m) ≠ "" → deleting m = false → GetFinalizer ∈ Finalizers (Meta m) →
  creation_started m = false →
  driverless (trace (Reconcile req s).2) →
  ∃ msg, (Reconcile req s).1 = Panic msg.
Proof.
  intros Hs Hg Hp Hd Hf Hc Hbare.
  assert (wp unguarded True (Reconcile req) (λ _ s', ¬ driverless (trace s')) s) as (l & _ & _ & Hwp).
  2: { destruct (Reconcile req s) as [[r|msg] s']; [by destruct (Hwp Hbare)|by exists msg]. }
  eapply wp_Reconcile_loaded; [done|done|]. rewrite decide_False by done. rewrite Hd.
  unfold reconcile_normal, ensureFinalizer, reconcile_create, createMachine.
  apply wp_bind, wp_bind, wp_the_machine; [|done]. simpl. intros m1 [= <-].
  rewrite (proj2 (ContainsFinalizer_spec m GetFinalizer) Hf). apply wp_ret.
  apply wp_bind, wp_bind, wp_the_machine; [|done]. simpl. intros m1 [= <-].
  unfold creation_started in Hc. rewrite Hc. apply wp_tryE.
  eapply wp_mono; [apply driverless_setInitialConditions|].
  { intros Hb. exists m. split; [done|]. simpl in Hb. apply Forall_app in Hb as [_ Hb].
    inversion Hb as [|? ? Hx _]. by apply bool_decide_eq_true in Hx. }
  assert (∀ fp, allows unguarded fp) as HG by done.
  intros [[]|e] s1 Hs1; [|by apply driverless_extends; [apply safe_requeueWithError|]].
  destruct (decide (driverless (trace s1))) as [Hb|Hb].
  - destruct (Hs1 Hb) as (m1 & Hm1 & Hdr). apply wp_tryE. unfold createPrerequisitesForMachine, driverName.
    apply wp_bind, wp_bind, wp_the_machine; [|done]. intros m2 Hm2. simplify_eq. rewrite Hdr.
    by apply wp_bind, wp_panic.
  - eapply wp_mono; [apply driverless_extends; [|exact Hb]|].
    { apply safe_try; [by apply safe_createPrerequisitesForMachine|]. intros _.
      apply safe_try; [by eapply yields_mono; [apply yields_getMachineCreationArgs|]|].
      intros args. by apply safe_run_creation. }
    intros [[]|e] s2 Hs2; apply driverless_extends; [|done|by apply safe_requeueWithError|done].
    apply safe_bind; [by apply safe_isScriptFinished|]. intros [b|e]; [|by apply safe_requeueWithError].
    apply safe_bind; [by apply safe_updateMachineStatus|]. intros. safe_run.
Qed.
End Defects.

(** ** The hypotheses at work *)

(** The same environment with an API server that answers no reads. *)
Record Down := { down_sim : Sim }.

Definition server_error : error := StatusError "InternalError" 500 "internal error".

Definition down_serve {X} (c : Call X) (w : Down) : X * Down :=
  match c in Call X return X * Down with
  | KGetMachine _ => (inr server_error, w)
  | c => let '(x, w') := sim_serve c (down_sim w) in (x, {| down_sim := w' |})
  end.

#[export] Instance Down_Services : Services Down := {|
  serve X c w := down_serve c w;
  clock w := sim_clock (down_sim w);
  range_order _ m := map_to_list m;
  range_order_perm _ _ := Permutation_refl _
|}.

Lemma first_read_failure_panics_witness :
  (Reconcile demo_key (mkSt {| down_sim := gcp_start |} None [])).1 =
    Panic "nil pointer dereference".
Proof.
  apply (first_read_failure_panics demo_key (mkSt {| down_sim := gcp_start |} None [])
    server_error {| down_sim := gcp_start |}); reflexivity.
Defined.

(** A machine in phase [Success]. *)
Definition done_start : St Sim := reconcile_n 1 (script_done "0" waiting_start).

Lemma finished_script_checked_again_witness :
  demo_phase done_start = Some MachinePhaseSuccess ∧
  ∃ args out l, trace (isScriptFinished done_start).2 =
    Ev (Exec None "docker-machine" ("scp" :: args)) out :: l.
Proof.
  split; [by_eval|].
  assert (∃ m, machineObj done_start = Some m ∧
    Driver (Spec m) = Some {| lor_Name := GoogleDriver |} ∧
    forallb (λ c, bool_decide (c_Type c ∈ known_types)) (Conditions (Status m)) = true ∧
    IsConditionTrue (Conditions (Status m)) MachineConditionTypeMachineReady = true)
    as (m & Hm & Hd & Hk & Hr) by (eexists; do 3 (split; [by_eval|]); by_eval).
  destruct (finished_script_checked_again done_start m {| lor_Name := GoogleDriver |} Hm Hd)
    as (out & l & H); [|exact Hr|].
  - intros c Hc. rewrite forallb_forall in Hk. apply list_elem_of_In, Hk in Hc.
    by apply bool_decide_eq_true in Hc.
  - exists [scp_source (getDefaultUser GoogleDriver) (Name (Meta m)); "/tmp"], out, l. exact H.
Defined.

Lemma delete_files_wrong_path_witness :
  (deleteFiles waiting_start).1 = Normal (inl tt).
Proof.
  assert (∃ m x w1 y, machineObj waiting_start = Some m ∧
    serve (OsRemove ("/tmp/" +:+ Namespace (Meta m) +:+ "-" +:+ Name (Meta m) +:+ "-startup.sh"))
      (world waiting_start) = (inl x, w1) ∧
    serve (OsRemove "tmpresult.txt") w1 = (inr y, w1) ∧ os_IsExist y = false)
    as (m & x & w1 & y & Hm & Hx & Hy & He)
    by (do 4 eexists; do 3 (split; [by_eval|]); by_eval).
  destruct (delete_files_wrong_path waiting_start m (inl x) w1 (inr y) w1 Hm Hx Hy) as [H _];
    [done|by intros e [= <-]|]. rewrite H. reflexivity.
Defined.

(** A machine that is deleted before it was created. *)
Lemma rm_failure_returned_witness :
  (deleteDockerMachine creation_start).1 = Normal (inr (exit_status 1)).
Proof.
  assert (∃ m r, machineObj creation_start = Some m ∧
    serve (Exec None "docker-machine" ["rm"; Name (Meta m); "-y"]) (world creation_start) =
      (r, world creation_start) ∧ ex_err r = Some (exit_status 1)) as (m & r & Hm & Hr & He)
    by (do 2 eexists; do 2 (split; [by_eval|]); by_eval).
  rewrite (rm_failure_returned creation_start m r _ (exit_status 1) Hm Hr He) by reflexivity.
  reflexivity.
Defined.

(** A machine whose creation failed. *)
Definition failed_machine : Machine := {|
  TypeMetaOf := TypeMetaOf gcp_machine;
  Meta := set_Finalizers (Meta gcp_machine) [GetFinalizer];
  Spec := Spec gcp_machine;
  Status := {|
    Conditions :=
      [cond ReadyCondition ConditionFalse ConditionSeverityError ReasonMachineCreationFailed;
       cond MachineConditionTypeClusterOperationComplete ConditionFalse ConditionSeverityError
         ReasonWaitingForScriptRun;
       cond MachineConditionTypeMachineCreating ConditionTrue "" "";
       cond MachineConditionTypeMachineReady ConditionFalse ConditionSeverityError
         ReasonMachineCreationFailed];
    Phase := MachinePhaseFailed |} |}.

Definition failed_start : St Sim := fresh (sim_start failed_machine []).

Lemma failed_creation_final_witness :
  Forall (λ e, in_fp [CStatus] e = true) (trace (Reconcile demo_key failed_start).2).
Proof.
  apply Forall_forall. intros e He.
  eapply (failed_creation_final demo_key failed_start);
    [reflexivity|by_eval|by_eval|by_decide|by_eval|by_eval|exact He].
Defined.

(** Two machines whose namespace and name join to the same text. *)
Definition named (ns name secret : string) : Machine := {|
  TypeMetaOf := TypeMetaOf gcp_machine;
  Meta := {| Name := name; Namespace := ns; ResourceVersion := "1"; Generation := 1;
             DeletionTimestamp := None; Finalizers := []; Annotations := None |};
  Spec := {| Driver := Some {| lor_Name := GoogleDriver |};
             ScriptRef := Some {| ref_Namespace := ns; ref_Name := secret |};
             AuthSecret := Some {| ref_Namespace := ns; ref_Name := "cred" |};
             Parameters := ∅ |};
  Status := empty_status |}.

Definition two_scripts : Sim := {|
  sim_machines := ∅;
  sim_secrets := <[("a-b", "s1") := {| Data := {["userdata" := "echo one"]} |}]>
                 {[("a", "s2") := {| Data := {["userdata" := "echo two"]} |}]};
  sim_files := ∅; sim_docker := []; sim_result := None; sim_vpcs := []; sim_next := 1;
  sim_gateways_fail := false; sim_clock := 1000 |}.

(** Machines can get each other's script.  The path of a start-up script
    joins namespace and name with a dash, so the machine [c] in the namespace
    [a-b] and the machine [b-c] in the namespace [a] share a path; and a script
    file that exists is not written again.  After the arguments of both were
    computed, the file handed to the second machine is the script of the
    first. *)
Lemma script_path_collision :
  let s1 := (getStartupScriptArgs (mkSt two_scripts (Some (named "a-b" "c" "s1")) [])).2 in
  let r2 := getStartupScriptArgs (mkSt (world s1) (Some (named "a" "b-c" "s2")) []) in
  machine_key (named "a-b" "c" "s1") ≠ machine_key (named "a" "b-c" "s2") ∧
  r2.1 = Normal (inl ["--userdata"; "/tmp/a-b-c-startup.sh"]) ∧
  sim_files (world r2.2) !! "/tmp/a-b-c-startup.sh" = Some "echo one".
Proof. split; [done|]. split; by_eval. Qed.

(** The machine was restarted: the script's result is gone. *)
Definition rebooted : St Sim :=
  mkSt (mkSim (sim_machines (world done_start)) (sim_secrets (world done_start))
      (sim_files (world done_start)) (sim_docker (world done_start)) None
      (sim_vpcs (world done_start)) (sim_next (world done_start)) false
      (sim_clock (world done_start))) (machineObj done_start) [].

Definition done_machine : Machine :=
  default gcp_machine (sim_machines (world rebooted) !! key_pair demo_key).

Definition rebooted_scp : ExecResult * Sim :=
  serve (Exec None "docker-machine" (scp_args GoogleDriver done_machine)) (world rebooted).

Lemma success_does_not_last_witness :
  demo_phase rebooted = Some MachinePhaseSuccess ∧
  ∃ obj,
    Phase (Status obj) = MachinePhaseWaitingForScriptCompletion ∧
    IsConditionTrue (GetConditions obj) MachineConditionTypeClusterOperationComplete = false.
Proof.
  split; [by_eval|].
  destruct (success_does_not_last demo_key rebooted done_machine {| lor_Name := GoogleDriver |}
    (world rebooted) rebooted_scp.1 rebooted_scp.2 (exit_status 1))
    as (obj & H1 & H2 & _);
    [reflexivity|by_eval|by_eval|by_eval|by_decide|by_eval| |by_eval|by_eval
    |apply surjective_pairing|by_eval|by exists obj].
  split; [split; [by_decide|unfold not_less; by_decide]|].
  apply Forall_forall. unfold op_condition. by_decide.
Defined.

(** A VPC is recorded that EC2 does not know. *)
Definition stranded_machine : Machine :=
  set_Meta aws_machine {|
    Name := "rancher-vm"; Namespace := "demo"; ResourceVersion := "2"; Generation := 1;
    DeletionTimestamp := None; Finalizers := [GetFinalizer];
    Annotations := Some {[awsVPCIDAnnotation := "vpc-9"]} |}.

Lemma vpc_rollback_strands_witness :
  ∃ e, (createAWSEnvironment (mkSt aws_start (Some stranded_machine) [])).1 = Normal (inr e) ∧
    machineObj (createAWSEnvironment (mkSt aws_start (Some stranded_machine) [])).2 = Some stranded_machine.
Proof.
  destruct (awsEC2Client (mkSt aws_start (Some stranded_machine) [])) as [[[c|e]|msg] s1] eqn:Hc;
    [|vm_compute in Hc; discriminate Hc..].
  vm_compute in Hc. injection Hc as <- <-.
  edestruct (vpc_rollback_strands (mkSt aws_start (Some stranded_machine) []) stranded_machine)
    as [[e He] _]; [reflexivity|by_decide| |vm_compute; reflexivity|vm_compute; reflexivity|exact I|].
  - intros [Hn _]. by apply Hn.
  - exists e. by rewrite He.
Defined.

(** A docker machine of the name exists already. *)
Lemma same_name_shares_docker_machine_witness :
  let s := mkSt (with_docker gcp_start ["rancher-vm"]) (Some gcp_machine) [] in
  (run_creation ["create"; "--driver"; "google"; "rancher-vm"] s).1 = Normal (inl tt) ∧
  (deleteDockerMachine (mkSt (world s) (Some (named "prod" "rancher-vm" "s")) [])).1 =
  (deleteDockerMachine s).1.
Proof.
  intros s.
  edestruct (same_name_shares_docker_machine s gcp_machine
    ["create"; "--driver"; "google"; "rancher-vm"]) as [Hrun Hdel];
    [reflexivity|vm_compute; reflexivity|reflexivity|by_eval|].
  rewrite Hrun. split; [by_eval|].
  exact (proj1 (Hdel (named "prod" "rancher-vm" "s") (world s) [] eq_refl)).
Defined.

(** A machine without [spec]. *)
Definition specless_machine : Machine := {|
  TypeMetaOf := TypeMetaOf gcp_machine;
  Meta := set_Finalizers (Meta gcp_machine) [GetFinalizer];
  Spec := {| Driver := None; ScriptRef := None; AuthSecret := None; Parameters := ∅ |};
  Status := {| Conditions := []; Phase := MachinePhaseInProgress |} |}.

Lemma machine_without_driver_panics_witness :
  ∃ msg, (Reconcile demo_key (fresh (sim_start specless_machine []))).1 = Panic msg.
Proof.
  eapply (machine_without_driver_panics demo_key (fresh (sim_start specless_machine [])));
    [reflexivity|by_eval|by_decide|by_eval|by_decide|by_eval|unfold driverless; by_decide].
Defined.
